(* ===== verification/_CoqProject ===== *)
-Q . S2P
Prelude.v
GoStd.v
Text.v
Names.v
Nft.v
Netip.v
Api.v
PodInfo.v
Cri.v
Elements.v
Conn.v
RefKernel.v
NfTables.v
State.v
Legacy.v
Rules.v
Cleanup.v
Server.v
Events.v
Reconciler.v
Daemon.v
Options.v
Health.v
Main.v
VM.v
Fresh.v
Semantics.v
Verdict.v
Meaning.v
Crd.v
Typing.v
Settled.v
Lockstep.v
Idle.v
Written.v
Placement.v
Common.v
Repair.v
Converge.v
Twice.v
Enforce.v
RefVM.v
Demo.v
DemoNode.v
History.v
NfTest.v
Witnesses.v
WitnessesNode.v
