(* ===== verification/Prelude.v ===== *)
(** * multi-networkpolicy-nftables: a verification library

    The program is a daemon that runs on every node of a Kubernetes cluster.
    It watches the cluster's MultiNetworkPolicy objects and keeps, inside the
    network namespace of each pod of its node that has secondary network
    interfaces, nftables rules that let through the traffic the policies allow
    and drop the rest. The library models it from the command line options to
    the netlink messages, and says what the messages do to packets.

    ** The parts and how they interact

    [Main.run] validates the [Options], starts the [Health] endpoints and the
    controller-runtime manager, and ends with the shutdown cleanup. The manager
    turns [Events] into requests for the node. A request runs
    [Reconciler.Reconcile]: it lists policies and pods, gets the [PodInfo] of
    each pod (through the [Cri] connection to the container runtime), enters
    the pod's namespace and runs [Server.ApplyPolicyRulesForPodAndFamily]. That
    function selects the policies, and calls the [Rules] generators on an
    [nftState] ([State]), which read the kernel and buffer messages through
    the connection ([Conn]); [Legacy] and [Cleanup] delete what is stale.

    ** Files

    - [Prelude]: results with errors, panics as errors ([ErrPanic]), the state
      and error monad [ST], loops over lists ([foldM], [forM], [foldR],
      [runAll]), their lemmas, the hint database [gost], tactics.
    - [GoStd], [Text], [Netip]: what the source uses of Go's standard library
      (strings, UTF-8, strconv, FNV, binary encodings, sorting; TrimSpace, Cut,
      ToLower; net and net/netip, go4.org/netipx).
    - [Names]: pkg/server/doc.go and sanitizeNftName, truncateNftName,
      nftNameWithSuffix of pkg/server/netfilterrules.go.
    - [Nft]: the data of google/nftables (tables, chains, rules, expressions,
      sets, user data), ruleEqual and the rule key of pkg/server/encoder.go.
    - [Api]: the types of the policy API and of pkg/controllers that the
      generators read.
    - [PodInfo]: pkg/controllers/netns.go, pod.go, pkg/utils/node.go and the
      annotation readers of the network-attachment-definition client.
    - [Cri]: GetCriRuntimeClientWithContext (pkg/controllers/pod.go) and the
      cached connection of NodeReconciler (pkg/controller/reconciler.go).
    - [Elements]: validatePortSpec, convertPrefixToSet,
      getPrefixesAsSetInterval, processElements and findNonCommon.
    - [Conn]: the connection of google/nftables: reads, buffered writes,
      transaction ids, Flush. [RefKernel] says what messages make of a ruleset
      and is a concrete kernel; [NfTables] states what the properties of whole
      syncs ask of any kernel, in terms of such a ruleset.
    - [State]: nftState with addTable, addChain, findRule, updateRule and
      updateSet.
    - [Legacy]: CleanupLegacyTables. [Rules]: bootstrapNetfilterRules and every
      apply* and allow* generator. [Cleanup]: cleanup, cleanupRules and
      cleanupChains.
    - [Server]: policy selection, CompareInternalPolicy and
      ApplyPolicyRulesForPodAndFamily of pkg/server/server.go.
    - [Events]: pkg/controller/predicates.go, mappers.go, indexes.go and
      SetupWithManager.
    - [Reconciler]: Reconcile, GetPodInfo and the other methods of
      NodeReconciler, applyRulesForPod and flushRulesForPod
      (applier_linux.go), cleanupAllPods (cleanup_linux.go), and their stubs
      for other systems (applier_other.go, cleanup_other.go). [Daemon] holds
      its properties.
    - [Options]: pkg/server/options.go. [Health]: the readiness flags of
      server.go, healthserver.go, and healthSyncRunnable with the shutdown
      watcher of cmd/multi-networkpolicy-nftables/main.go, as interleaved
      atomic steps. [Main]: main, run and startManagerAndCleanup of main.go,
      and SetupScheme of pkg/controller/scheme.go.
    - [VM], [Fresh], [Semantics], [Verdict], [Meaning], [Crd]: what generated rules do
      to packets. [VM] states the documented behaviour of the kernel's
      evaluator for the expressions in use, [Fresh] what a run in an empty
      namespace sends, [Semantics] the verdicts of a policy's chains, [Verdict]
      those of the entry chain of a direction, [Meaning] how they read the API
      objects, and [Crd] the NetworkPolicy semantics of the custom resource
      definition with the two deviations of the code from it. [Typing] checks the types
      of rules and set elements as nf_tables does. [RefVM] is a concrete
      evaluator.
    - [Settled], [Lockstep], [Idle], [Repair], [Converge]: what a sync does to
      a namespace that already holds objects of the daemon. [Settled] says when
      its tables hold exactly what a list of messages asks for, and decides it.
      [Lockstep] compares two runs of the generators, one in an empty
      namespace, which writes that list, and one in the other namespace, with
      iteration orders that may differ; it is proved once, against the record
      [RunRel] of what a comparison must relate and the laws that its
      primitive operations obey. [Idle] instantiates it for a settled
      namespace, where the second run sends nothing; [Repair] for a namespace
      that holds a part of what is wanted, where the second run sends what is
      missing. [Converge] adds the flush and the cleanup, any batch of which the
      kernel may refuse, and chains several syncs.
    - [Written], [Placement], [Common], [Twice], [Enforce]: what a namespace
      holds after its first two syncs and what its kernel then does to packets.
      [Written] computes the rules of every chain, in their order, and the
      elements of every set from the messages of a fresh sync, and instantiates
      [Lockstep] for a kernel that shows an empty namespace; [Placement] is a
      small logic ([writes], [runs]) that says to which chains each generator
      writes; [Common] shows what the common rules of a configuration accept;
      [Twice] gives the chains after the first and the second successful sync;
      [Enforce] reads the filter table back from the kernel ([rulesetOf]) and
      shows the verdicts of its base chains.
    - [History]: three examples of installed policies that change, run on
      [RefKernel], with an evaluator of the installed rulesets that every
      [NftVM] agrees with.
    - [NfTest]: pkg/nftest: the recording connection, the comparison of netlink
      messages with its dumps (nftest.go), the connection in a namespace of its
      own (system_conn.go), with the netlink encoder and the namespace library
      they call.
    - [Demo], [DemoNode]: concrete instances of every interface and small
      clusters. [Witnesses], [WitnessesNode]: the properties applied to them.

    ** State and operations

    Go functions that return an error are functions to [result]; those that
    change state are in [ST S], a function from a state to a result and the new
    state, which keeps the changes made before an error. The states are
    [Conn K] (the connection, with the kernel behind it, the buffered messages,
    the batches sent and the last transaction id), [nftState K] (the remembered
    rules, sets and chains), [World K] (the runtime connection, the kernel of
    every namespace and a log of the batches sent to each) and [Proc] (the
    world and what the process did). A panic is the error value [ErrPanic]: it
    passes through every wrapper, and the code that continues after an error
    does not continue after a panic. Deferred calls run on every path. Machine
    integers are [Z] with the wrap-around written out where the source computes
    with them; Go strings are lists of bytes.

    Goroutines that share state appear in two places. The runtime connection is
    held under a mutex for whole calls, so its runs are sequences of calls. The
    readiness flags are atomics: [Health.step] and [Health.life_step] interleave
    single loads, stores and channel operations.

    ** What the theorems show

    - Meaning: after two successful syncs of an empty namespace the base chains
      of the filter table, as the kernel holds it, accept what the common rules
      of the configuration allow, leave packets of other interfaces alone, and
      decide the other packets of the pod's interfaces as the policies that
      select the pod say; and so do the chains generated for well-formed
      policies in any ruleset. What they say is stated twice: exactly, as the
      first policy, rule and peer that matches or excludes the packet, and
      against the NetworkPolicy semantics of the CRD, from which the code
      deviates for addresses in [except] entries (dropped though another rule
      admits them) and for the pod's own addresses and pods of other namespaces
      (let in by a peer without a namespace selector).
    - Confinement: a sync, a whole life of the reconciler and the whole process
      write only to the daemon's two tables, delete only its own leftovers
      elsewhere, and only in namespaces of pods that the API server lists for
      its node, that run and do not use the host's network.
    - Rest: in a namespace that holds what a fresh sync writes a sync sends
      nothing, however maps are iterated; from any part of it, an empty
      namespace included, two successful syncs reach that state, whatever the
      kernel refused before, and one restores lost rules; the first sync of an
      empty namespace lacks the rules that look up a set until the second.
    - Types: every message of a sync passes the type checks of nf_tables.
    - Exactness: updateRule, updateSet, the three cleanups and the removal of
      all rules send exactly the stated messages; the element lists denote
      exactly the prefixes and port ranges; the difference of two element lists
      reconciles them (and where it does not, a counterexample).
    - The node: every pod is synced whatever happens to the others; the pod
      information lists exactly the interfaces of configured plugins; the
      predicates drop no change the sync would see; which changes of remote
      pods go unnoticed.
    - The process: options are accepted exactly when valid; readiness is never
      reported early or during shutdown; Stop terminates, by steps of the
      program alone; the runtime
      connection never leaks; what is acquired is released on every path; when
      the shutdown cleanup runs and which errors it reports.
    - Names, keys and comments: bounds, round trip, equal rules have equal keys.
    - The test helpers: when a comparison reports nothing, that its dumps flag
      every difference, what a test connection holds when it is opened or given
      up.

    ** Bounds and fuel

    Recursion over Go's UTF-8 strings and over user data takes the length of
    the bytes as fuel; each step consumes at least one byte ([runes],
    [chunks], [Get]; [chunks_fuel_concat] and [runes_fuel_length] use it). The
    IPv6 parser takes eight steps, one per group of an address. Everything else
    is structural, but for the evaluator of installed rulesets in [History],
    whose fuel bounds the jumps and which is sound for every answer it gives.
    Theorems about loops of the program state the result on
    every input, not only when a result is returned.

    ** Interfaces

    What is not code of the repository is a class with the laws the theorems
    need, each instantiated in Demo.v, DemoNode.v, RefKernel.v, RefVM.v or
    NfTest.v:
    [Kernel], [LawfulKernel] and [NfTables] (the answers of nf_tables),
    [NftVM] (its packet evaluator), [Gob] (encoding/gob), [Arch] (byte order),
    [LabelApi] (label selectors), [MapOrder] and [PolicyOrder] (iteration order
    of Go maps), [Sorting] (slices.SortFunc, of which only sortedness is
    documented), [Json], [FloatConv], [Unicode], [ContainerRuntime] and [Grpc]
    (the runtime's answers and connections), [Cluster] (the API server),
    [Netns] (opening a namespace), [Hostname], [MainEnv] (controller-runtime)
    and [TestConn] (the connection a tested ruleset is written to).
    Between parts of the library, [RunRel] is the interface of the comparison
    of two runs, with the instances [idleRel], [mirrorRel] and [repairRel].
    The answers of the API server, the runtime and the file system are the same
    throughout one reconcile; kernels of distinct namespaces are independent.

    ** Not modelled

    Logging has no effect the program reads. Error values keep the fixed text
    of their format, and the object it names where the errors of several are
    joined. Parsing the command line is pflag's and delivering requests is
    controller-runtime's work. The deadlines of contexts appear only as the
    errors they lead to. Concurrent changes of a namespace by others during a
    sync are allowed by [Kernel], whose answers may change between reads; the
    exactness theorems ask for a [quiet] kernel.

    ** Open questions

    Four things are not settled in general. Convergence fixes the set of the
    rules of a namespace and not their order; [Enforce] settles the order, and
    with it the verdicts, for a namespace that was empty at first, and
    [History] shows by examples what other histories can do. The properties of
    whole syncs ask for a kernel with the laws of [NfTables]: nobody else
    writes to the namespace during a sync, no packet is counted, and a batch is
    carried out as its messages say or refused as a whole; which batches are
    refused, the order of listings and the handles given out are left open.
    Other users are covered by the theorems on confinement. Convergence also
    leaves out namespaces with an inet table called filter or nat, the shared
    tables of older versions. The agreement of a lookup's width with the
    key type of the set it names is checked for each by itself ([Typing]), not
    across messages. *)

From Stdlib Require Import Ascii.
From Stdlib Require String.
From Stdlib Require Export ZArith Lia.
From stdpp Require Export base tactics option strings gmap sorting list.
#[global] Set Warnings "-register-all,-clear-no-such-hyp".

#[global] Set Default Goal Selector "!".
#[global] Open Scope string_scope.
#[global] Open Scope Z_scope.
#[global] Open Scope list_scope.

(** ** Go strings and byte slices

    A Go string is an immutable sequence of bytes and a [[]byte] a mutable
    one; both are [list Z] here, one element per byte. *)

Abbreviation bytes := (list Z).
Abbreviation gostring := (list Z).

(** A string literal of the source as its bytes. *)
Definition str (s : string) : gostring :=
  (λ c, Z.of_N (N_of_ascii c)) <$> String.list_ascii_of_string s.
Coercion str : string >-> list.
Arguments str : simpl never.

Definition is_byte (b : Z) : Prop := 0 ≤ b < 256.

#[export] Instance is_byte_dec b : Decision (is_byte b) := _.

(** ** Errors

    The errors the code inspects with [errors.Is] are constructors of their
    own; every other error is its message. [ErrWrap] is [fmt.Errorf] with
    [%w], [ErrJoin] is [errors.Join]. [ErrPanic] is no error of the program:
    it is the unwinding of a run-time panic, which leaves every function it
    passes as a returned error would, and which code that inspects errors must
    let through. *)

Inductive error :=
  | ErrNotExist
  | ErrExist
  | ErrOther (msg : gostring)
  | ErrWrap (ctx : gostring) (e : error)
  | ErrJoin (es : list error)
  | ErrPanic (msg : gostring).

(** [errors.Is(e, os.ErrNotExist)]: true of the error itself, of what it
    wraps and of what it joins. *)
Fixpoint isNotExist (e : error) : bool :=
  match e with
  | ErrNotExist => true
  | ErrWrap _ e => isNotExist e
  | ErrJoin es => existsb isNotExist es
  | _ => false
  end.

(** [errors.Is(e, os.ErrExist)]. *)
Fixpoint isExist (e : error) : bool :=
  match e with
  | ErrExist => true
  | ErrWrap _ e => isExist e
  | ErrJoin es => existsb isExist es
  | _ => false
  end.

(** A panic on its way up, whatever returned errors it is wrapped in. *)
Fixpoint isPanic (e : error) : bool :=
  match e with
  | ErrPanic _ => true
  | ErrWrap _ e => isPanic e
  | _ => false
  end.

(** The result of a Go call that returns a value and an error. *)
Inductive result (A : Type) :=
  | Ok (a : A)
  | Err (e : error).
Arguments Ok {_} _.
Arguments Err {_} _.

Definition is_ok {A} (r : result A) : bool :=
  match r with Ok _ => true | Err _ => false end.

#[export] Instance result_ret : MRet result := λ A, Ok.
#[export] Instance result_bind : MBind result := λ A B f r,
  match r with Ok a => f a | Err e => Err e end.

(** [if err != nil { return fmt.Errorf("ctx: %w", err) }] *)
Definition wrap {A} (ctx : gostring) (r : result A) : result A :=
  match r with Ok a => Ok a | Err e => Err (ErrWrap ctx e) end.

(** ** The state-and-error monad

    A method that mutates its receiver and may fail. A failing call keeps
    the mutations made before the failure, as Go does. *)

Definition ST (S A : Type) : Type := S → result A * S.

#[export] Instance ST_ret S : MRet (ST S) := λ A a s, (Ok a, s).
#[export] Instance ST_bind S : MBind (ST S) := λ A B f m s,
  match m s with
  | (Ok a, s') => f a s'
  | (Err e, s') => (Err e, s')
  end.

Definition throw {S A} (e : error) : ST S A := λ s, (Err e, s).
Definition get {S} : ST S S := λ s, (Ok s, s).
Definition modify {S} (f : S → S) : ST S unit := λ s, (Ok tt, f s).
(** The call with its error returned as a value, for code that inspects it. *)
Definition try {S A} (m : ST S A) : ST S (result A) := λ s,
  let '(r, s') := m s in (Ok r, s').
Definition wrapST {S A} (ctx : gostring) (m : ST S A) : ST S A := λ s,
  let '(r, s') := m s in (wrap ctx r, s').
Definition lift_result {S A} (r : result A) : ST S A := λ s, (r, s).

(** Run a call on a component of the state. *)
Definition zoom {S T A} (prj : S → T) (upd : T → S → S) (m : ST T A) : ST S A := λ s,
  let '(r, t) := m (prj s) in (r, upd t s).

(** [for _, x := range l { if err := f(x); err != nil { return err } }] *)
Fixpoint forM {S A} (l : list A) (f : A → ST S unit) : ST S unit :=
  match l with
  | [] => mret tt
  | x :: l => f x ≫= λ _, forM l f
  end.

(** The same loop threading an accumulator. *)
Fixpoint foldM {S A B} (l : list A) (b : B) (f : B → A → ST S B) : ST S B :=
  match l with
  | [] => mret b
  | x :: l => f b x ≫= λ b', foldM l b' f
  end.

(** The same without other state. *)
Fixpoint foldR {A B} (l : list A) (b : B) (f : B → A → result B) : result B :=
  match l with
  | [] => Ok b
  | x :: l => match f b x with Ok b' => foldR l b' f | Err e => Err e end
  end.

(** [for i, x := range l] *)
Definition enumerate {A} (l : list A) : list (nat * A) := zip (seq 0 (length l)) l.

(** ** Tactics and hints *)

Create HintDb gost discriminated.
Create Rewrite HintDb golen.
#[export] Hint Constructors result : gost.

(** Unfold the monad's combinators at a given state. *)
Ltac monad_simpl :=
  unfold mret, ST_ret, mbind, ST_bind, result_ret, result_bind, throw, get, modify, try,
    wrapST, lift_result, zoom, wrap in *; cbn beta iota in *.

(** Case analysis on the first [match] scrutinee of the goal or a hypothesis. *)
Ltac split_match :=
  match goal with
  | |- context [match ?x with _ => _ end] => destruct x eqn:?
  | H : context [match ?x with _ => _ end] |- _ => destruct x eqn:?
  end.

(** Split [Forall] over appends and conses that are in sight. *)
Ltac forall_split :=
  repeat match goal with
  | |- Forall _ (_ ++ _) => apply Forall_app; split
  | |- Forall _ (_ :: _) => apply Forall_cons; split
  | |- Forall _ [] => apply Forall_nil_2
  end.

Ltac split_matches := repeat (split_match; simplify_eq/=).

(** ** Shared lemmas *)

Section st_lemmas.
Context {S : Type}.

(** [triple I m Q]: from a state satisfying [I], [m] ends, failing or not, in
    a state satisfying [I], and a value it returns satisfies [Q]. *)
Definition triple {A} (I : S → Prop) (m : ST S A) (Q : A → Prop) : Prop :=
  ∀ s, I s → I (m s).2 ∧ ∀ a, (m s).1 = Ok a → Q a.

(** Inversion of a successful sequence. *)
Lemma bind_Ok {A B} (m : ST S A) (f : A → ST S B) s b s' :
  (m ≫= f) s = (Ok b, s') →
  ∃ a s1, m s = (Ok a, s1) ∧ f a s1 = (Ok b, s').
Proof.
  unfold mbind, ST_bind. destruct (m s) as [[a|e] s1]; intros H; [eauto|done].
Qed.

Lemma bind_step {A B} (m : ST S A) (f : A → ST S B) s a s1 :
  m s = (Ok a, s1) → (m ≫= f) s = f a s1.
Proof. unfold mbind, ST_bind. by intros ->. Qed.

(** The final state of a sequence, by cases on the first call. *)
Lemma bind_final {A B} (R : S → Prop) (m : ST S A) (f : A → ST S B) s :
  (match m s with (Ok a, s') => R (f a s').2 | (Err _, s') => R s' end) → R ((m ≫= f) s).2.
Proof. unfold mbind, ST_bind. by destruct (m s) as [[a|e] s']. Qed.

Lemma bind_assoc {A B C} (m : ST S A) (f : A → ST S B) (g : B → ST S C) s :
  ((m ≫= f) ≫= g) s = (m ≫= λ a, f a ≫= g) s.
Proof. unfold mbind, ST_bind. by destruct (m s) as [[]]. Qed.

(** A property of the state kept by every step is kept by the whole run,
    failing or not. [preserves I m] is the invariant triple of the
    development. *)
Definition preserves {A} (I : S → Prop) (m : ST S A) : Prop :=
  ∀ s, I s → I (m s).2.

Lemma preserves_ret {A} I (a : A) : preserves I (mret a).
Proof. by intros s. Qed.
Lemma preserves_throw {A} I e : preserves (A:=A) I (throw e).
Proof. by intros s. Qed.
Lemma preserves_get I : preserves I get.
Proof. by intros s. Qed.
Lemma preserves_lift_result {A} I (r : result A) : preserves I (lift_result r).
Proof. by intros s. Qed.
Lemma preserves_modify (I : S → Prop) f : (∀ s, I s → I (f s)) → preserves I (modify f).
Proof. intros H s. apply H. Qed.
Lemma preserves_bind {A B} I (m : ST S A) (f : A → ST S B) :
  preserves I m → (∀ a, preserves I (f a)) → preserves I (m ≫= f).
Proof.
  intros Hm Hf s Hs. unfold mbind, ST_bind. specialize (Hm s Hs).
  destruct (m s) as [[a|e] s1]; simpl in *; [by apply Hf|done].
Qed.
(** The same, with what the first call is known to return. *)
Lemma preserves_bind_post {A B} I (Q : A → Prop) (m : ST S A) (f : A → ST S B) :
  preserves I m → (∀ s a s', m s = (Ok a, s') → Q a) → (∀ a, Q a → preserves I (f a)) →
  preserves I (m ≫= f).
Proof.
  intros Hm HQ Hf s Hs. unfold mbind, ST_bind. specialize (Hm s Hs).
  destruct (m s) as [[a|e] s1] eqn:E; simpl in *; [|done]. apply Hf; [|done]. eauto.
Qed.
Lemma preserves_try {A} I (m : ST S A) : preserves I m → preserves I (try m).
Proof. intros Hm s Hs. unfold try. specialize (Hm s Hs). by destruct (m s). Qed.
Lemma preserves_wrapST {A} I ctx (m : ST S A) : preserves I m → preserves I (wrapST ctx m).
Proof. intros Hm s Hs. unfold wrapST. specialize (Hm s Hs). by destruct (m s). Qed.
Lemma preserves_forM {A} I (l : list A) (f : A → ST S unit) :
  (∀ x, x ∈ l → preserves I (f x)) → preserves I (forM l f).
Proof.
  induction l as [|x l IH]; intros H; simpl; [apply preserves_ret|].
  apply preserves_bind; [apply H; set_solver|]. intros _. apply IH. set_solver.
Qed.
Lemma preserves_foldM {A B} I (l : list A) (f : B → A → ST S B) b :
  (∀ b x, x ∈ l → preserves I (f b x)) → preserves I (foldM l b f).
Proof.
  revert b. induction l as [|x l IH]; intros b H; simpl; [apply preserves_ret|].
  apply preserves_bind; [apply H; set_solver|]. intros b'. apply IH. set_solver.
Qed.

Lemma triple_ret {A} I (a : A) (Q : A → Prop) : Q a → triple I (mret a) Q.
Proof. intros Ha s Hs. split; [done|]. by intros ? [= <-]. Qed.
Lemma triple_throw {A} I e (Q : A → Prop) : triple I (throw e) Q.
Proof. intros s Hs. by split. Qed.
Lemma triple_bind {A B} I (m : ST S A) (f : A → ST S B) Q R :
  triple I m R → (∀ a, R a → triple I (f a) Q) → triple I (m ≫= f) Q.
Proof.
  intros Hm Hf s Hs. unfold mbind, ST_bind. destruct (Hm s Hs) as [H1 H2].
  destruct (m s) as [[a|e] s1]; simpl in *; [|by split]. apply Hf; auto.
Qed.
Lemma triple_weaken {A} I (m : ST S A) (Q R : A → Prop) :
  triple I m Q → (∀ a, Q a → R a) → triple I m R.
Proof. intros Hm HQ s Hs. destruct (Hm s Hs). split; auto. Qed.
Lemma triple_preserves {A} I (m : ST S A) : preserves I m → triple I m (λ _, True).
Proof. intros Hm s Hs. by split; [apply Hm|]. Qed.
Lemma preserves_triple {A} I (m : ST S A) Q : triple I m Q → preserves I m.
Proof. intros Hm s Hs. apply Hm, Hs. Qed.
Lemma triple_try {A} I (m : ST S A) Q :
  triple I m Q → triple I (try m) (λ r, ∀ a, r = Ok a → Q a).
Proof.
  intros Hm s Hs. unfold try. destruct (Hm s Hs) as [H1 H2]. destruct (m s). split; [done|].
  intros ? [= <-]. naive_solver.
Qed.
Lemma triple_wrapST {A} I ctx (m : ST S A) Q : triple I m Q → triple I (wrapST ctx m) Q.
Proof.
  intros Hm s Hs. unfold wrapST. destruct (Hm s Hs) as [H1 H2]. destruct (m s) as [[a|e] s'].
  - split; [done|]. intros ? [= <-]. by apply H2.
  - by split.
Qed.
Lemma triple_forM {A} I (l : list A) (f : A → ST S unit) :
  (∀ x, x ∈ l → triple I (f x) (λ _, True)) → triple I (forM l f) (λ _, True).
Proof.
  intros H. apply triple_preserves, preserves_forM. intros x Hx. by eapply preserves_triple, H.
Qed.
Lemma triple_foldM {A B} I (l : list A) (f : B → A → ST S B) b (Q : B → Prop) :
  Q b → (∀ b x, Q b → x ∈ l → triple I (f b x) Q) → triple I (foldM l b f) Q.
Proof.
  revert b. induction l as [|x l IH]; intros b Hb H; simpl; [by apply triple_ret|].
  eapply triple_bind; [apply H; [done|set_solver]|]. intros b' Hb'. apply IH; set_solver.
Qed.

Lemma forM_app {A} (l1 l2 : list A) (f : A → ST S unit) s :
  forM (l1 ++ l2) f s = (forM l1 f ≫= λ _, forM l2 f) s.
Proof.
  revert s. induction l1 as [|x l1 IH]; intros s; [done|]; simpl.
  unfold mbind, ST_bind in *. destruct (f x s) as [[[]|e] s1]; [|done]. apply IH.
Qed.
End st_lemmas.

Lemma preserves_zoom {S T A} (I : S → Prop) (J : T → Prop) prj upd (m : ST T A) :
  preserves J m → (∀ s, I s → J (prj s)) → (∀ s t, I s → J t → I (upd t s)) →
  preserves I (zoom prj upd m).
Proof.
  intros Hm H1 H2 s Hs. unfold zoom. specialize (Hm (prj s) (H1 s Hs)).
  destruct (m (prj s)) as [r t]. by apply H2.
Qed.

#[export] Hint Resolve preserves_ret preserves_throw preserves_get preserves_lift_result
  preserves_bind preserves_try preserves_wrapST preserves_forM preserves_foldM : gost.

(** ** Loops that collect errors *)

Definition err_list {A} (r : result A) : list error :=
  match r with Ok _ => [] | Err e => [e] end.

Lemma foldM_app {S A B} (l1 l2 : list A) (b : B) (f : B → A → ST S B) s :
  foldM (l1 ++ l2) b f s = (foldM l1 b f ≫= λ b, foldM l2 b f) s.
Proof.
  revert b s. induction l1 as [|x l1 IH]; intros b s; [done|]; simpl.
  unfold mbind, ST_bind in *. destruct (f b x s) as [[b'|e] s1]; [|done]. apply IH.
Qed.

Lemma foldM_ext {S A B} (l : list A) (b : B) (f g : B → A → ST S B) s :
  (∀ b x s, x ∈ l → f b x s = g b x s) → foldM l b f s = foldM l b g s.
Proof.
  revert b s. induction l as [|x l IH]; intros b s H; [done|]; simpl. unfold mbind, ST_bind.
  rewrite H by set_solver. destruct (g b x s) as [[b'|e] s1]; [|done]. apply IH. set_solver.
Qed.

Section collect.
Context {A B S : Type}.

(** The actions one after the other, each as if it were alone, with the errors
    of those that fail. *)
Fixpoint runAll (f : A → ST S unit) (l : list A) (s : S) : list error * S :=
  match l with
  | [] => ([], s)
  | a :: l =>
    let '(res, s1) := f a s in
    let '(es, s2) := runAll f l s1 in (err_list res ++ es, s2)
  end.

(** A loop body that does what [f] does and records a returned error, letting
    a panic through. *)
Definition collects (f : A → ST S unit) (step : B → A → ST S B) (errs : B → list error)
    (Inv : B → S → Prop) : Prop :=
  ∀ b a s, Inv b s →
  match f a s with
  | (Ok _, s') => ∃ b', step b a s = (Ok b', s') ∧ errs b' = errs b ∧ Inv b' s'
  | (Err e, s') =>
    if isPanic e then ∃ e', step b a s = (Err e', s') ∧ isPanic e' = true
    else ∃ b', step b a s = (Ok b', s') ∧ errs b' = errs b ++ [e] ∧ Inv b' s'
  end.

Context (f : A → ST S unit) (step : B → A → ST S B) (errs : B → list error) (Inv : B → S → Prop).
Hypothesis Hstep : collects f step errs Inv.

Definition calm (es : list error) : Prop := Forall (λ e, isPanic e = false) es.

(** Without a panic such a loop runs every action. *)
Lemma foldM_collect l b s :
  Inv b s → calm (runAll f l s).1 →
  ∃ b', foldM l b step s = (Ok b', (runAll f l s).2) ∧ errs b' = errs b ++ (runAll f l s).1 ∧
        Inv b' (runAll f l s).2.
Proof.
  revert b s. induction l as [|a l IH]; intros b s Hb; cbn [runAll foldM].
  { intros _. exists b. by rewrite app_nil_r. }
  pose proof (Hstep b a s Hb) as Ha. destruct (f a s) as [res s1]. specialize (IH).
  destruct (runAll f l s1) as [es s2] eqn:Er. cbn. intros [Hres Hes]%Forall_app.
  unfold mbind, ST_bind.
  assert (∃ b1, step b a s = (Ok b1, s1) ∧ errs b1 = errs b ++ err_list res ∧ Inv b1 s1) as (b1 & -> & Hb1 & Hi).
  { destruct res as [u|e]; [destruct Ha as (b1 & ? & ? & ?); exists b1; cbn [err_list]; by rewrite app_nil_r|].
    cbn [err_list] in Hres. apply Forall_cons in Hres as [Hres _]. cbn in Hres. rewrite Hres in Ha. exact Ha. }
  destruct (IH b1 s1 Hi) as (b' & H1 & H2 & H3); [by rewrite Er|].
  rewrite Er in H1, H2, H3. exists b'. split_and!; [done| |done]. by rewrite H2, Hb1, app_assoc.
Qed.

(** A panic ends it there. *)
Lemma foldM_collect_panic l1 a l2 b s e s2 :
  Inv b s → calm (runAll f l1 s).1 → f a (runAll f l1 s).2 = (Err e, s2) → isPanic e = true →
  ∃ e', foldM (l1 ++ a :: l2) b step s = (Err e', s2) ∧ isPanic e' = true.
Proof.
  intros Hb Hc Ha Hp. destruct (foldM_collect l1 b s Hb Hc) as (b1 & H1 & _ & Hi).
  pose proof (Hstep b1 a _ Hi) as Hs. rewrite Ha, Hp in Hs. destruct Hs as (e' & Hs & He).
  exists e'. split; [|done]. rewrite foldM_app. unfold mbind, ST_bind. rewrite H1. cbn [foldM].
  unfold mbind, ST_bind. by rewrite Hs.
Qed.
End collect.

Lemma runAll_fmap {A B S} (f : B → ST S unit) (g : A → B) l s :
  runAll (λ x, f (g x)) l s = runAll f (g <$> l) s.
Proof. revert s. induction l as [|x l IH]; intros s; [done|]. cbn. destruct (f (g x) s). by rewrite IH. Qed.

(** A loop whose rounds do not fail. *)
Lemma foldR_total {A B} (f : B → A → result B) (g : B → A → B) l b :
  (∀ b x, x ∈ l → f b x = Ok (g b x)) → foldR l b f = Ok (foldl g b l).
Proof.
  revert b. induction l as [|x l IH]; intros b H; simpl; [done|].
  rewrite H by set_solver. apply IH. set_solver.
Qed.

(** ** Lists *)

Lemma Forall2_elem_l {A B} (P : A → B → Prop) l k x : Forall2 P l k → x ∈ l → ∃ y, y ∈ k ∧ P x y.
Proof.
  induction 1 as [|x' y l k Hxy _ IH]; [by intros ?%not_elem_of_nil|].
  intros [->|Hx]%elem_of_cons; [exists y; split; [by left|done]|].
  destruct (IH Hx) as (y' & ? & ?). exists y'. split; [by right|done].
Qed.

Lemma find_app {A} (p : A → bool) l m :
  List.find p (l ++ m) = match List.find p l with Some x => Some x | None => List.find p m end.
Proof. induction l as [|x l IH]; cbn; [done|]. by destruct (p x). Qed.
Lemma find_elem {A} (p : A → bool) l x : List.find p l = Some x → x ∈ l ∧ p x = true.
Proof. intros [Hx Hp]%find_some. by rewrite list_elem_of_In. Qed.
Lemma find_is_Some {A} (p : A → bool) l x : x ∈ l → p x = true → is_Some (List.find p l).
Proof.
  intros Hx Hp. destruct (List.find p l) eqn:E; [by eexists|].
  rewrite list_elem_of_In in Hx. by rewrite (find_none _ _ E x Hx) in Hp.
Qed.
Lemma elem_of_filterb {A} (p : A → bool) l x : x ∈ List.filter p l ↔ x ∈ l ∧ p x = true.
Proof. by rewrite !list_elem_of_In, filter_In. Qed.

Lemma NoDup_fmap_filter {A B} (f : A → B) p l : NoDup (f <$> l) → NoDup (f <$> List.filter p l).
Proof.
  induction l as [|x l IH]; cbn; [done|]. intros [Hx Hnd]%NoDup_cons. destruct (p x); [|by apply IH]. cbn.
  constructor; [|by apply IH]. intros (y & Hy & Hin)%list_elem_of_fmap. apply elem_of_filterb in Hin as [Hin _].
  apply Hx, list_elem_of_fmap. by exists y.
Qed.

Lemma length_enumerate {A} (l : list A) : length (enumerate l) = length l.
Proof. unfold enumerate. rewrite length_zip_with, length_seq. lia. Qed.

Lemma enumerate_snd {A} (l : list A) : (enumerate l).*2 = l.
Proof. unfold enumerate. apply snd_zip. by rewrite length_seq. Qed.

Lemma elem_of_enumerate {A} (l : list A) i x : (i, x) ∈ enumerate l → x ∈ l.
Proof.
  intros H. rewrite <-(enumerate_snd l). apply list_elem_of_fmap. by exists (i, x).
Qed.

Lemma length_str s : length (str s) = String.length s.
Proof.
  unfold str. rewrite length_fmap. induction s; simpl; [done|]. by f_equal.
Qed.

Lemma str_is_byte s : Forall is_byte (str s).
Proof.
  unfold str. rewrite Forall_fmap. apply Forall_forall. intros c _. unfold compose, is_byte.
  pose proof (N_ascii_bounded c). lia.
Qed.

#[export] Hint Resolve str_is_byte : gost.
