(* ===== verification/GoStd.v ===== *)
(** * The parts of Go's standard library the daemon uses

    UTF-8 decoding and [strings.Map], [strings.HasPrefix], [Split],
    [ReplaceAll], [Compare]; [fmt]'s [%d], [%x] and [%08x]; [strconv.Atoi];
    [hash/fnv]'s 32-bit FNV-1a; [encoding/gob] of a string; and the
    fixed-width integer encodings of google/nftables' [binaryutil]. *)

From stdpp Require Import pretty.
From S2P Require Import Prelude.

(** ** Fixed-width integers *)

Definition u8 (z : Z) : Z := z mod 2 ^ 8.
Definition u16 (z : Z) : Z := z mod 2 ^ 16.
Definition u32 (z : Z) : Z := z mod 2 ^ 32.
Definition MaxUint16 : Z := 65535.

(** Bitwise complement of a [uint32]. *)
Definition not32 (z : Z) : Z := Z.lxor z (2 ^ 32 - 1).

(** The bytes of [z], [n] of them, least significant first. *)
Fixpoint le_bytes (n : nat) (z : Z) : bytes :=
  match n with
  | O => []
  | S n => u8 z :: le_bytes n (Z.shiftr z 8)
  end.

Definition be_bytes (n : nat) (z : Z) : bytes := reverse (le_bytes n z).

(** The value of a big-endian byte string. *)
Definition be_val (b : bytes) : Z := foldl (λ acc x, acc * 256 + x) 0 b.

(** The byte order of the machine the daemon runs on. *)
Class Arch := native_little : bool.

Module BigEndian.
Definition PutUint16 (v : Z) : bytes := be_bytes 2 v.
Definition PutUint32 (v : Z) : bytes := be_bytes 4 v.
End BigEndian.

Module NativeEndian.
Definition PutUint32 `{Arch} (v : Z) : bytes :=
  if native_little then le_bytes 4 v else be_bytes 4 v.
Definition Uint32 `{Arch} (b : bytes) : Z :=
  be_val (if native_little then reverse b else b).
End NativeEndian.

(** ** UTF-8 *)

Definition RuneError : Z := 0xFFFD.

Definition cont (lo hi : Z) (b : Z) : bool := (lo <=? b) && (b <=? hi).

(** [utf8.DecodeRuneInString] on the non-empty string [b0 :: s]: the rune and
    the number of bytes after [b0] it takes. An ill-formed sequence is
    [RuneError] of width one. *)
Definition DecodeRune (b0 : Z) (s : bytes) : Z * nat :=
  let bad := (RuneError, 0%nat) in
  let two lo hi :=
    match s with
    | b1 :: _ => if cont lo hi b1
        then (Z.lor (Z.shiftl (Z.land b0 0x1F) 6) (Z.land b1 0x3F), 1%nat) else bad
    | _ => bad
    end in
  let three lo hi :=
    match s with
    | b1 :: b2 :: _ => if cont lo hi b1 && cont 0x80 0xBF b2
        then (Z.lor (Z.shiftl (Z.land b0 0x0F) 12)
               (Z.lor (Z.shiftl (Z.land b1 0x3F) 6) (Z.land b2 0x3F)), 2%nat) else bad
    | _ => bad
    end in
  let four lo hi :=
    match s with
    | b1 :: b2 :: b3 :: _ => if cont lo hi b1 && cont 0x80 0xBF b2 && cont 0x80 0xBF b3
        then (Z.lor (Z.shiftl (Z.land b0 0x07) 18)
               (Z.lor (Z.shiftl (Z.land b1 0x3F) 12)
                 (Z.lor (Z.shiftl (Z.land b2 0x3F) 6) (Z.land b3 0x3F))), 3%nat) else bad
    | _ => bad
    end in
  if b0 <? 0x80 then (b0, 0%nat)
  else if b0 <? 0xC2 then bad
  else if b0 <? 0xE0 then two 0x80 0xBF
  else if b0 =? 0xE0 then three 0xA0 0xBF
  else if b0 =? 0xED then three 0x80 0x9F
  else if b0 <? 0xF0 then three 0x80 0xBF
  else if b0 =? 0xF0 then four 0x90 0xBF
  else if b0 <? 0xF4 then four 0x80 0xBF
  else if b0 =? 0xF4 then four 0x80 0x8F
  else bad.

(** [for _, r := range s]. The fuel is the length of the string: each rune
    takes at least one byte. *)
Fixpoint runes_fuel (n : nat) (s : gostring) : list Z :=
  match n, s with
  | S n, b :: s => let '(r, w) := DecodeRune b s in r :: runes_fuel n (drop w s)
  | _, _ => []
  end.
Definition runes (s : gostring) : list Z := runes_fuel (length s) s.

(** [utf8.AppendRune(nil, r)] *)
Definition EncodeRune (r : Z) : bytes :=
  let three r := [Z.lor 0xE0 (Z.shiftr r 12);
                  Z.lor 0x80 (Z.land (Z.shiftr r 6) 0x3F); Z.lor 0x80 (Z.land r 0x3F)] in
  if (0 <=? r) && (r <=? 0x7F) then [r]
  else if (0 <=? r) && (r <=? 0x7FF) then
    [Z.lor 0xC0 (Z.shiftr r 6); Z.lor 0x80 (Z.land r 0x3F)]
  else if (r <? 0) || (0x10FFFF <? r) || ((0xD800 <=? r) && (r <=? 0xDFFF)) then three RuneError
  else if r <=? 0xFFFF then three r
  else [Z.lor 0xF0 (Z.shiftr r 18); Z.lor 0x80 (Z.land (Z.shiftr r 12) 0x3F);
        Z.lor 0x80 (Z.land (Z.shiftr r 6) 0x3F); Z.lor 0x80 (Z.land r 0x3F)].

(** ** strings *)

Module strings.

(** [strings.Map]: a negative result drops the rune. *)
Definition Map (f : Z → Z) (s : gostring) : gostring :=
  concat ((λ r, if f r <? 0 then [] else EncodeRune (f r)) <$> runes s).

Definition HasPrefix (s prefix : gostring) : bool := bool_decide (prefix `prefix_of` s).

(** [strings.Split] with a one-byte separator. *)
Fixpoint Split (s : gostring) (sep : Z) : list gostring :=
  match s with
  | [] => [[]]
  | b :: s =>
    if b =? sep then [] :: Split s sep
    else match Split s sep with
         | [] => [[b]]
         | w :: ws => (b :: w) :: ws
         end
  end.

(** [strings.ReplaceAll] of one byte by a string. *)
Definition ReplaceAll (s : gostring) (old : Z) (new : gostring) : gostring :=
  concat ((λ b, if b =? old then new else [b]) <$> s).

(** [strings.Compare] *)
Fixpoint Compare (a b : gostring) : comparison :=
  match a, b with
  | [], [] => Eq
  | [], _ => Lt
  | _, [] => Gt
  | x :: a, y :: b =>
    match x ?= y with Eq => Compare a b | c => c end
  end.

End strings.

(** ** fmt and strconv *)

(** [fmt.Sprintf("%d", z)] *)
Definition itoa (z : Z) : gostring := str (pretty z).

Definition hexdigit (d : Z) : Z := if d <? 10 then 48 + d else 87 + d.

(** The [n] low hexadecimal digits of [v], most significant first. *)
Fixpoint hex_fixed (n : nat) (v : Z) : gostring :=
  match n with
  | O => []
  | S n => hex_fixed n (Z.shiftr v 4) ++ [hexdigit (Z.land v 15)]
  end.

Fixpoint strip_zeros (s : gostring) : gostring :=
  match s with
  | [] => []
  | b :: s' => if (b =? 48) && negb (bool_decide (s' = [])) then strip_zeros s' else s
  end.

(** [fmt.Sprintf("%08x", v)] and [fmt.Sprintf("%x", v)] for a [uint32]. *)
Definition Sprintf_08x (v : Z) : gostring := hex_fixed 8 v.
Definition Sprintf_x (v : Z) : gostring := strip_zeros (hex_fixed 8 v).

Definition is_digit (b : Z) : bool := (48 <=? b) && (b <=? 57).

Definition digits_val (s : gostring) : Z := foldl (λ acc b, acc * 10 + (b - 48)) 0 s.

(** [strconv.Atoi] on a 64-bit machine. *)
Definition Atoi (s : gostring) : option Z :=
  let '(neg, ds) :=
    match s with
    | 43 :: r => (false, r)
    | 45 :: r => (true, r)
    | _ => (false, s)
    end in
  if bool_decide (ds = []) || negb (forallb is_digit ds) then None
  else
    let v := if neg : bool then - digits_val ds else digits_val ds in
    if (- 2 ^ 63 <=? v) && (v <? 2 ^ 63) then Some v else None.

(** ** hash/fnv *)

Definition fnv_step (h b : Z) : Z := Z.land (16777619 * Z.lxor h b) 0xffffffff.
Lemma fnv_step_wraps h b : fnv_step h b = u32 (Z.lxor h b * 16777619).
Proof. unfold fnv_step, u32. rewrite Z.mul_comm. apply (Z.land_ones _ 32). done. Qed.

(** [h := fnv.New32a(); h.Write(data); h.Sum32()] *)
Definition fnv32a (data : bytes) : Z := foldl fnv_step 2166136261 data.

(** ** encoding/gob of a string *)

(** The number of bytes of [v], at most [n]. *)
Fixpoint byte_count (n : nat) (v : Z) : nat :=
  match n with
  | O => 0
  | S n => if v =? 0 then 0 else S (byte_count n (Z.shiftr v 8))
  end.

(** gob's unsigned integer: one byte up to 127, else the negated byte count
    and the bytes, most significant first. *)
Definition gob_uint (v : Z) : bytes :=
  if v <=? 0x7F then [v]
  else let n := byte_count 8 v in u8 (- Z.of_nat n) :: be_bytes n v.

(** What [gob.NewEncoder(&buf).Encode(s)] writes for a [string]: the message
    length, the type id of [string], the zero field delta of a top-level
    value, the string's length and its bytes. *)
Definition gob_string (s : gostring) : bytes :=
  let body := [12; 0] ++ gob_uint (Z.of_nat (length s)) ++ s in
  gob_uint (Z.of_nat (length body)) ++ body.

(** ** slices *)

(** [slices.SortStableFunc]: the sorted permutation that keeps the order of
    elements that compare equal. *)
Fixpoint insertStable {A} (cmp : A → A → comparison) (x : A) (l : list A) : list A :=
  match l with
  | [] => [x]
  | y :: l' => match cmp x y with Gt => y :: insertStable cmp x l' | _ => x :: l end
  end.
Definition SortStableFunc {A} (cmp : A → A → comparison) (l : list A) : list A :=
  foldr (insertStable cmp) [] l.

(** ** Lemmas *)

Lemma length_le_bytes n z : length (le_bytes n z) = n.
Proof. revert z. induction n as [|n IH]; intros z; simpl; [done|]. by rewrite IH. Qed.

Lemma length_be_bytes n z : length (be_bytes n z) = n.
Proof. unfold be_bytes. by rewrite length_reverse, length_le_bytes. Qed.

Lemma u8_byte z : is_byte (u8 z).
Proof. unfold u8, is_byte. change 256 with (2 ^ 8). apply Z.mod_pos_bound. lia. Qed.

Lemma le_bytes_is_byte n z : Forall is_byte (le_bytes n z).
Proof. revert z. induction n; intros z; simpl; constructor; auto using u8_byte. Qed.

Lemma be_val_snoc b x : be_val (b ++ [x]) = be_val b * 256 + x.
Proof. unfold be_val. by rewrite foldl_snoc. Qed.

(** Encoding and decoding a big-endian integer. *)
Lemma be_val_be_bytes n z : be_val (be_bytes n z) = z mod 2 ^ (8 * Z.of_nat n).
Proof.
  unfold be_bytes. revert z. induction n as [|n IH]; intros z.
  { change (8 * Z.of_nat 0) with 0. by rewrite Z.mod_1_r. }
  simpl le_bytes. rewrite reverse_cons, be_val_snoc, IH. unfold u8.
  rewrite Z.shiftr_div_pow2 by lia.
  replace (8 * Z.of_nat (S n)) with (8 + 8 * Z.of_nat n) by lia.
  rewrite Z.pow_add_r by lia. change 256 with (2 ^ 8).
  rewrite (Z.rem_mul_r z (2 ^ 8) (2 ^ (8 * Z.of_nat n))) by lia. lia.
Qed.

Lemma Uint32_PutUint32 `{Arch} v :
  NativeEndian.Uint32 (NativeEndian.PutUint32 v) = u32 v.
Proof.
  unfold NativeEndian.Uint32, NativeEndian.PutUint32.
  destruct native_little; apply (be_val_be_bytes 4).
Qed.

Lemma length_PutUint32 `{Arch} v : length (NativeEndian.PutUint32 v) = 4%nat.
Proof.
  unfold NativeEndian.PutUint32. destruct native_little; [apply length_le_bytes|apply length_be_bytes].
Qed.

(** Two byte strings of one length compare as their big-endian values. *)
Lemma be_val_bound b : Forall is_byte b → 0 ≤ be_val b < 256 ^ Z.of_nat (length b).
Proof.
  induction b as [|x b IH] using rev_ind; [done|]. rewrite Forall_app, Forall_singleton.
  intros [H1 H2]. rewrite be_val_snoc, length_app. simpl.
  replace (Z.of_nat (length b + 1)) with (Z.succ (Z.of_nat (length b))) by lia.
  rewrite Z.pow_succ_r by lia. specialize (IH H1). unfold is_byte in H2. lia.
Qed.

Lemma be_val_inj a b :
  Forall is_byte a → Forall is_byte b → length a = length b → be_val a = be_val b → a = b.
Proof.
  revert b. induction a as [|x a IH] using rev_ind; intros b Ha Hb Hl Hv.
  { by destruct b. }
  destruct b as [|y b _] using rev_ind; [rewrite length_app in Hl; simpl in Hl; lia|].
  rewrite !length_app in Hl. rewrite !be_val_snoc in Hv.
  rewrite Forall_app, Forall_singleton in Ha, Hb. destruct Ha as [Ha Hx], Hb as [Hb Hy].
  unfold is_byte in Hx, Hy. assert (be_val a = be_val b) by lia.
  rewrite (IH b Ha Hb) by (simpl in Hl; lia || done). by replace y with x by lia.
Qed.

Lemma runes_fuel_length n s : (length (runes_fuel n s) ≤ length s)%nat.
Proof.
  revert s. induction n as [|n IH]; intros [|b s]; simpl; try lia.
  destruct (DecodeRune b s) as [r w]. simpl. specialize (IH (drop w s)).
  rewrite length_drop in IH. lia.
Qed.

Lemma length_runes s : (length (runes s) ≤ length s)%nat.
Proof. apply runes_fuel_length. Qed.

Lemma EncodeRune_ascii r : 0 ≤ r < 128 → EncodeRune r = [r].
Proof.
  intros H. unfold EncodeRune.
  replace ((0 <=? r) && (r <=? 0x7F)) with true; [done|].
  symmetry. apply andb_true_iff. split; apply Z.leb_le; lia.
Qed.

(** A mapping into ASCII yields one byte per rune. *)
Lemma Map_ascii f s : (∀ r, 0 ≤ f r < 128) → strings.Map f s = f <$> runes s.
Proof.
  intros Hf. unfold strings.Map. induction (runes s) as [|r rs IH]; [done|].
  rewrite !fmap_cons. cbn [concat]. rewrite IH. clear IH. destruct (f r <? 0) eqn:E; [apply Z.ltb_lt in E; specialize (Hf r); lia|].
  by rewrite EncodeRune_ascii.
Qed.

(** ASCII strings decode byte by byte. *)
Lemma runes_ascii s : Forall (λ b, b < 128) s → runes s = s.
Proof.
  unfold runes. induction s as [|b s IH]; [done|]. rewrite Forall_cons_iff. intros [Hb Hs].
  cbn [length runes_fuel]. unfold DecodeRune.
  replace (b <? 0x80) with true; [|symmetry; apply Z.ltb_lt; lia].
  rewrite drop_0. by rewrite IH.
Qed.

Lemma length_hex_fixed n v : length (hex_fixed n v) = n.
Proof.
  revert v. induction n as [|n IH]; intros v; simpl; [done|].
  rewrite length_app, IH. simpl. lia.
Qed.

Lemma hex_fixed_S n v : hex_fixed (S n) v = hex_fixed n (Z.shiftr v 4) ++ [hexdigit (Z.land v 15)].
Proof. done. Qed.
Arguments hex_fixed : simpl never.

Lemma length_strip_zeros s : (length (strip_zeros s) ≤ length s)%nat.
Proof.
  induction s as [|b s IH]; simpl; [lia|].
  repeat (case_match; simpl in *; try lia).
Qed.

Lemma length_Sprintf_x v : (length (Sprintf_x v) ≤ 8)%nat.
Proof.
  unfold Sprintf_x. etrans; [apply length_strip_zeros|]. by rewrite length_hex_fixed.
Qed.

Lemma HasPrefix_app p s : strings.HasPrefix (p ++ s) p = true.
Proof. apply bool_decide_eq_true. by apply prefix_app_r. Qed.

Lemma Split_not_nil s sep : strings.Split s sep ≠ [].
Proof. destruct s; simpl; [done|]. repeat case_match; done. Qed.

Lemma Compare_Eq a b : strings.Compare a b = Eq ↔ a = b.
Proof.
  revert b. induction a as [|x a IH]; intros [|y b]; simpl; try done.
  destruct (Z.compare_spec x y); simpl.
  - subst. rewrite IH. split; [by intros ->|by intros [= ->]].
  - split; [done|]. intros [= ? ?]. lia.
  - split; [done|]. intros [= ? ?]. lia.
Qed.

Lemma Compare_antisym a b : strings.Compare b a = CompOpp (strings.Compare a b).
Proof.
  revert b. induction a as [|x a IH]; intros [|y b]; simpl; try done.
  rewrite (Z.compare_antisym x y). destruct (x ?= y); simpl; auto.
Qed.

(** The order [strings.Compare] decides. *)
Definition str_le (a b : gostring) : Prop := strings.Compare a b ≠ Gt.

Lemma str_le_trans a b c : str_le a b → str_le b c → str_le a c.
Proof.
  unfold str_le. revert b c. induction a as [|x a IH]; intros [|y b] [|z c]; simpl; try done.
  destruct (Z.compare_spec x y), (Z.compare_spec y z), (Z.compare_spec x z);
    subst; try lia; try done; eauto.
Qed.
Lemma str_le_total a b : strings.Compare a b = Gt → str_le b a.
Proof. intros HC. unfold str_le. rewrite Compare_antisym, HC. done. Qed.
Lemma str_le_antisym a b : str_le a b → str_le b a → a = b.
Proof.
  unfold str_le. rewrite (Compare_antisym a b). intros H1 H2. apply Compare_Eq.
  by destruct (strings.Compare a b).
Qed.

(** Sorting by a string key. *)
Section sort.
Context {A : Type} (key : A → gostring).
Abbreviation cmp := (λ a b, strings.Compare (key a) (key b)).
Abbreviation R := (λ a b, str_le (key a) (key b)).

Lemma insertStable_perm x l : insertStable cmp x l ≡ₚ x :: l.
Proof.
  induction l as [|y l IH]; simpl; [done|]. case_match; try done. rewrite IH. constructor.
Qed.
Lemma SortStable_perm l : SortStableFunc cmp l ≡ₚ l.
Proof. induction l as [|x l IH]; simpl; [done|]. by rewrite insertStable_perm, IH. Qed.

Lemma insertStable_sorted x l : StronglySorted R l → StronglySorted R (insertStable cmp x l).
Proof.
  induction 1 as [|y l Hl IH Hy]; simpl; [by repeat constructor|].
  case_match eqn:E; [| |].
  3:{ constructor; [done|]. rewrite insertStable_perm.
      apply Forall_cons. split; [apply str_le_total, E|exact Hy]. }
  all: constructor; [by constructor|]; assert (str_le (key x) (key y)) by (unfold str_le; congruence);
    constructor; [done|]; eapply Forall_impl; [exact Hy|]; intros z Hz; by eapply str_le_trans.
Qed.
Lemma SortStable_sorted l : StronglySorted R (SortStableFunc cmp l).
Proof. induction l; simpl; [constructor|]. by apply insertStable_sorted. Qed.

(** With distinct keys the result does not depend on the order of the input. *)
Lemma SortStable_canonical l1 l2 :
  NoDup (key <$> l1) → l1 ≡ₚ l2 → SortStableFunc cmp l1 = SortStableFunc cmp l2.
Proof.
  intros Hnd Hp. apply (StronglySorted_unique_strong R).
  - intros x1 x2 H1 H2 HR1 HR2. rewrite SortStable_perm in H1. rewrite SortStable_perm, <-Hp in H2.
    pose proof (str_le_antisym _ _ HR1 HR2) as Hk.
    apply list_elem_of_lookup in H1 as [i Hi]. apply list_elem_of_lookup in H2 as [j Hj].
    assert (i = j) as ->; [|by simplify_eq].
    eapply NoDup_lookup; [exact Hnd| |]; rewrite list_lookup_fmap; [by rewrite Hi|].
    by rewrite Hj; simpl; rewrite Hk.
  - apply SortStable_sorted.
  - apply SortStable_sorted.
  - by rewrite !SortStable_perm.
Qed.
End sort.

#[export] Hint Rewrite @length_le_bytes @length_be_bytes @length_hex_fixed @length_enumerate
  @length_str @length_PutUint32 : golen.

(** A number below 10^k has at most k digits. *)
Lemma length_pretty_N_go (k : nat) x s :
  (x < 10 ^ N.of_nat k)%N → (String.length (pretty_N_go x s) ≤ k + String.length s)%nat.
Proof.
  revert x s. induction k as [|k IH]; intros x s Hx.
  { assert (x = 0%N) as -> by (simpl in Hx; lia). by rewrite pretty_N_go_0. }
  assert (x = 0 ∨ 0 < x)%N as [->|Hpos] by lia; [rewrite pretty_N_go_0; lia|].
  rewrite pretty_N_go_step by done. etrans; [apply IH|simpl; lia].
  apply N.Div0.div_lt_upper_bound. replace (N.of_nat (S k)) with (N.succ (N.of_nat k)) in Hx by lia.
  by rewrite N.pow_succ_r in Hx by lia.
Qed.

Lemma length_itoa (k : nat) z :
  0 ≤ z < 10 ^ Z.of_nat k → (length (itoa z) ≤ Nat.max 1 k)%nat.
Proof.
  intros Hz. unfold itoa. rewrite length_str.
  assert (∀ x, (x < 10 ^ N.of_nat k)%N → (String.length (pretty x) ≤ Nat.max 1 k)%nat) as HN.
  { intros x Hx. unfold pretty, pretty_N. case_decide; [simpl; lia|].
    etrans; [by apply length_pretty_N_go|]. simpl. lia. }
  destruct z as [|z|z]; [simpl; lia| |lia]. apply (HN (N.pos z)).
  apply N2Z.inj_lt. rewrite N2Z.inj_pow, nat_N_Z. exact (proj2 Hz).
Qed.

(** The gob framing of a five-byte string. *)
Example gob_hello : gob_string "hello" = [8; 12; 0; 5; 104; 101; 108; 108; 111].
Proof. reflexivity. Qed.

(** The FNV-1a test vectors of [hash/fnv]. *)
Example fnv_vectors : fnv32a "" = 0x811c9dc5 ∧ fnv32a "a" = 0xe40c292c ∧ fnv32a "abc" = 0x1a47e90b.
Proof. repeat split. Qed.
