(* ===== verification/Text.v ===== *)
(** * More of package strings

    [TrimSpace], [Cut], [Contains] and [ToLower], which the daemon applies to
    option values, host names and container ids. *)

From S2P Require Import Prelude GoStd.

(** [unicode.IsSpace] *)
Definition isSpace (r : Z) : bool :=
  ((9 <=? r) && (r <=? 13)) || (r =? 32) || (r =? 0x85) || (r =? 0xA0) || (r =? 0x1680)
  || ((0x2000 <=? r) && (r <=? 0x200A)) || (r =? 0x2028) || (r =? 0x2029) || (r =? 0x202F)
  || (r =? 0x205F) || (r =? 0x3000).

(** The runes of a string with the bytes each one is made of. *)
Fixpoint chunks_fuel (n : nat) (s : gostring) : list (Z * bytes) :=
  match n, s with
  | S n, b :: s => let '(r, w) := DecodeRune b s in (r, b :: take w s) :: chunks_fuel n (drop w s)
  | _, _ => []
  end.
Definition chunks (s : gostring) : list (Z * bytes) := chunks_fuel (length s) s.

Fixpoint dropSpaces (l : list (Z * bytes)) : list (Z * bytes) :=
  match l with
  | [] => []
  | c :: l' => if isSpace c.1 then dropSpaces l' else l
  end.

(** [strings.TrimSpace] *)
Definition TrimSpace (s : gostring) : gostring :=
  concat ((reverse (dropSpaces (reverse (dropSpaces (chunks s))))).*2).

(** [strings.Cut]: what comes before and after the first [sep]. *)
Fixpoint Cut (s sep : gostring) : option (gostring * gostring) :=
  if strings.HasPrefix s sep then Some ([], drop (length sep) s)
  else match s with
       | [] => None
       | b :: s => p ← Cut s sep; Some (b :: p.1, p.2)
       end.

(** [strings.Contains] *)
Definition Contains (s sub : gostring) : bool := bool_decide (is_Some (Cut s sub)).

(** [unicode.ToLower] outside ASCII, a table of the standard library. *)
Class Unicode := unicode_lower : Z → Z.

Definition lowerRune `{Unicode} (r : Z) : Z :=
  if r <? 0x80 then if (65 <=? r) && (r <=? 90) then r + 32 else r else unicode_lower r.
Definition ToLower `{Unicode} (s : gostring) : gostring := strings.Map lowerRune s.

(** ** Lemmas *)

Lemma chunks_fuel_concat n s : (length s ≤ n)%nat → concat (chunks_fuel n s).*2 = s.
Proof.
  revert s. induction n as [|n IH]; intros [|b s] Hl; cbn in *; [done|lia|done|].
  destruct (DecodeRune b s) as [r w]. cbn. rewrite IH by (rewrite length_drop; lia). by rewrite take_drop.
Qed.

(** The runes of a string are made of its bytes. *)
Lemma chunks_concat s : concat (chunks s).*2 = s.
Proof. by apply chunks_fuel_concat. Qed.

Lemma dropSpaces_suffix l : ∃ k, l = k ++ dropSpaces l ∧ Forall (λ c, isSpace c.1 = true) k.
Proof.
  induction l as [|c l (k & Hk & HF)]; [by exists []|]. cbn. destruct (isSpace c.1) eqn:E; [|by exists []].
  exists (c :: k). split; [by rewrite Hk at 1|by constructor].
Qed.

(** What is trimmed are spaces at both ends. *)
Lemma TrimSpace_spec s :
  ∃ a m b, chunks s = a ++ m ++ b ∧ TrimSpace s = concat m.*2 ∧
    Forall (λ c, isSpace c.1 = true) (a ++ b) ∧
    (∀ c, head m = Some c → isSpace c.1 = false) ∧ (∀ c, last m = Some c → isSpace c.1 = false).
Proof.
  assert (∀ l c, head (dropSpaces l) = Some c → isSpace c.1 = false) as Hhead.
  { induction l as [|x l IH]; cbn; [done|]. intros c. destruct (isSpace x.1) eqn:E; [apply IH|]. cbn. by intros [= <-]. }
  destruct (dropSpaces_suffix (chunks s)) as (a & Ha & HFa).
  destruct (dropSpaces_suffix (reverse (dropSpaces (chunks s)))) as (b & Hb & HFb).
  set (m := reverse (dropSpaces (reverse (dropSpaces (chunks s))))).
  assert (dropSpaces (chunks s) = m ++ reverse b) as Hm.
  { unfold m. rewrite <-reverse_app, <-Hb. by rewrite reverse_involutive. }
  exists a, m, (reverse b). split_and!.
  - by rewrite <-Hm, <-Ha.
  - reflexivity.
  - apply Forall_app. split; [done|]. by apply Forall_reverse.
  - intros c Hc. apply (Hhead (chunks s)). rewrite Hm. by destruct m.
  - intros c Hc. unfold m in Hc. rewrite last_reverse in Hc. by apply Hhead in Hc.
Qed.

Lemma Cut_spec s sep p : Cut s sep = Some p → s = p.1 ++ sep ++ p.2.
Proof.
  revert p. induction s as [|b s IH]; intros p; cbn; unfold strings.HasPrefix.
  - case_bool_decide as Hp; [|done]. intros [= <-]. apply prefix_nil_inv in Hp as ->. done.
  - case_bool_decide as Hp.
    + intros [= <-]. destruct Hp as [k Hk]. cbn [fst snd]. rewrite Hk, drop_app_length. done.
    + destruct (Cut s sep) as [q|]; [|done]. cbn. intros [= <-]. cbn. f_equal. by apply IH.
Qed.

Example text_examples :
  TrimSpace (9 :: 0xC2 :: 0xA0 :: str "a b " ++ [0xE2; 0x80; 0x83]) = str "a b" ∧
  Cut "containerd://ab://c" "://" = Some (str "containerd", str "ab://c") ∧ Cut "abc" "://" = None ∧
  Contains "unix:///run/x" "://" = true.
Proof. vm_compute. done. Qed.
