(* ===== verification/Names.v ===== *)
(** * Object names

    pkg/server/doc.go's constants and the naming functions of
    pkg/server/netfilterrules.go: every name that reaches nftables is at most
    255 bytes of the characters nft accepts, and a suffix that tells two
    sub-chains apart survives truncation. *)

From S2P Require Import Prelude GoStd.

(** ** doc.go *)

Definition FilterTableName : gostring := "multi-networkpolicy-filter".
Definition NatTableName : gostring := "multi-networkpolicy-nat".
Definition legacyFilterTableName : gostring := "filter".
Definition legacyNatTableName : gostring := "nat".
Definition ingressChain : gostring := "multi-ingress".
Definition egressChain : gostring := "multi-egress".
Definition portsChainSuffix : gostring := "ports".
Definition peersChainSuffix : gostring := "peers".
Definition peerIPBlockExceptPrefix : gostring := "peer_ipblock_except".
Definition peerIPBlockPrefix : gostring := "peer_ipblock".
Definition protoIPv4 : gostring := "ipv4".
Definition protoIPv6 : gostring := "ipv6".
Definition allowConntrackRuleName : gostring := "allow-conntracked".
Definition common : gostring := "common".
Definition destinationAddressSuffix : gostring := "daddrs".
Definition sourceAddressSuffix : gostring := "saddrs".
Definition podInterfacesName : gostring := "pod_interfaces".
Definition PolicyNetworkAnnotation : gostring := "k8s.v1.cni.cncf.io/policy-for".
Definition peerRuleMark : Z := 0x20000.
Definition portRuleMark : Z := 0x10000.
Definition matchRuleMark : Z := 0x30000.
Definition zeroRuleMark : Z := 0x0.

(** ** netfilterrules.go *)

Definition nftNameMaxLen : Z := 255.

Definition len {A} (l : list A) : Z := Z.of_nat (length l).

Definition sanitizeNftChar (r : Z) : Z :=
  if ((97 <=? r) && (r <=? 122)) || ((65 <=? r) && (r <=? 90)) ||
     ((48 <=? r) && (r <=? 57)) || (r =? 95) || (r =? 45) || (r =? 46)
  then r else 95.

Definition truncateNftName (name : gostring) (maxLen : Z) : gostring :=
  if maxLen <=? 0 then []
  else
    let sanitized := strings.Map sanitizeNftChar name in
    if len sanitized <=? maxLen then sanitized
    else
      let suffix := 45 :: Sprintf_08x (fnv32a name) in
      if maxLen <=? len suffix then
        let hash := drop 1 suffix in
        if maxLen <? len hash then take (Z.to_nat maxLen) hash else hash
      else
        let prefix := take (Z.to_nat (maxLen - len suffix)) sanitized in
        prefix ++ suffix.

Definition nftNameWithSuffix (base separator suffix : gostring) : gostring :=
  let sanitizedSeparator := strings.Map sanitizeNftChar separator in
  let sanitizedSuffix := strings.Map sanitizeNftChar suffix in
  let suffixLen := len sanitizedSeparator + len sanitizedSuffix in
  if suffixLen =? 0 then truncateNftName base nftNameMaxLen
  else if nftNameMaxLen <=? suffixLen then
    truncateNftName (base ++ sanitizedSeparator ++ sanitizedSuffix) nftNameMaxLen
  else
    truncateNftName base (nftNameMaxLen - suffixLen) ++ sanitizedSeparator ++ sanitizedSuffix.

(** [hash] of encoder.go at a string. *)
Definition hash_string (s : gostring) : gostring := Sprintf_x (fnv32a (gob_string s)).

Definition getSetName (s : gostring) : gostring := strings.ReplaceAll s 45 [95].

Definition isIngressChain (chainName : gostring) : bool := strings.HasPrefix chainName ingressChain.

Definition getAddressSuffix (chainName : gostring) : gostring :=
  if isIngressChain chainName then sourceAddressSuffix else destinationAddressSuffix.

(** ** Lemmas *)

Lemma len_pos {A} (l : list A) : (0 <? len l) = match l with [] => false | _ => true end.
Proof. by destruct l. Qed.
Lemma len_zero {A} (l : list A) : (len l =? 0) = match l with [] => true | _ => false end.
Proof. by destruct l. Qed.

(** The characters [sanitizeNftChar] lets through. *)
Definition nft_char (r : Z) : bool := sanitizeNftChar r =? r.

Lemma sanitize_ascii r : 0 ≤ sanitizeNftChar r < 128.
Proof. unfold sanitizeNftChar. case_match eqn:E; [|lia]. lia. Qed.

Lemma sanitize_idem r : sanitizeNftChar (sanitizeNftChar r) = sanitizeNftChar r.
Proof.
  unfold sanitizeNftChar at 2 3. case_match eqn:E; [|done]. unfold sanitizeNftChar. by rewrite E.
Qed.

Lemma nft_char_ascii r : nft_char r = true → 0 ≤ r < 128.
Proof. unfold nft_char. intros <-%Z.eqb_eq. apply sanitize_ascii. Qed.

Lemma Map_sanitize s : strings.Map sanitizeNftChar s = sanitizeNftChar <$> runes s.
Proof. apply Map_ascii, sanitize_ascii. Qed.

Lemma Map_sanitize_length s : len (strings.Map sanitizeNftChar s) ≤ len s.
Proof. rewrite Map_sanitize. unfold len. rewrite length_fmap. pose proof (length_runes s). lia. Qed.

Lemma Map_sanitize_chars s : Forall (λ r, nft_char r = true) (strings.Map sanitizeNftChar s).
Proof.
  rewrite Map_sanitize, Forall_fmap. apply Forall_true. intros r. simpl.
  unfold nft_char. apply Z.eqb_eq, sanitize_idem.
Qed.

(** A name of accepted characters is its own sanitised form. *)
Lemma Map_sanitize_id s :
  Forall (λ r, nft_char r = true) s → strings.Map sanitizeNftChar s = s.
Proof.
  intros H. rewrite Map_sanitize, runes_ascii.
  - induction H as [|r s Hr _ IH]; [done|]. rewrite fmap_cons, IH. f_equal. by apply Z.eqb_eq.
  - eapply Forall_impl; [exact H|]. intros r Hr%nft_char_ascii. lia.
Qed.

Lemma hexdigit_char d : 0 ≤ d < 16 → nft_char (hexdigit d) = true.
Proof.
  intros H. unfold nft_char. apply Z.eqb_eq. unfold sanitizeNftChar, hexdigit.
  repeat case_match; lia.
Qed.

Lemma hex_fixed_chars n v : Forall (λ r, nft_char r = true) (hex_fixed n v).
Proof.
  revert v. induction n as [|n IH]; intros v; [constructor|]. rewrite hex_fixed_S.
  apply Forall_app. split; [apply IH|]. constructor; [|constructor]. apply hexdigit_char.
  change 15 with (Z.ones 4). rewrite Z.land_ones by lia. apply Z.mod_pos_bound. lia.
Qed.

Lemma truncate_suffix_len name : len (45 :: Sprintf_08x (fnv32a name)) = 9.
Proof. unfold len, Sprintf_08x. cbn [length]. by rewrite length_hex_fixed. Qed.

#[export] Hint Extern 1 (nft_char _ = true) => reflexivity : gost.
#[export] Hint Resolve Map_sanitize_chars hex_fixed_chars Forall_take Forall_drop : gost.

Lemma truncate_chars name maxLen :
  Forall (λ r, nft_char r = true) (truncateNftName name maxLen).
Proof.
  unfold truncateNftName, Sprintf_08x. repeat case_match; cbn [drop]; rewrite ?drop_0;
    forall_split; auto with gost.
Qed.

Lemma truncate_length name maxLen : len (truncateNftName name maxLen) ≤ Z.max 0 maxLen.
Proof.
  unfold truncateNftName. case_match eqn:E1; [unfold len; simpl; lia|].
  apply Z.leb_gt in E1. cbv zeta. case_match eqn:E2; [apply Z.leb_le in E2; lia|].
  rewrite truncate_suffix_len. unfold Sprintf_08x. cbn [drop]. rewrite ?drop_0.
  replace (len (hex_fixed 8 (fnv32a name))) with 8 by (unfold len; by rewrite length_hex_fixed).
  case_match eqn:E3; [apply Z.leb_le in E3|apply Z.leb_gt in E3].
  - case_match eqn:E4; [apply Z.ltb_lt in E4|apply Z.ltb_ge in E4];
      unfold len; rewrite ?length_take, length_hex_fixed; lia.
  - unfold len in *. rewrite length_app, length_take. cbn [length]. rewrite length_hex_fixed. lia.
Qed.

Lemma truncate_short name maxLen :
  Forall (λ r, nft_char r = true) name → 0 < maxLen → len name ≤ maxLen →
  truncateNftName name maxLen = name.
Proof.
  intros Hc Hm Hl. unfold truncateNftName. rewrite Map_sanitize_id by done.
  destruct (Z.leb_spec maxLen 0); [lia|]. destruct (Z.leb_spec (len name) maxLen); [done|lia].
Qed.

(** The direction of a chain is in its first 13 bytes. *)
Lemma isIngress_take s : isIngressChain s = bool_decide (take 13 s = ingressChain).
Proof.
  unfold isIngressChain, strings.HasPrefix. apply bool_decide_ext. split.
  - intros [k ->]. by rewrite take_app_length'.
  - intros <-. apply prefix_take.
Qed.
Lemma isIngress_app b r : (13 ≤ length b)%nat → isIngressChain (b ++ r) = isIngressChain b.
Proof. intros Hl. rewrite !isIngress_take. by rewrite take_app_le. Qed.
Lemma isIngress_take_app k b r :
  (13 ≤ k)%nat → (13 ≤ length b)%nat → isIngressChain (take k b ++ r) = isIngressChain b.
Proof.
  intros Hk Hl. rewrite isIngress_app by (rewrite length_take; lia).
  rewrite !isIngress_take, take_take. by replace (13 `min` k)%nat with 13%nat by lia.
Qed.

Lemma nftNameWithSuffix_ingress base separator suffix :
  Forall (λ r, nft_char r = true) base → (13 ≤ length base)%nat → len separator + len suffix ≤ 233 →
  isIngressChain (nftNameWithSuffix base separator suffix) = isIngressChain base.
Proof.
  intros Hc Hl Hs. unfold nftNameWithSuffix. cbv zeta.
  pose proof (Map_sanitize_length separator) as L1. pose proof (Map_sanitize_length suffix) as L2.
  set (p := strings.Map sanitizeNftChar separator) in *.
  set (q := strings.Map sanitizeNftChar suffix) in *.
  assert (∀ k r, 22 ≤ k → isIngressChain (truncateNftName base k ++ r) = isIngressChain base) as Ht.
  { intros k r Hk. unfold truncateNftName. rewrite Map_sanitize_id by done. cbv zeta.
    rewrite truncate_suffix_len. destruct (Z.leb_spec k 0); [lia|].
    destruct (Z.leb_spec (len base) k); [by apply isIngress_app|].
    destruct (Z.leb_spec k 9); [lia|]. rewrite <-app_assoc. apply isIngress_take_app; lia. }
  assert (0 ≤ len p ∧ 0 ≤ len q) as [P0 Q0] by (unfold len; lia). unfold nftNameMaxLen.
  destruct (Z.eqb_spec (len p + len q) 0); [rewrite <-(app_nil_r (truncateNftName _ _)); apply Ht; lia|].
  destruct (Z.leb_spec 255 (len p + len q)); [lia|]. apply Ht. lia.
Qed.

(** ** Properties *)

Section properties.
Implicit Types name base separator suffix : gostring.

(** [truncateNftName] yields, for every input and every limit, a name no
    longer than the limit and made only of the characters nft accepts; and
    truncating it again changes nothing. *)
Theorem truncateNftName_bounded name maxLen :
  len (truncateNftName name maxLen) ≤ Z.max 0 maxLen ∧
  Forall (λ r, nft_char r = true) (truncateNftName name maxLen) ∧
  truncateNftName (truncateNftName name maxLen) maxLen = truncateNftName name maxLen.
Proof.
  split_and!; [apply truncate_length|apply truncate_chars|].
  destruct (Z.leb_spec maxLen 0) as [H|H].
  - unfold truncateNftName. by apply Z.leb_le in H as ->.
  - apply truncate_short; [apply truncate_chars|done|]. pose proof (truncate_length name maxLen). lia.
Qed.

(** a name that has to be shortened keeps as much of its sanitised form
    as fits in front of [-] and the eight hex digits of its FNV-1a hash, and
    fills the limit exactly. *)
Theorem truncateNftName_overlong name maxLen :
  9 < maxLen → maxLen < len (strings.Map sanitizeNftChar name) →
  truncateNftName name maxLen =
    take (Z.to_nat (maxLen - 9)) (strings.Map sanitizeNftChar name)
      ++ str "-" ++ Sprintf_08x (fnv32a name) ∧
  len (truncateNftName name maxLen) = maxLen.
Proof.
  intros H1 H2. unfold truncateNftName. cbv zeta. rewrite truncate_suffix_len.
  destruct (Z.leb_spec maxLen 0); [lia|].
  destruct (Z.leb_spec (len (strings.Map sanitizeNftChar name)) maxLen); [lia|].
  destruct (Z.leb_spec maxLen 9); [lia|]. split; [done|].
  unfold len, Sprintf_08x in *. rewrite length_app, length_take. cbn [length app].
  rewrite length_hex_fixed. lia.
Qed.

(** C32: a derived name fits nftables' 255 bytes whatever the base and the
    suffix, has only accepted characters, and ends in the sanitised separator
    and suffix whenever these leave room for a base at all. *)
Theorem nftNameWithSuffix_bounded base separator suffix :
  len (nftNameWithSuffix base separator suffix) ≤ nftNameMaxLen ∧
  Forall (λ r, nft_char r = true) (nftNameWithSuffix base separator suffix) ∧
  (len separator + len suffix < nftNameMaxLen →
    (strings.Map sanitizeNftChar separator ++ strings.Map sanitizeNftChar suffix)
      `suffix_of` nftNameWithSuffix base separator suffix).
Proof.
  unfold nftNameWithSuffix. cbv zeta.
  pose proof (Map_sanitize_length separator) as L1. pose proof (Map_sanitize_length suffix) as L2.
  set (p := strings.Map sanitizeNftChar separator) in *.
  set (q := strings.Map sanitizeNftChar suffix) in *.
  assert (0 ≤ len p ∧ 0 ≤ len q) as [P0 Q0] by (unfold len; lia).
  destruct (Z.eqb_spec (len p + len q) 0) as [E|E].
  { split_and!; [apply truncate_length|apply truncate_chars|]. intros _.
    assert (p = [] ∧ q = []) as [-> ->].
    { unfold len in *. split; apply length_zero_iff_nil; lia. }
    apply suffix_nil. }
  destruct (Z.leb_spec nftNameMaxLen (len p + len q)).
  { split_and!; [apply truncate_length|apply truncate_chars|]. lia. }
  split_and!.
  - pose proof (truncate_length base (nftNameMaxLen - (len p + len q))) as L.
    unfold len in *. rewrite !length_app. unfold nftNameMaxLen in *. lia.
  - forall_split; [apply truncate_chars| |]; apply Map_sanitize_chars.
  - intros _. by apply suffix_app_r.
Qed.

(** a sub-chain keeps the direction of the chain it is derived from: the
    name of a ports or peers chain says ingress exactly when its policy
    chain's does, however long the policy's name is, so its rules look at the
    right address field. *)
Theorem nftNameWithSuffix_direction base separator suffix :
  Forall (λ r, nft_char r = true) base → (13 ≤ length base)%nat → len separator + len suffix ≤ 233 →
  isIngressChain (nftNameWithSuffix base separator suffix) = isIngressChain base ∧
  getAddressSuffix (nftNameWithSuffix base separator suffix) = getAddressSuffix base.
Proof.
  intros. unfold getAddressSuffix. by rewrite nftNameWithSuffix_ingress.
Qed.
End properties.

(** The name the kernel sees for an object whose name is over 31 bytes. *)
Lemma length_hash_string s : (length (hash_string s) ≤ 8)%nat.
Proof. apply length_Sprintf_x. Qed.

Lemma truncateNftName_overlong_witness :
  truncateNftName (replicate 300 97) 255 =
    take 246 (strings.Map sanitizeNftChar (replicate 300 97))
      ++ str "-" ++ Sprintf_08x (fnv32a (replicate 300 97)) ∧
  len (truncateNftName (replicate 300 97) 255) = 255.
Proof. apply (truncateNftName_overlong (replicate 300 97) 255); vm_compute; reflexivity. Defined.

(** The cases of TestTruncateNftName. *)
Example truncate_tests :
  truncateNftName "simple" 255 = str "simple" ∧ truncateNftName "hello/world" 255 = str "hello_world" ∧
  truncateNftName "anyname" 0 = [] ∧ truncateNftName "anyname" (-1) = [] ∧
  len (truncateNftName (replicate 300 122) 5) = 5 ∧ len (truncateNftName (replicate 300 122) 9) = 8.
Proof. vm_compute. by repeat split. Qed.

Lemma nftNameWithSuffix_direction_witness :
  let base := str "multi-egress-" ++ replicate 242 97 in
  isIngressChain (nftNameWithSuffix base "-" "peers-0") = isIngressChain base ∧
  getAddressSuffix (nftNameWithSuffix base "-" "peers-0") = getAddressSuffix base.
Proof.
  apply (nftNameWithSuffix_direction (str "multi-egress-" ++ replicate 242 97) "-" "peers-0").
  - apply (bool_decide_unpack _). vm_compute. exact I.
  - vm_compute. lia.
  - vm_compute. discriminate.
Defined.
