(* ===== verification/Nft.v ===== *)
(** * nftables objects

    The data of google/nftables the daemon builds and compares (tables,
    chains, rules with their expressions, sets), the comment stored in a
    rule's user data, the daemon's rule equality and the key under which it
    remembers a rule (encoder.go). *)

From S2P Require Import Prelude GoStd Names.

(** ** google/nftables/expr *)

Module expr.

Inductive VerdictKind :=
  | VerdictReturn | VerdictGoto | VerdictJump | VerdictBreak | VerdictContinue
  | VerdictDrop | VerdictAccept | VerdictStolen | VerdictQueue | VerdictRepeat | VerdictStop.

Inductive MetaKey :=
  | MetaKeyMARK | MetaKeyIIFNAME | MetaKeyOIFNAME | MetaKeyNFPROTO | MetaKeyL4PROTO
  | MetaKeyOther (n : Z).

Inductive CmpOp := CmpOpEq | CmpOpNeq | CmpOpLt | CmpOpLte | CmpOpGt | CmpOpGte.

Inductive PayloadBase :=
  | PayloadBaseLLHeader | PayloadBaseNetworkHeader | PayloadBaseTransportHeader.

Inductive CtKey := CtKeySTATE | CtKeyOther (n : Z).

(** [expr.Any]: the expression types the daemon knows, and [Other] for every
    type its type switches send to the default case. *)
Inductive Any :=
  | Meta (Key : MetaKey) (SourceRegister : bool) (Register : Z)
  | Lookup (SourceRegister DestRegister : Z) (IsDestRegSet : bool)
      (SetID : Z) (SetName : gostring) (Invert : bool)
  | Verdict (Kind : VerdictKind) (Chain : gostring)
  | Cmp (Op : CmpOp) (Register : Z) (Data : bytes)
  | Payload (OperationType DestRegister SourceRegister : Z) (Base : PayloadBase)
      (Offset Len CsumType CsumOffset CsumFlags : Z)
  | Ct (Register : Z) (SourceRegister : bool) (Key : CtKey) (Direction : Z) (OptDirection : bool)
  | Bitwise (SourceRegister DestRegister Len : Z) (Mask Xor : bytes)
  | Counter (Bytes Packets : Z)
  | Other (tag : gostring).

#[export] Instance VerdictKind_eq_dec : EqDecision VerdictKind.
Proof. solve_decision. Defined.
#[export] Instance MetaKey_eq_dec : EqDecision MetaKey.
Proof. solve_decision. Defined.
#[export] Instance CmpOp_eq_dec : EqDecision CmpOp.
Proof. solve_decision. Defined.
#[export] Instance PayloadBase_eq_dec : EqDecision PayloadBase.
Proof. solve_decision. Defined.
#[export] Instance CtKey_eq_dec : EqDecision CtKey.
Proof. solve_decision. Defined.
#[export] Instance Any_eq_dec : EqDecision Any.
Proof. solve_decision. Defined.

Definition is_Counter (e : Any) : bool := match e with Counter _ _ => true | _ => false end.
End expr.
Export (hints) expr.

(** ** Tables, chains, rules and sets *)

Definition TableFamilyINet : Z := 1.
Definition NFPROTO_IPV4 : Z := 2.
Definition NFPROTO_IPV6 : Z := 10.

Record Table := mkTable { Table_Name : gostring; Table_Family : Z }.

Record Chain := mkChain {
  Chain_Name : gostring;
  Chain_Table : Table;
  Chain_Hooknum : option Z;
  Chain_Priority : option Z;
  Chain_Type : gostring }.

(** [&nftables.Chain{Name: n, Table: t}]: a regular chain. *)
Definition regularChain (name : gostring) (t : Table) : Chain := mkChain name t None None [].

Record Rule := mkRule {
  Rule_Table : Table;
  Rule_Chain : Chain;
  Rule_Handle : Z;
  Rule_ID : Z;
  Rule_Exprs : list expr.Any;
  Rule_UserData : bytes }.

Definition set_Rule_ID (id : Z) (r : Rule) : Rule :=
  mkRule (Rule_Table r) (Rule_Chain r) (Rule_Handle r) id (Rule_Exprs r) (Rule_UserData r).
Definition set_Rule_Exprs (es : list expr.Any) (r : Rule) : Rule :=
  mkRule (Rule_Table r) (Rule_Chain r) (Rule_Handle r) (Rule_ID r) es (Rule_UserData r).

(** [&nftables.Rule{Table, Chain, UserData, Exprs}] *)
Definition newRule (t : Table) (c : Chain) (ud : bytes) (es : list expr.Any) : Rule :=
  mkRule t c 0 0 es ud.

Inductive SetDatatype :=
  | TypeIPAddr | TypeIP6Addr | TypeInetService | TypeICMP6Type | TypeIFName | TypeOther (n : Z).

Record NftSet := mkSet {
  Set_Table : Table;
  Set_ID : Z;
  Set_Name : gostring;
  Set_Anonymous : bool;
  Set_Constant : bool;
  Set_Interval : bool;
  Set_Counter : bool;
  Set_KeyType : SetDatatype;
  Set_KeyNative : bool;
  Set_Comment : gostring }.

Definition set_Set_Name (n : gostring) (s : NftSet) : NftSet :=
  mkSet (Set_Table s) (Set_ID s) n (Set_Anonymous s) (Set_Constant s) (Set_Interval s)
    (Set_Counter s) (Set_KeyType s) (Set_KeyNative s) (Set_Comment s).
Definition set_Set_ID (i : Z) (s : NftSet) : NftSet :=
  mkSet (Set_Table s) i (Set_Name s) (Set_Anonymous s) (Set_Constant s) (Set_Interval s)
    (Set_Counter s) (Set_KeyType s) (Set_KeyNative s) (Set_Comment s).

Record SetElement := mkElem {
  Key : bytes;
  IntervalEnd : bool;
  Elem_Comment : gostring }.

#[export] Instance Table_eq_dec : EqDecision Table.
Proof. solve_decision. Defined.
#[export] Instance Chain_eq_dec : EqDecision Chain.
Proof. solve_decision. Defined.
#[export] Instance Rule_eq_dec : EqDecision Rule.
Proof. solve_decision. Defined.
#[export] Instance SetDatatype_eq_dec : EqDecision SetDatatype.
Proof. solve_decision. Defined.
#[export] Instance NftSet_eq_dec : EqDecision NftSet.
Proof. solve_decision. Defined.
#[export] Instance SetElement_eq_dec : EqDecision SetElement.
Proof. solve_decision. Defined.

(** ** google/nftables/userdata *)

Module userdata.
Definition TypeComment : Z := 0.

(** One type-length-value record; the length is one byte. *)
Definition Append (udata : bytes) (typ : Z) (data : bytes) : bytes :=
  udata ++ [typ; u8 (len data)] ++ data.

Definition AppendString (udata : bytes) (typ : Z) (s : gostring) : bytes :=
  Append udata typ (s ++ [0]).

(** The loop of [Get]; the fuel is the length of the user data, of which each
    round removes at least two bytes. A record that claims more bytes than
    there are, where Go's slice expression panics, counts as absent. *)
Fixpoint Get_fuel (n : nat) (udata : bytes) (styp : Z) : option bytes :=
  match n, udata with
  | S n, typ :: l :: rest =>
    if (length rest <? Z.to_nat l)%nat then None
    else if styp =? typ then Some (take (Z.to_nat l) rest)
    else Get_fuel n (drop (Z.to_nat l) rest) styp
  | _, _ => None
  end.
Definition Get (udata : bytes) (styp : Z) : option bytes := Get_fuel (length udata) udata styp.

(** [bytes.CutSuffix(data, []byte{0})] *)
Definition CutSuffix0 (data : bytes) : bytes :=
  match last data with Some 0 => take (length data - 1) data | _ => data end.

Definition GetString (udata : bytes) (typ : Z) : option gostring := CutSuffix0 <$> Get udata typ.
End userdata.

Definition userDataCommentMaxLen : Z := 254.

Definition userDataComment (comment : gostring) : bytes :=
  let comment :=
    if userDataCommentMaxLen <? len comment then take (Z.to_nat userDataCommentMaxLen) comment
    else comment in
  userdata.AppendString [] userdata.TypeComment comment.

(** [comment, ok := userdata.GetString(rule.UserData, userdata.TypeComment)] *)
Definition ruleComment (r : Rule) : option gostring :=
  userdata.GetString (Rule_UserData r) userdata.TypeComment.

(** [ifname]: a 16-byte buffer holding the name and a terminating NUL. *)
Definition ifname (n : gostring) : bytes :=
  let src := n ++ [0] in
  take 16 (src ++ replicate 16 0).

(** ** Rule equality *)

(** One round of [ruleEqual]'s loop: the type switch on the left expression. *)
Definition exprEqual (a b : expr.Any) : bool :=
  match a with
  | expr.Counter _ _ => expr.is_Counter b
  | expr.Other _ => false
  | _ => bool_decide (a = b)
  end.

Fixpoint exprsEqual (a b : list expr.Any) : bool :=
  match a, b with
  | [], _ => true
  | x :: a, y :: b => exprEqual x y && exprsEqual a b
  | _, [] => false
  end.

Definition ruleEqual (a b : Rule) : bool :=
  if negb (bool_decide (Chain_Name (Rule_Chain a) = Chain_Name (Rule_Chain b))) then false
  else if negb (bool_decide (Table_Name (Rule_Table a) = Table_Name (Rule_Table b))) then false
  else if negb (length (Rule_Exprs a) =? length (Rule_Exprs b))%nat then false
  else if negb (bool_decide (Rule_UserData a = Rule_UserData b)) then false
  else exprsEqual (Rule_Exprs a) (Rule_Exprs b).

(** ** encoder.go *)

Record ruleData := mkRuleData {
  rd_Table : gostring;
  rd_Chain : gostring;
  rd_Family : Z;
  rd_UserData : bytes;
  rd_Exprs : list gostring }.

(** [encoding/gob] of the two struct types that are hashed. The bytes carry
    type ids the process hands out at run time, so they are an argument of
    the model; an encoding may also fail. *)
Class Gob := {
  gob_expr : expr.Any → result bytes;
  gob_ruleData : ruleData → result bytes }.

Section encoder.
Context `{Gob}.

Definition hash_bytes (b : bytes) : gostring := Sprintf_x (fnv32a b).

Definition hash_expr (e : expr.Any) : result gostring :=
  b ← wrap "failed to encode struct" (gob_expr e); mret (hash_bytes b).

(** The expressions that enter the hash: everything but the counter, whose
    value changes with traffic, and the types the daemon does not emit. *)
Definition hashed_expr (e : expr.Any) : bool :=
  match e with expr.Counter _ _ | expr.Other _ => false | _ => true end.

Fixpoint hash_exprs (es : list expr.Any) : result (list gostring) :=
  match es with
  | [] => Ok []
  | e :: es =>
    if hashed_expr e then
      v ← wrap "failed to hash expression" (hash_expr e); vs ← hash_exprs es; mret (v :: vs)
    else hash_exprs es
  end.

Definition newRuleData (rule : Rule) : result ruleData :=
  newExprs ← hash_exprs (Rule_Exprs rule);
  mret (mkRuleData (Table_Name (Rule_Table rule)) (Chain_Name (Rule_Chain rule))
          (Table_Family (Rule_Table rule)) (Rule_UserData rule) newExprs).

(** [hash] at a [*nftables.Rule]. *)
Definition hash_rule (rule : Rule) : result gostring :=
  tmp ← wrap "failed to prepare rule data" (newRuleData rule);
  b ← wrap "failed to encode struct" (gob_ruleData tmp);
  mret (hash_bytes b).
End encoder.

(** ** Lemmas *)

Lemma Get_AppendString c :
  len c < 255 →
  userdata.Get (userdata.AppendString [] userdata.TypeComment c) userdata.TypeComment = Some (c ++ [0]).
Proof.
  intros Hl. unfold userdata.AppendString, userdata.Append, userdata.Get. cbn [app length userdata.Get_fuel].
  assert (u8 (len (c ++ [0])) = len c + 1) as ->.
  { unfold u8, len in *. rewrite length_app. simpl. rewrite Z.mod_small; lia. }
  replace (Z.to_nat (len c + 1)) with (length (c ++ [0])) by (unfold len; rewrite length_app; simpl; lia).
  rewrite Nat.ltb_irrefl. simpl. by rewrite take_ge.
Qed.

Lemma CutSuffix0_snoc c : userdata.CutSuffix0 (c ++ [0]) = c.
Proof.
  unfold userdata.CutSuffix0. rewrite last_snoc, length_app. simpl.
  rewrite Nat.add_sub. by rewrite take_app_length.
Qed.

(** Reading back a comment: the first 254 bytes of it. *)
Lemma GetString_userDataComment c :
  userdata.GetString (userDataComment c) userdata.TypeComment = Some (take 254 c).
Proof.
  unfold userdata.GetString, userDataComment. cbv zeta.
  destruct (Z.ltb_spec userDataCommentMaxLen (len c)) as [H|H]; unfold userDataCommentMaxLen, len in H.
  - rewrite Get_AppendString by (unfold len; rewrite length_take; change (Z.to_nat userDataCommentMaxLen) with 254%nat; lia).
    simpl. by rewrite CutSuffix0_snoc.
  - rewrite Get_AppendString by (unfold len; lia). simpl. rewrite CutSuffix0_snoc.
    by rewrite take_ge by lia.
Qed.

Lemma length_userDataComment c : (length (userDataComment c) ≤ 257)%nat.
Proof.
  unfold userDataComment, userdata.AppendString, userdata.Append. cbv zeta. case_match eqn:E.
  - cbn [length app]. rewrite length_app, length_take. cbn [length].
    change (Z.to_nat userDataCommentMaxLen) with 254%nat. lia.
  - apply Z.ltb_ge in E. unfold len, userDataCommentMaxLen in E.
    cbn [length app]. rewrite length_app. cbn [length]. lia.
Qed.

(** Equality of expressions up to a counter's value. *)
Inductive sameExpr : expr.Any → expr.Any → Prop :=
  | same_counter b p b' p' : sameExpr (expr.Counter b p) (expr.Counter b' p')
  | same_expr e : hashed_expr e = true → sameExpr e e.

Lemma exprEqual_spec a b : exprEqual a b = true ↔ sameExpr a b.
Proof.
  split.
  - destruct a, b; simpl; intros H; try discriminate;
      try (apply bool_decide_eq_true in H; rewrite H; by apply same_expr); constructor.
  - intros []; [done|]. destruct e; simpl in *; try done; by apply bool_decide_eq_true.
Qed.

Lemma exprsEqual_spec a b :
  length a = length b → exprsEqual a b = true ↔ Forall2 sameExpr a b.
Proof.
  revert b. induction a as [|x a IH]; intros [|y b] Hl; simpl in *; try done.
  rewrite andb_true_iff, exprEqual_spec, IH by lia. split.
  - intros []. by constructor.
  - intros H. by inversion H.
Qed.

Lemma ruleEqual_spec a b :
  ruleEqual a b = true ↔
  Chain_Name (Rule_Chain a) = Chain_Name (Rule_Chain b) ∧
  Table_Name (Rule_Table a) = Table_Name (Rule_Table b) ∧
  Rule_UserData a = Rule_UserData b ∧
  Forall2 sameExpr (Rule_Exprs a) (Rule_Exprs b).
Proof.
  unfold ruleEqual. split.
  - repeat case_match; try done. intros H3.
    rewrite negb_false_iff, bool_decide_eq_true in H, H0, H2.
    apply negb_false_iff, Nat.eqb_eq in H1. split_and!; auto. by apply exprsEqual_spec.
  - intros (H1 & H2 & H3 & H4). pose proof (Forall2_length _ _ _ H4) as Hl.
    rewrite !bool_decide_eq_true_2 by done. apply Nat.eqb_eq in Hl as Hl'. rewrite Hl'. simpl.
    by apply exprsEqual_spec.
Qed.

Lemma hash_exprs_same `{Gob} a b : Forall2 sameExpr a b → hash_exprs a = hash_exprs b.
Proof.
  induction 1 as [|x y a b Hxy _ IH]; [done|]. simpl.
  destruct Hxy as [|e He]; simpl; [done|]. by rewrite He, IH.
Qed.

Lemma ruleEqual_trans a b c : ruleEqual a b = true → ruleEqual b c = true → ruleEqual a c = true.
Proof.
  rewrite !ruleEqual_spec. intros (?&?&?&Hab) (?&?&?&Hbc). split_and!; try congruence.
  revert Hbc. generalize (Rule_Exprs c). induction Hab as [|x y l k Hxy _ IH]; intros m Hm; inversion Hm; subst; constructor; auto.
  destruct Hxy; [|done]. match goal with H : sameExpr _ _ |- _ => inversion H; subst end; constructor.
Qed.

Lemma length_ifname n : length (ifname n) = 16%nat.
Proof. unfold ifname. rewrite length_take, !length_app, length_replicate. lia. Qed.

Lemma ifname_eq a b :
  (length a < 16)%nat → (length b < 16)%nat → 0 ∉ a → 0 ∉ b → ifname a = ifname b → a = b.
Proof.
  intros Ha Hb Na Nb. unfold ifname. cbv zeta. rewrite <-!app_assoc.
  rewrite (take_app_ge a), (take_app_ge b) by lia. intros H.
  assert (∀ n, (0 < n)%nat → ∃ k, take n ([0] ++ replicate 16 0) = 0 :: k) as Hz.
  { intros [|n] Hn; [lia|]. simpl. eauto. }
  destruct (Hz (16 - length a)%nat) as [ka Hka]; [lia|].
  destruct (Hz (16 - length b)%nat) as [kb Hkb]; [lia|].
  rewrite Hka, Hkb in H. clear Hka Hkb Hz Ha Hb. revert b Nb H.
  induction a as [|x a IH]; intros [|y b] Nb H; simpl in *; simplify_eq; [done|set_solver|set_solver|].
  f_equal. apply IH; set_solver.
Qed.

Lemma ruleEqual_same_hash_lemma `{Gob} a b :
  ruleEqual a b = true → Table_Family (Rule_Table a) = Table_Family (Rule_Table b) →
  hash_rule a = hash_rule b.
Proof.
  intros (HC & HT & HU & HE)%ruleEqual_spec HF. unfold hash_rule, newRuleData.
  by rewrite HC, HT, HU, HF, (hash_exprs_same _ _ HE).
Qed.

(** ** Properties *)

(** C33: a rule comment of any length is stored and read back as its first 254
    bytes: the one-byte length field never wraps. *)
Theorem userDataComment_roundtrip comment :
  userdata.GetString (userDataComment comment) userdata.TypeComment = Some (take 254 comment) ∧
  (length (userDataComment comment) ≤ 257)%nat.
Proof. split; [apply GetString_userDataComment|apply length_userDataComment]. Qed.

(** two rules [ruleEqual] accepts (same chain, table and comment, same
    expressions up to counter values) have the same [hash], so the key of a
    rule read back from the kernel is the key of the rule that was wanted. *)
Theorem ruleEqual_same_hash `{Gob} a b :
  ruleEqual a b = true → Table_Family (Rule_Table a) = Table_Family (Rule_Table b) →
  hash_rule a = hash_rule b.
Proof. apply ruleEqual_same_hash_lemma. Qed.

(** interface names that fit the kernel's IFNAMSIZ have different 16-byte
    keys, so an interface set or match never confuses two of them. *)
Theorem ifname_inj a b :
  (length a < 16)%nat → (length b < 16)%nat → 0 ∉ a → 0 ∉ b → a ≠ b → ifname a ≠ ifname b.
Proof. intros ???? Hne H. by apply Hne, ifname_eq. Qed.

Section witnesses.
#[local] Instance gob_demo : Gob :=
  {| gob_expr e := Ok [match e with expr.Meta _ _ r => r | expr.Verdict _ _ => 2 | _ => 3 end];
     gob_ruleData d := Ok (rd_Table d ++ rd_Chain d ++ rd_UserData d ++ concat (rd_Exprs d)) |}.

Definition demo_rule (n : Z) : Rule :=
  newRule (mkTable "t" TableFamilyINet) (regularChain "c" (mkTable "t" TableFamilyINet))
    (userDataComment "demo") [expr.Meta expr.MetaKeyMARK false 1; expr.Counter n n].

Lemma ruleEqual_same_hash_witness : hash_rule (demo_rule 0) = hash_rule (demo_rule 7).
Proof. apply (ruleEqual_same_hash (demo_rule 0) (demo_rule 7)); vm_compute; reflexivity. Defined.
End witnesses.

Lemma ifname_inj_witness : ifname "net1" ≠ ifname "net2".
Proof. apply (ifname_inj "net1" "net2"); apply (bool_decide_unpack _); vm_compute; exact I. Defined.
