(* ===== verification/Netip.v ===== *)
(** * IP addresses and prefixes

    Go's [net/netip] and the two functions of [net] the daemon calls, and
    go4.org/netipx's [PrefixLastIP]. An address is its value as an unsigned
    integer of 32 or 128 bits. *)

From S2P Require Import Prelude GoStd Names.

Record Addr := mkAddr { Addr_is6 : bool; Addr_val : Z; Addr_zone : gostring }.

#[export] Instance Addr_eq_dec : EqDecision Addr.
Proof. solve_decision. Defined.

Definition Is4 (a : Addr) : bool := negb (Addr_is6 a).
Definition Is6 (a : Addr) : bool := Addr_is6 a.
Definition BitLen (a : Addr) : Z := if Addr_is6 a then 128 else 32.
Definition AsSlice (a : Addr) : bytes := be_bytes (if Addr_is6 a then 16 else 4) (Addr_val a).
Definition IPv4Unspecified : Addr := mkAddr false 0 [].
Definition IPv6Unspecified : Addr := mkAddr true 0 [].

(** ** Parsing *)

(** The loop of [parseIPv4Fields]: [first] is [i == 0], [dot] is
    [s[i-1] == '.'], [fields] the octets read so far. *)
Fixpoint parseIPv4Loop (s : gostring) (first dot : bool) (val digLen : Z) (fields : bytes)
    : option bytes :=
  match s with
  | [] => if (length fields <? 3)%nat then None else Some (fields ++ [val])
  | c :: rest =>
    if is_digit c then
      if (digLen =? 1) && (val =? 0) then None
      else
        let val := val * 10 + (c - 48) in
        if 255 <? val then None else parseIPv4Loop rest false false val (digLen + 1) fields
    else if c =? 46 then
      if first || bool_decide (rest = []) || dot then None
      else if (length fields =? 3)%nat then None
      else parseIPv4Loop rest false true 0 0 (fields ++ [val])
    else None
  end.

Definition parseIPv4Fields (s : gostring) : option bytes := parseIPv4Loop s true false 0 0 [].

Definition hexval (c : Z) : option Z :=
  if is_digit c then Some (c - 48)
  else if (97 <=? c) && (c <=? 102) then Some (c - 97 + 10)
  else if (65 <=? c) && (c <=? 70) then Some (c - 65 + 10)
  else None.

(** The hexadecimal group at the head of [s]: the digits read, their value
    and the rest; [None] when a group has more than four digits. *)
Fixpoint hexGroup (s : gostring) (off acc : Z) : option (Z * Z * gostring) :=
  match s with
  | [] => Some (off, acc, [])
  | c :: rest =>
    match hexval c with
    | None => Some (off, acc, s)
    | Some d =>
      let acc := Z.shiftl acc 4 + d in
      if 3 <? off then None
      else if MaxUint16 <? acc then None
      else hexGroup rest (off + 1) acc
    end
  end.

Definition startsWith (s : gostring) (b : Z) : bool :=
  match s with c :: _ => c =? b | [] => false end.

(** The main loop of [parseIPv6]; [ip] holds the bytes read so far and the
    fuel is the eight 16-bit groups an address can have. *)
Fixpoint parseIPv6Loop (fuel : nat) (s : gostring) (ip : bytes) (ellipsis : option nat)
    : option (gostring * bytes * option nat) :=
  match fuel with
  | O => Some (s, ip, ellipsis)
  | S fuel =>
    if (16 <=? length ip)%nat then Some (s, ip, ellipsis)
    else
      match hexGroup s 0 0 with
      | None => None
      | Some (off, acc, rest) =>
        if off =? 0 then None
        else
          if startsWith rest 46 then
            if bool_decide (ellipsis = None) && negb (length ip =? 12)%nat then None
            else if (16 <? length ip + 4)%nat then None
            else match parseIPv4Fields s with
                 | None => None
                 | Some f => Some ([], ip ++ f, ellipsis)
                 end
          else
            let ip := ip ++ [Z.shiftr acc 8; Z.land acc 255] in
            match rest with
            | [] => Some ([], ip, ellipsis)
            | c :: s1 =>
              if negb (c =? 58) then None
              else match s1 with
              | [] => None
              | c2 :: s2 =>
                if c2 =? 58 then
                  if bool_decide (ellipsis = None) then
                    if bool_decide (s2 = []) then Some ([], ip, Some (length ip))
                    else parseIPv6Loop fuel s2 ip (Some (length ip))
                  else None
                else parseIPv6Loop fuel s1 ip ellipsis
              end
            end
      end
  end.

(** Split at the first occurrence of a byte: before and, if found, after. *)
Fixpoint cutByte (s : gostring) (b : Z) : gostring * option gostring :=
  match s with
  | [] => ([], None)
  | c :: s => if c =? b then ([], Some s) else let '(x, y) := cutByte s b in (c :: x, y)
  end.

Definition parseIPv6 (inp : gostring) : option Addr :=
  let '(s, z) := cutByte inp 37 in
  if bool_decide (z = Some []) then None
  else
    let zone := default [] z in
    let leading := startsWith s 58 && startsWith (drop 1 s) 58 in
    let ellipsis := if leading then Some 0%nat else None in
    let s := if leading then drop 2 s else s in
    if leading && bool_decide (s = []) then Some (mkAddr true 0 zone)
    else
      match parseIPv6Loop 8 s [] ellipsis with
      | None => None
      | Some (s, ip, ellipsis) =>
        if negb (bool_decide (s = [])) then None
        else if (length ip <? 16)%nat then
          match ellipsis with
          | None => None
          | Some e =>
            Some (mkAddr true (be_val (take e ip ++ replicate (16 - length ip) 0 ++ drop e ip)) zone)
          end
        else if bool_decide (ellipsis = None) then Some (mkAddr true (be_val ip) zone)
        else None
      end.

Definition parseIPv4 (s : gostring) : option Addr :=
  f ← parseIPv4Fields s; Some (mkAddr false (be_val f) []).

(** [netip.ParseAddr]: the first of [.], [:] and [%] decides. *)
Fixpoint ParseAddrLoop (rest s : gostring) : option Addr :=
  match rest with
  | [] => None
  | c :: rest =>
    if c =? 46 then parseIPv4 s
    else if c =? 58 then parseIPv6 s
    else if c =? 37 then None
    else ParseAddrLoop rest s
  end.
Definition ParseAddr (s : gostring) : option Addr := ParseAddrLoop s s.

(** ** Prefixes *)

Record Prefix := mkPrefix { Prefix_addr : Addr; Prefix_bits : Z }.

(** Split at the last [/]. *)
Definition cutLastSlash (s : gostring) : option (gostring * gostring) :=
  match cutByte (reverse s) 47 with
  | (suf, Some pre) => Some (reverse pre, reverse suf)
  | _ => None
  end.

(** [netip.ParsePrefix] *)
Definition ParsePrefix (s : gostring) : option Prefix :=
  '(a, bitsStr) ← cutLastSlash s;
  ip ← ParseAddr a;
  if Is6 ip && negb (bool_decide (Addr_zone ip = [])) then None
  else if match bitsStr with
          | c :: _ :: _ => negb ((49 <=? c) && (c <=? 57))
          | _ => false
          end then None
  else
    bits ← Atoi bitsStr;
    if (bits <? 0) || (BitLen ip <? bits) then None else Some (mkPrefix ip bits).

(** [prefix.Masked().Addr()] *)
Definition MaskedAddr (p : Prefix) : Addr :=
  let a := Prefix_addr p in
  let h := BitLen a - Prefix_bits p in
  mkAddr (Addr_is6 a) (Z.shiftl (Z.shiftr (Addr_val a) h) h) [].

(** [netipx.PrefixLastIP]: set every host bit, one at a time. *)
Definition PrefixLastIP (p : Prefix) : Addr :=
  let a := Prefix_addr p in
  let w := BitLen a in
  mkAddr (Addr_is6 a)
    (foldl (λ v b, Z.lor v (Z.shiftl 1 (w - 1 - b))) (Addr_val a)
       (seqZ (Prefix_bits p) (w - Prefix_bits p))) [].

(** [Addr.Next]: [None] is the zero [netip.Addr] it returns past the last
    address. *)
Definition Next (a : Addr) : option Addr :=
  let v := (Addr_val a + 1) mod 2 ^ BitLen a in
  if v =? 0 then None else Some (mkAddr (Addr_is6 a) v (Addr_zone a)).

(** ** net *)

(** [net.ParseIP]: the 16-byte form; an IPv4 address is mapped. *)
Definition As16 (a : Addr) : bytes :=
  if Addr_is6 a then be_bytes 16 (Addr_val a)
  else replicate 10 0 ++ [255; 255] ++ be_bytes 4 (Addr_val a).

Definition ParseIP (s : gostring) : option bytes :=
  a ← ParseAddr s;
  if bool_decide (Addr_zone a = []) then Some (As16 a) else None.

(** [IP.To4] of a 16-byte address. *)
Definition To4 (ip : bytes) : option bytes :=
  if bool_decide (take 12 ip = replicate 10 0 ++ [255; 255]) then Some (drop 12 ip) else None.

(** ** Well-formed addresses and prefixes *)

Definition Addr_wf (a : Addr) : Prop := 0 ≤ Addr_val a < 2 ^ BitLen a.
Definition Prefix_wf (p : Prefix) : Prop :=
  Addr_wf (Prefix_addr p) ∧ 0 ≤ Prefix_bits p ≤ BitLen (Prefix_addr p).

(** The addresses of a prefix, of the prefix's family: those that agree with
    it on the network bits. *)
Definition in_prefix (p : Prefix) (v : Z) : Prop :=
  let h := BitLen (Prefix_addr p) - Prefix_bits p in
  Z.shiftr v h = Z.shiftr (Addr_val (Prefix_addr p)) h.

Example parse_examples :
  ParseAddr "10.0.0.1" = Some (mkAddr false 0x0A000001 []) ∧
  ParseAddr "fd00::1:2" = Some (mkAddr true 0xfd000000000000000000000000010002 []) ∧
  ParseAddr "::ffff:1.2.3.4" = Some (mkAddr true 0xffff01020304 []) ∧
  ParseAddr "::" = Some IPv6Unspecified ∧
  ParseAddr "fe80::1%eth0" = Some (mkAddr true 0xfe800000000000000000000000000001 "eth0") ∧
  ParseAddr "1.2.3" = None ∧ ParseAddr "1.2.3.04" = None ∧ ParseAddr "1:2:3:4:5:6:7" = None ∧
  ParseAddr "1::2::3" = None ∧ ParseAddr "12345::" = None ∧ ParseAddr "1:2:3:4:5:6:7:8::" = None.
Proof. vm_compute. by repeat split. Qed.

Example prefix_examples :
  ParsePrefix "10.1.2.3/24" = Some (mkPrefix (mkAddr false 0x0A010203 []) 24) ∧
  ParsePrefix "ff00::/8" = Some (mkPrefix (mkAddr true (Z.shiftl 0xff 120) []) 8) ∧
  ParsePrefix "10.0.0.0/33" = None ∧ ParsePrefix "10.0.0.0/08" = None ∧
  ParsePrefix "10.0.0.0" = None ∧ ParsePrefix "fe80::%eth0/10" = None.
Proof. vm_compute. by repeat split. Qed.

(** ** Lemmas: parsed addresses are in range *)

Lemma is_digit_range c : is_digit c = true → 48 ≤ c ≤ 57.
Proof. unfold is_digit. lia. Qed.

Lemma parseIPv4Loop_bytes s first dot val digLen fields f :
  0 ≤ val ≤ 255 → Forall is_byte fields → (length fields ≤ 3)%nat →
  parseIPv4Loop s first dot val digLen fields = Some f →
  Forall is_byte f ∧ length f = 4%nat.
Proof.
  revert first dot val digLen fields.
  induction s as [|c s IH]; intros first dot val digLen fields Hv Hf Hl; simpl.
  - destruct (Nat.ltb_spec (length fields) 3); [done|]. intros [= <-]. split.
    + forall_split; [done|unfold is_byte; lia].
    + rewrite length_app. simpl. lia.
  - destruct (is_digit c) eqn:Ed.
    + apply is_digit_range in Ed. case_match; [done|].
      destruct (Z.ltb_spec 255 (val * 10 + (c - 48))); [done|]. apply IH; [lia|done|done].
    + destruct (c =? 46); [|done]. case_match; [done|].
      destruct (Nat.eqb_spec (length fields) 3); [done|]. apply IH.
      * lia.
      * forall_split; [done|unfold is_byte; lia].
      * rewrite length_app. simpl. lia.
Qed.

Lemma parseIPv4Fields_bytes s f :
  parseIPv4Fields s = Some f → Forall is_byte f ∧ length f = 4%nat.
Proof. apply parseIPv4Loop_bytes; [lia|constructor|simpl; lia]. Qed.

Lemma hexval_range c d : hexval c = Some d → 0 ≤ d < 16.
Proof. unfold hexval, is_digit. repeat case_match; intros; simplify_eq; lia. Qed.

Lemma hexGroup_range s off acc off' acc' rest :
  0 ≤ acc ≤ MaxUint16 → hexGroup s off acc = Some (off', acc', rest) → 0 ≤ acc' ≤ MaxUint16.
Proof.
  revert off acc. induction s as [|c s IH]; intros off acc Hacc; simpl; [by intros [= <- <- <-]|].
  destruct (hexval c) as [d|] eqn:Ed; [|by intros [= <- <- <-]].
  apply hexval_range in Ed. case_match; [done|].
  destruct (Z.ltb_spec MaxUint16 (Z.shiftl acc 4 + d)); [done|]. apply IH.
  rewrite Z.shiftl_mul_pow2 in * by lia. lia.
Qed.

Lemma shiftr8_byte acc : 0 ≤ acc ≤ MaxUint16 → is_byte (Z.shiftr acc 8) ∧ is_byte (Z.land acc 255).
Proof.
  intros H. unfold is_byte, MaxUint16 in *. split.
  - rewrite Z.shiftr_div_pow2 by lia. change (2 ^ 8) with 256. split; [apply Z.div_pos; lia|].
    apply Z.div_lt_upper_bound; lia.
  - change 255 with (Z.ones 8). rewrite Z.land_ones by lia. apply Z.mod_pos_bound. lia.
Qed.

Lemma parseIPv6Loop_bytes fuel s ip e s' ip' e' :
  Forall is_byte ip → (length ip ≤ 16)%nat → Nat.Even (length ip) →
  parseIPv6Loop fuel s ip e = Some (s', ip', e') →
  Forall is_byte ip' ∧ (length ip' ≤ 16)%nat.
Proof.
  revert s ip e. induction fuel as [|fuel IH]; intros s ip e Hb Hl He;
    cbn [parseIPv6Loop]; [by intros [= <- <- <-]|].
  destruct (Nat.leb_spec 16 (length ip)) as [|Hlt]; [by intros [= <- <- <-]|].
  destruct (hexGroup s 0 0) as [[[off acc] rest]|] eqn:Eh; [|done].
  apply hexGroup_range in Eh; [|unfold MaxUint16; lia]. destruct (shiftr8_byte acc Eh) as [B1 B2].
  destruct (off =? 0); [done|].
  assert (Forall is_byte (ip ++ [Z.shiftr acc 8; Z.land acc 255])) as Hb' by (by forall_split).
  assert (length (ip ++ [Z.shiftr acc 8; Z.land acc 255]) = length ip + 2)%nat as Hl2
    by (rewrite length_app; done).
  assert (Nat.Even (length ip + 2)) as He' by (destruct He as [k ->]; exists (k + 1)%nat; lia).
  assert (length ip + 2 ≤ 16)%nat as Hl' by (destruct He as [k Hk]; lia).
  assert (∀ s1 e1, parseIPv6Loop fuel s1 (ip ++ [Z.shiftr acc 8; Z.land acc 255]) e1 = Some (s', ip', e') →
    Forall is_byte ip' ∧ (length ip' ≤ 16)%nat) as Hrec
    by (intros s1 e1; apply IH; rewrite ?Hl2; done).
  clear IH. intros H. repeat (case_match; simplify_eq; eauto; try (by rewrite Hl2)).
  match goal with H : parseIPv4Fields _ = Some _ |- _ => apply parseIPv4Fields_bytes in H as [? Hf] end.
  split; [by forall_split|]. rewrite length_app, Hf.
  match goal with H : (16 <? _)%nat = false |- _ => apply Nat.ltb_ge in H; lia end.
Qed.

Lemma be_val_16 ip : Forall is_byte ip → length ip = 16%nat → 0 ≤ be_val ip < 2 ^ 128.
Proof. intros H Hl. apply be_val_bound in H. by rewrite Hl in H. Qed.

Lemma parseIPv6_wf s a : parseIPv6 s = Some a → Addr_is6 a = true ∧ Addr_wf a.
Proof.
  unfold parseIPv6, Addr_wf, BitLen. destruct (cutByte s 37) as [s1 z].
  case_match; [done|]. cbv zeta. case_match.
  { intros [= <-]. simpl. split; [done|lia]. }
  destruct (parseIPv6Loop 8 _ [] _) as [[[s2 ip] e]|] eqn:Ep; [|done].
  apply parseIPv6Loop_bytes in Ep as [Hb Hl]; [|constructor|simpl; lia|by exists 0%nat].
  destruct (negb _); [done|]. destruct (Nat.ltb_spec (length ip) 16).
  - destruct e as [e|]; [|done]. intros [= <-]. split; [done|]. simpl. apply be_val_16.
    + forall_split; [by apply Forall_take|apply Forall_replicate; unfold is_byte; lia|by apply Forall_drop].
    + rewrite !length_app, length_take, length_replicate, length_drop. lia.
  - destruct (bool_decide (e = None)); [|done]. intros [= <-]. split; [done|].
    apply be_val_16; [done|lia].
Qed.

Lemma ParseAddr_wf s a : ParseAddr s = Some a → Addr_wf a.
Proof.
  unfold ParseAddr. generalize s at 2. induction s as [|c s IH]; intros t; simpl; [done|].
  destruct (c =? 46); [|destruct (c =? 58); [|destruct (c =? 37); [done|apply IH]]]; intros H';
    [|by destruct (parseIPv6_wf _ _ H')].
  unfold parseIPv4 in H'. destruct (parseIPv4Fields t) as [f|] eqn:Ef; simpl in H'; simplify_eq.
  apply parseIPv4Fields_bytes in Ef as [Hb Hl]. apply be_val_bound in Hb. rewrite Hl in Hb. done.
Qed.

Lemma ParsePrefix_wf s p : ParsePrefix s = Some p → Prefix_wf p.
Proof.
  unfold ParsePrefix. destruct (cutLastSlash s) as [[a b]|]; simpl; [|done].
  destruct (ParseAddr a) as [ip|] eqn:Ea; simpl; [|done].
  destruct (Is6 ip && _); [done|]. destruct (match b with [] => _ | _ => _ end); [done|].
  destruct (Atoi b) as [bits|]; simpl; [|done].
  destruct ((bits <? 0) || _) eqn:E; [done|]. intros [= <-].
  split; [by eapply ParseAddr_wf|]. simpl. lia.
Qed.

(** ** Lemmas: the bounds of a prefix *)

Lemma MaskedAddr_val p :
  Prefix_wf p →
  Addr_val (MaskedAddr p) =
    2 ^ (BitLen (Prefix_addr p) - Prefix_bits p) *
    (Addr_val (Prefix_addr p) / 2 ^ (BitLen (Prefix_addr p) - Prefix_bits p)).
Proof.
  intros [_ H]. simpl. rewrite Z.shiftl_mul_pow2, Z.shiftr_div_pow2 by lia. lia.
Qed.

(** Setting the bits [lo .. w-1] counted from the top, as [PrefixLastIP] does. *)
Lemma set_host_bits w lo v :
  0 ≤ lo ≤ w →
  foldl (λ v b, Z.lor v (Z.shiftl 1 (w - 1 - b))) v (seqZ lo (w - lo)) = Z.lor v (Z.ones (w - lo)).
Proof.
  intros H. remember (Z.to_nat (w - lo)) as n eqn:Hn. revert lo v H Hn.
  induction n as [|n IH]; intros lo v H Hn.
  - replace (w - lo) with 0 by lia. simpl. by rewrite Z.lor_0_r.
  - rewrite seqZ_cons by lia. simpl. replace (Z.pred (w - lo)) with (w - Z.succ lo) by lia.
    rewrite IH by lia. rewrite <-Z.lor_assoc. f_equal. apply Z.bits_inj'. intros i Hi.
    rewrite Z.lor_spec, Z.shiftl_1_l, Z.pow2_bits_eqb by lia.
    destruct (Z.eqb_spec (w - 1 - lo) i) as [<-|].
    + rewrite orb_true_l. symmetry. apply Z.ones_spec_low. lia.
    + rewrite orb_false_l. destruct (Z.ltb_spec i (w - lo)).
      * rewrite !Z.ones_spec_low; [done|lia|lia].
      * rewrite !Z.ones_spec_high; [done|lia|lia].
Qed.

Lemma lor_ones v h : 0 ≤ h → Z.lor v (Z.ones h) = 2 ^ h * (v / 2 ^ h) + 2 ^ h - 1.
Proof.
  intros Hh. transitivity (Z.lor (Z.shiftl (v / 2 ^ h) h) (Z.ones h)).
  - apply Z.bits_inj'. intros i Hi. rewrite !Z.lor_spec, Z.shiftl_spec by lia.
    destruct (Z.ltb_spec i h).
    + rewrite Z.ones_spec_low by lia. by rewrite !orb_true_r.
    + rewrite Z.ones_spec_high by lia. rewrite !orb_false_r, <-Z.shiftr_div_pow2, Z.shiftr_spec by lia.
      f_equal. lia.
  - rewrite <-Z.add_nocarry_lor.
    + rewrite Z.shiftl_mul_pow2, Z.ones_equiv by lia. lia.
    + rewrite Z.land_ones, Z.shiftl_mul_pow2 by lia. apply Z.mod_mul.
      pose proof (Z.pow_pos_nonneg 2 h). lia.
Qed.

Lemma PrefixLastIP_val p :
  Prefix_wf p →
  Addr_val (PrefixLastIP p) =
    Addr_val (MaskedAddr p) + 2 ^ (BitLen (Prefix_addr p) - Prefix_bits p) - 1.
Proof.
  intros Hp. rewrite MaskedAddr_val by done. destruct Hp as [_ H].
  unfold PrefixLastIP. cbn [Addr_val]. rewrite set_host_bits by done. apply lor_ones. lia.
Qed.

(** A prefix is the half-open range from its masked address. *)
Lemma in_prefix_range p v :
  Prefix_wf p →
  in_prefix p v ↔
  Addr_val (MaskedAddr p) ≤ v < Addr_val (MaskedAddr p) + 2 ^ (BitLen (Prefix_addr p) - Prefix_bits p).
Proof.
  intros Hp. rewrite MaskedAddr_val by done. destruct Hp as [_ H]. unfold in_prefix.
  set (h := BitLen (Prefix_addr p) - Prefix_bits p). assert (0 ≤ h) by (unfold h; lia).
  rewrite !Z.shiftr_div_pow2 by lia. pose proof (Z.pow_pos_nonneg 2 h). split.
  - intros <-. pose proof (Z.div_mod v (2 ^ h)). pose proof (Z.mod_pos_bound v (2 ^ h)). lia.
  - intros Hr. symmetry. apply (Z.div_unique_pos v (2 ^ h) _ (v - 2 ^ h * (Addr_val (Prefix_addr p) / 2 ^ h))); lia.
Qed.

(** The masked range stays within the address space. *)
Lemma prefix_top p :
  Prefix_wf p →
  0 ≤ Addr_val (MaskedAddr p) ∧
  Addr_val (MaskedAddr p) + 2 ^ (BitLen (Prefix_addr p) - Prefix_bits p) ≤ 2 ^ BitLen (Prefix_addr p).
Proof.
  intros Hp. rewrite MaskedAddr_val by done. destruct Hp as [Ha H]. unfold Addr_wf in Ha.
  set (w := BitLen (Prefix_addr p)) in *. set (h := w - Prefix_bits p).
  assert (2 ^ w = 2 ^ h * 2 ^ (Prefix_bits p)) as Hw by (rewrite <-Z.pow_add_r by lia; f_equal; lia).
  pose proof (Z.pow_pos_nonneg 2 h). pose proof (Z.pow_pos_nonneg 2 (Prefix_bits p)).
  assert (0 ≤ Addr_val (Prefix_addr p) / 2 ^ h) by (apply Z.div_pos; lia).
  assert (Addr_val (Prefix_addr p) / 2 ^ h < 2 ^ Prefix_bits p) by (apply Z.div_lt_upper_bound; lia).
  nia.
Qed.
