(* ===== verification/Api.v ===== *)
(** * The policy API and the pod data

    The MultiNetworkPolicy types (k8s.cni.cncf.io/v1beta1) and the records of
    pkg/controllers the rule generator reads. Label selectors are
    apimachinery's: an interface with the four functions the daemon calls. *)

From S2P Require Import Prelude GoStd Names.

(** ** apimachinery: label selectors *)

Abbreviation Labels := (gmap gostring gostring).

Class LabelApi := {
  LabelSelector : Type;
  Selector : Type;
  ls_Size : LabelSelector → Z;
  ls_String : LabelSelector → gostring;
  LabelSelectorAsSelector : LabelSelector → result Selector;
  labels_Everything : Selector;
  sel_Matches : Selector → Labels → bool }.

(** ** MultiNetworkPolicy *)

(** [intstr.IntOrString]; the integer is an [int32]. *)
Inductive IntOrString :=
  | FromInt (IntVal : Z)
  | FromString (StrVal : gostring).

Definition ProtocolTCP : gostring := "TCP".
Definition ProtocolUDP : gostring := "UDP".
Definition ProtocolSCTP : gostring := "SCTP".

Record MultiNetworkPolicyPort := mkPort {
  Port_Protocol : option gostring;
  Port_Port : option IntOrString;
  Port_EndPort : option Z }.

Record IPBlock := mkIPBlock { CIDR : gostring; Except : list gostring }.

Section api.
Context `{LabelApi}.

Record MultiNetworkPolicyPeer := mkPeer {
  Peer_PodSelector : option LabelSelector;
  Peer_NamespaceSelector : option LabelSelector;
  Peer_IPBlock : option IPBlock }.

(** An ingress rule (with [From]) or an egress rule (with [To]). *)
Record MultiNetworkPolicyRule := mkPolicyRule {
  PRule_Ports : list MultiNetworkPolicyPort;
  PRule_Peers : list MultiNetworkPolicyPeer }.

(** [nil] and an empty slice differ for [Ingress] and [Egress]. *)
Record MultiNetworkPolicySpec := mkSpec {
  Spec_PodSelector : LabelSelector;
  Spec_Ingress : option (list MultiNetworkPolicyRule);
  Spec_Egress : option (list MultiNetworkPolicyRule);
  Spec_PolicyTypes : list gostring }.

Record MultiNetworkPolicy := mkPolicy {
  Policy_Namespace : gostring;
  Policy_Name : gostring;
  Policy_Annotations : Labels;
  Policy_Generation : Z;
  Policy_Spec : MultiNetworkPolicySpec }.

(** [policyNamespacedName] (server.go) and [policyRuleNamespacedName]. *)
Definition policyNamespacedName (o : MultiNetworkPolicy) : gostring :=
  Policy_Namespace o ++ str "/" ++ Policy_Name o.
Definition policyRuleNamespacedName (o : MultiNetworkPolicy) : gostring :=
  Policy_Namespace o ++ str "-" ++ Policy_Name o.
End api.

(** ** pkg/controllers *)

Record InterfaceInfo := mkIface {
  NetattachName : gostring;
  InterfaceName : gostring;
  InterfaceType : gostring;
  IPs : list gostring }.

(** [InterfaceInfo.CheckPolicyNetwork] *)
Definition CheckPolicyNetwork (info : InterfaceInfo) (policyNetworks : list gostring) : bool :=
  existsb (λ n, bool_decide (n = NetattachName info)) policyNetworks.

(** The parts of a [netdefv1.NetworkStatus] the daemon reads. *)
Record NetworkStatus := mkNetStatus {
  NSt_Name : gostring;
  NSt_Interface : gostring;
  NSt_IPs : list gostring }.

Record PodInfo := mkPodInfo {
  PI_Name : gostring;
  PI_Namespace : gostring;
  PI_NetNSPath : gostring;
  PI_NetworkStatus : list NetworkStatus;
  PI_NodeName : gostring;
  PI_Interfaces : list InterfaceInfo }.

(** [PodInfo.CheckPolicyNetwork] *)
Definition PodInfo_CheckPolicyNetwork (info : PodInfo) (policyNetworks : list gostring) : bool :=
  existsb (λ intf, existsb (λ n, bool_decide (n = NetattachName intf)) policyNetworks)
    (PI_Interfaces info).

Record NamespaceInfo := mkNsInfo { NS_Name : gostring; NS_Labels : Labels }.

(** The parts of a [corev1.Pod] the daemon reads. *)
Record ContainerStatus := mkContainerStatus {
  CS_Name : gostring;
  CS_ContainerID : gostring;
  CS_Running : bool }.

Record Pod := mkPod {
  Pod_Name : gostring;
  Pod_Namespace : gostring;
  Pod_Labels : Labels;
  Pod_Annotations : Labels;
  Pod_NodeName : gostring;
  Pod_HostNetwork : bool;
  Pod_Phase : gostring;
  Pod_ContainerStatuses : list ContainerStatus }.

(** [controllers.PolicyDeps] (deps.go): what the rule generator asks of the
    rest of the daemon. *)
Record PolicyDeps `{LabelApi} := mkDeps {
  ListPods : Selector → result (list Pod);
  GetNamespaceInfo : gostring → result NamespaceInfo;
  GetPodInfo : Pod → result PodInfo }.

Record CommonRuleConfig := mkCommonCfg {
  AcceptICMPv6 : bool;
  AcceptICMP : bool;
  AllowSrcPrefix : list gostring;
  AllowDstPrefix : list gostring }.

(** ** Lemmas *)

Lemma CheckPolicyNetwork_spec info nets :
  CheckPolicyNetwork info nets = true ↔ NetattachName info ∈ nets.
Proof.
  unfold CheckPolicyNetwork. rewrite existsb_exists. setoid_rewrite bool_decide_eq_true.
  setoid_rewrite <-list_elem_of_In. naive_solver.
Qed.

(** A pod is a target of a policy exactly when one of its interfaces is. *)
Lemma PodInfo_CheckPolicyNetwork_spec info nets :
  PodInfo_CheckPolicyNetwork info nets = true ↔
  ∃ i, i ∈ PI_Interfaces info ∧ CheckPolicyNetwork i nets = true.
Proof.
  unfold PodInfo_CheckPolicyNetwork. rewrite existsb_exists.
  setoid_rewrite <-list_elem_of_In. done.
Qed.
