(* ===== verification/PodInfo.v ===== *)
(** * Pod information

    pkg/controllers/netns.go, pod.go and pkg/utils/node.go: which pods are
    targets, the network namespace of a pod as the container runtime tells it,
    and the interfaces of a pod from its network annotations. The annotation
    readers are those of the network-attachment-definition client. JSON
    decoding and the container runtime are interfaces. *)

From Stdlib Require Import Floats.SpecFloat.
From S2P Require Import Prelude GoStd Text Names Api.

(** ** What the standard library and the runtime provide *)

(** A decoded [interface{}]. An object has each key once. *)
Inductive JSON :=
  | JNull
  | JBool (b : bool)
  | JNumber (f : spec_float)
  | JString (s : gostring)
  | JArray (l : list JSON)
  | JObject (m : list (gostring * JSON)).

(** [netdefv1.NetworkSelectionElement], the parts read. *)
Record NetworkSelectionElement := mkNSE {
  NSE_Name : gostring;
  NSE_Namespace : gostring;
  NSE_InterfaceRequest : gostring }.

(** [json.Unmarshal] at the types the daemon decodes into. A slice of
    pointers may hold [nil]; a failing decode of a slice leaves what it had
    decoded, of the empty input nothing. Decoding returns errors and does not
    panic. *)
Class Json := {
  json_any : gostring → result JSON;
  json_selections : gostring → result (list (option NetworkSelectionElement));
  json_statuses : gostring → list NetworkStatus * option error;
  json_statuses_empty : (json_statuses []).1 = [];
  json_any_calm s e : json_any s = Err e → isPanic e = false;
  json_selections_calm s e : json_selections s = Err e → isPanic e = false }.

(** [int(f)] of a [float64] outside the range of [int], which Go leaves to the
    implementation. *)
Class FloatConv := float_overflow : spec_float → Z.

(** The container runtime: the [info] map of a container's verbose status. *)
Class ContainerRuntime := {
  CriClient : Type;
  ContainerStatus_info : CriClient → gostring → result (gmap gostring gostring);
  ContainerStatus_calm cri id e : ContainerStatus_info cri id = Err e → isPanic e = false }.

(** [slices.SortFunc] by a string key: a sorted permutation, the order of
    equal elements left open. *)
Class Sorting := {
  SortFunc {A} : (A → A → comparison) → list A → list A;
  SortFunc_perm {A} (key : A → gostring) l :
    SortFunc (λ a b, strings.Compare (key a) (key b)) l ≡ₚ l;
  SortFunc_sorted {A} (key : A → gostring) l :
    StronglySorted (λ a b, str_le (key a) (key b))
      (SortFunc (λ a b, strings.Compare (key a) (key b)) l) }.

Definition float_trunc (f : spec_float) : option Z :=
  match f with
  | S754_zero _ => Some 0
  | S754_finite neg m e =>
    let v := if 0 <=? e then Z.pos m * 2 ^ e else Z.pos m / 2 ^ (- e) in
    Some (if neg then - v else v)
  | _ => None
  end.

Definition int_of_float `{FloatConv} (f : spec_float) : Z :=
  match float_trunc f with
  | Some z => if (- 2 ^ 63 <=? z) && (z <? 2 ^ 63) then z else float_overflow f
  | None => float_overflow f
  end.

Definition json_field (k : gostring) (m : list (gostring * JSON)) : option JSON :=
  snd <$> List.find (λ p, bool_decide (p.1 = k)) m.

(** ** pod.go and node.go *)

Definition PodRunning : gostring := "Running".

Definition IsMultiNetworkpolicyTarget (pod : Pod) : bool :=
  if negb (bool_decide (Pod_Phase pod = PodRunning)) then false
  else negb (Pod_HostNetwork pod).

Definition Cri : gostring := "cri".

(** [RuntimeKind.Set] *)
Definition RuntimeKind_Set `{Unicode} (s : gostring) : result gostring :=
  let runtime := ToLower s in
  if bool_decide (runtime = Cri) then Ok runtime
  else Err (ErrOther (str "invalid container-runtime option " ++ s)).

(** The methods of [pflag.Value]. *)
Definition RuntimeKind_String (rk : gostring) : gostring := rk.
Definition RuntimeKind_Type (_ : gostring) : gostring := "RuntimeKind".

(** [strings.Split(s, ".")[0]] *)
Definition shortName (s : gostring) : gostring := default [] (head (strings.Split s 46)).

Definition CheckNodeNameIdentical (s1 s2 : gostring) : bool :=
  bool_decide (shortName s1 = shortName s2).

(** ** netns.go *)

Definition selectContainerID (statuses : list ContainerStatus) : gostring :=
  match List.find (λ s, negb (bool_decide (CS_ContainerID s = [])) && CS_Running s) statuses with
  | Some s => CS_ContainerID s
  | None =>
    match List.find (λ s, negb (bool_decide (CS_ContainerID s = []))) statuses with
    | Some s => CS_ContainerID s
    | None => []
    end
  end.

Definition netnsPathOf (pid : Z) : gostring := str "/proc/" ++ itoa pid ++ str "/ns/net".

Section netns.
Context `{Json} `{FloatConv} `{ContainerRuntime}.

(** The type assertion on the decoded info is unchecked: on a value that is no
    object it panics. *)
Definition GetPodNetNSPathWithContext (criClient : option CriClient) (pod : Pod) : result gostring :=
  if negb (bool_decide (Pod_Phase pod = PodRunning)) then Err (ErrOther "pod is not running")
  else if bool_decide (Pod_ContainerStatuses pod = []) then Err (ErrOther "no container status")
  else
    let containerIDRaw := selectContainerID (Pod_ContainerStatuses pod) in
    if bool_decide (containerIDRaw = []) then Err (ErrOther "no container ID")
    else
      match Cut containerIDRaw "://" with
      | None => Err (ErrOther (str "invalid container ID " ++ containerIDRaw))
      | Some (_, containerID) =>
        if bool_decide (containerID = []) then Err (ErrOther (str "invalid container ID " ++ containerIDRaw))
        else match criClient with
             | None => Err (ErrOther "cannot find cri client")
             | Some cri =>
               info ← wrap "cannot get containerStatus" (ContainerStatus_info cri containerID);
               infop ← wrap "cannot unmarshal containerStatus info"
                         (json_any (default [] (info !! (str "info"))));
               match infop with
               | JObject m =>
                 match json_field "pid" m with
                 | Some (JNumber pid) => Ok (netnsPathOf (int_of_float pid))
                 | _ => Err (ErrOther "cannot get pid from containerStatus info")
                 end
               | _ => Err (ErrPanic "interface conversion")
               end
             end
      end.
End netns.

(** ** Network annotations (net-attach-def.go) *)

Definition NetworkAttachmentAnnot : gostring := "k8s.v1.cni.cncf.io/networks".
Definition NetworkStatusAnnot : gostring := "k8s.v1.cni.cncf.io/network-status".

Definition is_alnum (b : Z) : bool := ((97 <=? b) && (b <=? 122)) || is_digit b.

(** [^[a-z0-9]([-a-z0-9]*[a-z0-9])?$] *)
Definition isLabel (s : gostring) : bool :=
  match head s, last s with
  | Some a, Some z => is_alnum a && is_alnum z && forallb (λ b, is_alnum b || (b =? 45)) s
  | _, _ => false
  end.

Definition parsePodNetworkObjectText (podnetwork : gostring) : result (gostring * gostring * gostring) :=
  '(netNsName, networkName) ← match strings.Split podnetwork 47 with
    | [a; b] => Ok (TrimSpace a, b)
    | [a] => Ok ([], a)
    | _ => Err (ErrOther "Invalid network object (failed at '/')")
    end;
  '(networkName, netIfName) ← match strings.Split networkName 64 with
    | [n] => Ok (TrimSpace n, [])
    | [n; i] => Ok (TrimSpace n, TrimSpace i)
    | _ => Err (ErrOther "Invalid network object (failed at '@')")
    end;
  if forallb (λ item, isLabel item || bool_decide (item = [])) [netNsName; networkName; netIfName]
  then Ok (netNsName, networkName, netIfName)
  else Err (ErrOther "Failed to parse: one or more items did not match comma-delimited format").

Definition mapR {A B} (f : A → result B) (l : list A) : result (list B) :=
  foldR l [] (λ acc x, b ← f x; Ok (acc ++ [b])).

Section annotations.
Context `{Json}.

(** The defaulting loop writes through the decoded pointers: [nil] panics. *)
Definition ParseNetworkAnnotation (podNetworks defaultNamespace : gostring)
    : result (list NetworkSelectionElement) :=
  if bool_decide (podNetworks = []) then
    Err (ErrOther "parsePodNetworkAnnotation: pod annotation not having network as key")
  else
    networks ←
      (if existsb (λ b, bool_decide (b ∈ [91; 123; 34])) podNetworks then
         wrap "parsePodNetworkAnnotation: failed to parse JSON" (json_selections podNetworks)
       else
         mapR (λ item, '(ns, name, ifname) ← wrap "parsePodNetworkAnnotation"
                           (parsePodNetworkObjectText (TrimSpace item));
                       Ok (Some (mkNSE name ns ifname)))
           (strings.Split podNetworks 44));
    mapR (λ net, match net with
                 | None => Err (ErrPanic "nil pointer dereference")
                 | Some n =>
                   Ok (if bool_decide (NSE_Namespace n = []) then
                         mkNSE (NSE_Name n) defaultNamespace (NSE_InterfaceRequest n)
                       else n)
                 end) networks.

Definition annotation (pod : Pod) (key : gostring) : gostring := default [] (Pod_Annotations pod !! key).

Definition ParsePodNetworkAnnotation (pod : Pod) : result (list NetworkSelectionElement) :=
  if bool_decide (annotation pod NetworkAttachmentAnnot = []) then
    Err (ErrOther "no kubernetes network found")
  else ParseNetworkAnnotation (annotation pod NetworkAttachmentAnnot) (Pod_Namespace pod).

Definition GetNetworkStatus (pod : Pod) : list NetworkStatus * option error :=
  match Pod_Annotations pod !! NetworkStatusAnnot with
  | None => ([], Some (ErrOther "cannot find network status"))
  | Some s => json_statuses s
  end.
End annotations.

(** ** NewPodInfoFromPod *)

Abbreviation NamespacedName := (gostring * gostring)%type.

Section podinfo.
Context `{Json} `{FloatConv} `{ContainerRuntime} `{Sorting}.

Definition attachmentOf (pod : Pod) (n : NetworkSelectionElement) : NamespacedName :=
  (if bool_decide (NSE_Namespace n = []) then Pod_Namespace pod else NSE_Namespace n, NSE_Name n).

(** [networkPluginsMap]: each attachment is resolved once. *)
Definition addPlugin (GetPluginType : NamespacedName → result gostring) (pod : Pod)
    (m : gmap NamespacedName gostring) (n : NetworkSelectionElement) : result (gmap NamespacedName gostring) :=
  let namespacedName := attachmentOf pod n in
  match m !! namespacedName with
  | Some _ => Ok m
  | None =>
    pluginType ← wrap "resolve plugin type for network attachment" (GetPluginType namespacedName);
    Ok (<[namespacedName := pluginType]> m)
  end.
Definition pluginsMap (GetPluginType : NamespacedName → result gostring) (pod : Pod)
    (networks : list NetworkSelectionElement) : result (gmap NamespacedName gostring) :=
  foldR networks ∅ (addPlugin GetPluginType pod).

(** The attachment a status names. *)
Definition statusName (pod : Pod) (s : NetworkStatus) : NamespacedName :=
  match strings.Split (NSt_Name s) 47 with
  | [ns; name] => (TrimSpace ns, name)
  | _ => (Pod_Namespace pod, NSt_Name s)
  end.

Definition statusIface (t : gostring) (s : NetworkStatus) : InterfaceInfo :=
  mkIface (NSt_Name s) (NSt_Interface s) t (NSt_IPs s).

(** One interface for each configured plugin a status has the type of; a
    missing map entry reads as the empty string. *)
Definition matchStatuses (pod : Pod) (networkPlugins : list gostring)
    (m : gmap NamespacedName gostring) (statuses : list NetworkStatus) : list InterfaceInfo :=
  concat ((λ s,
    let pluginType := default [] (m !! statusName pod s) in
    omap (λ pluginName, if bool_decide (pluginType = pluginName) then Some (statusIface pluginType s)
                        else None) networkPlugins) <$> statuses).

Definition compareNames (a b : InterfaceInfo) : comparison :=
  strings.Compare (InterfaceName a) (InterfaceName b).

Definition NewPodInfoFromPod (pod : Pod) (criClient : option CriClient) (hostname : gostring)
    (networkPlugins : list gostring) (GetPluginType : NamespacedName → result gostring) : result PodInfo :=
  '(statuses, netnsPath, netifs) ←
    (if IsMultiNetworkpolicyTarget pod then
       networks ← match ParsePodNetworkAnnotation pod with
                  | Ok networks => Ok networks
                  | Err e => if isPanic e then Err e else Ok []
                  end;
       let statuses := (GetNetworkStatus pod).1 in
       m ← pluginsMap GetPluginType pod networks;
       let netifs := matchStatuses pod networkPlugins m statuses in
       netnsPath ←
         (match criClient with
          | Some cri =>
            if (0 <? len netifs) && CheckNodeNameIdentical hostname (Pod_NodeName pod) then
              wrap "resolve pod network namespace" (GetPodNetNSPathWithContext (Some cri) pod)
            else Ok []
          | None => Ok []
          end);
       Ok (statuses, netnsPath, netifs)
     else Ok ([], [], []));
  Ok (mkPodInfo (Pod_Name pod) (Pod_Namespace pod) netnsPath statuses (Pod_NodeName pod)
        (SortFunc compareNames netifs)).
End podinfo.

(** ** Lemmas *)

Lemma wrap_Ok {A} ctx (r : result A) a : wrap ctx r = Ok a ↔ r = Ok a.
Proof. destruct r; cbn; split; congruence. Qed.
Lemma wrap_calm {A} ctx (r : result A) :
  (∀ e, r = Err e → isPanic e = false) → ∀ e, wrap ctx r = Err e → isPanic e = false.
Proof. destruct r as [|e']; cbn; [done|]. intros Hr e [= <-]. exact (Hr e' eq_refl). Qed.

Lemma selectContainerID_nil : selectContainerID [] = [].
Proof. done. Qed.

Lemma find_spec {A} (f : A → bool) l :
  match List.find f l with
  | Some x => ∃ l1 l2, l = l1 ++ x :: l2 ∧ f x = true ∧ Forall (λ y, f y = false) l1
  | None => Forall (λ y, f y = false) l
  end.
Proof.
  induction l as [|y l IH]; cbn; [done|]. destruct (f y) eqn:E; [by exists [], l|].
  destruct (List.find f l) as [x|]; [|by constructor].
  destruct IH as (l1 & l2 & -> & Hx & HF). exists (y :: l1), l2. split_and!; [done..|by constructor].
Qed.

(** The id of the first running container, or of the first container that has
    one. *)
Lemma selectContainerID_spec statuses :
  let named s := negb (bool_decide (CS_ContainerID s = [])) in
  (∃ l1 s l2, statuses = l1 ++ s :: l2 ∧ named s = true ∧ CS_Running s = true ∧
     selectContainerID statuses = CS_ContainerID s ∧ Forall (λ s, named s && CS_Running s = false) l1) ∨
  (Forall (λ s, named s && CS_Running s = false) statuses ∧
     ∃ l1 s l2, statuses = l1 ++ s :: l2 ∧ named s = true ∧
       selectContainerID statuses = CS_ContainerID s ∧ Forall (λ s, CS_ContainerID s = []) l1) ∨
  (Forall (λ s, CS_ContainerID s = []) statuses ∧ selectContainerID statuses = []).
Proof.
  cbn. assert (∀ l, Forall (λ s, negb (bool_decide (CS_ContainerID s = [])) = false) l →
    Forall (λ s, CS_ContainerID s = []) l) as Hnone.
  { intros l Hl. eapply Forall_impl; [exact Hl|]. intros s. cbn. by case_bool_decide. }
  unfold selectContainerID.
  pose proof (find_spec (λ s, negb (bool_decide (CS_ContainerID s = [])) && CS_Running s) statuses) as H1.
  destruct (List.find _ statuses) as [s|].
  { left. destruct H1 as (l1 & l2 & -> & [? ?]%andb_true_iff & ?). by exists l1, s, l2. }
  pose proof (find_spec (λ s, negb (bool_decide (CS_ContainerID s = []))) statuses) as H2.
  destruct (List.find _ statuses) as [s|]; right.
  - left. split; [done|]. destruct H2 as (l1 & l2 & -> & ? & ?). exists l1, s, l2. split_and!; eauto.
  - right. eauto.
Qed.

Lemma CheckNodeNameIdentical_refl s : CheckNodeNameIdentical s s = true.
Proof. by apply bool_decide_eq_true. Qed.

Section podinfo_lemmas.
Context `{Json} `{FloatConv} `{ContainerRuntime} `{Sorting}.

(** What the runtime says of the pod's selected container. *)
Definition runtimeAnswer (cri : CriClient) (pod : Pod) (v : JSON) : Prop :=
  Pod_Phase pod = PodRunning ∧
  ∃ kind id info, Cut (selectContainerID (Pod_ContainerStatuses pod)) "://" = Some (kind, id) ∧ id ≠ [] ∧
    ContainerStatus_info cri id = Ok info ∧ json_any (default [] (info !! (str "info"))) = Ok v.

Lemma runtimeAnswer_det cri pod v v' : runtimeAnswer cri pod v → runtimeAnswer cri pod v' → v = v'.
Proof. intros (_ & ? & ? & ? & ? & _ & ? & ?) (_ & ? & ? & ? & ? & _ & ? & ?). congruence. Qed.

(** The outcome of the lookup, by what the runtime answered. *)
Lemma GetPodNetNSPath_cases cri pod :
  match GetPodNetNSPathWithContext (Some cri) pod with
  | Ok path => ∃ m f, runtimeAnswer cri pod (JObject m) ∧ json_field "pid" m = Some (JNumber f) ∧
                      path = netnsPathOf (int_of_float f)
  | Err e => if isPanic e then ∃ v, runtimeAnswer cri pod v ∧ (∀ m, v ≠ JObject m)
             else ∀ v, runtimeAnswer cri pod v →
               ∃ m, v = JObject m ∧ ∀ f, json_field "pid" m ≠ Some (JNumber f)
  end.
Proof.
  unfold GetPodNetNSPathWithContext. case_bool_decide as Hph; cbn [negb]; [|by intros ? [? _]].
  assert (Cut (selectContainerID (Pod_ContainerStatuses pod)) "://" = None →
    ∀ v, runtimeAnswer cri pod v → False) as HNone.
  { intros Hn v (_ & ? & ? & ? & ? & _). congruence. }
  case_bool_decide as Hc; [cbn; intros v []%HNone; by rewrite Hc|].
  case_bool_decide as Hi; [cbn; intros v []%HNone; by rewrite Hi|].
  destruct (Cut _ _) as [[kind id]|] eqn:Ecut; [|by intros v []%HNone].
  case_bool_decide as Hid; [cbn; intros v (_ & ? & ? & ? & ? & ? & _); congruence|].
  destruct (ContainerStatus_info cri id) as [info|e] eqn:Einfo; cbn.
  2:{ rewrite (ContainerStatus_calm _ _ _ Einfo). intros v (_ & ? & ? & ? & ? & _ & ? & _). congruence. }
  destruct (json_any _) as [v|e] eqn:Ej; cbn.
  2:{ rewrite (json_any_calm _ _ Ej). intros v (_ & ? & ? & ? & ? & _ & ? & ?). congruence. }
  assert (runtimeAnswer cri pod v) as Hv by (split; [done|]; by exists kind, id, info).
  destruct v as [| | | | |m]; cbn; [by eexists..|].
  destruct (json_field _ m) as [[| |f| | |]|] eqn:Ef; cbn; try by exists m, f.
  all: intros v' Hv'; rewrite (runtimeAnswer_det _ _ _ _ Hv' Hv); exists m; split; [done|];
    intros f'; rewrite Ef; congruence.
Qed.

(** The attachments a pod asks for; none when its annotation is unreadable. *)
Definition requested (pod : Pod) : list NamespacedName :=
  match ParsePodNetworkAnnotation pod with
  | Ok networks => attachmentOf pod <$> networks
  | Err _ => []
  end.

Definition resolved (gpt : NamespacedName → result gostring) (m : gmap NamespacedName gostring) : Prop :=
  ∀ k t, m !! k = Some t → gpt k = Ok t.

Lemma pluginsMap_acc (gpt : NamespacedName → result gostring) pod networks m0 m :
  resolved gpt m0 →
  foldR networks m0 (addPlugin gpt pod) = Ok m →
  resolved gpt m ∧ ∀ k, is_Some (m !! k) ↔ is_Some (m0 !! k) ∨ k ∈ attachmentOf pod <$> networks.
Proof.
  revert m0. induction networks as [|n networks IH]; intros m0 Hm0; cbn [foldR].
  { intros [= ->]. split; [done|]. intros k. cbn. rewrite elem_of_nil. tauto. }
  rewrite fmap_cons. setoid_rewrite elem_of_cons. unfold addPlugin at 1.
  destruct (m0 !! attachmentOf pod n) as [t|] eqn:E; cbn [mbind].
  - intros Hf. destruct (IH _ Hm0 Hf) as [Hr Hk]. split; [done|]. intros k. rewrite Hk.
    split; [tauto|]. intros [?|[->|?]]; [tauto|left; by exists t|tauto].
  - destruct (gpt (attachmentOf pod n)) as [t|e] eqn:Et; cbn; [|done]. intros Hf.
    destruct (IH (<[attachmentOf pod n := t]> m0)) as [Hr Hk]; [|exact Hf|].
    { intros k t'. destruct (decide (attachmentOf pod n = k)) as [<-|Hne].
      - rewrite lookup_insert_eq. by intros [= <-].
      - rewrite lookup_insert_ne by done. apply Hm0. }
    split; [done|]. intros k. rewrite Hk.
    destruct (decide (attachmentOf pod n = k)) as [<-|Hne].
    + rewrite lookup_insert_eq. split; [tauto|]. intros _. left. by eexists.
    + rewrite lookup_insert_ne by done. split; [tauto|]. intros [?|[->|?]]; tauto.
Qed.

(** The type of an attachment, as the pod information sees it. *)
Definition pluginTypeOf (gpt : NamespacedName → result gostring) (pod : Pod) (k : NamespacedName) : gostring :=
  if bool_decide (k ∈ requested pod) then match gpt k with Ok t => t | Err _ => [] end else [].

Lemma pluginsMap_lookup gpt pod networks m k :
  ParsePodNetworkAnnotation pod = Ok networks ∨ (networks = [] ∧ requested pod = []) →
  pluginsMap gpt pod networks = Ok m → default [] (m !! k) = pluginTypeOf gpt pod k.
Proof.
  intros Hn Hm. destruct (pluginsMap_acc gpt pod networks ∅ m) as [Hr Hk]; [done|exact Hm|].
  assert (requested pod = attachmentOf pod <$> networks) as Hreq.
  { unfold requested. destruct Hn as [->|[-> ?]]; done. }
  specialize (Hk k). rewrite lookup_empty, <-Hreq in Hk. unfold pluginTypeOf.
  destruct (m !! k) as [t|] eqn:E; cbn.
  - rewrite bool_decide_eq_true_2; [by rewrite (Hr k t E)|]. destruct Hk as [[?%is_Some_None|?] _]; done.
  - rewrite bool_decide_eq_false_2; [done|]. intros Hin. destruct Hk as [_ Hk].
    by destruct (is_Some_None (A:=gostring) (Hk (or_intror Hin))).
Qed.

(** With distinct plugin names a status gives at most one interface. *)
Lemma omap_plugins {A} (t : gostring) (x : A) plugins :
  NoDup plugins →
  omap (λ p, if bool_decide (t = p) then Some x else None) plugins = (if bool_decide (t ∈ plugins) then [x] else []).
Proof.
  induction 1 as [|p ps Hp Hnd IH]; cbn; [done|]. rewrite IH. destruct (decide (t = p)) as [->|Hne].
  - rewrite (bool_decide_eq_true_2 (p = p)), (bool_decide_eq_false_2 (p ∈ ps)), bool_decide_eq_true_2; set_solver.
  - rewrite (bool_decide_eq_false_2 (t = p)) by done.
    by rewrite (bool_decide_ext (t ∈ p :: ps) (t ∈ ps)) by set_solver.
Qed.

(** The interface of a status, when a configured plugin made it. *)
Definition ifaceOf (gpt : NamespacedName → result gostring) (plugins : list gostring) (pod : Pod)
    (s : NetworkStatus) : option InterfaceInfo :=
  let t := pluginTypeOf gpt pod (statusName pod s) in
  if bool_decide (t ∈ plugins) then Some (statusIface t s) else None.

Lemma matchStatuses_spec gpt pod networks m plugins statuses :
  ParsePodNetworkAnnotation pod = Ok networks ∨ (networks = [] ∧ requested pod = []) →
  pluginsMap gpt pod networks = Ok m → NoDup plugins →
  matchStatuses pod plugins m statuses = omap (ifaceOf gpt plugins pod) statuses.
Proof.
  intros Hn Hm Hnd. unfold matchStatuses. induction statuses as [|s statuses IH]; [done|].
  cbn [fmap list_fmap concat omap list_omap]. rewrite IH, omap_plugins by done.
  rewrite (pluginsMap_lookup _ _ _ _ _ Hn Hm). unfold ifaceOf. by case_bool_decide.
Qed.

(** What the successful construction of a pod's information went through. *)
Lemma NewPodInfoFromPod_inv pod cri hostname plugins gpt info :
  NewPodInfoFromPod pod cri hostname plugins gpt = Ok info →
  PI_Name info = Pod_Name pod ∧ PI_Namespace info = Pod_Namespace pod ∧ PI_NodeName info = Pod_NodeName pod ∧
  (NoDup plugins → ∃ netifs, PI_Interfaces info = SortFunc compareNames netifs ∧
     netifs = if IsMultiNetworkpolicyTarget pod then omap (ifaceOf gpt plugins pod) (GetNetworkStatus pod).1
              else []) ∧
  (cri = None → PI_NetNSPath info = []) ∧
  (IsMultiNetworkpolicyTarget pod = true → ∀ k, k ∈ requested pod → is_ok (gpt k) = true).
Proof.
  unfold NewPodInfoFromPod, mbind, result_bind.
  destruct (IsMultiNetworkpolicyTarget pod) eqn:Ht.
  2:{ intros [= <-]. cbn. split_and!; try done. intros _. by exists []. }
  assert (∃ networks, match ParsePodNetworkAnnotation pod with
      | Ok networks => Ok networks | Err e => if isPanic e then Err e else Ok [] end = Ok networks ∧
      (ParsePodNetworkAnnotation pod = Ok networks ∨ (networks = [] ∧ requested pod = [])) ∨
    ∃ e, ParsePodNetworkAnnotation pod = Err e ∧ isPanic e = true) as [networks [[-> Hn]|(e & -> & ->)]]; [| |done].
  { unfold requested. destruct (ParsePodNetworkAnnotation pod) as [ns|e]; [exists ns; left; auto|].
    destruct (isPanic e) eqn:E; [exists []; right; eauto|]. exists []. left. auto. }
  destruct (pluginsMap gpt pod networks) as [m|e] eqn:Em; [|done].
  destruct (match cri with Some _ => _ | None => _ end) as [path|e] eqn:Ep; [|done].
  intros [= <-]. cbn. split_and!; try done.
  - intros Hnd. eexists. split; [done|]. by eapply matchStatuses_spec.
  - intros ->. by injection Ep.
  - intros _ k Hk. destruct (pluginsMap_acc gpt pod networks ∅ m) as [Hr Hs]; [done|exact Em|].
    assert (requested pod = attachmentOf pod <$> networks) as Hreq.
    { unfold requested. destruct Hn as [->|[-> ?]]; done. }
    rewrite Hreq in Hk. destruct (proj2 (Hs k) (or_intror Hk)) as [t Htk]. by rewrite (Hr _ _ Htk).
Qed.

(** ** Properties *)

(** C25: the path of a running pod's network namespace is that of the pid the
    container runtime reports for the selected container, and every other
    answer is an error, except that an answer that is valid JSON but no object
    makes the lookup panic. *)
Theorem GetPodNetNSPath_correct cri pod :
  (∀ path, GetPodNetNSPathWithContext (Some cri) pod = Ok path ↔
     ∃ m f, runtimeAnswer cri pod (JObject m) ∧ json_field "pid" m = Some (JNumber f) ∧
            path = netnsPathOf (int_of_float f)) ∧
  ((∃ e, GetPodNetNSPathWithContext (Some cri) pod = Err e ∧ isPanic e = true) ↔
     ∃ v, runtimeAnswer cri pod v ∧ ∀ m, v ≠ JObject m).
Proof.
  pose proof (GetPodNetNSPath_cases cri pod) as HC.
  destruct (GetPodNetNSPathWithContext (Some cri) pod) as [p|e].
  - destruct HC as (m & f & Ha & Hf & ->). split.
    + intros path. split; [intros [= <-]; eauto|]. intros (m' & f' & Ha' & Hf' & ->).
      injection (runtimeAnswer_det _ _ _ _ Ha Ha') as <-. congruence.
    + split; [by intros (? & ? & _)|]. intros (v & Hv & Hne).
      by destruct (Hne m (runtimeAnswer_det _ _ _ _ Hv Ha)).
  - destruct (isPanic e) eqn:E.
    + destruct HC as (v & Hv & Hne). split.
      * intros path. split; [done|]. intros (m & f & Ha & _). by destruct (Hne m (runtimeAnswer_det _ _ _ _ Hv Ha)).
      * split; eauto.
    + split.
      * intros path. split; [done|]. intros (m & f & Ha & Hf & _). destruct (HC _ Ha) as (m' & [= <-] & Hm).
        by destruct (Hm f).
      * split; [intros (e' & [= <-] & ?); congruence|]. intros (v & Hv & Hne). destruct (HC _ Hv) as (m & -> & _). by destruct (Hne m).
Qed.

(** C16: the information of a pod lists exactly the interfaces its network
    status reports for attachments whose plugin type is one of the configured
    plugins, sorted by name, and none for a pod that is no target; every
    attachment the pod asks for was resolved. *)
Theorem NewPodInfoFromPod_interfaces pod cri hostname plugins gpt info :
  NoDup plugins → NewPodInfoFromPod pod cri hostname plugins gpt = Ok info →
  PI_Interfaces info ≡ₚ
    (if IsMultiNetworkpolicyTarget pod then omap (ifaceOf gpt plugins pod) (GetNetworkStatus pod).1 else []) ∧
  StronglySorted (λ a b, str_le (InterfaceName a) (InterfaceName b)) (PI_Interfaces info) ∧
  (IsMultiNetworkpolicyTarget pod = true → ∀ k, k ∈ requested pod → is_ok (gpt k) = true).
Proof.
  intros Hnd (_ & _ & _ & Hif & _ & Hres)%NewPodInfoFromPod_inv.
  destruct (Hif Hnd) as (netifs & -> & <-). split_and!; [|apply (SortFunc_sorted InterfaceName)|exact Hres].
  apply (SortFunc_perm InterfaceName).
Qed.
End podinfo_lemmas.
