(* ===== verification/Cri.v ===== *)
(** * The connection to the container runtime

    [GetCriRuntimeClientWithContext] of pkg/controllers/pod.go and the cached
    connection of [NodeReconciler]: [criRuntimeClient] and [CloseCRI] of
    pkg/controller/reconciler.go, which hold the same mutex from their first
    to their last action, so that concurrent calls are sequences of whole
    calls. gRPC and the dialer are interfaces. *)

From S2P Require Import Prelude GoStd Text Names Api PodInfo.

(** [connectivity.State] *)
Inductive ConnState := Idle | Connecting | Ready | TransientFailure | Shutdown.

(** The gRPC library: each call of [NewClient] gives a new connection, told
    apart by the number of connections made before. [conn_states] is what
    [GetState] reports, from one change to the next, until the deadline of
    the context. *)
Class Grpc `{ContainerRuntime} := {
  CriConn : Type;
  GetAddressAndDialer : gostring → result gostring;
  NewClient : gostring → nat → result CriConn;
  conn_states : CriConn → list ConnState;
  conn_Close : CriConn → option error;
  NewRuntimeServiceClient : CriConn → CriClient;
  NewClient_fresh t t' n n' c : NewClient t n = Ok c → NewClient t' n' = Ok c → n = n';
  NewClient_calm t n e : NewClient t n = Err e → isPanic e = false;
  GetAddress_calm t e : GetAddressAndDialer t = Err e → isPanic e = false;
  conn_Close_calm c e : conn_Close c = Some e → isPanic e = false }.

Section cri.
Context `{Grpc}.

(** The [CriClient] and [CriConn] fields, with a log of the connections opened
    and closed. *)
Record CriState := mkCriState {
  CS_client : option CriClient;
  CS_conn : option CriConn;
  CS_opened : list CriConn;
  CS_closed : list CriConn }.

Definition initCri : CriState := mkCriState None None [] [].

Abbreviation C := (ST CriState).

(** The wait loop: ready, or the deadline passes first. *)
Fixpoint waitReady (states : list ConnState) : bool :=
  match states with
  | [] => false
  | Ready :: _ => true
  | _ :: states => waitReady states
  end.

Definition dial (target : gostring) : C CriConn := λ s,
  match NewClient target (length (CS_opened s)) with
  | Ok c => (Ok c, mkCriState (CS_client s) (CS_conn s) (CS_opened s ++ [c]) (CS_closed s))
  | Err e => (Err e, s)
  end.
Definition close (c : CriConn) : C unit := λ s,
  (match conn_Close c with None => Ok tt | Some e => Err e end,
   mkCriState (CS_client s) (CS_conn s) (CS_opened s) (CS_closed s ++ [c])).

Definition GetCriRuntimeClientWithContext (runtimeEndpoint hostPrefix : gostring) : C (CriClient * CriConn) :=
  let hostRuntimeEndpoint := str "unix://" ++ hostPrefix ++ runtimeEndpoint in
  addr ← lift_result (GetAddressAndDialer hostRuntimeEndpoint);
  conn ← wrapST "failed to create gRPC client" (dial (str "passthrough:///" ++ addr));
  if waitReady (conn_states conn) then mret (NewRuntimeServiceClient conn, conn)
  else
    try (close conn) ≫= λ _,
    throw (ErrOther "timed out waiting for gRPC connection to become ready").

Definition setCri (cl : option CriClient) (c : option CriConn) : C unit :=
  modify (λ s, mkCriState cl c (CS_opened s) (CS_closed s)).

Definition criRuntimeClient (endpoint hostPrefix : gostring) : C CriClient :=
  s ← get;
  match CS_client s with
  | Some c => mret c
  | None =>
    if bool_decide (endpoint = []) then throw (ErrOther "CRI runtime endpoint is empty")
    else
      '(client, conn) ← wrapST "connect to CRI runtime" (GetCriRuntimeClientWithContext endpoint hostPrefix);
      setCri (Some client) (Some conn) ≫= λ _, mret client
  end.

(** The fields are cleared also when closing fails. *)
Definition CloseCRI : C unit :=
  s ← get;
  r ← try (match CS_conn s with Some c => close c | None => mret tt end);
  setCri None None ≫= λ _, lift_result r.

(** ** Calls from several goroutines *)

(** One call, as the mutex lets it run. *)
Inductive cri_call := CallClient (endpoint hostPrefix : gostring) | CallClose.

Definition run_call (c : cri_call) (s : CriState) : CriState :=
  match c with
  | CallClient e p => (criRuntimeClient e p s).2
  | CallClose => (CloseCRI s).2
  end.

(** ** The cache invariant *)

(** Client and connection go together, connections are distinct, and every
    connection ever opened is the cached one or has been closed, once. *)
Definition cri_inv (s : CriState) : Prop :=
  CS_client s = NewRuntimeServiceClient <$> CS_conn s ∧
  (∀ c, c ∈ CS_opened s → ∃ t n, (n < length (CS_opened s))%nat ∧ NewClient t n = Ok c) ∧
  NoDup (CS_opened s) ∧
  CS_opened s ≡ₚ CS_closed s ++ option_list (CS_conn s).

Lemma dial_inv t c s s' :
  cri_inv s → dial t s = (Ok c, s') →
  CS_client s' = CS_client s ∧ CS_conn s' = CS_conn s ∧ CS_closed s' = CS_closed s ∧
  CS_opened s' = CS_opened s ++ [c] ∧ NoDup (CS_opened s') ∧
  (∀ c, c ∈ CS_opened s' → ∃ t n, (n < length (CS_opened s'))%nat ∧ NewClient t n = Ok c).
Proof.
  intros (_ & Hn & Hnd & _). unfold dial. destruct (NewClient t _) as [c'|] eqn:E; [|done]. intros [= <- <-]. cbn.
  split_and!; try done.
  - apply NoDup_app. split_and!; [done| |apply NoDup_singleton]. intros x Hx ->%list_elem_of_singleton.
    destruct (Hn _ Hx) as (t' & n & Hlt & Hn'). pose proof (NewClient_fresh _ _ _ _ _ Hn' E). lia.
  - intros x. rewrite elem_of_app, list_elem_of_singleton, length_app. cbn. intros [(t' & n & ? & ?)%Hn| ->].
    + exists t', n. split; [lia|done].
    + exists t, (length (CS_opened s)). split; [lia|done].
Qed.

Lemma connect_inv e p s r s' :
  cri_inv s → CS_conn s = None → GetCriRuntimeClientWithContext e p s = (r, s') →
  match r with
  | Ok (cl, c) => cl = NewRuntimeServiceClient c ∧
      cri_inv (mkCriState (Some cl) (Some c) (CS_opened s') (CS_closed s'))
  | Err _ => cri_inv s'
  end ∧ CS_conn s' = None.
Proof.
  intros Hi Hc. unfold GetCriRuntimeClientWithContext, mbind, ST_bind, lift_result.
  destruct (GetAddressAndDialer _) as [addr|]; [|by intros [= <- <-]]. unfold wrapST, wrap.
  destruct (dial _ s) as [[c|e'] s1] eqn:Ed; [|].
  2:{ unfold dial in Ed. destruct (NewClient _ _); [done|]. injection Ed as <- <-. by intros [= <- <-]. }
  destruct (dial_inv _ _ _ _ Hi Ed) as (Hcl & Hco & Hcs & Ho & Hnd & Hn). destruct Hi as (Hi1 & _ & _ & Hp).
  rewrite Hc in Hi1, Hp. cbn in Hi1, Hp. rewrite app_nil_r in Hp.
  destruct (waitReady _); intros [= <- <-]; cbn.
  - split; [|congruence]. split; [done|]. split_and!; cbn; [done..|]. rewrite Ho, Hcs. by rewrite Hp.
  - split; [|congruence]. unfold cri_inv. cbn. rewrite Hcl, Hco, Hc, Hi1, Hcs, Ho. split_and!; [done| | |].
    + by rewrite <-Ho.
    + by rewrite <-Ho.
    + cbn. by rewrite app_nil_r, Hp.
Qed.

Lemma criRuntimeClient_inv e p s : cri_inv s → cri_inv (criRuntimeClient e p s).2.
Proof.
  intros Hi. unfold criRuntimeClient, mbind, ST_bind, get. destruct (CS_client s) as [c|] eqn:Ec; [done|].
  case_bool_decide; [done|]. assert (CS_conn s = None) as Hc.
  { destruct Hi as (Hcl & _). rewrite Ec in Hcl. by destruct (CS_conn s). }
  unfold wrapST, wrap. destruct (GetCriRuntimeClientWithContext e p s) as [r s'] eqn:E.
  destruct (connect_inv _ _ _ _ _ Hi Hc E) as [Hr _]. destruct r as [[cl c]|e']; [|done].
  by destruct Hr as [_ Hr].
Qed.

Lemma CloseCRI_inv s :
  cri_inv s → cri_inv (CloseCRI s).2 ∧ CS_conn (CloseCRI s).2 = None ∧ CS_opened (CloseCRI s).2 = CS_opened s.
Proof.
  intros (H1 & H2 & H3 & H4). unfold CloseCRI, mbind, ST_bind, get, try.
  destruct (CS_conn s) as [c|] eqn:Ec; cbn.
  - split; [|done]. split_and!; cbn; [done..|]. by rewrite app_nil_r, H4.
  - split; [|done]. split_and!; cbn; [done..|]. by rewrite H4.
Qed.

Lemma run_call_inv c s : cri_inv s → cri_inv (run_call c s).
Proof. destruct c; cbn; [apply criRuntimeClient_inv|intros Hi; by apply CloseCRI_inv]. Qed.

Lemma initCri_inv : cri_inv initCri.
Proof. split_and!; cbn; [done|set_solver|constructor|done]. Qed.

(** A cached client is returned as it is. *)
Lemma criRuntimeClient_cached e p s c :
  CS_client s = Some c → criRuntimeClient e p s = (Ok c, s).
Proof. intros Hc. unfold criRuntimeClient, mbind, ST_bind, get. by rewrite Hc. Qed.

(** After a successful call the client is cached. *)
Lemma criRuntimeClient_caches e p s c s' :
  criRuntimeClient e p s = (Ok c, s') → CS_client s' = Some c.
Proof.
  unfold criRuntimeClient, mbind, ST_bind, get. destruct (CS_client s) eqn:E; [by intros [= <- <-]|].
  case_bool_decide; [done|]. unfold wrapST, wrap.
  destruct (GetCriRuntimeClientWithContext _ _ s) as [[[cl co]|] s1]; [|done]. by intros [= <- <-].
Qed.

Lemma criRuntimeClient_calm e p s err : (criRuntimeClient e p s).1 = Err err → isPanic err = false.
Proof.
  unfold criRuntimeClient, mbind, ST_bind, get. destruct (CS_client s); [done|].
  case_bool_decide; [by intros [= <-]|]. unfold wrapST, wrap.
  assert (∀ err, (GetCriRuntimeClientWithContext e p s).1 = Err err → isPanic err = false) as Hg.
  { intros err'. unfold GetCriRuntimeClientWithContext, mbind, ST_bind, lift_result, wrapST, wrap.
    destruct (GetAddressAndDialer _) as [addr|e1] eqn:E1; [|intros [= <-]; by eapply GetAddress_calm].
    unfold dial. destruct (NewClient _ _) as [c|e2] eqn:E2; cbn; [|intros [= <-]; cbn; by eapply NewClient_calm].
    destruct (waitReady _); [done|]. cbn. by intros [= <-]. }
  destruct (GetCriRuntimeClientWithContext _ _ s) as [[[cl co]|e1] s1]; cbn in *; [done|]. intros [= <-]. exact (Hg e1 eq_refl).
Qed.

(** ** Properties *)

(** C20: however many goroutines ask for the runtime client and close it, in
    whatever order the mutex lets them run, at most one connection is open, it
    is the cached one, every other connection ever opened has been closed
    exactly once, and after [CloseCRI] none is left. *)
Theorem cri_connections_accounted calls :
  let s := foldl (λ s c, run_call c s) initCri calls in
  CS_client s = NewRuntimeServiceClient <$> CS_conn s ∧ NoDup (CS_opened s) ∧
  CS_opened s ≡ₚ CS_closed s ++ option_list (CS_conn s) ∧
  CS_opened (CloseCRI s).2 ≡ₚ CS_closed (CloseCRI s).2.
Proof.
  cbv zeta. assert (cri_inv (foldl (λ s c, run_call c s) initCri calls)) as Hi.
  { induction calls as [|c calls IH] using rev_ind; [apply initCri_inv|]. rewrite foldl_snoc. by apply run_call_inv. }
  destruct Hi as (H1 & H2 & H3 & H4). split_and!; [done..|].
  destruct (CloseCRI_inv (foldl (λ s c, run_call c s) initCri calls)) as ((_ & _ & _ & Hp) & Hc & _); [by split_and!|].
  by rewrite Hc, app_nil_r in Hp.
Qed.
End cri.
