(* ===== verification/Elements.v ===== *)
(** * Set elements

    The element lists the daemon puts into nftables sets: CIDR prefixes and
    port ranges as half-open intervals, and the difference between the wanted
    and the existing elements of a set. *)

From S2P Require Import Prelude GoStd Names Nft Netip Api.

(** ** Reconciling elements *)

Definition isPresent (toCheck : SetElement) (elements : list SetElement) : bool :=
  existsb (λ e, bool_decide (Key toCheck = Key e)) elements.

Definition findNonCommon (a b : list SetElement) : list SetElement :=
  List.filter (λ x, negb (isPresent x b)) a.

Definition processElements (newEls existingEls : list SetElement) : list SetElement * list SetElement :=
  (findNonCommon newEls existingEls, findNonCommon existingEls newEls).

(** ** Prefixes *)

Definition keyElem (k : bytes) : SetElement := mkElem k false [].
Definition endElem (k : bytes) : SetElement := mkElem k true [].

Definition convertPrefixToSet (prefix : Prefix) : list SetElement :=
  let firstIP := MaskedAddr prefix in
  let lastIP := Next (PrefixLastIP prefix) in
  let elements := [keyElem (AsSlice firstIP)] in
  match lastIP with
  | None =>
    if Is4 firstIP then elements ++ [endElem (AsSlice IPv4Unspecified)]
    else elements ++ [endElem (AsSlice IPv6Unspecified)]
  | Some lastIP => elements ++ [endElem (AsSlice lastIP)]
  end.

(** The loop of [getPrefixesAsSetInterval], with the index of the round. *)
Fixpoint prefixLoop (index : nat) (prefixes : list gostring) (v4 v6 : list SetElement)
    : result (list SetElement * list SetElement) :=
  match prefixes with
  | [] => Ok (v4, v6)
  | addr :: rest =>
    match ParsePrefix addr with
    | None => Err (ErrOther "failed to parse CIDR")
    | Some net =>
      if Is4 (Prefix_addr net) then
        let v4 := if (index =? 0)%nat then v4 ++ [endElem (AsSlice IPv4Unspecified)] else v4 in
        prefixLoop (S index) rest (v4 ++ convertPrefixToSet net) v6
      else
        let v6 := if (index =? 0)%nat then v6 ++ [endElem (AsSlice IPv6Unspecified)] else v6 in
        prefixLoop (S index) rest v4 (v6 ++ convertPrefixToSet net)
    end
  end.

Definition getPrefixesAsSetInterval (prefixes : list gostring)
    : result (list SetElement * list SetElement) := prefixLoop 0 prefixes [] [].

(** ** Ports *)

(** The numeric port of a spec, or the error [validatePortSpec] returns. *)
Definition numericPort (p : IntOrString) : result Z :=
  portNum ← match p with
            | FromString s =>
              match Atoi s with
              | Some n => if (n <? 1) || (MaxUint16 <? n) then Err (ErrOther "named port")
                          else Ok n
              | None => Err (ErrOther "named port")
              end
            | FromInt n => Ok n
            end;
  if (portNum <? 1) || (MaxUint16 <? portNum) then Err (ErrOther "port out of range")
  else Ok portNum.

Definition validatePortSpec (port : MultiNetworkPolicyPort) : result (list SetElement) :=
  match Port_Port port with
  | None => Ok []
  | Some p =>
    portNum ← numericPort p;
    let portVal := u16 portNum in
    let elements := [keyElem (BigEndian.PutUint16 portVal)] in
    match Port_EndPort port with
    | Some endPort =>
      if portNum <? endPort then
        if (endPort <? 1) || (MaxUint16 <? endPort) then Err (ErrOther "port out of range")
        else Ok (elements ++ [endElem (BigEndian.PutUint16 (u16 (u16 endPort + 1)))])
      else Ok (elements ++ [endElem (BigEndian.PutUint16 (u16 (portVal + 1)))])
    | None => Ok (elements ++ [endElem (BigEndian.PutUint16 (u16 (portVal + 1)))])
    end
  end.

(** ** What an interval set contains

    nftables' reading of the element list of an interval set: a key is a
    member when some start element is at or below it and no end element lies
    between the two. *)
Definition interval_mem (els : list SetElement) (k : Z) : Prop :=
  ∃ s, s ∈ els ∧ IntervalEnd s = false ∧ be_val (Key s) ≤ k ∧
       ∀ e, e ∈ els → IntervalEnd e = true → ¬ (be_val (Key s) < be_val (Key e) ≤ k).

(** The closed range [lo..hi] of a [w]-bit key space as nftables elements: the
    end is exclusive and wraps to zero past the last key. *)
Definition represents (w : Z) (iv : Z * Z) (els : list SetElement) : Prop :=
  ∃ s e, els = [s; e] ∧ IntervalEnd s = false ∧ IntervalEnd e = true ∧
    be_val (Key s) = iv.1 ∧ be_val (Key e) = (iv.2 + 1) mod 2 ^ w ∧ 0 ≤ iv.1 ≤ iv.2 ∧ iv.2 < 2 ^ w.

Definition disjoint_ranges (ivs : list (Z * Z)) : Prop :=
  ∀ i j a b, ivs !! i = Some a → ivs !! j = Some b → i ≠ j → a.2 < b.1 ∨ b.2 < a.1.

Definition in_range (k : Z) (iv : Z * Z) : Prop := iv.1 ≤ k ≤ iv.2.

(** ** Lemmas *)

Lemma isPresent_spec x els : isPresent x els = true ↔ Key x ∈ Key <$> els.
Proof.
  unfold isPresent. rewrite existsb_exists, list_elem_of_fmap.
  setoid_rewrite bool_decide_eq_true. setoid_rewrite <-list_elem_of_In. naive_solver.
Qed.

Lemma elem_of_findNonCommon x a b :
  x ∈ findNonCommon a b ↔ x ∈ a ∧ Key x ∉ Key <$> b.
Proof.
  unfold findNonCommon. rewrite list_elem_of_In, filter_In, <-list_elem_of_In.
  by rewrite negb_true_iff, <-not_true_iff_false, isPresent_spec.
Qed.

(** What the set holds after [SetDeleteElements(toDel)] and
    [SetAddElements(toAdd)]: deletion is by key. *)
Definition applyElements (existing toAdd toDel : list SetElement) : list SetElement :=
  List.filter (λ x, negb (isPresent x toDel)) existing ++ toAdd.

Lemma elem_of_applyElements new existing x :
  x ∈ applyElements existing (processElements new existing).1 (processElements new existing).2 ↔
  (x ∈ existing ∧ Key x ∈ Key <$> new) ∨ (x ∈ new ∧ Key x ∉ Key <$> existing).
Proof.
  unfold applyElements, processElements. simpl.
  rewrite elem_of_app, elem_of_findNonCommon, list_elem_of_In, filter_In, <-list_elem_of_In.
  rewrite negb_true_iff, <-not_true_iff_false, isPresent_spec.
  assert (Key x ∈ Key <$> findNonCommon existing new ↔ Key x ∈ Key <$> existing ∧ Key x ∉ Key <$> new) as ->.
  { split.
    - intros (y & Hk & [? Hn]%elem_of_findNonCommon)%list_elem_of_fmap. rewrite Hk.
      split; [by apply list_elem_of_fmap_2|done].
    - intros [(y & Hk & Hy)%list_elem_of_fmap Hn]. rewrite Hk in Hn |- *.
      apply list_elem_of_fmap_2. by apply elem_of_findNonCommon. }
  split.
  - intros [[Hx Hn]|?]; [left|by right]. split; [done|]. apply dec_stable. intros Hc. apply Hn.
    split; [|done]. by apply list_elem_of_fmap_2.
  - intros [[Hx Hn]|?]; [left|by right]. naive_solver.
Qed.

Lemma pair_flag (s e x : SetElement) : x ∈ [s; e] → IntervalEnd x ≠ IntervalEnd e → x = s.
Proof. rewrite !elem_of_cons, elem_of_nil. naive_solver. Qed.

(** An interval set built from disjoint ranges, with or without the leading
    end element at key zero, contains exactly the keys of the ranges. *)
Lemma interval_mem_ranges w ivs (parts : list (list SetElement)) lead k :
  0 ≤ w → 0 ≤ k < 2 ^ w → disjoint_ranges ivs →
  Forall2 (represents w) ivs parts →
  Forall (λ e, IntervalEnd e = true ∧ be_val (Key e) = 0) lead →
  interval_mem (lead ++ concat parts) k ↔ ∃ iv, iv ∈ ivs ∧ in_range k iv.
Proof.
  intros Hw Hk Hd Hr Hlead. rewrite Forall_forall in Hlead. split.
  - intros (s & [Hs|Hs]%elem_of_app & Hst & Hle & Hno); [destruct (Hlead _ Hs); congruence|].
    apply list_elem_of_In, in_concat in Hs as (p & Hp%list_elem_of_In & Hs%list_elem_of_In).
    apply list_elem_of_lookup in Hp as (i & Hi). destruct (Forall2_lookup_r _ _ _ _ _ Hr Hi) as (iv & Hiv & R).
    pose proof R as (s' & e & -> & ? & He & Es & Ee & ? & ?).
    assert (s = s') as -> by (eapply pair_flag; [exact Hs|congruence]). exists iv. split; [by eapply list_elem_of_lookup_2|].
    split; [lia|]. specialize (Hno e). destruct (decide (iv.2 + 1 = 2 ^ w)) as [|Hne]; [lia|].
    rewrite Z.mod_small in Ee by lia.
    assert (¬ (be_val (Key s') < be_val (Key e) ≤ k)); [|lia].
    apply Hno; [|done]. apply elem_of_app. right. apply list_elem_of_In, in_concat.
    exists [s'; e]. rewrite <-!list_elem_of_In. split; [by eapply list_elem_of_lookup_2|set_solver].
  - intros (iv & Hiv & Hin). apply list_elem_of_lookup in Hiv as (i & Hi).
    destruct (Forall2_lookup_l _ _ _ _ _ Hr Hi) as (p & Hp & s & e & -> & Hs & He & Es & Ee & ? & ?).
    exists s. split_and!.
    + apply elem_of_app. right. apply list_elem_of_In, in_concat. exists [s; e].
      rewrite <-!list_elem_of_In. split; [by eapply list_elem_of_lookup_2|set_solver].
    + done.
    + unfold in_range in Hin. lia.
    + intros e' [He'|He']%elem_of_app Hend [H1 H2]; [destruct (Hlead _ He'); lia|].
      apply list_elem_of_In, in_concat in He' as (q & Hq%list_elem_of_In & He'%list_elem_of_In).
      apply list_elem_of_lookup in Hq as (j & Hj).
      destruct (Forall2_lookup_r _ _ _ _ _ Hr Hj) as (jv & Hjv & t & f & -> & Ht & Hf & Et & Ef & ? & ?).
      assert (e' = f) as -> by (eapply (pair_flag _ t); [set_solver|congruence]).
      assert (jv.2 + 1 ≠ 2 ^ w) by (intros Hc; rewrite Hc, Z.mod_same in Ef by lia; lia).
      rewrite Z.mod_small in Ef by lia. unfold in_range in Hin.
      destruct (decide (i = j)) as [<-|Hij]; [simplify_eq; lia|].
      destruct (Hd i j _ _ Hi Hjv Hij); lia.
Qed.

Lemma be_val_PutUint16 v : 0 ≤ v < 2 ^ 16 → be_val (BigEndian.PutUint16 v) = v.
Proof. intros H. unfold BigEndian.PutUint16. rewrite be_val_be_bytes. by apply Z.mod_small. Qed.

Lemma be_val_AsSlice a : Addr_wf a → be_val (AsSlice a) = Addr_val a.
Proof.
  intros H. unfold AsSlice, Addr_wf, BitLen in *. rewrite be_val_be_bytes.
  destruct (Addr_is6 a); by apply Z.mod_small.
Qed.

(** *** Prefixes as ranges *)

Definition prefix_range (p : Prefix) : Z * Z :=
  (Addr_val (MaskedAddr p), Addr_val (PrefixLastIP p)).

Lemma convertPrefixToSet_represents p :
  Prefix_wf p → represents (BitLen (Prefix_addr p)) (prefix_range p) (convertPrefixToSet p).
Proof.
  intros Hp. pose proof (prefix_top p Hp) as [H0 Ht]. pose proof (PrefixLastIP_val p Hp) as Hlast.
  unfold represents, convertPrefixToSet, prefix_range. cbn [fst snd].
  set (w := BitLen (Prefix_addr p)) in *. set (m := Addr_val (MaskedAddr p)) in *.
  assert (0 < 2 ^ (w - Prefix_bits p)) by (apply Z.pow_pos_nonneg; destruct Hp; unfold w; lia).
  assert (be_val (AsSlice (MaskedAddr p)) = m) as Hs.
  { apply be_val_AsSlice. unfold Addr_wf. change (BitLen (MaskedAddr p)) with w. fold m. lia. }
  set (l := Addr_val (PrefixLastIP p)) in *.
  assert (0 < 2 ^ w) by lia. unfold Next. change (BitLen (PrefixLastIP p)) with w. fold l.
  destruct (Z.eqb_spec ((l + 1) mod 2 ^ w) 0) as [E|E].
  - exists (keyElem (AsSlice (MaskedAddr p))),
      (endElem (AsSlice (if Is4 (MaskedAddr p) then IPv4Unspecified else IPv6Unspecified))).
    split; [by destruct (Is4 (MaskedAddr p))|]. split_and!; try done; try lia.
    rewrite E. by destruct (Is4 (MaskedAddr p)).
  - eexists _, _. split_and!; try done; try lia. simpl. rewrite be_val_AsSlice; [done|].
    unfold Addr_wf. change (BitLen (mkAddr _ _ _)) with w. simpl. apply Z.mod_pos_bound. lia.
Qed.

Lemma in_prefix_in_range p v :
  Prefix_wf p → in_prefix p v ↔ in_range v (prefix_range p).
Proof.
  intros Hp. rewrite in_prefix_range by done. unfold in_range, prefix_range. cbn [fst snd].
  rewrite PrefixLastIP_val by done. lia.
Qed.

(** The parsed prefixes of one family. *)
Definition family (is6 : bool) (ps : list Prefix) : list Prefix :=
  List.filter (λ p, Bool.eqb (Addr_is6 (Prefix_addr p)) is6) ps.

Lemma elem_of_family b ps p : p ∈ family b ps ↔ p ∈ ps ∧ Addr_is6 (Prefix_addr p) = b.
Proof. unfold family. by rewrite list_elem_of_In, filter_In, <-list_elem_of_In, eqb_true_iff. Qed.

Definition family_elems (is6 : bool) (ps : list Prefix) : list SetElement :=
  concat (convertPrefixToSet <$> family is6 ps).

(** The leading end element of the list whose family the first prefix has. *)
Definition lead (is6 : bool) (ps : list Prefix) : list SetElement :=
  match ps with
  | p :: _ => if Bool.eqb (Addr_is6 (Prefix_addr p)) is6
              then [endElem (AsSlice (mkAddr is6 0 []))] else []
  | [] => []
  end.

Lemma family_elems_cons b p ps :
  family_elems b (p :: ps) =
  (if Bool.eqb (Addr_is6 (Prefix_addr p)) b then convertPrefixToSet p else []) ++ family_elems b ps.
Proof. unfold family_elems, family. simpl. by destruct (Bool.eqb _ b). Qed.

Lemma prefixLoop_S i prefixes v4 v6 :
  prefixLoop (S i) prefixes v4 v6 =
  match mapM ParsePrefix prefixes with
  | None => Err (ErrOther "failed to parse CIDR")
  | Some ps => Ok (v4 ++ family_elems false ps, v6 ++ family_elems true ps)
  end.
Proof.
  revert i v4 v6. induction prefixes as [|a l IH]; intros i v4 v6; cbn [prefixLoop].
  { simpl. unfold family_elems. simpl. by rewrite !app_nil_r. }
  cbn [mapM]. destruct (ParsePrefix a) as [p|]; [|done]. unfold Is4. cbn [Nat.eqb mbind option_bind].
  destruct (Addr_is6 (Prefix_addr p)) eqn:E; cbn [negb]; rewrite IH;
    destruct (mapM ParsePrefix l) as [ps|]; try done; cbn [mbind option_bind mret option_ret];
    rewrite !family_elems_cons, E; simpl; by rewrite <-?app_assoc.
Qed.

Lemma getPrefixes_eq prefixes :
  getPrefixesAsSetInterval prefixes =
  match mapM ParsePrefix prefixes with
  | None => Err (ErrOther "failed to parse CIDR")
  | Some ps => Ok (lead false ps ++ family_elems false ps, lead true ps ++ family_elems true ps)
  end.
Proof.
  unfold getPrefixesAsSetInterval. destruct prefixes as [|a l]; [done|].
  cbn [mapM]. cbn [prefixLoop]. destruct (ParsePrefix a) as [p|]; [|done].
  unfold Is4. cbn [Nat.eqb mbind option_bind].
  destruct (Addr_is6 (Prefix_addr p)) eqn:E; cbn [negb]; rewrite prefixLoop_S;
    destruct (mapM ParsePrefix l) as [ps|]; try done; cbn [mbind option_bind mret option_ret lead];
    rewrite !family_elems_cons, E; simpl; by rewrite <-?app_assoc.
Qed.

Lemma family_elems_mem (b : bool) ps v :
  Forall Prefix_wf ps → 0 ≤ v < 2 ^ (if b then 128 else 32) →
  disjoint_ranges (prefix_range <$> family b ps) →
  interval_mem (lead b ps ++ family_elems b ps) v ↔
  ∃ p, p ∈ ps ∧ Addr_is6 (Prefix_addr p) = b ∧ in_prefix p v.
Proof.
  intros Hwf Hv Hd. rewrite Forall_forall in Hwf. unfold family_elems.
  rewrite (interval_mem_ranges (if b then 128 else 32) (prefix_range <$> family b ps)); try done.
  - setoid_rewrite list_elem_of_fmap. split.
    + intros (iv & (p & -> & [Hp Hb]%elem_of_family) & Hin). exists p.
      rewrite in_prefix_in_range by auto. done.
    + intros (p & Hp & Hb & Hin). rewrite in_prefix_in_range in Hin by auto.
      exists (prefix_range p). split; [|done]. exists p. rewrite elem_of_family. auto.
  - destruct b; lia.
  - apply Forall2_fmap, Forall_Forall2_diag, Forall_forall. intros p [Hp Hb]%elem_of_family.
    pose proof (convertPrefixToSet_represents p (Hwf p Hp)) as R. unfold BitLen in R. by rewrite Hb in R.
  - destruct ps as [|p ps]; simpl; [constructor|]. destruct (Bool.eqb _ b); constructor; [|constructor].
    by destruct b.
Qed.

Lemma mapM_ParsePrefix_wf l ps : mapM ParsePrefix l = Some ps → Forall Prefix_wf ps.
Proof.
  rewrite mapM_Some. induction 1; constructor; [by eapply ParsePrefix_wf|done].
Qed.

(** *** Ports *)

(** The number a spec names; a string must be a decimal number. *)
Definition port_number (p : IntOrString) : option Z :=
  match p with FromInt n => Some n | FromString s => Atoi s end.

(** The range a spec asks for, as the API defines it: a port, or the ports from
    one to an end that is no smaller. *)
Definition port_range (p : IntOrString) (endPort : option Z) : option (Z * Z) :=
  n ← port_number p;
  let hi := default n endPort in
  if (1 <=? n) && (n <=? hi) && (hi <=? MaxUint16) then Some (n, hi) else None.

Lemma numericPort_spec p :
  match port_number p with
  | Some n => if (1 <=? n) && (n <=? MaxUint16) then numericPort p = Ok n
              else is_ok (numericPort p) = false
  | None => is_ok (numericPort p) = false
  end.
Proof.
  unfold numericPort, port_number. destruct p as [n|s].
  - simpl. destruct ((1 <=? n) && _) eqn:E; destruct ((n <? 1) || _) eqn:E2; try done; lia.
  - destruct (Atoi s) as [n|]; [|done].
    destruct ((1 <=? n) && _) eqn:E; destruct ((n <? 1) || _) eqn:E2; simpl; rewrite ?E2; try done; lia.
Qed.

Definition isPort (n : Z) : Prop := 1 ≤ n ≤ MaxUint16.

Lemma port_elems_represent n hi :
  isPort n → n ≤ hi ≤ MaxUint16 →
  represents 16 (n, hi) [keyElem (BigEndian.PutUint16 n); endElem (BigEndian.PutUint16 (u16 (hi + 1)))].
Proof.
  unfold isPort, MaxUint16. intros Hn Hhi. eexists _, _. split; [done|]. simpl.
  rewrite !be_val_PutUint16; [|unfold u16; apply Z.mod_pos_bound; lia|lia].
  unfold u16. split_and!; try done; lia.
Qed.

(** What [validatePortSpec] makes of a spec, by its numbers. *)
Lemma validatePortSpec_cases port p :
  Port_Port port = Some p →
  match port_number p with
  | Some n =>
    let hi := match Port_EndPort port with Some e => if n <? e then e else n | None => n end in
    (isPort n → hi ≤ MaxUint16 → ∃ els, validatePortSpec port = Ok els ∧ represents 16 (n, hi) els) ∧
    (¬ isPort n ∨ MaxUint16 < hi → is_ok (validatePortSpec port) = false)
  | None => is_ok (validatePortSpec port) = false
  end.
Proof.
  intros Hp. unfold validatePortSpec. rewrite Hp.
  pose proof (numericPort_spec p) as Hn. destruct (port_number p) as [n|]; [|by destruct (numericPort p)].
  cbv zeta. destruct ((1 <=? n) && (n <=? MaxUint16)) eqn:E.
  2:{ split; [unfold isPort; lia|]. by destruct (numericPort p). }
  rewrite Hn. cbn [mbind result_bind]. assert (isPort n) as Hport by (unfold isPort; lia).
  assert (u16 n = n) as -> by (unfold u16, isPort, MaxUint16 in *; apply Z.mod_small; lia).
  destruct (Port_EndPort port) as [e|].
  - destruct (Z.ltb_spec n e) as [Hlt|Hge]; [destruct ((e <? 1) || (MaxUint16 <? e)) eqn:E2|].
    + split; [|done]. intros _ He. unfold isPort in *. lia.
    + assert (e ≤ MaxUint16) as He by lia. split; [|unfold isPort in *; lia]. intros _ _. eexists. split; [done|].
      assert (u16 e = e) as -> by (unfold u16, isPort, MaxUint16 in *; apply Z.mod_small; lia).
      apply port_elems_represent; [done|lia].
    + split; [|unfold isPort in *; lia]. intros _ _. eexists. split; [done|]. apply port_elems_represent; unfold isPort in *; [done|lia].
  - split; [|unfold isPort in *; lia]. intros _ _. eexists. split; [done|]. apply port_elems_represent; unfold isPort in *; [done|lia].
Qed.

Lemma validatePortSpec_range port p lo hi :
  Port_Port port = Some p → port_range p (Port_EndPort port) = Some (lo, hi) →
  ∃ els, validatePortSpec port = Ok els ∧ represents 16 (lo, hi) els.
Proof.
  intros Hp Hr. pose proof (validatePortSpec_cases port p Hp) as Hc. unfold port_range in Hr.
  destruct (port_number p) as [n|]; [|done]. cbn [mbind option_bind] in Hr.
  destruct (_ && _) eqn:E in Hr; [|done]. injection Hr as <- <-. destruct Hc as [Hc _].
  destruct (Port_EndPort port) as [e|]; unfold id, isPort in *; cbn [from_option] in *; [|apply Hc; lia].
  destruct (Z.ltb_spec n e) as [Hlt|Hge]; [apply Hc; lia|]. replace e with n by lia. apply Hc; lia.
Qed.

(** ** Properties *)

(** C30: after deleting [toDel] and adding [toAdd] a set has exactly the keys
    that were asked for; nothing wanted is deleted and nothing present is
    added again. *)
Theorem processElements_reconciles new existing :
  let '(toAdd, toDel) := processElements new existing in
  (∀ k, k ∈ Key <$> applyElements existing toAdd toDel ↔ k ∈ Key <$> new) ∧
  (∀ x, x ∈ toAdd → x ∈ new ∧ Key x ∉ Key <$> existing) ∧
  (∀ x, x ∈ toDel → x ∈ existing ∧ Key x ∉ Key <$> new).
Proof.
  destruct (processElements new existing) as [toAdd toDel] eqn:E.
  pose proof (elem_of_applyElements new existing) as H. rewrite E in H. simpl in H.
  injection E as <- <-. split_and!; [|intros x; apply elem_of_findNonCommon..].
  intros k. rewrite !list_elem_of_fmap. setoid_rewrite H. split.
  - intros (x & -> & [[? Hn]|[? _]]); [|by eauto].
    by apply list_elem_of_fmap in Hn as (y & -> & ?); eauto.
  - intros (x & -> & Hx). destruct (decide (Key x ∈ Key <$> existing)) as [Hk|]; [|eauto].
    pose proof Hk as (y & Hy & ?)%list_elem_of_fmap. exists y. split; [done|]. left.
    split; [done|]. rewrite <-Hy. by apply list_elem_of_fmap_2.
Qed.

(** the update of an interval set compares keys without the interval-end
    flag. Replacing the port range 1000-1999 by 2000-2999 keeps the old end
    element at key 2000 and drops the wanted start element there, so the
    resulting set has no member at all although port 2500 was asked for. *)
Theorem updateSet_adjacent_ranges :
  ∃ old new,
    validatePortSpec (mkPort None (Some (FromInt 1000)) (Some 1999)) = Ok old ∧
    validatePortSpec (mkPort None (Some (FromInt 2000)) (Some 2999)) = Ok new ∧
    let '(toAdd, toDel) := processElements new old in
    interval_mem new 2500 ∧ ∀ k, ¬ interval_mem (applyElements old toAdd toDel) k.
Proof.
  eexists _, _. split; [vm_compute; reflexivity|]. split; [vm_compute; reflexivity|].
  vm_compute processElements. cbv beta iota. split.
  - exists (keyElem [7; 208]). split_and!; [set_solver|done|vm_compute; discriminate|].
    intros e He Hend. rewrite !elem_of_cons, elem_of_nil in He.
    destruct He as [->|[->|[]]]; [done|]. vm_compute. intros [_ []]. done.
  - intros k (s & Hs & Hst & _).
    match type of Hs with _ ∈ ?l => let l' := eval vm_compute in l in change (s ∈ l') in Hs end.
    rewrite !elem_of_cons, elem_of_nil in Hs.
    destruct Hs as [->|[->|[]]]; done.
Qed.

(** The elements contain exactly these ports. *)
Definition holdsPorts (els : list SetElement) (lo hi : Z) : Prop :=
  ∀ k, 0 ≤ k < 65536 → interval_mem els k ↔ lo ≤ k ≤ hi.

Lemma represents_holdsPorts els lo hi : represents 16 (lo, hi) els → holdsPorts els lo hi.
Proof.
  intros R k Hk. rewrite <-(app_nil_r els). change (els ++ []) with ([] ++ concat [els]).
  rewrite (interval_mem_ranges 16 [(lo, hi)]); [|lia|done| |by constructor|constructor].
  - unfold in_range. set_solver.
  - intros [|i] [|j] a b Ha Hb Hij; simplify_eq/=; done.
Qed.

(** C26: what [validatePortSpec] makes of every spec. Without a port it
    returns no elements. A port must be a number (or a string that reads as
    one) in 1..65535, otherwise the spec is rejected. Alone it gives exactly
    that port; with an end port up to 65535 that is no smaller, exactly the
    ports from the one to the other, 65535 included; with a larger end port
    the spec is rejected. An end port smaller than the port, which the API
    forbids, is not rejected but ignored. *)
Theorem validatePortSpec_correct port :
  match Port_Port port with
  | None => validatePortSpec port = Ok []
  | Some p =>
    match port_number p with
    | None => is_ok (validatePortSpec port) = false
    | Some n =>
      (¬ isPort n → is_ok (validatePortSpec port) = false) ∧
      (isPort n →
       match Port_EndPort port with
       | None => ∃ els, validatePortSpec port = Ok els ∧ holdsPorts els n n
       | Some e =>
         (n ≤ e ≤ MaxUint16 → ∃ els, validatePortSpec port = Ok els ∧ holdsPorts els n e) ∧
         (MaxUint16 < e → is_ok (validatePortSpec port) = false) ∧
         (e < n → ∃ els, validatePortSpec port = Ok els ∧ holdsPorts els n n)
       end)
    end
  end.
Proof.
  destruct (Port_Port port) as [p|] eqn:Hp; [|by unfold validatePortSpec; rewrite Hp].
  pose proof (validatePortSpec_cases port p Hp) as Hc. destruct (port_number p) as [n|]; [|done].
  destruct Hc as [Hok Hbad]. split; [intros Hn; apply Hbad; by left|]. intros Hn.
  assert (∀ hi, (∃ els, validatePortSpec port = Ok els ∧ represents 16 (n, hi) els) →
    ∃ els, validatePortSpec port = Ok els ∧ holdsPorts els n hi) as Hrep.
  { intros hi (els & Hv & R). exists els. split; [done|]. by apply represents_holdsPorts. }
  pose proof Hn as Hn'. unfold isPort in Hn'.
  destruct (Port_EndPort port) as [e|]; [|apply Hrep, Hok; [done|lia]].
  destruct (Z.ltb_spec n e); split_and!; intros He; try lia; try (apply Hbad; right; lia); apply Hrep.
  - apply Hok; [done|lia].
  - replace e with n by lia. apply Hok; [done|lia].
  - apply Hok; [done|lia].
Qed.

(** the two elements of a CIDR contain exactly the addresses of its
    family that agree with it on the network bits, the prefixes that end at
    the last address of the family included. *)
Theorem convertPrefixToSet_correct cidr p v :
  ParsePrefix cidr = Some p → 0 ≤ v < 2 ^ BitLen (Prefix_addr p) →
  interval_mem (convertPrefixToSet p) v ↔ in_prefix p v.
Proof.
  intros Hp%ParsePrefix_wf Hv. rewrite in_prefix_in_range by done.
  rewrite <-(app_nil_r (convertPrefixToSet p)).
  change (_ ++ []) with ([] ++ concat [convertPrefixToSet p]).
  rewrite (interval_mem_ranges (BitLen (Prefix_addr p)) [prefix_range p]).
  - set_solver.
  - unfold BitLen. destruct (Addr_is6 _); lia.
  - done.
  - intros [|i] [|j] a b Ha Hb Hij; simplify_eq/=; done.
  - constructor; [by apply convertPrefixToSet_represents|constructor].
  - constructor.
Qed.

(** C27: a list of CIDRs is rejected exactly when one of them does not parse.
    Otherwise the element list of a family whose prefixes do not overlap
    contains precisely the addresses of that family's prefixes, whichever
    family comes first in the list. Prefixes that overlap are not merged, and
    their list may lack addresses of theirs. *)
Theorem getPrefixesAsSetInterval_correct prefixes :
  match mapM ParsePrefix prefixes with
  | None => is_ok (getPrefixesAsSetInterval prefixes) = false
  | Some ps =>
    ∃ v4 v6, getPrefixesAsSetInterval prefixes = Ok (v4, v6) ∧
      (disjoint_ranges (prefix_range <$> family false ps) → ∀ v, 0 ≤ v < 2 ^ 32 →
        interval_mem v4 v ↔ ∃ p, p ∈ ps ∧ Addr_is6 (Prefix_addr p) = false ∧ in_prefix p v) ∧
      (disjoint_ranges (prefix_range <$> family true ps) → ∀ v, 0 ≤ v < 2 ^ 128 →
        interval_mem v6 v ↔ ∃ p, p ∈ ps ∧ Addr_is6 (Prefix_addr p) = true ∧ in_prefix p v)
  end.
Proof.
  rewrite getPrefixes_eq. destruct (mapM ParsePrefix prefixes) as [ps|] eqn:E; [|done].
  apply mapM_ParsePrefix_wf in E. eexists _, _. split; [done|].
  split; intros Hd v Hv; by apply family_elems_mem.
Qed.

(** Prefixes that overlap: 10.3.0.0 is an address of the first, and the end of
    the second cuts it off. *)
Lemma overlapping_prefixes_lost :
  ∃ v4 v6, getPrefixesAsSetInterval [str "10.0.0.0/8"; str "10.1.0.0/16"] = Ok (v4, v6) ∧
    ¬ interval_mem v4 0x0A030000.
Proof.
  eexists _, _. split; [vm_compute; reflexivity|]. intros (s & Hs & Hst & Hle & Hend).
  apply (Hend (endElem [10; 2; 0; 0])); [set_solver|done|].
  rewrite !elem_of_cons, elem_of_nil in Hs.
  repeat match type of Hs with _ ∨ _ => destruct Hs as [->|Hs]; [first [discriminate Hst | vm_compute; split; [reflexivity|discriminate]]|] end.
  destruct Hs.
Qed.

Lemma convertPrefixToSet_correct_witness :
  interval_mem (convertPrefixToSet (mkPrefix (mkAddr false 0xFFFFFF05 []) 24)) 0xFFFFFFFF ↔
  in_prefix (mkPrefix (mkAddr false 0xFFFFFF05 []) 24) 0xFFFFFFFF.
Proof.
  apply (convertPrefixToSet_correct "255.255.255.5/24"); [reflexivity|vm_compute; split; done].
Defined.
