(* ===== verification/Conn.v ===== *)
(** * The netlink connection

    google/nftables' [Conn]: reads are answered by the kernel at once, writes
    are buffered as messages and reach the kernel as one batch at [Flush].
    The kernel's nf_tables is not part of the repository; it is the
    interface [Kernel], whose answers are arbitrary, and the properties that
    need more of it name what they need. *)

From S2P Require Import Prelude GoStd Names Nft.

(** One buffered netlink message. A rule deletion carries the rule whose
    handle (or transaction id) it names. *)
Inductive msg :=
  | MNewTable (t : Table) | MDelTable (t : Table)
  | MNewChain (c : Chain) | MDelChain (c : Chain)
  | MNewRule (r : Rule) | MInsertRule (r : Rule) | MReplaceRule (r : Rule) | MDelRule (r : Rule)
  | MNewSet (s : NftSet) | MDelSet (s : NftSet)
  | MNewSetElem (s : NftSet) (els : list SetElement)
  | MDelSetElem (s : NftSet) (els : list SetElement).

#[export] Instance msg_eq_dec : EqDecision msg.
Proof. solve_decision. Defined.

(** The kernel: an answer to every read and the fate of a batch. A read may
    change the state, so that other users of the namespace can act between
    two calls of the daemon. *)
Class Kernel (K : Type) := {
  k_ListTablesOfFamily : Z → K → result (list Table) * K;
  k_ListTableOfFamily : gostring → Z → K → result Table * K;
  k_ListChain : Table → gostring → K → result Chain * K;
  k_ListChainsOfTableFamily : Z → K → result (list Chain) * K;
  k_GetRules : Table → gostring → K → result (list Rule) * K;
  k_GetSets : Table → K → result (list NftSet) * K;
  k_GetSetByName : Table → gostring → K → result NftSet * K;
  k_GetSetElements : NftSet → K → result (list SetElement) * K;
  k_commit : list msg → K → result unit * K }.

(** What nf_tables documents of its answers: an object asked for by name has
    that name, a listing of a chain's rules has rules of that chain, and a
    listed rule has a handle. *)
Class LawfulKernel (K : Type) `{Kernel K} := {
  law_ListTableOfFamily name family k t k' :
    k_ListTableOfFamily name family k = (Ok t, k') → t = mkTable name family;
  law_ListChain t name k c k' :
    k_ListChain t name k = (Ok c, k') → Chain_Table c = t ∧ Chain_Name c = name;
  law_GetRules t name k rs k' :
    k_GetRules t name k = (Ok rs, k') →
    Forall (λ r, Table_Name (Rule_Table r) = Table_Name t ∧ Chain_Name (Rule_Chain r) = name ∧
                 Rule_Handle r ≠ 0) rs }.

(** [Conn]: the messages not yet flushed, the last transaction id, the first
    error of a write, and a log of the batches handed to the kernel. *)
Record Conn (K : Type) := mkConn {
  kern : K;
  messages : list msg;
  lastID : Z;
  conn_err : option error;
  sent : list (list msg) }.
Arguments mkConn {_} _ _ _ _ _.
Arguments kern {_} _.
Arguments messages {_} _.
Arguments lastID {_} _.
Arguments conn_err {_} _.
Arguments sent {_} _.

Definition newConn {K} (k : K) : Conn K := mkConn k [] 0 None [].

Section conn.
Context {K : Type} `{Kernel K}.

Definition set_kern (k : K) (c : Conn K) : Conn K :=
  mkConn k (messages c) (lastID c) (conn_err c) (sent c).
Definition push (m : msg) (c : Conn K) : Conn K :=
  mkConn (kern c) (messages c ++ [m]) (lastID c) (conn_err c) (sent c).

(** ** Reads *)

Definition read {A} (f : K → result A * K) : ST (Conn K) A := zoom kern set_kern f.

Definition ListTablesOfFamily (family : Z) : ST (Conn K) (list Table) := read (k_ListTablesOfFamily family).
Definition ListTableOfFamily (name : gostring) (family : Z) : ST (Conn K) Table :=
  read (k_ListTableOfFamily name family).
Definition ListChain (t : Table) (name : gostring) : ST (Conn K) Chain := read (k_ListChain t name).
Definition ListChainsOfTableFamily (family : Z) : ST (Conn K) (list Chain) :=
  read (k_ListChainsOfTableFamily family).

(** The library fills in the family of the table that was asked about. *)
Definition withFamily (t : Table) (r : Rule) : Rule :=
  mkRule (mkTable (Table_Name (Rule_Table r)) (Table_Family t)) (Rule_Chain r)
    (Rule_Handle r) (Rule_ID r) (Rule_Exprs r) (Rule_UserData r).
Definition GetRules (t : Table) (c : Chain) : ST (Conn K) (list Rule) :=
  rules ← read (k_GetRules t (Chain_Name c)); mret (withFamily t <$> rules).

(** The library sets the table of every set it returns. *)
Definition in_table (t : Table) (s : NftSet) : NftSet :=
  mkSet t (Set_ID s) (Set_Name s) (Set_Anonymous s) (Set_Constant s) (Set_Interval s)
    (Set_Counter s) (Set_KeyType s) (Set_KeyNative s) (Set_Comment s).
Definition GetSets (t : Table) : ST (Conn K) (list NftSet) :=
  sets ← read (k_GetSets t); mret (in_table t <$> sets).
Definition GetSetByName (t : Table) (name : gostring) : ST (Conn K) NftSet :=
  s ← read (k_GetSetByName t name); mret (in_table t s).
Definition GetSetElements (s : NftSet) : ST (Conn K) (list SetElement) := read (k_GetSetElements s).

(** ** Writes *)

Definition setErr (e : error) : ST (Conn K) unit :=
  modify (λ c, mkConn (kern c) (messages c) (lastID c)
                 (Some (default e (conn_err c))) (sent c)).

Definition allocateTransactionID : ST (Conn K) Z := λ c,
  let i := u32 (lastID c + 1) in
  let i := if i =? 0 then 1 else i in
  (Ok i, mkConn (kern c) (messages c) i (conn_err c) (sent c)).

Definition AddTable (t : Table) : ST (Conn K) Table := modify (push (MNewTable t)) ≫= λ _, mret t.
Definition DelTable (t : Table) : ST (Conn K) unit := modify (push (MDelTable t)).
Definition AddChain (c : Chain) : ST (Conn K) Chain := modify (push (MNewChain c)) ≫= λ _, mret c.
Definition DelChain (c : Chain) : ST (Conn K) unit := modify (push (MDelChain c)).

(** [newRule]: a rule without a handle gets a transaction id and is added; one
    with a handle replaces the rule it names. *)
Definition writeRule (mk : Rule → msg) (r : Rule) : ST (Conn K) Rule :=
  if negb (Rule_Handle r =? 0) then modify (push (MReplaceRule r)) ≫= λ _, mret r
  else
    id ← allocateTransactionID;
    let r := set_Rule_ID id r in
    modify (push (mk r)) ≫= λ _, mret r.
Definition AddRule (r : Rule) : ST (Conn K) Rule := writeRule MNewRule r.
Definition InsertRule (r : Rule) : ST (Conn K) Rule := writeRule MInsertRule r.

Definition DelRule (r : Rule) : ST (Conn K) unit :=
  if (Rule_Handle r =? 0) && (Rule_ID r =? 0) then
    let e := ErrOther "rule must have a handle or ID" in
    setErr e ≫= λ _, throw e
  else modify (push (MDelRule r)).

(** [appendElemList]: no message for no elements. *)
Definition appendElemList (mk : list SetElement → msg) (els : list SetElement) : ST (Conn K) unit :=
  match els with [] => mret tt | _ => modify (push (mk els)) end.

(** [AddSet] assigns the set's transaction id; the set it returns is the
    caller's, as updated. *)
Definition AddSet (s : NftSet) (els : list SetElement) : ST (Conn K) NftSet :=
  if Set_Anonymous s && negb (Set_Constant s) then
    let e := ErrOther "anonymous structs must be constant" in
    setErr e ≫= λ _, throw e
  else
    s ← (if Set_ID s =? 0 then id ← allocateTransactionID; mret (set_Set_ID id s) else mret s);
    modify (push (MNewSet s)) ≫= λ _,
    appendElemList (MNewSetElem s) els ≫= λ _, mret s.

Definition DelSet (s : NftSet) : ST (Conn K) unit := modify (push (MDelSet s)).

Definition updateElems (mk : list SetElement → msg) (s : NftSet) (els : list SetElement)
    : ST (Conn K) unit :=
  if Set_Anonymous s then
    let e := ErrOther "anonymous sets cannot be updated" in
    setErr e ≫= λ _, throw e
  else appendElemList mk els.
Definition SetAddElements (s : NftSet) (els : list SetElement) : ST (Conn K) unit :=
  updateElems (MNewSetElem s) s els.
Definition SetDeleteElements (s : NftSet) (els : list SetElement) : ST (Conn K) unit :=
  updateElems (MDelSetElem s) s els.

(** [Flush]: the buffer is emptied and the error forgotten whatever happens. *)
Definition Flush : ST (Conn K) unit := λ c,
  match messages c with
  | [] => (Ok tt, mkConn (kern c) [] (lastID c) None (sent c))
  | ms =>
    match conn_err c with
    | Some e => (Err e, mkConn (kern c) [] (lastID c) None (sent c))
    | None =>
      let '(r, k) := k_commit ms (kern c) in
      (r, mkConn k [] (lastID c) None (sent c ++ [ms]))
    end
  end.

(** ** Every message written satisfies a predicate *)

Definition all_msgs (P : msg → Prop) (c : Conn K) : Prop :=
  Forall P (messages c) ∧ Forall (Forall P) (sent c).

(** [writes P m]: on any kernel, [m] writes only messages satisfying [P]. *)
Abbreviation writes P m := (preserves (all_msgs P) m).

Section writes.
Variable P : msg → Prop.

Lemma writes_read {A} (f : K → result A * K) : writes P (read f).
Proof. intros c [H1 H2]. unfold read, zoom. destruct (f (kern c)). by split. Qed.
Lemma writes_push m : P m → writes P (modify (push m)).
Proof. intros Hm c [H1 H2]. split; [|done]. simpl. by forall_split. Qed.
Lemma writes_setErr e : writes P (setErr e).
Proof. by intros c Hc. Qed.
Lemma writes_alloc : writes P allocateTransactionID.
Proof. by intros c Hc. Qed.
Lemma writes_Flush : writes P Flush.
Proof.
  intros c [H1 H2]. unfold Flush. destruct (messages c) eqn:E; [by repeat split|].
  destruct (conn_err c); [by repeat split|]. destruct (k_commit _ _). split; cbn; [constructor|].
  apply Forall_cons in H1 as []. by forall_split.
Qed.
End writes.
End conn.

(** A connection starts with nothing written. *)
Lemma all_msgs_newConn {K} P (k : K) : all_msgs P (newConn k).
Proof. split; constructor. Qed.

#[export] Hint Resolve writes_read writes_push writes_setErr writes_alloc writes_Flush : gost.

(** Discharge [writes] goals structurally; leaves the predicate on each
    message pushed. *)
Ltac writes_step :=
  match goal with
  | |- preserves _ (mret _) => apply preserves_ret
  | |- preserves _ (throw _) => apply preserves_throw
  | |- preserves _ (lift_result _) => apply preserves_lift_result
  | |- preserves _ (read _) => apply writes_read
  | |- preserves _ (modify (push _)) => apply writes_push
  | |- preserves _ (setErr _) => apply writes_setErr
  | |- preserves _ allocateTransactionID => apply writes_alloc
  | |- preserves _ Flush => apply writes_Flush
  | |- preserves _ (try _) => apply preserves_try
  | |- preserves _ (wrapST _ _) => apply preserves_wrapST
  | |- preserves _ (_ ≫= _) => apply preserves_bind; [|intros]
  | |- preserves _ (match ?x with _ => _ end) => destruct x eqn:?
  end.
Ltac writes_auto := repeat writes_step.

(** ** Triples of the connection's operations *)

Section conn_lemmas.
Context {K : Type} `{Kernel K}.
Variable P : msg → Prop.
Abbreviation I := (all_msgs (K:=K) P).

Lemma triple_read {A} (f : K → result A * K) (Q : A → Prop) :
  (∀ k a k', f k = (Ok a, k') → Q a) → triple I (read f) Q.
Proof.
  intros HQ c Hc. split; [by apply writes_read|]. unfold read, zoom.
  destruct (f (kern c)) as [r k] eqn:E. intros a. simpl. intros ->. eauto.
Qed.
Lemma triple_GetRules `{!LawfulKernel K} t c :
  triple I (GetRules t c) (Forall (λ r, Rule_Table r = t ∧ Chain_Name (Rule_Chain r) = Chain_Name c ∧
                                       Rule_Handle r ≠ 0)).
Proof.
  eapply triple_bind; [apply triple_read, law_GetRules|]. intros rs Hrs. simpl in Hrs.
  apply triple_ret, Forall_fmap. eapply Forall_impl; [exact Hrs|]. intros r (HT & ? & ?). simpl.
  rewrite HT. by destruct t.
Qed.
Lemma triple_GetSets t : triple I (GetSets t) (Forall (λ s, Set_Table s = t)).
Proof.
  eapply triple_bind; [apply (triple_read _ (λ _, True)); done|]. intros ss _.
  apply triple_ret, Forall_fmap, Forall_true. done.
Qed.
Lemma triple_GetSetByName t n : triple I (GetSetByName t n) (λ s, Set_Table s = t).
Proof.
  eapply triple_bind; [apply (triple_read _ (λ _, True)); done|]. intros s _. by apply triple_ret.
Qed.
Lemma triple_ListChain `{!LawfulKernel K} t n :
  triple I (ListChain t n) (λ c, Chain_Table c = t ∧ Chain_Name c = n).
Proof. apply triple_read. intros k c k'. apply law_ListChain. Qed.
Lemma triple_push m : P m → triple I (modify (push m)) (λ _, True).
Proof. intros Hm. by apply triple_preserves, writes_push. Qed.
Lemma triple_Flush : triple I Flush (λ _, True).
Proof. apply triple_preserves, writes_Flush. Qed.
Lemma triple_AddTable t : P (MNewTable t) → triple I (AddTable t) (eq t).
Proof. intros Ht. eapply triple_bind; [by apply triple_push|]. intros _ _. by apply triple_ret. Qed.
Lemma triple_AddChain c : P (MNewChain c) → triple I (AddChain c) (eq c).
Proof. intros Ht. eapply triple_bind; [by apply triple_push|]. intros _ _. by apply triple_ret. Qed.

Lemma triple_DelRule r : P (MDelRule r) → triple I (DelRule r) (λ _, True).
Proof. intros. apply triple_preserves. unfold DelRule. writes_auto. done. Qed.
Lemma triple_writeRule mk r :
  (∀ id, P (mk (set_Rule_ID id r))) → Rule_Handle r = 0 →
  triple I (writeRule mk r) (λ r', ∃ id, r' = set_Rule_ID id r).
Proof.
  intros H1 H2. unfold writeRule. rewrite H2. simpl.
  eapply triple_bind; [apply triple_preserves, writes_alloc|]. intros id _.
  eapply triple_bind; [by apply triple_push|]. intros _ _. apply triple_ret. eauto.
Qed.
Lemma triple_appendElemList mk els : P (mk els) → triple I (appendElemList mk els) (λ _, True).
Proof. intros Hm. unfold appendElemList. destruct els; [by apply triple_ret|by apply triple_push]. Qed.
Lemma triple_AddSet s els :
  (∀ id, P (MNewSet (set_Set_ID id s)) ∧ P (MNewSetElem (set_Set_ID id s) els)) →
  triple I (AddSet s els) (λ s', ∃ id, s' = set_Set_ID id s).
Proof.
  intros Hs. unfold AddSet. case_match.
  { eapply triple_bind; [apply triple_preserves, writes_setErr|]. intros. apply triple_throw. }
  apply (triple_bind _ _ _ _ (λ s', ∃ id, s' = set_Set_ID id s)).
  - case_match; [|apply triple_ret; exists (Set_ID s); by destruct s].
    eapply triple_bind; [apply triple_preserves, writes_alloc|]. intros id _. apply triple_ret. eauto.
  - intros s' [id ->]. destruct (Hs id). eapply triple_bind; [by apply triple_push|]. intros _ _.
    eapply triple_bind; [by apply triple_appendElemList|]. intros _ _. apply triple_ret. eauto.
Qed.
Lemma triple_updateElems mk s els : P (mk els) → triple I (updateElems mk s els) (λ _, True).
Proof.
  intros Hm. unfold updateElems. case_match; [|by apply triple_appendElemList].
  eapply triple_bind; [apply triple_preserves, writes_setErr|]. intros. apply triple_throw.
Qed.
End conn_lemmas.

(** Close a listing of rules, wrapped or not, leaving its postcondition. *)
Ltac read_rules := try apply triple_wrapST; eapply triple_GetRules; apply _.

(** ** Exact effects *)

(** [c] with the messages [ms] buffered after its own. *)
Definition pushes {K} (ms : list msg) (c : Conn K) : Conn K :=
  mkConn (kern c) (messages c ++ ms) (lastID c) (conn_err c) (sent c).

(** A kernel state that no read changes: nobody else writes meanwhile. *)
Record quiet {K} `{Kernel K} (k : K) : Prop := {
  quiet_ListTablesOfFamily f : (k_ListTablesOfFamily f k).2 = k;
  quiet_ListTableOfFamily n f : (k_ListTableOfFamily n f k).2 = k;
  quiet_ListChain t n : (k_ListChain t n k).2 = k;
  quiet_ListChainsOfTableFamily f : (k_ListChainsOfTableFamily f k).2 = k;
  quiet_GetRules t n : (k_GetRules t n k).2 = k;
  quiet_GetSets t : (k_GetSets t k).2 = k;
  quiet_GetSetByName t n : (k_GetSetByName t n k).2 = k;
  quiet_GetSetElements s : (k_GetSetElements s k).2 = k }.

(** What [GetRules] returns for a table and chain in a kernel state. *)
Definition rulesAt {K} `{Kernel K} (k : K) (t : Table) (chain : gostring) : result (list Rule) :=
  match (k_GetRules t chain k).1 with Ok rs => Ok (withFamily t <$> rs) | Err e => Err e end.

Section effects.
Context {K : Type} `{Kernel K}.
Implicit Types c : Conn K.

Lemma pushes_nil c : pushes [] c = c.
Proof. unfold pushes. rewrite app_nil_r. by destruct c. Qed.
Lemma pushes_app m1 m2 c : pushes m2 (pushes m1 c) = pushes (m1 ++ m2) c.
Proof. unfold pushes. simpl. by rewrite app_assoc. Qed.
Lemma push_pushes m c : push m c = pushes [m] c.
Proof. done. Qed.

Lemma read_quiet {A} (f : K → result A * K) c :
  (f (kern c)).2 = kern c → read f c = ((f (kern c)).1, c).
Proof.
  intros Hq. unfold read, zoom. destruct (f (kern c)) as [r k]. simpl in Hq. subst. by destruct c.
Qed.

Lemma GetRules_quiet t ch c :
  quiet (kern c) → GetRules t ch c = (rulesAt (kern c) t (Chain_Name ch), c).
Proof.
  intros Hq. unfold GetRules, rulesAt, mbind, ST_bind, result_bind.
  rewrite read_quiet by apply quiet_GetRules, Hq. by destruct (k_GetRules _ _ _).1.
Qed.

Lemma rulesAt_lawful `{!LawfulKernel K} k t n rs :
  rulesAt k t n = Ok rs →
  Forall (λ r, Rule_Table r = t ∧ Chain_Name (Rule_Chain r) = n ∧ Rule_Handle r ≠ 0) rs.
Proof.
  unfold rulesAt. destruct (k_GetRules t n k) as [[rs0|e] k'] eqn:E; [|done]. intros [= <-].
  apply law_GetRules in E. apply Forall_fmap. eapply Forall_impl; [exact E|].
  intros r (HT & ? & ?). simpl. rewrite HT. by destruct t.
Qed.

Lemma DelRule_ok r c : Rule_Handle r ≠ 0 → DelRule r c = (Ok tt, push (MDelRule r) c).
Proof. intros Hh. unfold DelRule. apply Z.eqb_neq in Hh. by rewrite Hh. Qed.

(** A loop that buffers one message for each element satisfying [p]. *)
Lemma foldM_pushes {A} (l : list A) (f : bool → A → ST (Conn K) bool) (p : A → bool) (mk : A → msg) b c :
  (∀ b x c, x ∈ l → f b x c = if p x then (Ok true, push (mk x) c) else (Ok b, c)) →
  foldM l b f c = (Ok (b || existsb p l), pushes (mk <$> List.filter p l) c).
Proof.
  revert b c. induction l as [|x l IH]; intros b c Hf; simpl.
  { by rewrite pushes_nil, orb_false_r. }
  unfold mbind, ST_bind. rewrite Hf by set_solver. destruct (p x) eqn:E; simpl.
  - rewrite IH by (intros; apply Hf; set_solver).
    by rewrite push_pushes, pushes_app, orb_true_r.
  - rewrite IH by (intros; apply Hf; set_solver). done.
Qed.
End effects.
