(* ===== verification/RefKernel.v ===== *)
(** * A ruleset and what batches do to it

    What nf_tables holds, as a value: tables, chains, rules and sets, and what
    each message does to them. As a [Kernel] of its own, which refuses a batch
    with a message about an object that is missing or in use, it shows that
    the assumptions made of the kernel can hold, and runs the daemon on
    examples; NfTables.v states the properties of other kernels by it. *)

From S2P Require Import Prelude GoStd Names Nft Conn.

Record RK := mkRK {
  rk_tables : list Table;
  rk_chains : list Chain;
  rk_rules : list Rule;
  rk_sets : list (NftSet * list SetElement);
  rk_next : Z }.

Definition emptyRK : RK := mkRK [] [] [] [] 1.

Definition same_chain (t : Table) (n : gostring) (c : Chain) : bool :=
  bool_decide (Chain_Table c = t ∧ Chain_Name c = n).
Definition same_set (t : Table) (n : gostring) (s : NftSet * list SetElement) : bool :=
  bool_decide (Set_Table s.1 = t ∧ Set_Name s.1 = n).
Definition in_chain (t : Table) (n : gostring) (r : Rule) : bool :=
  bool_decide (Rule_Table r = t ∧ Chain_Name (Rule_Chain r) = n ∧ Rule_Handle r ≠ 0).

(** A rule dump has the name of a set it looks up and not the transaction id. *)
Definition dumpExpr (e : expr.Any) : expr.Any :=
  match e with
  | expr.Lookup s d i _ n v => expr.Lookup s d i 0 n v
  | e => e
  end.
Definition storeRule (h : Z) (r : Rule) : Rule :=
  mkRule (Rule_Table r) (Rule_Chain r) h 0 (dumpExpr <$> Rule_Exprs r) (Rule_UserData r).
Definition storeSet (s : NftSet) : NftSet := set_Set_ID 0 s.

(** A rule is known by its table and handle. *)
Definition same_rule (r r' : Rule) : bool :=
  bool_decide (Rule_Table r' = Rule_Table r) && (Rule_Handle r' =? Rule_Handle r).
Definition same_elem (e e' : SetElement) : bool :=
  bool_decide (Key e = Key e') && Bool.eqb (IntervalEnd e) (IntervalEnd e').

(** What a message of an accepted batch does. Handles are given out in order;
    an object that is there is not made again. *)
Definition rk_step (k : RK) (m : msg) : RK :=
  let '(mkRK ts cs rs ss h) := k in
  match m with
  | MNewTable t => mkRK (if bool_decide (t ∈ ts) then ts else ts ++ [t]) cs rs ss h
  | MDelTable t =>
    mkRK (List.filter (λ t', negb (bool_decide (t' = t))) ts)
      (List.filter (λ c, negb (bool_decide (Chain_Table c = t))) cs)
      (List.filter (λ r, negb (bool_decide (Rule_Table r = t))) rs)
      (List.filter (λ s, negb (bool_decide (Set_Table s.1 = t))) ss) h
  | MNewChain c =>
    mkRK ts (if existsb (same_chain (Chain_Table c) (Chain_Name c)) cs then cs else cs ++ [c]) rs ss h
  | MDelChain c =>
    mkRK ts (List.filter (λ c', negb (same_chain (Chain_Table c) (Chain_Name c) c')) cs) rs ss h
  | MNewRule r => mkRK ts cs (rs ++ [storeRule h r]) ss (h + 1)
  | MInsertRule r => mkRK ts cs (storeRule h r :: rs) ss (h + 1)
  | MReplaceRule r =>
    mkRK ts cs ((λ r', if same_rule r r' then storeRule (Rule_Handle r) r else r') <$> rs) ss h
  | MDelRule r => mkRK ts cs (List.filter (λ r', negb (same_rule r r')) rs) ss h
  | MNewSet s =>
    mkRK ts cs rs (if existsb (same_set (Set_Table s) (Set_Name s)) ss then ss
                   else ss ++ [(storeSet s, [])]) h
  | MDelSet s =>
    mkRK ts cs rs (List.filter (λ s', negb (same_set (Set_Table s) (Set_Name s) s')) ss) h
  | MNewSetElem s els =>
    mkRK ts cs rs ((λ s', if same_set (Set_Table s) (Set_Name s) s' then (s'.1, s'.2 ++ els) else s') <$> ss) h
  | MDelSetElem s els =>
    mkRK ts cs rs ((λ s', if same_set (Set_Table s) (Set_Name s) s' then
                             (s'.1, List.filter (λ e, negb (existsb (same_elem e) els)) s'.2)
                           else s') <$> ss) h
  end.

(** ** What is refused *)

Definition looksUpSet (t : Table) (n : gostring) (r : Rule) : bool :=
  bool_decide (Rule_Table r = t) &&
  existsb (λ e, match e with expr.Lookup _ _ _ _ n' _ => bool_decide (n' = n) | _ => false end) (Rule_Exprs r).
Definition jumpsTo (t : Table) (n : gostring) (r : Rule) : bool :=
  bool_decide (Rule_Table r = t) &&
  existsb (λ e, match e with expr.Verdict expr.VerdictJump n' => bool_decide (n' = n) | _ => false end) (Rule_Exprs r).

(** The chain of a rule, the chains it jumps to and the sets it looks up. *)
Definition has_chain (k : RK) (t : Table) (n : gostring) : bool := existsb (same_chain t n) (rk_chains k).
Definition has_set (k : RK) (t : Table) (n : gostring) : bool := existsb (same_set t n) (rk_sets k).
Definition rule_refs (k : RK) (r : Rule) : bool :=
  has_chain k (Rule_Table r) (Chain_Name (Rule_Chain r)) &&
  forallb (λ e, match e with
                | expr.Lookup _ _ _ _ n _ => has_set k (Rule_Table r) n
                | expr.Verdict expr.VerdictJump n => has_chain k (Rule_Table r) n
                | _ => true
                end) (Rule_Exprs r).

(** A message about an object that exists (ENOENT) and is not in use (EBUSY):
    a chain or set to be deleted has no rule that refers to it, and the
    elements of a constant set that a rule looks up do not change. *)
Definition acceptable (k : RK) (m : msg) : bool :=
  match m with
  | MNewTable _ => true
  | MDelTable t => bool_decide (t ∈ rk_tables k)
  | MNewChain c => bool_decide (Chain_Table c ∈ rk_tables k)
  | MDelChain c =>
    has_chain k (Chain_Table c) (Chain_Name c) && negb (existsb (jumpsTo (Chain_Table c) (Chain_Name c)) (rk_rules k))
  | MNewRule r | MInsertRule r => rule_refs k r
  | MReplaceRule r => existsb (same_rule r) (rk_rules k) && rule_refs k r
  | MDelRule r => existsb (same_rule r) (rk_rules k)
  | MNewSet s => bool_decide (Set_Table s ∈ rk_tables k)
  | MDelSet s =>
    has_set k (Set_Table s) (Set_Name s) && negb (existsb (looksUpSet (Set_Table s) (Set_Name s)) (rk_rules k))
  | MNewSetElem s _ | MDelSetElem s _ =>
    match List.find (same_set (Set_Table s) (Set_Name s)) (rk_sets k) with
    | Some s' => negb (Set_Constant s'.1 && existsb (looksUpSet (Set_Table s) (Set_Name s)) (rk_rules k))
    | None => false
    end
  end.

Definition EBUSY : error := ErrOther "device or resource busy".

(** A batch is a transaction: it is carried out as a whole or not at all. *)
Fixpoint rk_commit (ms : list msg) (k : RK) : option RK :=
  match ms with
  | [] => Some k
  | m :: ms => if acceptable k m then rk_commit ms (rk_step k m) else None
  end.

Lemma rk_commit_Some ms k k' : rk_commit ms k = Some k' → k' = foldl rk_step k ms.
Proof.
  revert k. induction ms as [|m ms IH]; intros k; cbn; [by intros [= ->]|].
  destruct (acceptable k m); [apply IH|done].
Qed.

#[export] Instance RK_kernel : Kernel RK := {|
  k_ListTablesOfFamily f k := (Ok (List.filter (λ t, Table_Family t =? f) (rk_tables k)), k);
  k_ListTableOfFamily n f k :=
    (if bool_decide (mkTable n f ∈ rk_tables k) then Ok (mkTable n f) else Err ErrNotExist, k);
  k_ListChain t n k :=
    (match List.find (same_chain t n) (rk_chains k) with Some c => Ok c | None => Err ErrNotExist end, k);
  k_ListChainsOfTableFamily f k :=
    (Ok (List.filter (λ c, Table_Family (Chain_Table c) =? f) (rk_chains k)), k);
  k_GetRules t n k := (Ok (List.filter (in_chain t n) (rk_rules k)), k);
  k_GetSets t k := (Ok (List.filter (λ s, bool_decide (Set_Table s = t)) (rk_sets k).*1), k);
  k_GetSetByName t n k :=
    (match List.find (same_set t n) (rk_sets k) with Some s => Ok (storeSet s.1) | None => Err ErrNotExist end, k);
  k_GetSetElements s k :=
    (match List.find (same_set (Set_Table s) (Set_Name s)) (rk_sets k) with
     | Some s => Ok s.2 | None => Err ErrNotExist end, k);
  k_commit ms k := match rk_commit ms k with Some k' => (Ok tt, k') | None => (Err EBUSY, k) end |}.

#[export] Instance RK_lawful : LawfulKernel RK.
Proof.
  split; simpl.
  - intros name family k t k'. case_match; by intros [= <- <-].
  - intros t name k c k'. destruct (List.find _ _) as [c'|] eqn:E; [|done].
    intros [= <- <-]. apply find_some in E as [_ E]. by apply bool_decide_eq_true in E.
  - intros t name k rs k' [= <- <-]. apply Forall_forall. intros r Hr.
    apply list_elem_of_In, filter_In in Hr as [_ Hr]. apply bool_decide_eq_true in Hr as (-> & ? & ?). done.
Qed.

Lemma RK_quiet (k : RK) : quiet k.
Proof. by split. Qed.
