(* ===== verification/NfTables.v ===== *)
(** * Kernels that behave as nf_tables

    What the properties of whole syncs need of the kernel: its state shows a
    ruleset, reads answer from it, an accepted batch changes it as [rk_step]
    says, and a refused one leaves it. Which batches the kernel refuses is left
    open, and so are the order of its listings and the handles it gives out. *)

From S2P Require Import Prelude GoStd Names Nft Conn RefKernel.

Definition find_chain (k : RK) (t : Table) (n : gostring) : option Chain := List.find (same_chain t n) (rk_chains k).
Definition find_set (k : RK) (t : Table) (n : gostring) : option (NftSet * list SetElement) :=
  List.find (same_set t n) (rk_sets k).

(** What names a rule in a deletion. *)
Definition ruleKey (r : Rule) : Table * Z := (Rule_Table r, Rule_Handle r).

(** Handles are positive, distinct in a table and below the next one. *)
Record handles_ok (k : RK) : Prop := {
  handles_nodup : NoDup (ruleKey <$> rk_rules k);
  handles_bound r : r ∈ rk_rules k → 0 < Rule_Handle r < rk_next k;
  handles_next : 0 < rk_next k }.

(** [k2] is [k1], which came from [k], but for the handles of new rules and the
    next one to give out. *)
Definition set_handle (h : Z) (r : Rule) : Rule :=
  mkRule (Rule_Table r) (Rule_Chain r) h (Rule_ID r) (Rule_Exprs r) (Rule_UserData r).
Definition same_but_handle (k : RK) (r r' : Rule) : Prop :=
  r' = set_handle (Rule_Handle r') r ∧ (r ∈ rk_rules k → r' = r).
Record renumbered (k k1 k2 : RK) : Prop := {
  rn_tables : rk_tables k2 = rk_tables k1;
  rn_chains : rk_chains k2 = rk_chains k1;
  rn_sets : rk_sets k2 = rk_sets k1;
  rn_rules : Forall2 (same_but_handle k) (rk_rules k1) (rk_rules k2);
  rn_handles : handles_ok k2 }.

(** A kernel whose state shows a ruleset [shown]. Time passes only with the
    batches: nobody else writes, and no packet is counted. *)
Class NfTables (K : Type) `{Kernel K} := {
  shown : K → RK;
  nft_quiet k : quiet k;
  nft_ListTablesOfFamily f k : ∃ l, (k_ListTablesOfFamily f k).1 = Ok l ∧
    ∀ t, t ∈ l ↔ t ∈ rk_tables (shown k) ∧ Table_Family t = f;
  nft_ListTableOfFamily n f k :
    (k_ListTableOfFamily n f k).1 =
      if bool_decide (mkTable n f ∈ rk_tables (shown k)) then Ok (mkTable n f) else Err ErrNotExist;
  nft_ListChain t n k :
    (k_ListChain t n k).1 = match find_chain (shown k) t n with Some c => Ok c | None => Err ErrNotExist end;
  nft_ListChainsOfTableFamily f k : ∃ l, (k_ListChainsOfTableFamily f k).1 = Ok l ∧
    ∀ c, c ∈ l ↔ c ∈ rk_chains (shown k) ∧ Table_Family (Chain_Table c) = f;
  nft_GetRules t n k : (k_GetRules t n k).1 = Ok (List.filter (in_chain t n) (rk_rules (shown k)));
  nft_GetSets t k : ∃ l, (k_GetSets t k).1 = Ok l ∧
    ∀ s, s ∈ l ↔ ∃ x, x ∈ rk_sets (shown k) ∧ Set_Table x.1 = t ∧ s = x.1;
  nft_GetSetByName t n k :
    (k_GetSetByName t n k).1 = match find_set (shown k) t n with Some x => Ok (storeSet x.1) | None => Err ErrNotExist end;
  nft_GetSetElements s k :
    match find_set (shown k) (Set_Table s) (Set_Name s) with
    | Some x => ∃ els, (k_GetSetElements s k).1 = Ok els ∧ ∀ e, e ∈ els ↔ e ∈ x.2
    | None => is_ok (k_GetSetElements s k).1 = false
    end;
  nft_commit ms k k' :
    handles_ok (shown k) → k_commit ms k = (Ok tt, k') → renumbered (shown k) (foldl rk_step (shown k) ms) (shown k');
  nft_refuse ms k e k' : k_commit ms k = (Err e, k') → shown k' = shown k }.

(** ** Rulesets *)

Lemma same_rule_spec r r' : same_rule r r' = true ↔ ruleKey r' = ruleKey r.
Proof.
  unfold same_rule, ruleKey. rewrite andb_true_iff, bool_decide_eq_true, Z.eqb_eq. split; [by intros [-> ->]|by intros [= -> ->]].
Qed.

Lemma same_set_spec t n s : same_set t n s = true ↔ Set_Table s.1 = t ∧ Set_Name s.1 = n.
Proof. apply bool_decide_eq_true. Qed.
Lemma same_chain_spec t n c : same_chain t n c = true ↔ Chain_Table c = t ∧ Chain_Name c = n.
Proof. apply bool_decide_eq_true. Qed.
Lemma find_chain_spec k t n c : find_chain k t n = Some c → c ∈ rk_chains k ∧ Chain_Table c = t ∧ Chain_Name c = n.
Proof. intros [Hc Hp]%find_elem. by apply same_chain_spec in Hp. Qed.
Lemma find_set_spec k t n s : find_set k t n = Some s → s ∈ rk_sets k ∧ Set_Table s.1 = t ∧ Set_Name s.1 = n.
Proof. intros [Hs Hp]%find_elem. by apply same_set_spec in Hp. Qed.

(** The key of a rule names it. *)
Lemma handles_unique k r r' : handles_ok k → r ∈ rk_rules k → r' ∈ rk_rules k → ruleKey r = ruleKey r' → r = r'.
Proof.
  intros Hok [i Hi]%list_elem_of_lookup [j Hj]%list_elem_of_lookup E.
  assert (i = j) as ->; [|congruence].
  apply (NoDup_lookup _ _ _ (ruleKey r) (handles_nodup _ Hok)); rewrite list_lookup_fmap; [by rewrite Hi|by rewrite Hj, E].
Qed.

Lemma handles_step k m : handles_ok k → handles_ok (rk_step k m).
Proof.
  intros [Hnd Hb Hn]. destruct k as [ts cs rs ss h]. cbn in *.
  assert (∀ r (p : Rule → bool), r ∈ List.filter p rs → 0 < Rule_Handle r < h) as Hf
    by (intros r p [Hr _]%elem_of_filterb; auto).
  assert (∀ r, ruleKey (storeRule h r) ∉ ruleKey <$> rs) as Hfresh.
  { intros r (x & E & Hx)%list_elem_of_fmap. apply Hb in Hx. injection E as _ E. lia. }
  destruct m; cbn; try (by split); (split; cbn; [| |lia]); try (by apply NoDup_fmap_filter); try (intros ??; by eapply Hf).
  - rewrite fmap_app. apply NoDup_app. split_and!; [done| |by apply NoDup_singleton].
    intros x Hx ->%list_elem_of_singleton. by eapply Hfresh.
  - intros x [Hx| ->%list_elem_of_singleton]%elem_of_app; [apply Hb in Hx; lia|cbn; lia].
  - constructor; [apply Hfresh|done].
  - intros x [->|Hx]%elem_of_cons; [cbn; lia|apply Hb in Hx; lia].
  - rewrite <-list_fmap_compose. erewrite list_fmap_ext; [exact Hnd|]. intros _ x _. cbn.
    destruct (same_rule r x) eqn:E; [|done]. apply same_rule_spec in E. unfold ruleKey in *. cbn. congruence.
  - intros x (y & -> & Hy)%list_elem_of_fmap. destruct (same_rule r y) eqn:E; [|by apply Hb].
    apply same_rule_spec in E. injection E as _ E. cbn. rewrite <-E. by apply Hb.
Qed.
Lemma handles_foldl k ms : handles_ok k → handles_ok (foldl rk_step k ms).
Proof. revert k. induction ms as [|m ms IH]; intros k Hk; cbn; [done|]. by apply IH, handles_step. Qed.

Lemma handles_empty : handles_ok emptyRK.
Proof. split; [by constructor|by intros ? ?%not_elem_of_nil|done]. Qed.

Lemma renumbered_refl k k1 : handles_ok k1 → renumbered k k1 k1.
Proof.
  intros Hk. split; try done. apply Forall_Forall2_diag, Forall_forall. intros r _. split; [by destruct r|done].
Qed.

(** When no rule is new, only the next handle can differ. *)
Lemma renumbered_old k k1 k2 :
  renumbered k k1 k2 → (∀ r, r ∈ rk_rules k1 → r ∈ rk_rules k) → rk_rules k2 = rk_rules k1.
Proof.
  intros [_ _ _ HF _] Hold. revert Hold. induction HF as [|r r' l l' [_ Hr] _ IH]; intros Hold; [done|].
  rewrite IH by (intros; apply Hold; by right). by rewrite Hr by (apply Hold; by left).
Qed.

Lemma set_handle_twice h h' r : set_handle h (set_handle h' r) = set_handle h r.
Proof. done. Qed.

Section renumbered.
Context {k k1 k2 : RK} (Hrn : renumbered k k1 k2).

Lemma renumbered_l r : r ∈ rk_rules k1 → ∃ h, set_handle h r ∈ rk_rules k2.
Proof.
  intros Hr. destruct (Forall2_elem_l _ _ _ _ (rn_rules _ _ _ Hrn) Hr) as (r' & Hr' & E & _).
  exists (Rule_Handle r'). by rewrite <-E.
Qed.
Lemma renumbered_r r : r ∈ rk_rules k2 → ∃ h, set_handle h r ∈ rk_rules k1.
Proof.
  intros Hr. apply list_elem_of_lookup in Hr as [i Hi].
  destruct (Forall2_lookup_r _ _ _ _ _ (rn_rules _ _ _ Hrn) Hi) as (r' & Hr' & E & _).
  exists (Rule_Handle r'). rewrite E. cbn. replace (set_handle _ (set_handle _ r')) with r' by (by destruct r').
  by eapply list_elem_of_lookup_2.
Qed.
Lemma renumbered_find_chain t n : find_chain k2 t n = find_chain k1 t n.
Proof. unfold find_chain. by rewrite (rn_chains _ _ _ Hrn). Qed.
Lemma renumbered_find_set t n : find_set k2 t n = find_set k1 t n.
Proof. unfold find_set. by rewrite (rn_sets _ _ _ Hrn). Qed.
End renumbered.

(** ** What the laws say of reads *)

Section reads.
Context {K : Type} `{NfTables K}.
Implicit Types k : K.

#[export] Instance NfTables_lawful : LawfulKernel K | 100.
Proof.
  split.
  - intros name family k t k' E. apply (f_equal fst) in E. rewrite nft_ListTableOfFamily in E. cbn in E.
    case_bool_decide; [by injection E as <-|done].
  - intros t name k c k' E. apply (f_equal fst) in E. rewrite nft_ListChain in E. cbn in E.
    destruct (find_chain _ _ _) eqn:Ec; [|done]. injection E as ->. apply find_elem in Ec as [_ Ec].
    by apply bool_decide_eq_true in Ec.
  - intros t name k rs k' E. apply (f_equal fst) in E. rewrite nft_GetRules in E. cbn in E. injection E as <-.
    apply Forall_forall. intros r [_ (-> & ? & ?)%bool_decide_eq_true]%elem_of_filterb. done.
Qed.

Lemma rulesAt_shown k t n : rulesAt k t n = Ok (List.filter (in_chain t n) (rk_rules (shown k))).
Proof.
  unfold rulesAt. rewrite nft_GetRules. f_equal.
  apply list_eq_same_length with (n := length (List.filter (in_chain t n) (rk_rules (shown k)))); [done|by rewrite length_fmap|].
  intros i x y _ Hx Hy. rewrite list_lookup_fmap, Hy in Hx. injection Hx as <-.
  apply list_elem_of_lookup_2, elem_of_filterb in Hy as [_ Hy].
  apply bool_decide_eq_true in Hy as (<- & _ & _). unfold withFamily. by destruct y as [[]].
Qed.
End reads.

(** ** The reference kernel *)

#[export] Instance RK_NfTables : NfTables RK.
Proof.
  refine {| shown := id |}.
  - apply RK_quiet.
  - intros f k. eexists. split; [reflexivity|]. intros t. by rewrite elem_of_filterb, Z.eqb_eq.
  - done.
  - done.
  - intros f k. eexists. split; [reflexivity|]. intros c. by rewrite elem_of_filterb, Z.eqb_eq.
  - done.
  - intros t k. eexists. split; [reflexivity|]. intros s. rewrite elem_of_filterb, bool_decide_eq_true, list_elem_of_fmap. naive_solver.
  - done.
  - intros s k. unfold find_set, id. cbn. destruct (List.find _ _) as [x|]; [by exists x.2|done].
  - intros ms k k' Hok. cbn. destruct (rk_commit ms k) as [k1|] eqn:E; [|done]. intros [= <-].
    apply rk_commit_Some in E as ->. by apply renumbered_refl, handles_foldl.
  - intros ms k e k'. cbn. by destruct (rk_commit ms k); [|intros [= _ <-]].
Defined.
