(* ===== verification/State.v ===== *)
(** * The daemon's view of one network namespace

    [nftState] of pkg/server/netfilterrules.go and the operations every rule
    generator is built from: [addTable], [addChain], [findRule],
    [updateRule] and [updateSet]. Each reads the kernel, buffers the messages
    that are missing, and records what must survive the cleanup. *)

From S2P Require Import Prelude GoStd Names Nft Elements Conn.

Record nftState (K : Type) := mkState {
  nft : Conn K;
  filterT : Table;
  natT : Table;
  interfaceFilterSet : option NftSet;
  interfaceNatSet : option NftSet;
  inputC : option Chain;
  outputC : option Chain;
  preroutingC : option Chain;
  ingressC : option Chain;
  egressC : option Chain;
  commonIngressC : option Chain;
  commonEgressC : option Chain;
  rules : gmap gostring Rule;
  sets : gmap gostring NftSet;
  chains : gmap gostring Chain }.
Arguments mkState {_}.
Arguments nft {_} _.
Arguments filterT {_} _.
Arguments natT {_} _.
Arguments interfaceFilterSet {_} _.
Arguments interfaceNatSet {_} _.
Arguments inputC {_} _.
Arguments outputC {_} _.
Arguments preroutingC {_} _.
Arguments ingressC {_} _.
Arguments egressC {_} _.
Arguments commonIngressC {_} _.
Arguments commonEgressC {_} _.
Arguments rules {_} _.
Arguments sets {_} _.
Arguments chains {_} _.

(** [&nftState{nft, filter, nat, rules: {}, sets: {}, chains: {}}] *)
Definition newState {K} (c : Conn K) (f n : Table) : nftState K :=
  mkState c f n None None None None None None None None None ∅ ∅ ∅.

(** [nftState] before [bootstrapNetfilterRules] fills it in; its tables are not
    read before they are set. *)
Definition startState {K} (c : Conn K) : nftState K := newState c (mkTable [] 0) (mkTable [] 0).

(** The assignments to fields the code makes. *)
Section setters.
Context {K : Type}.
Implicit Types n : nftState K.

Definition set_nft (c : Conn K) n : nftState K :=
  mkState c (filterT n) (natT n) (interfaceFilterSet n) (interfaceNatSet n) (inputC n) (outputC n)
    (preroutingC n) (ingressC n) (egressC n) (commonIngressC n) (commonEgressC n)
    (rules n) (sets n) (chains n).
Definition set_interfaceSets (f t : option NftSet) n : nftState K :=
  mkState (nft n) (filterT n) (natT n) f t (inputC n) (outputC n)
    (preroutingC n) (ingressC n) (egressC n) (commonIngressC n) (commonEgressC n)
    (rules n) (sets n) (chains n).
Definition set_baseChains (i o p : option Chain) n : nftState K :=
  mkState (nft n) (filterT n) (natT n) (interfaceFilterSet n) (interfaceNatSet n) i o p
    (ingressC n) (egressC n) (commonIngressC n) (commonEgressC n) (rules n) (sets n) (chains n).
Definition set_multiChains (i e ci ce : option Chain) n : nftState K :=
  mkState (nft n) (filterT n) (natT n) (interfaceFilterSet n) (interfaceNatSet n) (inputC n)
    (outputC n) (preroutingC n) i e ci ce (rules n) (sets n) (chains n).
Definition set_maps (r : gmap gostring Rule) (s : gmap gostring NftSet) (c : gmap gostring Chain) n
    : nftState K :=
  mkState (nft n) (filterT n) (natT n) (interfaceFilterSet n) (interfaceNatSet n) (inputC n)
    (outputC n) (preroutingC n) (ingressC n) (egressC n) (commonIngressC n) (commonEgressC n) r s c.
End setters.

Section state.
Context {K : Type} `{Kernel K} `{Gob}.
Abbreviation M := (ST (nftState K)).

(** A call on [n.nft]. *)
Definition onNft {A} (m : ST (Conn K) A) : M A := zoom nft set_nft m.

(** Following a pointer field; a nil one would panic. *)
Definition deref {A} (f : nftState K → option A) : M A := λ n,
  match f n with Some a => (Ok a, n) | None => (Err (ErrOther "nil pointer dereference"), n) end.

(** [addTable] *)
Definition addTable (table : Table) : ST (Conn K) Table :=
  r ← try (ListTableOfFamily (Table_Name table) (Table_Family table));
  match r with
  | Err e => if negb (isNotExist e) then throw (ErrWrap "failed to check existence of table" e)
             else AddTable table
  | Ok t => mret t
  end.

(** [chainID] *)
Definition chainID (c : Chain) : gostring := Table_Name (Chain_Table c) ++ str "-" ++ Chain_Name c.

(** The name an object is given in the kernel: [addChain] and [updateSet]
    replace one of more than 31 bytes by its hash. *)
Definition kernelName (name : gostring) : gostring :=
  if 31 <? len name then hash_string name else name.

Definition set_Chain_Name (nm : gostring) (c : Chain) : Chain :=
  mkChain nm (Chain_Table c) (Chain_Hooknum c) (Chain_Priority c) (Chain_Type c).

(** [addChain]. [ListChain] returns a nil chain with every error, so each
    error takes the branch that adds the chain; the branch that reports it is
    kept as written. *)
Definition addChain (chain : Chain) : M Chain :=
  let chain := set_Chain_Name (kernelName (Chain_Name chain)) chain in
  r ← onNft (try (ListChain (Chain_Table chain) (Chain_Name chain)));
  let existingChain := match r with Ok c => Some c | Err _ => None end in
  let err := match r with Ok _ => None | Err e => Some e end in
  c ← match existingChain, err with
      | None, _ => onNft (AddChain chain)
      | Some ex, Some e =>
        if isNotExist e then onNft (AddChain chain)
        else if negb (isExist e) then throw (ErrWrap "failed to configure chain" e)
        else mret ex
      | Some ex, None => mret ex
      end;
  modify (λ n, set_maps (rules n) (sets n) (<[chainID c := c]> (chains n)) n) ≫= λ _,
  mret c.

(** [findRule] *)
Definition findRule (rule : Rule) : M (option Rule) :=
  rs ← wrapST "failed to list rules" (onNft (GetRules (Rule_Table rule) (Rule_Chain rule)));
  mret (List.find (ruleEqual rule) rs).

(** The counter of the existing rule takes the place of the first counter of
    the new one. *)
Fixpoint replaceCounter (c : expr.Any) (es : list expr.Any) : list expr.Any :=
  match es with
  | [] => []
  | e :: es => if expr.is_Counter e then c :: es else e :: replaceCounter c es
  end.
Definition copyCounter (existing rule : Rule) : Rule :=
  match List.find expr.is_Counter (Rule_Exprs existing) with
  | Some c => set_Rule_Exprs (replaceCounter c (Rule_Exprs rule)) rule
  | None => rule
  end.

(** [updateRule]; [action] is [AddRule] or [InsertRule]. *)
Definition updateRule (rule : Rule) (action : Rule → ST (Conn K) Rule) (forceUpdate : bool) : M bool :=
  existingRule ← wrapST "failed to get rule by comment" (findRule rule);
  p ← match existingRule with
      | Some ex =>
        if negb forceUpdate then mret (ex, false)
        else
          let rule := copyCounter ex rule in
          wrapST "failed to delete existing rule" (onNft (DelRule ex)) ≫= λ _,
          rule ← onNft (action rule);
          mret (rule, false)
      | None =>
        rule ← onNft (action rule);
        mret (rule, true)
      end;
  key ← wrapST "failed to get hash for rule" (lift_result (hash_rule p.1));
  modify (λ n, set_maps (<[key := p.1]> (rules n)) (sets n) (chains n) n) ≫= λ _,
  mret p.2.

(** The key of [n.sets]. *)
Definition setKey (table name : gostring) : gostring := table ++ str "-" ++ name.

(** [updateSet]; the set is the caller's, returned as the call leaves it (its
    name shortened, its transaction id assigned). *)
Definition updateSet (set : NftSet) (elements : list SetElement) : M NftSet :=
  let set := set_Set_Name (kernelName (Set_Name set)) set in
  r ← onNft (try (GetSetByName (Set_Table set) (Set_Name set)));
  match r with
  | Err e =>
    if negb (isNotExist e) then throw (ErrWrap "failed to get set" e)
    else
      set ← wrapST "failed to add set" (onNft (AddSet set elements));
      modify (λ n, set_maps (rules n)
        (<[setKey (Table_Name (Set_Table set)) (Set_Name set) := set]> (sets n)) (chains n) n) ≫= λ _,
      mret set
  | Ok existingSet =>
    r ← try (onNft (GetSetElements existingSet));
    match r with
    | Err _ => throw (ErrOther "failed to get elements for set")
    | Ok existingElements =>
      let p := processElements elements existingElements in
      (if (0 <? len p.2)%Z then
         wrapST "failed to remove elements from set" (onNft (SetDeleteElements existingSet p.2))
       else mret tt) ≫= λ _,
      (if (0 <? len p.1)%Z then
         wrapST "failed to add elements to set" (onNft (SetAddElements existingSet p.1))
       else mret tt) ≫= λ _,
      modify (λ n, set_maps (rules n)
        (<[setKey (Table_Name (Set_Table set)) (Set_Name set) := existingSet]> (sets n)) (chains n) n) ≫= λ _,
      mret set
    end
  end.
End state.

(** ** The daemon writes to its own tables only *)

Definition own_table (t : Table) : Prop := Table_Name t = FilterTableName ∨ Table_Name t = NatTableName.
Definition own_chain (c : Chain) : Prop := own_table (Chain_Table c).

(** A message that touches nothing outside the daemon's tables and neither
    deletes a table nor replaces a rule. *)
Definition own_msg (m : msg) : Prop :=
  match m with
  | MNewTable t => own_table t
  | MDelTable _ | MReplaceRule _ => False
  | MNewChain c | MDelChain c => own_chain c
  | MNewRule r | MInsertRule r | MDelRule r => own_table (Rule_Table r)
  | MNewSet s | MDelSet s | MNewSetElem s _ | MDelSetElem s _ => own_table (Set_Table s)
  end.

Definition chainFields {K} (n : nftState K) : list (option Chain) :=
  [inputC n; outputC n; preroutingC n; ingressC n; egressC n; commonIngressC n; commonEgressC n].
Definition own_fields {K} (n : nftState K) : Prop :=
  own_table (filterT n) ∧ own_table (natT n) ∧
  Forall (λ c, ∀ c', c = Some c' → own_chain c') (chainFields n) ∧
  Forall (λ s, ∀ s', s = Some s' → own_table (Set_Table s')) [interfaceFilterSet n; interfaceNatSet n].

(** The invariant of a sync: what was written satisfies [P], and every table,
    chain and set the state points to is the daemon's. *)
Definition own_inv {K} (P : msg → Prop) (n : nftState K) : Prop :=
  all_msgs P (nft n) ∧ own_fields n.

Section own.
Context {K : Type} `{LawfulKernel K} `{Gob}.
Variable P : msg → Prop.
Hypothesis own_P : ∀ m, own_msg m → P m.
Abbreviation I := (own_inv (K:=K) P).

Lemma triple_onNft {A} (m : ST (Conn K) A) Q : triple (all_msgs P) m Q → triple I (onNft m) Q.
Proof.
  intros Hm n [Hn Hf]. unfold onNft, zoom. destruct (Hm (nft n) Hn) as [Hi HQ].
  destruct (m (nft n)) as [r c]. split; [by split|done].
Qed.

Lemma triple_set_maps fr fs fc :
  triple I (modify (λ n, set_maps (fr n) (fs n) (fc n) n)) (λ _, True).
Proof. intros n [Hn Hf]. by split. Qed.

(** A pointer field of the state leads to something in the daemon's tables. *)
Lemma triple_deref_chain f :
  (∀ n : nftState K, f n ∈ chainFields n) → triple I (deref f) own_chain.
Proof.
  intros Hf n HI. pose proof HI as (_ & _ & _ & HC & _). unfold deref.
  specialize (Hf n). rewrite Forall_forall in HC. specialize (HC _ Hf).
  destruct (f n) as [c|]; split; try done. intros ? [= <-]. by apply HC.
Qed.
Lemma triple_deref_set f :
  (∀ n : nftState K, f n ∈ [interfaceFilterSet n; interfaceNatSet n]) →
  triple I (deref f) (λ s, own_table (Set_Table s)).
Proof.
  intros Hf n HI. pose proof HI as (_ & _ & _ & _ & HS). unfold deref.
  specialize (Hf n). rewrite Forall_forall in HS. specialize (HS _ Hf).
  destruct (f n) as [c|]; split; try done. intros ? [= <-]. by apply HS.
Qed.

Lemma triple_addChain c :
  own_chain c → triple I (addChain c) (λ c', Chain_Table c' = Chain_Table c ∧ Chain_Name c' = kernelName (Chain_Name c)).
Proof.
  intros Hc. unfold addChain. cbv zeta.
  eapply triple_bind; [apply triple_onNft, triple_try, triple_ListChain; apply _|].
  intros r Hr. cbn [Chain_Table Chain_Name set_Chain_Name] in Hr.
  eapply (triple_bind _ _ _ _ (λ c', Chain_Table c' = Chain_Table c ∧ Chain_Name c' = kernelName (Chain_Name c))).
  - destruct r as [ex|e]; [by apply triple_ret, Hr|].
    eapply triple_weaken; [by apply triple_onNft, triple_AddChain, own_P|]. by intros ? <-.
  - intros c' Hc'. eapply triple_bind; [apply triple_set_maps|]. intros _ _. by apply triple_ret.
Qed.

Lemma triple_findRule rule :
  triple I (findRule rule) (λ o, ∀ ex, o = Some ex → ruleEqual rule ex = true).
Proof.
  unfold findRule. eapply triple_bind; [apply triple_wrapST, triple_onNft; read_rules|].
  intros rs _. apply triple_ret. intros ex Hex. by apply find_some in Hex as [_ ?].
Qed.

Lemma triple_updateRule rule mk force :
  own_table (Rule_Table rule) → Rule_Handle rule = 0 →
  (∀ r, own_table (Rule_Table r) → own_msg (mk r)) →
  triple I (updateRule rule (writeRule mk) force) (λ _, True).
Proof.
  intros Ht Hh Hmk.
  assert (∀ r, Rule_Table r = Rule_Table rule → Rule_Handle r = 0 →
    triple I (onNft (writeRule mk r)) (λ _, True)) as Hwrite.
  { intros r HT HH. eapply triple_weaken; [apply triple_onNft, triple_writeRule; [|done]|done].
    intros id. apply own_P, Hmk. simpl. by rewrite HT. }
  unfold updateRule. eapply triple_bind; [apply triple_wrapST, triple_findRule|]. intros o Ho.
  eapply (triple_bind _ _ _ _ (λ _, True)).
  - destruct o as [ex|].
    + case_match; [by apply triple_ret|]. cbv zeta.
      specialize (Ho ex eq_refl). apply ruleEqual_spec in Ho as (_ & HT & _).
      eapply triple_bind; [apply triple_wrapST, triple_onNft, triple_DelRule, own_P|].
      { simpl. unfold own_table. by rewrite <-HT. }
      intros _ _. eapply triple_bind; [|intros; by apply triple_ret].
      apply Hwrite; unfold copyCounter; by case_match.
    + eapply triple_bind; [by apply Hwrite|]. intros. by apply triple_ret.
  - intros p _. apply (triple_bind _ _ _ _ (λ _, True)); [by apply triple_wrapST, triple_preserves, preserves_lift_result|].
    intros key _. eapply triple_bind; [apply triple_set_maps|]. intros. by apply triple_ret.
Qed.

Lemma triple_updateSet set els :
  own_table (Set_Table set) → triple I (updateSet set els) (λ s, Set_Table s = Set_Table set).
Proof.
  intros Ht. unfold updateSet. cbv zeta.
  eapply triple_bind; [apply triple_onNft, triple_try, triple_GetSetByName|]. intros r Hr.
  destruct r as [ex|e].
  - specialize (Hr ex eq_refl). simpl in Hr.
    eapply (triple_bind _ _ _ _ (λ _, True)); [|].
    { eapply triple_weaken; [apply triple_try, triple_onNft, (triple_read _ _ (λ _, True))|]; done. }
    intros [exEls|e] _; [|apply triple_throw].
    apply (triple_bind _ _ _ _ (λ _, True)).
    { case_match; [|by apply triple_ret]. apply triple_wrapST, triple_onNft, triple_updateElems, own_P.
      simpl. by rewrite Hr. }
    intros _ _. apply (triple_bind _ _ _ _ (λ _, True)).
    { case_match; [|by apply triple_ret]. apply triple_wrapST, triple_onNft, triple_updateElems, own_P.
      simpl. by rewrite Hr. }
    intros _ _. eapply triple_bind; [apply triple_set_maps|]. intros. by apply triple_ret.
  - case_match; [apply triple_throw|].
    eapply triple_bind; [apply triple_wrapST, triple_onNft, triple_AddSet|].
    { intros id. split; by apply own_P. }
    intros s [id ->]. eapply triple_bind; [apply triple_set_maps|]. intros. by apply triple_ret.
Qed.
End own.

(** ** Exact effects on a kernel nobody else changes *)

(** The transaction id the next rule or set is given. *)
Definition nextID (last : Z) : Z := let i := u32 (last + 1) in if i =? 0 then 1 else i.

(** [n] with the messages [ms] buffered and [id] the last transaction id. *)
Definition emit {K} (ms : list msg) (id : Z) (n : nftState K) : nftState K :=
  set_nft (mkConn (kern (nft n)) (messages (nft n) ++ ms) id (conn_err (nft n)) (sent (nft n))) n.
Definition remember_rule {K} (key : gostring) (r : Rule) (n : nftState K) : nftState K :=
  set_maps (<[key := r]> (rules n)) (sets n) (chains n) n.
Definition remember_set {K} (key : gostring) (s : NftSet) (n : nftState K) : nftState K :=
  set_maps (rules n) (<[key := s]> (sets n)) (chains n) n.
Definition remember_chain {K} (c : Chain) (n : nftState K) : nftState K :=
  set_maps (rules n) (sets n) (<[chainID c := c]> (chains n)) n.

Lemma hash_replaceCounter `{Gob} es b p :
  hash_exprs (replaceCounter (expr.Counter b p) es) = hash_exprs es.
Proof.
  induction es as [|e es IH]; [done|]. cbn [replaceCounter]. destruct e; cbn; try done; by rewrite IH.
Qed.

(** The key of a rule does not depend on its id nor on a copied counter. *)
Lemma hash_copyCounter `{Gob} ex rule id :
  hash_rule (set_Rule_ID id (copyCounter ex rule)) = hash_rule rule.
Proof.
  unfold copyCounter. destruct (List.find _ _) as [c|] eqn:E; [|done].
  apply find_some in E as [_ E]. destruct c; try done.
  unfold hash_rule, newRuleData. simpl. by rewrite hash_replaceCounter.
Qed.

Section exact.
Context {K : Type} `{LawfulKernel K} `{Gob}.
Implicit Types n : nftState K.

Lemma set_nft_id n : set_nft (nft n) n = n.
Proof. by destruct n. Qed.
Lemma onNft_eq {A} (m : ST (Conn K) A) n : onNft m n = ((m (nft n)).1, set_nft (m (nft n)).2 n).
Proof. unfold onNft, zoom. by destruct (m (nft n)). Qed.

Lemma onNft_run {A} (m : ST (Conn K) A) n r c : m (nft n) = (r, c) → onNft m n = (r, set_nft c n).
Proof. unfold onNft, zoom. by intros ->. Qed.
Lemma onNft_pure {A} (m : ST (Conn K) A) n r : m (nft n) = (r, nft n) → onNft m n = (r, n).
Proof. intros Hm. by rewrite (onNft_run _ _ _ _ Hm), set_nft_id. Qed.

Lemma GetSetByName_quiet t nm (c : Conn K) :
  quiet (kern c) →
  GetSetByName t nm c =
    (match (k_GetSetByName t nm (kern c)).1 with Ok s => Ok (in_table t s) | Err e => Err e end, c).
Proof.
  intros Hq. unfold GetSetByName, mbind, ST_bind. rewrite read_quiet by apply quiet_GetSetByName, Hq.
  by destruct (k_GetSetByName _ _ _) as [[]].
Qed.

Lemma findRule_quiet rule n rs :
  quiet (kern (nft n)) → rulesAt (kern (nft n)) (Rule_Table rule) (Chain_Name (Rule_Chain rule)) = Ok rs →
  findRule rule n = (Ok (List.find (ruleEqual rule) rs), n).
Proof.
  intros Hq HR. unfold findRule, wrapST. unfold mbind, ST_bind at 1.
  rewrite onNft_eq, GetRules_quiet by done. simpl. by rewrite HR, set_nft_id.
Qed.

Lemma writeRule_new mk rule (c : Conn K) :
  Rule_Handle rule = 0 →
  writeRule mk rule c =
    (Ok (set_Rule_ID (nextID (lastID c)) rule),
     mkConn (kern c) (messages c ++ [mk (set_Rule_ID (nextID (lastID c)) rule)]) (nextID (lastID c))
       (conn_err c) (sent c)).
Proof. intros Hh. unfold writeRule. rewrite Hh. done. Qed.

Lemma updateRule_quiet rule mk force n rs key :
  quiet (kern (nft n)) → rulesAt (kern (nft n)) (Rule_Table rule) (Chain_Name (Rule_Chain rule)) = Ok rs →
  hash_rule rule = Ok key → Rule_Handle rule = 0 →
  updateRule rule (writeRule mk) force n =
    let id := nextID (lastID (nft n)) in
    match List.find (ruleEqual rule) rs with
    | None => let r := set_Rule_ID id rule in (Ok true, remember_rule key r (emit [mk r] id n))
    | Some ex =>
      if (force : bool) then
        let r := set_Rule_ID id (copyCounter ex rule) in
        (Ok false, remember_rule key r (emit [MDelRule ex; mk r] id n))
      else (Ok false, remember_rule key ex n)
    end.
Proof.
  intros Hq HR Hk Hh. unfold updateRule. unfold mbind at 1, ST_bind at 1, wrapST at 1.
  rewrite (findRule_quiet _ _ _ Hq HR). cbn [wrap]. destruct (List.find _ _) as [ex|] eqn:EF.
  - apply find_some in EF as [Hin%list_elem_of_In Heq].
    pose proof (rulesAt_lawful _ _ _ _ HR) as HL. rewrite Forall_forall in HL.
    destruct (HL ex Hin) as (HT & _ & Hex). destruct force; cbn [negb].
    + cbv zeta. unfold mbind, ST_bind, wrapST at 1. rewrite onNft_eq, DelRule_ok by done. cbn -[writeRule].
      rewrite onNft_eq, writeRule_new by (unfold copyCounter; by case_match). cbn.
      rewrite hash_copyCounter, Hk. cbn. by rewrite <-app_assoc.
    + unfold mbind, ST_bind. cbn. rewrite <-(ruleEqual_same_hash_lemma _ _ Heq) by (by rewrite HT).
      by rewrite Hk.
  - cbv zeta. unfold mbind, ST_bind. rewrite onNft_eq, writeRule_new by done. cbn.
    change (hash_rule (set_Rule_ID _ rule)) with (hash_rule rule). by rewrite Hk.
Qed.

Lemma addChain_quiet c n :
  quiet (kern (nft n)) →
  addChain c n =
    let c' := set_Chain_Name (kernelName (Chain_Name c)) c in
    match (k_ListChain (Chain_Table c) (kernelName (Chain_Name c)) (kern (nft n))).1 with
    | Ok ex => (Ok ex, remember_chain ex n)
    | Err _ => (Ok c', remember_chain c' (emit [MNewChain c'] (lastID (nft n)) n))
    end.
Proof.
  intros Hq. unfold addChain, mbind at 1, ST_bind at 1. cbv zeta. rewrite onNft_eq. unfold try, ListChain.
  rewrite read_quiet by apply quiet_ListChain, Hq. cbn [Chain_Table Chain_Name set_Chain_Name].
  destruct (k_ListChain _ _ _) as [[ex|e] k']; cbn; [by rewrite set_nft_id|done].
Qed.

Lemma AddSet_new s els (c : Conn K) :
  Set_ID s = 0 → Set_Anonymous s = false → els ≠ [] →
  let s' := set_Set_ID (nextID (lastID c)) s in
  AddSet s els c = (Ok s', mkConn (kern c) (messages c ++ [MNewSet s'; MNewSetElem s' els])
                             (nextID (lastID c)) (conn_err c) (sent c)).
Proof.
  intros Hid Ha Hne. unfold AddSet. rewrite Ha, Hid. destruct els as [|x els]; [done|].
  unfold mbind, ST_bind. cbn. unfold push. cbn. by rewrite <-app_assoc.
Qed.

Lemma updateSet_quiet_new s els n e :
  quiet (kern (nft n)) →
  (k_GetSetByName (Set_Table s) (kernelName (Set_Name s)) (kern (nft n))).1 = Err e → isNotExist e = true →
  Set_ID s = 0 → Set_Anonymous s = false → els ≠ [] →
  updateSet s els n =
    let id := nextID (lastID (nft n)) in
    let s' := set_Set_ID id (set_Set_Name (kernelName (Set_Name s)) s) in
    (Ok s', remember_set (setKey (Table_Name (Set_Table s)) (kernelName (Set_Name s))) s'
              (emit [MNewSet s'; MNewSetElem s' els] id n)).
Proof.
  intros Hq HG He Hid Ha Hne. unfold updateSet. cbv zeta. unfold mbind at 1, ST_bind at 1.
  rewrite (onNft_pure _ _ (Ok (Err e)))
    by (unfold try; cbn [Set_Table Set_Name set_Set_Name]; by rewrite GetSetByName_quiet, HG).
  rewrite He. cbn [negb]. unfold mbind, ST_bind, wrapST, onNft, zoom. by rewrite AddSet_new.
Qed.

Lemma updateSet_quiet_existing s els n ex exEls :
  quiet (kern (nft n)) →
  (k_GetSetByName (Set_Table s) (kernelName (Set_Name s)) (kern (nft n))).1 = Ok ex →
  let ex' := in_table (Set_Table s) ex in
  (k_GetSetElements ex' (kern (nft n))).1 = Ok exEls → Set_Anonymous ex = false →
  updateSet s els n =
    let p := processElements els exEls in
    let del := if decide (p.2 = []) then [] else [MDelSetElem ex' p.2] in
    let add := if decide (p.1 = []) then [] else [MNewSetElem ex' p.1] in
    (Ok (set_Set_Name (kernelName (Set_Name s)) s),
     remember_set (setKey (Table_Name (Set_Table s)) (kernelName (Set_Name s))) ex'
       (emit (del ++ add) (lastID (nft n)) n)).
Proof.
  intros Hq HG ex' HE Ha. unfold updateSet. cbv zeta. unfold mbind at 1, ST_bind at 1.
  rewrite (onNft_pure _ _ (Ok (Ok ex')))
    by (unfold try; cbn [Set_Table Set_Name set_Set_Name]; by rewrite GetSetByName_quiet, HG).
  unfold mbind at 1, ST_bind at 1, try.
  rewrite (onNft_pure _ _ (Ok exEls)) by (unfold GetSetElements; rewrite read_quiet, HE;
    [done|by apply quiet_GetSetElements]).
  destruct (processElements els exEls) as [toAdd toDel]. cbn [fst snd].
  destruct toDel as [|d toDel], toAdd as [|a toAdd];
    unfold mbind, ST_bind, wrapST, SetDeleteElements, SetAddElements, updateElems, onNft, zoom;
    rewrite !len_pos; cbn; rewrite ?Ha; unfold emit, set_nft, push; cbn;
    rewrite ?app_nil_r, <-?app_assoc; by destruct n as [[]].
Qed.
End exact.

(** ** Loops that only buffer messages *)

Definition pushesN {K} (ms : list msg) (n : nftState K) : nftState K := set_nft (pushes ms (nft n)) n.

Section loops.
Context {K : Type}.
Implicit Types n : nftState K.

Lemma pushesN_nil n : pushesN [] n = n.
Proof. unfold pushesN. rewrite pushes_nil. by destruct n. Qed.
Lemma pushesN_app m1 m2 n : pushesN m2 (pushesN m1 n) = pushesN (m1 ++ m2) n.
Proof. unfold pushesN. simpl. by rewrite pushes_app. Qed.

Lemma foldM_pushesN {A B} (l : list A) (b : B) (f : B → A → ST (nftState K) B)
    (g : B → A → B) (h : A → list msg) n ms :
  (∀ b x ms, x ∈ l → f b x (pushesN ms n) = (Ok (g b x), pushesN (ms ++ h x) n)) →
  foldM l b f (pushesN ms n) = (Ok (foldl g b l), pushesN (ms ++ (l ≫= h)) n).
Proof.
  revert b ms. induction l as [|x l IH]; intros b ms Hf.
  - cbn. by rewrite app_nil_r.
  - cbn [foldM]. unfold mbind at 1, ST_bind at 1. rewrite Hf by set_solver.
    rewrite IH by (intros; apply Hf; set_solver). cbn. by rewrite <-app_assoc.
Qed.
End loops.

(** ** Properties *)

Section properties.
Context {K : Type} `{LawfulKernel K} `{Gob}.

(** C9: [updateRule], on every branch: a rule the chain already has is left
    alone and nothing is sent; a missing one is added with one message; a
    forced one is deleted and added again, in that order, with the old
    counter. In each case the rule is remembered under the key of the rule
    that was asked for, so the cleanup of the same sync recognises it. *)
Theorem updateRule_spec rule mk force (n : nftState K) rs key :
  quiet (kern (nft n)) → rulesAt (kern (nft n)) (Rule_Table rule) (Chain_Name (Rule_Chain rule)) = Ok rs →
  hash_rule rule = Ok key → Rule_Handle rule = 0 →
  updateRule rule (writeRule mk) force n =
    let id := nextID (lastID (nft n)) in
    match List.find (ruleEqual rule) rs with
    | None => let r := set_Rule_ID id rule in (Ok true, remember_rule key r (emit [mk r] id n))
    | Some ex =>
      if (force : bool) then
        let r := set_Rule_ID id (copyCounter ex rule) in
        (Ok false, remember_rule key r (emit [MDelRule ex; mk r] id n))
      else (Ok false, remember_rule key ex n)
    end.
Proof. apply updateRule_quiet. Qed.

(** [addChain] never fails: the chain the kernel knows under the wanted
    name is used as it is, and any error of the lookup, not only "does not
    exist", leads to a message that adds the chain. The name has at most 31
    bytes and the chain is remembered under its id. *)
Theorem addChain_total chain (n : nftState K) :
  quiet (kern (nft n)) →
  ∃ c n', addChain chain n = (Ok c, n') ∧ chains n' !! chainID c = Some c ∧
    Chain_Table c = Chain_Table chain ∧ Chain_Name c = kernelName (Chain_Name chain) ∧
    len (Chain_Name c) ≤ 31 ∧
    messages (nft n') = messages (nft n) ++
      (if is_ok (k_ListChain (Chain_Table chain) (kernelName (Chain_Name chain)) (kern (nft n))).1
       then [] else [MNewChain (set_Chain_Name (kernelName (Chain_Name chain)) chain)]).
Proof.
  intros Hq. rewrite addChain_quiet by done. cbv zeta.
  assert (len (kernelName (Chain_Name chain)) ≤ 31) as Hl.
  { unfold kernelName. case_match eqn:E; [|apply Z.ltb_ge in E; lia].
    pose proof (length_hash_string (Chain_Name chain)). unfold len. lia. }
  destruct (k_ListChain _ _ _) as [[ex|e] k'] eqn:E; cbn [fst is_ok].
  - apply law_ListChain in E as [HT HN].
    eexists _, _. split; [done|]. rewrite HT, HN. cbn. rewrite lookup_insert_eq, app_nil_r. auto.
  - eexists _, _. split; [done|]. cbn. rewrite lookup_insert_eq. auto.
Qed.

(** C10: [updateSet] on a set the kernel has: elements that are no longer
    wanted are deleted first, missing ones added after, nothing is sent when
    there is no difference, and the set is remembered for the cleanup. *)
Theorem updateSet_existing s els (n : nftState K) ex exEls :
  quiet (kern (nft n)) →
  (k_GetSetByName (Set_Table s) (kernelName (Set_Name s)) (kern (nft n))).1 = Ok ex →
  let ex' := in_table (Set_Table s) ex in
  (k_GetSetElements ex' (kern (nft n))).1 = Ok exEls → Set_Anonymous ex = false →
  updateSet s els n =
    let p := processElements els exEls in
    let del := if decide (p.2 = []) then [] else [MDelSetElem ex' p.2] in
    let add := if decide (p.1 = []) then [] else [MNewSetElem ex' p.1] in
    (Ok (set_Set_Name (kernelName (Set_Name s)) s),
     remember_set (setKey (Table_Name (Set_Table s)) (kernelName (Set_Name s))) ex'
       (emit (del ++ add) (lastID (nft n)) n)).
Proof. apply updateSet_quiet_existing. Qed.
End properties.
