(* ===== verification/Legacy.v ===== *)
(** * Removing what older versions of the daemon left behind

    [CleanupLegacyTables] of pkg/server/netfilterrules.go: daemon-owned
    rules, chains and sets in the shared inet tables [filter] and [nat] are
    deleted, everything else in them is kept. *)

From S2P Require Import Prelude GoStd Names Nft Conn RefKernel.

Definition inputInterfaceFilterComment : gostring := "input-interface-filter".
Definition outputInterfaceFilterComment : gostring := "output-interface-filter".
Definition natFilterRuleComment : gostring := "nat-filter-rule".

(** The [map[string]bool] variables, as their keys. *)
Definition legacyDaemonChainNames : list gostring :=
  [ingressChain; egressChain; ingressChain ++ str "-" ++ common; egressChain ++ str "-" ++ common].
Definition legacyDaemonBaseChainNames : list gostring := [str "input"; str "output"; str "prerouting"].
Definition legacyDaemonRuleComments : list gostring :=
  [inputInterfaceFilterComment; outputInterfaceFilterComment; natFilterRuleComment].
Definition legacyDaemonSetComments : list gostring := [str "Pod interfaces"; str "Pod interfaces NAT"].
Definition legacyNames : list gostring := [legacyFilterTableName; legacyNatTableName].

(** [m[key]] *)
Definition has (m : list gostring) (key : gostring) : bool := bool_decide (key ∈ m).

Definition legacyDaemonRule (rule : Rule) : bool :=
  match ruleComment rule with Some c => has legacyDaemonRuleComments c | None => false end.

Definition legacyDaemonSet (set : NftSet) : bool :=
  bool_decide (Set_Name set = podInterfacesName) && has legacyDaemonSetComments (Set_Comment set).

Definition legacyDaemonChainRule (rule : Rule) : bool :=
  match ruleComment rule with
  | None => false
  | Some comment =>
    if has legacyDaemonRuleComments comment then true
    else if has [str "common-ingress-chain"; str "common-egress-chain";
                 str "allow-ipv6-ndp-discovery"; allowConntrackRuleName; str "drop-remaining"] comment
    then true
    else strings.HasPrefix comment "policy:" || strings.HasPrefix comment "common rule:"
         || strings.HasPrefix comment "allow_icmp_"
  end.

(** Jumps and gotos of a rule to the chain; the order of the search does not
    matter to its answer. *)
Definition ruleReferencesChain (rule : Rule) (chainName : gostring) : bool :=
  existsb (λ e, match e with
                | expr.Verdict k c =>
                  bool_decide (c = chainName) &&
                  (bool_decide (k = expr.VerdictJump) || bool_decide (k = expr.VerdictGoto))
                | _ => false
                end) (reverse (Rule_Exprs rule)).

Section legacy.
Context {K : Type} `{Kernel K}.
Abbreviation M := (ST (Conn K)).

(** Does a rule of some chain of the table satisfy [p]? The loop stops at the
    first chain with such a rule. *)
Fixpoint searchChains (table : Table) (p : Rule → bool) (chains : list Chain) : M bool :=
  match chains with
  | [] => mret false
  | chain :: chains =>
    if negb (bool_decide (Table_Name (Chain_Table chain) = Table_Name table)) then
      searchChains table p chains
    else
      rules ← wrapST "cleanup legacy tables: list rules for chain" (GetRules table chain);
      if existsb p rules then mret true else searchChains table p chains
  end.

Definition legacyChainReferenced (table : Table) (chainName : gostring) : M bool :=
  chains ← wrapST "cleanup legacy tables: list chains" (ListChainsOfTableFamily (Table_Family table));
  searchChains table (λ r, ruleReferencesChain r chainName) chains.

Definition cleanupLegacyDaemonChainRules (table : Table) (chain : Chain) : M bool :=
  rules ← wrapST "cleanup legacy tables: list rules for daemon chain" (GetRules table chain);
  deleted ← foldM rules false (λ deleted rule,
    if negb (legacyDaemonChainRule rule) then mret deleted
    else
      wrapST "cleanup legacy tables: delete daemon-owned rule" (DelRule rule) ≫= λ _, mret true);
  rules ← (if (deleted : bool) then
             wrapST "cleanup legacy tables: flush daemon-owned rule deletes" Flush ≫= λ _,
             wrapST "cleanup legacy tables: list remaining rules" (GetRules table chain)
           else mret rules);
  mret (0 <? len rules).

(** The rules of one base chain: a failing deletion is logged and skipped. *)
Definition cleanupBaseChain (table : Table) (chain : Chain) : M unit :=
  if negb (bool_decide (Table_Name (Chain_Table chain) = Table_Name table))
     || negb (has legacyDaemonBaseChainNames (Chain_Name chain)) then mret tt
  else
    rules ← wrapST "cleanup legacy tables: list rules" (GetRules table chain);
    deletedBaseRules ← foldM rules false (λ deleted rule,
      if negb (legacyDaemonRule rule) then mret deleted
      else r ← try (DelRule rule); mret (if is_ok r then true else deleted));
    if (deletedBaseRules : bool) then wrapST "cleanup legacy tables: flush" Flush else mret tt.

(** One daemon chain: emptied of the daemon's rules, and deleted when nothing
    refers to it and no foreign rule is left. *)
Definition cleanupDaemonChain (table : Table) (flushed : bool) (chain : Chain) : M bool :=
  if negb (bool_decide (Table_Name (Chain_Table chain) = Table_Name table))
     || negb (has legacyDaemonChainNames (Chain_Name chain)) then mret flushed
  else
    hasRemainingRules ← cleanupLegacyDaemonChainRules table chain;
    referenced ← legacyChainReferenced table (Chain_Name chain);
    if (referenced : bool) then mret flushed
    else if (hasRemainingRules : bool) then mret flushed
    else DelChain chain ≫= λ _, mret true.

Definition cleanupLegacyTable (table : Table) : M unit :=
  if negb (has legacyNames (Table_Name table)) then mret tt
  else
    chains ← wrapST "cleanup legacy tables: list chains" (ListChainsOfTableFamily TableFamilyINet);
    forM chains (cleanupBaseChain table) ≫= λ _,
    flushed ← foldM chains false (cleanupDaemonChain table);
    sets ← wrapST "cleanup legacy tables: list sets" (GetSets table);
    flushed ← foldM sets flushed (λ flushed set,
      if negb (legacyDaemonSet set) then mret flushed
      else DelSet set ≫= λ _, mret true);
    if (flushed : bool) then wrapST "cleanup legacy tables: flush" Flush else mret tt.

Definition CleanupLegacyTables : M unit :=
  allTables ← wrapST "cleanup legacy tables: list inet tables" (ListTablesOfFamily TableFamilyINet);
  forM allTables cleanupLegacyTable.
End legacy.

(** ** What the cleanup may write *)

(** A deletion of a daemon-owned object of a shared table. *)
Definition legacy_msg (m : msg) : Prop :=
  match m with
  | MDelRule r => legacyDaemonRule r = true ∨ legacyDaemonChainRule r = true
  | MDelChain c => Table_Name (Chain_Table c) ∈ legacyNames ∧ Chain_Name c ∈ legacyDaemonChainNames
  | MDelSet s => Table_Name (Set_Table s) ∈ legacyNames ∧ legacyDaemonSet s = true
  | _ => False
  end.

(** The same deletions, of rules of the shared tables only. *)
Definition legacy_delete (m : msg) : Prop :=
  legacy_msg m ∧ match m with MDelRule r => Table_Name (Rule_Table r) ∈ legacyNames | _ => True end.

Lemma has_spec m key : has m key = true ↔ key ∈ m.
Proof. apply bool_decide_eq_true. Qed.

Lemma ruleReferencesChain_spec rule c :
  ruleReferencesChain rule c = true ↔
  expr.Verdict expr.VerdictJump c ∈ Rule_Exprs rule ∨ expr.Verdict expr.VerdictGoto c ∈ Rule_Exprs rule.
Proof.
  unfold ruleReferencesChain. rewrite existsb_exists. setoid_rewrite <-list_elem_of_In.
  setoid_rewrite elem_of_reverse. split.
  - intros (e & He & Hv). destruct e; try done. apply andb_true_iff in Hv as [->%bool_decide_eq_true Hv].
    apply orb_true_iff in Hv as [->%bool_decide_eq_true| ->%bool_decide_eq_true]; auto.
  - intros [He|He]; eexists; (split; [exact He|]); cbn beta iota;
      by rewrite (bool_decide_eq_true_2 (c = c)) by done.
Qed.

Section legacy_lemmas.
Context {K : Type} `{LawfulKernel K}.
Abbreviation I := (all_msgs (K:=K) legacy_delete).

Lemma searchChains_safe table p chains : triple I (searchChains table p chains) (λ _, True).
Proof.
  induction chains as [|c chains IH]; simpl; [by apply triple_ret|]. case_match; [done|].
  eapply triple_bind; [read_rules|]. intros rs _.
  case_match; [by apply triple_ret|done].
Qed.

Lemma cleanupLegacyDaemonChainRules_safe table chain :
  Table_Name table ∈ legacyNames → triple I (cleanupLegacyDaemonChainRules table chain) (λ _, True).
Proof.
  intros Ht. eapply triple_bind; [read_rules|]. intros rs Hrs.
  apply (triple_bind _ _ _ _ (λ _, True)).
  { apply triple_foldM; [done|]. intros b r _ Hr. case_match eqn:E; [by apply triple_ret|].
    apply negb_false_iff in E. rewrite Forall_forall in Hrs. destruct (Hrs r Hr) as [HT _].
    eapply triple_bind; [|intros; by apply triple_ret].
    apply triple_wrapST, triple_DelRule. split; simpl; [by right|by rewrite HT]. }
  intros deleted _. apply (triple_bind _ _ _ _ (λ _, True)); [|intros; by apply triple_ret].
  case_match; [|by apply triple_ret].
  eapply triple_bind; [apply triple_wrapST, triple_Flush|]. intros _ _.
  eapply triple_weaken; [read_rules|done].
Qed.

Lemma cleanupBaseChain_safe table chain :
  Table_Name table ∈ legacyNames → triple I (cleanupBaseChain table chain) (λ _, True).
Proof.
  intros Ht. unfold cleanupBaseChain. case_match; [by apply triple_ret|].
  eapply triple_bind; [read_rules|]. intros rs Hrs.
  apply (triple_bind _ _ _ _ (λ _, True)).
  { apply triple_foldM; [done|]. intros b r _ Hr. case_match eqn:E; [by apply triple_ret|].
    apply negb_false_iff in E. rewrite Forall_forall in Hrs. destruct (Hrs r Hr) as [HT _].
    eapply triple_bind; [|intros; by apply triple_ret].
    apply triple_try, triple_DelRule. split; simpl; [by left|by rewrite HT]. }
  intros deleted _. case_match; [apply triple_wrapST, triple_Flush|by apply triple_ret].
Qed.

Lemma cleanupDaemonChain_safe table flushed chain :
  Table_Name table ∈ legacyNames → triple I (cleanupDaemonChain table flushed chain) (λ _, True).
Proof.
  intros Ht. unfold cleanupDaemonChain. case_match eqn:E; [by apply triple_ret|].
  apply orb_false_iff in E as [HT%negb_false_iff%bool_decide_eq_true HC%negb_false_iff%has_spec].
  eapply triple_bind; [by apply cleanupLegacyDaemonChainRules_safe|]. intros r _.
  apply (triple_bind _ _ _ _ (λ _, True)).
  { eapply triple_bind; [apply triple_wrapST, (triple_read _ _ (λ _, True)); done|]. intros cs _.
    apply searchChains_safe. }
  intros ref _. case_match; [by apply triple_ret|]. case_match; [by apply triple_ret|].
  eapply triple_bind; [|intros; by apply triple_ret]. apply triple_push. split; simpl; [|done].
  by rewrite HT.
Qed.

Lemma cleanupLegacyTable_safe table : triple I (cleanupLegacyTable table) (λ _, True).
Proof.
  unfold cleanupLegacyTable. case_match eqn:E; [by apply triple_ret|].
  apply negb_false_iff, has_spec in E as Ht.
  eapply triple_bind; [apply triple_wrapST, (triple_read _ _ (λ _, True)); done|]. intros cs _.
  eapply triple_bind; [apply triple_forM; intros; by apply cleanupBaseChain_safe|]. intros _ _.
  apply (triple_bind _ _ _ _ (λ _, True)).
  { apply triple_foldM; [done|]. intros. by apply cleanupDaemonChain_safe. }
  intros flushed _. eapply triple_bind; [apply triple_wrapST, triple_GetSets|]. intros ss Hss.
  apply (triple_bind _ _ _ _ (λ _, True)).
  { apply triple_foldM; [done|]. intros b s _ Hs. case_match eqn:E'; [by apply triple_ret|].
    apply negb_false_iff in E'. rewrite Forall_forall in Hss. specialize (Hss s Hs).
    eapply triple_bind; [|intros; by apply triple_ret]. apply triple_push. split; simpl; [|done].
    by rewrite Hss. }
  intros b _. case_match; [apply triple_wrapST, triple_Flush|by apply triple_ret].
Qed.

Lemma CleanupLegacyTables_triple : triple I CleanupLegacyTables (λ _, True).
Proof.
  eapply triple_bind; [apply triple_wrapST, (triple_read _ _ (λ _, True)); done|]. intros ts _.
  apply triple_forM. intros t _. apply cleanupLegacyTable_safe.
Qed.
End legacy_lemmas.

(** ** Exact effects on a kernel nobody else changes *)

Section legacy_exact.
Context {K : Type} `{LawfulKernel K}.

Lemma searchChains_quiet table p chains (c : Conn K) b c' :
  quiet (kern c) → searchChains table p chains c = (Ok b, c') →
  c' = c ∧ (b = true ↔ ∃ ch rs r, ch ∈ chains ∧ Table_Name (Chain_Table ch) = Table_Name table ∧
    rulesAt (kern c) table (Chain_Name ch) = Ok rs ∧ r ∈ rs ∧ p r = true).
Proof.
  intros Hq. induction chains as [|ch chains IH]; simpl.
  { intros [= <- <-]. split; [done|]. split; [done|]. intros (?&?&?&?&_). set_solver. }
  case_match eqn:ET.
  { intros Hr. destruct (IH Hr) as [-> ->]. split; [done|].
    apply negb_true_iff, bool_decide_eq_false in ET. set_solver. }
  apply negb_false_iff, bool_decide_eq_true in ET.
  unfold mbind, ST_bind, wrapST. rewrite GetRules_quiet by done.
  destruct (rulesAt _ _ _) as [rs|e] eqn:ER; simpl; [|done]. destruct (existsb p rs) eqn:EX.
  - intros [= <- <-]. split; [done|]. apply existsb_exists in EX as (r & Hr%list_elem_of_In & Hp).
    split; [|done]. intros _. exists ch, rs, r. set_solver.
  - intros Hr. destruct (IH Hr) as [-> ->]. split; [done|]. split; [set_solver|].
    intros (ch' & rs' & r & Hch & HT & HR & Hin & Hp). apply elem_of_cons in Hch as [->|Hch].
    + rewrite ER in HR. simplify_eq. apply not_true_iff_false in EX. destruct EX.
      apply existsb_exists. exists r. by rewrite <-list_elem_of_In.
    + naive_solver.
Qed.

(** The loop over the rules of a base chain, with the rules it deletes. *)
Lemma cleanupBaseChain_quiet table chain (c : Conn K) rs :
  quiet (kern c) → Table_Name (Chain_Table chain) = Table_Name table →
  Chain_Name chain ∈ legacyDaemonBaseChainNames →
  rulesAt (kern c) table (Chain_Name chain) = Ok rs →
  cleanupBaseChain table chain c =
    let dels := MDelRule <$> List.filter legacyDaemonRule rs in
    if existsb legacyDaemonRule rs then wrapST "cleanup legacy tables: flush" Flush (pushes dels c)
    else (Ok tt, c).
Proof.
  intros Hq HT HN HR. unfold cleanupBaseChain.
  rewrite bool_decide_eq_true_2 by done. rewrite (proj2 (has_spec _ _) HN). simpl.
  unfold mbind at 1, ST_bind at 1, wrapST at 1. rewrite GetRules_quiet by done. rewrite HR. simpl.
  unfold mbind at 1, ST_bind at 1. rewrite (foldM_pushes _ _ legacyDaemonRule MDelRule).
  2:{ intros b r c' Hr. destruct (legacyDaemonRule r); [|done]. simpl.
      pose proof (rulesAt_lawful _ _ _ _ HR) as HF. rewrite Forall_forall in HF.
      unfold mbind, ST_bind, try. by rewrite DelRule_ok by apply HF, Hr. }
  simpl. destruct (existsb legacyDaemonRule rs) eqn:E; [done|].
  assert (List.filter legacyDaemonRule rs = []) as ->; [|by rewrite pushes_nil].
  apply not_true_iff_false in E. destruct (List.filter _ _) as [|r l] eqn:EF; [done|].
  destruct E. apply existsb_exists. exists r. apply filter_In. rewrite EF. by left.
Qed.
End legacy_exact.

(** ** Properties *)

(** C11: whatever the shared inet tables hold, [CleanupLegacyTables] only ever
    deletes, and only daemon-owned things in the tables [filter] and [nat]:
    rules whose comment the daemon wrote, the four multi-ingress/egress
    chains, and the pod-interface sets. It adds nothing and deletes no table. *)
Theorem CleanupLegacyTables_safe {K} `{LawfulKernel K} (k : K) :
  let c := (CleanupLegacyTables (newConn k)).2 in
  Forall legacy_delete (concat (sent c) ++ messages c).
Proof.
  cbv zeta. destruct (CleanupLegacyTables_triple (newConn k)) as [[H1 H2] _];
    [apply all_msgs_newConn|]. apply Forall_app. split; [|done].
  by apply Forall_concat.
Qed.

(** while nobody else changes the namespace, [legacyChainReferenced]
    finds a chain referenced exactly when a rule of some chain of the same
    table jumps or goes to it, so a chain still in use is never deleted. *)
Theorem legacyChainReferenced_correct {K} `{LawfulKernel K} (c : Conn K) table chainName b c' :
  quiet (kern c) → legacyChainReferenced table chainName c = (Ok b, c') →
  c' = c ∧
  (b = true ↔ ∃ chs ch rs r,
    (k_ListChainsOfTableFamily (Table_Family table) (kern c)).1 = Ok chs ∧ ch ∈ chs ∧
    Table_Name (Chain_Table ch) = Table_Name table ∧
    rulesAt (kern c) table (Chain_Name ch) = Ok rs ∧ r ∈ rs ∧
    (expr.Verdict expr.VerdictJump chainName ∈ Rule_Exprs r ∨
     expr.Verdict expr.VerdictGoto chainName ∈ Rule_Exprs r)).
Proof.
  intros Hq. unfold legacyChainReferenced, wrapST at 1, ListChainsOfTableFamily.
  unfold mbind at 1, ST_bind at 1. rewrite read_quiet by apply quiet_ListChainsOfTableFamily, Hq.
  destruct (k_ListChainsOfTableFamily _ _) as [[chs|e] k1]; simpl; [|done]. intros Hs.
  destruct (searchChains_quiet _ _ _ _ _ _ Hq Hs) as [-> Hb]. split; [done|]. rewrite Hb.
  setoid_rewrite ruleReferencesChain_spec. naive_solver.
Qed.

(** on a base chain, exactly the rules with the daemon's comments are
    deleted, all of them in one batch, and a chain without any costs no
    batch at all. *)
Theorem cleanupBaseChain_exact {K} `{LawfulKernel K} (k : K) table chain rs :
  quiet k → Table_Name (Chain_Table chain) = Table_Name table →
  Chain_Name chain ∈ legacyDaemonBaseChainNames →
  rulesAt k table (Chain_Name chain) = Ok rs →
  concat (sent (cleanupBaseChain table chain (newConn k)).2) =
    MDelRule <$> List.filter legacyDaemonRule rs.
Proof.
  intros Hq HT HN HR. rewrite (cleanupBaseChain_quiet _ _ _ rs) by done. cbv zeta.
  destruct (existsb _ _) eqn:E.
  - unfold wrapST, Flush. simpl. destruct (MDelRule <$> List.filter _ _) as [|m ms] eqn:EF; [done|].
    destruct (k_commit _ _) as [[]]; simpl; by rewrite app_nil_r.
  - simpl. apply not_true_iff_false in E. destruct (List.filter _ _) as [|r l] eqn:EF; [done|].
    destruct E. apply existsb_exists. exists r. apply filter_In. rewrite EF. by left.
Qed.

(** ** Witnesses *)

Section witnesses.
Definition demo_table : Table := mkTable "filter" TableFamilyINet.
Definition demo_chain (n : gostring) : Chain := regularChain n demo_table.
Definition demo_rule (c : gostring) (h : Z) (comment : gostring) (es : list expr.Any) : Rule :=
  mkRule demo_table (demo_chain c) h 0 es (userDataComment comment).
(** A shared table with rules of the daemon and of others. *)
Definition demo_kernel : RK :=
  mkRK [demo_table] [demo_chain "input"; demo_chain ingressChain; demo_chain "mine"]
    [demo_rule "input" 1 "input-interface-filter" [expr.Verdict expr.VerdictJump ingressChain];
     demo_rule "input" 2 "mine" [expr.Verdict expr.VerdictAccept []];
     demo_rule ingressChain 3 "drop-remaining" [expr.Verdict expr.VerdictDrop []];
     demo_rule "mine" 4 "other" [expr.Verdict expr.VerdictJump egressChain]]
    [] 5.

Lemma CleanupLegacyTables_safe_witness :
  let c := (CleanupLegacyTables (newConn demo_kernel)).2 in
  Forall legacy_delete (concat (sent c) ++ messages c) ∧
  rk_rules (kern c) = drop 1 (take 2 (rk_rules demo_kernel)) ++ drop 3 (rk_rules demo_kernel).
Proof. split; [apply (CleanupLegacyTables_safe demo_kernel)|vm_compute; reflexivity]. Defined.

Lemma legacyChainReferenced_correct_witness :
  legacyChainReferenced demo_table egressChain (newConn demo_kernel) = (Ok true, newConn demo_kernel) ∧
  ∃ chs ch rs r,
    (k_ListChainsOfTableFamily TableFamilyINet demo_kernel).1 = Ok chs ∧ ch ∈ chs ∧
    Table_Name (Chain_Table ch) = Table_Name demo_table ∧
    rulesAt demo_kernel demo_table (Chain_Name ch) = Ok rs ∧ r ∈ rs ∧
    (expr.Verdict expr.VerdictJump egressChain ∈ Rule_Exprs r ∨
     expr.Verdict expr.VerdictGoto egressChain ∈ Rule_Exprs r).
Proof.
  assert (legacyChainReferenced demo_table egressChain (newConn demo_kernel)
          = (Ok true, newConn demo_kernel)) as E by (vm_compute; reflexivity).
  split; [exact E|].
  destruct (legacyChainReferenced_correct (newConn demo_kernel) demo_table egressChain true
    (newConn demo_kernel) (RK_quiet _) E) as [_ [H _]]. exact (H eq_refl).
Defined.

Lemma cleanupBaseChain_exact_witness :
  concat (sent (cleanupBaseChain demo_table (demo_chain "input") (newConn demo_kernel)).2) =
    [MDelRule (demo_rule "input" 1 "input-interface-filter" [expr.Verdict expr.VerdictJump ingressChain])].
Proof.
  rewrite (cleanupBaseChain_exact demo_kernel demo_table (demo_chain "input")
    (take 2 (rk_rules demo_kernel))); [vm_compute; reflexivity|apply RK_quiet|reflexivity| |].
  - apply (bool_decide_unpack _). vm_compute. exact I.
  - vm_compute. reflexivity.
Defined.
End witnesses.
