(* ===== verification/Rules.v ===== *)
(** * The rule generators

    The methods of [nftState] in pkg/server/netfilterrules.go that turn
    policies into chains, sets and rules, in the order and with the names,
    comments and expressions of the source. *)

From S2P Require Import Prelude GoStd Names Nft Netip Api Elements Conn State Legacy.

Definition IPv4OffSet : Z := 12.
Definition IPv6OffSet : Z := 8.
Definition IPv4len : Z := 4.
Definition IPv6len : Z := 16.

Definition IPPROTO_ICMP : Z := 1.
Definition IPPROTO_TCP : Z := 6.
Definition IPPROTO_UDP : Z := 17.
Definition IPPROTO_ICMPV6 : Z := 58.
Definition IPPROTO_SCTP : Z := 132.

(** Go's iteration order over a map of addresses, different on every run: an
    arbitrary enumeration of the keys for each place and round. *)
Class MapOrder := {
  range_keys : gostring → Z → nat → gset gostring → list gostring;
  range_keys_perm : ∀ site i round X, range_keys site i round X ≡ₚ elements X }.

(** ** Expressions, as the composite literals of the source leave them *)

Section exprs.
Context `{Arch}.

Definition metaLoad (k : expr.MetaKey) : expr.Any := expr.Meta k false 1.
Definition markStore : expr.Any := expr.Meta expr.MetaKeyMARK true 1.
Definition cmpEq (d : bytes) : expr.Any := expr.Cmp expr.CmpOpEq 1 d.
Definition payload (b : expr.PayloadBase) (offset len : Z) : expr.Any :=
  expr.Payload 0 1 0 b offset len 0 0 0.
Definition lookup (s : NftSet) : expr.Any := expr.Lookup 1 0 false (Set_ID s) (Set_Name s) false.
Definition counter : expr.Any := expr.Counter 0 0.
Definition verdict (k : expr.VerdictKind) : expr.Any := expr.Verdict k [].
Definition jump (chain : gostring) : expr.Any := expr.Verdict expr.VerdictJump chain.
(** [Bitwise] on register 1 with four-byte mask and xor in native order. *)
Definition bitwise (mask xor : Z) : expr.Any :=
  expr.Bitwise 1 1 4 (NativeEndian.PutUint32 mask) (NativeEndian.PutUint32 xor).

(** Clear and set one bit of the packet mark. *)
Definition setMark (m : Z) : list expr.Any :=
  [metaLoad expr.MetaKeyMARK; bitwise (not32 m) m; markStore].
(** Go on when both bits of the packet mark are set. *)
Definition checkMark : list expr.Any :=
  [metaLoad expr.MetaKeyMARK; bitwise matchRuleMark zeroRuleMark;
   cmpEq (NativeEndian.PutUint32 matchRuleMark)].
(** Match an address field of the network header against a set. *)
Definition matchAddr (nfProtocol offset len : Z) (s : NftSet) : list expr.Any :=
  [metaLoad expr.MetaKeyNFPROTO; cmpEq [nfProtocol];
   payload expr.PayloadBaseNetworkHeader offset len; lookup s].
End exprs.

(** [getMetaKeyInterface] *)
Definition getMetaKeyInterface (chainName : gostring) : expr.MetaKey :=
  if isIngressChain chainName then expr.MetaKeyIIFNAME else expr.MetaKeyOIFNAME.

(** [getProtocolInfo] *)
Definition getProtocolInfo (protocol : gostring) : gostring * bytes :=
  if bool_decide (protocol = ProtocolUDP) then (str "udp", [IPPROTO_UDP])
  else if bool_decide (protocol = ProtocolSCTP) then (str "sctp", [IPPROTO_SCTP])
  else (str "tcp", [IPPROTO_TCP]).

(** The payload offset of the peer address: the source address in ingress
    chains, the destination address in egress chains. *)
Definition addrOffset (chainName : gostring) (isV6 : bool) : Z :=
  let offset := if isV6 then IPv6OffSet else IPv4OffSet in
  if negb (isIngressChain chainName) then offset + (if isV6 then IPv6len else IPv4len) else offset.

Definition addrLen (isV6 : bool) : Z := if isV6 then IPv6len else IPv4len.
Definition addrKeyType (isV6 : bool) : SetDatatype := if isV6 then TypeIP6Addr else TypeIPAddr.
Definition addrProto (isV6 : bool) : gostring := if isV6 then protoIPv6 else protoIPv4.
Definition addrNfProto (isV6 : bool) : Z := if isV6 then NFPROTO_IPV6 else NFPROTO_IPV4.

Definition itoaN (n : nat) : gostring := itoa (Z.of_nat n).

Section rules.
Context {K : Type} `{Kernel K} `{Gob} `{Arch} `{LabelApi} `{MapOrder}.
Abbreviation M := (ST (nftState K)).

Definition getFilter : M Table := λ n, (Ok (filterT n), n).
Definition getNat : M Table := λ n, (Ok (natT n), n).
Definition discard (m : M bool) : M unit := m ≫= λ _, mret tt.

(** ** Bootstrap *)

Definition ChainTypeFilter : gostring := "filter".
Definition ChainTypeNAT : gostring := "nat".
Definition hookPrerouting : Z := 0.
Definition hookInput : Z := 1.
Definition hookOutput : Z := 3.

Definition bootstrapNetfilterChains : M unit :=
  f ← getFilter; nt ← getNat;
  i ← wrapST "failed to create input chain"
        (addChain (mkChain "input" f (Some hookInput) (Some 0) ChainTypeFilter));
  modify (λ n, set_baseChains (Some i) (outputC n) (preroutingC n) n) ≫= λ _,
  o ← wrapST "failed to create output chain"
        (addChain (mkChain "output" f (Some hookOutput) (Some 0) ChainTypeFilter));
  modify (λ n, set_baseChains (inputC n) (Some o) (preroutingC n) n) ≫= λ _,
  p ← wrapST "failed to create prerouting chain"
        (addChain (mkChain "prerouting" nt (Some hookPrerouting) (Some (-100)) ChainTypeNAT));
  modify (λ n, set_baseChains (inputC n) (outputC n) (Some p) n) ≫= λ _,
  ic ← wrapST "failed to create multi-ingress chain" (addChain (regularChain ingressChain f));
  modify (λ n, set_multiChains (Some ic) (egressC n) (commonIngressC n) (commonEgressC n) n) ≫= λ _,
  ec ← wrapST "failed to create multi-egress chain" (addChain (regularChain egressChain f));
  modify (λ n, set_multiChains (ingressC n) (Some ec) (commonIngressC n) (commonEgressC n) n) ≫= λ _,
  ci ← wrapST "failed to create multi-ingress-common chain"
         (addChain (regularChain (ingressChain ++ str "-" ++ common) f));
  modify (λ n, set_multiChains (ingressC n) (egressC n) (Some ci) (commonEgressC n) n) ≫= λ _,
  ce ← wrapST "failed to create multi-egress-common chain"
         (addChain (regularChain (egressChain ++ str "-" ++ common) f));
  modify (λ n, set_multiChains (ingressC n) (egressC n) (commonIngressC n) (Some ce) n).

(** The jump into, or return from, a base chain for packets of pod interfaces. *)
Definition interfaceRule (t : Table) (c : Chain) (comment : gostring) (key : expr.MetaKey)
    (s : NftSet) (v : expr.Any) : Rule :=
  newRule t c (userDataComment comment) [metaLoad key; lookup s; counter; v].

Definition interfaceElements (ifs : list InterfaceInfo) : list SetElement :=
  (λ p, mkElem (ifname (InterfaceName p.2)) false
          (str "pod interface [" ++ itoaN p.1 ++ str "]: " ++ InterfaceName p.2)) <$> enumerate ifs.

Definition interfaceSet (t : Table) (comment : gostring) : NftSet :=
  mkSet t 0 podInterfacesName false false false true TypeIFName true comment.

Definition compareInterfaces (a b : InterfaceInfo) : comparison :=
  strings.Compare (InterfaceName a) (InterfaceName b).

(** [podInfo.Interfaces] sorted in place. *)
Definition sortInterfaces (podInfo : PodInfo) : PodInfo :=
  mkPodInfo (PI_Name podInfo) (PI_Namespace podInfo) (PI_NetNSPath podInfo) (PI_NetworkStatus podInfo)
    (PI_NodeName podInfo)
    (SortStableFunc compareInterfaces (PI_Interfaces podInfo)).

(** The tables of the new [nftState] are added on its connection first. *)
Definition bootstrapTables : M unit :=
  f ← wrapST "failed to add table" (onNft (addTable (mkTable FilterTableName TableFamilyINet)));
  nt ← wrapST "failed to add table" (onNft (addTable (mkTable NatTableName TableFamilyINet)));
  modify (λ n, newState (nft n) f nt).

(** The sets and rules of the base chains, once the chains exist. *)
Definition bootstrapBaseRules (podInfo : PodInfo) : M unit :=
  f ← getFilter; nt ← getNat;
  modify (set_interfaceSets (Some (interfaceSet f "Pod interfaces"))
                            (Some (interfaceSet nt "Pod interfaces NAT"))) ≫= λ _,
  let elements := interfaceElements (PI_Interfaces podInfo) in
  fs ← deref interfaceFilterSet;
  fs ← wrapST "failed to update set" (updateSet fs elements);
  modify (λ n, set_interfaceSets (Some fs) (interfaceNatSet n) n) ≫= λ _,
  i ← deref inputC; ic ← deref ingressC;
  wrapST "failed to install rule" (updateRule
    (interfaceRule f i inputInterfaceFilterComment expr.MetaKeyIIFNAME fs (jump (Chain_Name ic)))
    InsertRule false) ≫= λ _,
  o ← deref outputC; ec ← deref egressC;
  wrapST "failed to install rule" (updateRule
    (interfaceRule f o outputInterfaceFilterComment expr.MetaKeyOIFNAME fs (jump (Chain_Name ec)))
    InsertRule false) ≫= λ _,
  ns ← deref interfaceNatSet;
  ns ← wrapST "failed to update set" (updateSet ns elements);
  modify (λ n, set_interfaceSets (interfaceFilterSet n) (Some ns) n) ≫= λ _,
  p ← deref preroutingC;
  updateRule
    (interfaceRule nt p natFilterRuleComment expr.MetaKeyIIFNAME ns (verdict expr.VerdictReturn))
    InsertRule false ≫= λ _,
  ci ← deref commonIngressC;
  updateRule (newRule f ic (userDataComment "common-ingress-chain")
    [counter; jump (Chain_Name ci)]) InsertRule false ≫= λ _,
  ce ← deref commonEgressC;
  updateRule (newRule f ec (userDataComment "common-egress-chain")
    [counter; jump (Chain_Name ce)]) InsertRule false ≫= λ _,
  mret tt.

(** [bootstrapNetfilterRules]; the state argument holds the connection, and
    the pod information is returned with its interfaces sorted. *)
Definition bootstrapNetfilterRules (podInfo : PodInfo) : M PodInfo :=
  if (len (PI_Interfaces podInfo) =? 0) then
    throw (ErrOther "podInfo or podInfo.Interfaces is nil/empty")
  else
    onNft CleanupLegacyTables ≫= λ _,
    bootstrapTables ≫= λ _,
    bootstrapNetfilterChains ≫= λ _,
    let podInfo := sortInterfaces podInfo in
    bootstrapBaseRules podInfo ≫= λ _,
    mret podInfo.

(** ** Common chains *)

Definition allowICMP (chain : Chain) (icmpv6 : bool) : M unit :=
  f ← getFilter;
  let data := if icmpv6 then [IPPROTO_ICMPV6] else [IPPROTO_ICMP] in
  let proto := if icmpv6 then protoIPv6 else protoIPv4 in
  discard (updateRule (newRule f chain (userDataComment (str "allow_icmp_" ++ proto))
    [metaLoad expr.MetaKeyL4PROTO; cmpEq data; counter; verdict expr.VerdictAccept]) AddRule false).

(** Router solicitation and advertisement, neighbour solicitation and
    advertisement. *)
Definition ndpElements : list SetElement :=
  [keyElem [133]; keyElem [134]; keyElem [135]; keyElem [136]].

Definition allowNeighborDiscovery (chain : Chain) : M unit :=
  f ← getFilter;
  let ndpSet := mkSet f 0 "ndp_set" false false false true TypeICMP6Type false [] in
  ndpSet ← wrapST "failed to update NDP set" (updateSet ndpSet ndpElements);
  discard (wrapST "failed to add IPv6 NDP discovery rule" (updateRule
    (newRule f chain (userDataComment "allow-ipv6-ndp-discovery")
      [metaLoad expr.MetaKeyNFPROTO; cmpEq [NFPROTO_IPV6];
       metaLoad expr.MetaKeyL4PROTO; cmpEq [IPPROTO_ICMPV6];
       payload expr.PayloadBaseTransportHeader 0 1; lookup ndpSet;
       counter; verdict expr.VerdictAccept]) InsertRule false)).

Definition commonPrefixSet (f : Table) (prefix chainName : gostring) (isV6 : bool) : NftSet :=
  mkSet f 0 (prefix ++ str "_" ++ addrProto isV6 ++ str "_" ++ getAddressSuffix chainName)
    false false true false (addrKeyType isV6) false [].

(** One family of [applyCommonPrefixRules]. *)
Definition applyCommonPrefixFamily (chain : Chain) (set : NftSet) (isV6 : bool)
    (elements : list SetElement) : M unit :=
  if 0 <? len elements then
    f ← getFilter;
    set ← wrapST "failed to update set" (updateSet set elements);
    discard (updateRule (newRule f chain (userDataComment (str "common rule:" ++ Set_Name set))
      (matchAddr (addrNfProto isV6) (addrOffset (Chain_Name chain) isV6) (addrLen isV6) set ++
       [counter; verdict expr.VerdictAccept])) AddRule false)
  else mret tt.

Definition applyCommonPrefixRules (chain : Chain) (prefixes : list gostring) (prefix : gostring)
    : M unit :=
  f ← getFilter;
  p ← wrapST "failed to get prefix sets of prefixes" (lift_result (getPrefixesAsSetInterval prefixes));
  applyCommonPrefixFamily chain (commonPrefixSet f prefix (Chain_Name chain) false) false p.1 ≫= λ _,
  applyCommonPrefixFamily chain (commonPrefixSet f prefix (Chain_Name chain) true) true p.2.

Definition CtStateBitESTABLISHED : Z := 2.
Definition CtStateBitRELATED : Z := 4.

Definition allowConntracked (chain : Chain) : M unit :=
  f ← getFilter;
  discard (updateRule (newRule f chain (userDataComment allowConntrackRuleName)
    [expr.Ct 1 false expr.CtKeySTATE 0 false;
     bitwise (Z.lor CtStateBitESTABLISHED CtStateBitRELATED) zeroRuleMark;
     expr.Cmp expr.CmpOpNeq 1 [0; 0; 0; 0]; counter; verdict expr.VerdictAccept]) AddRule false).

Definition applyCommonChainRules (cfg : CommonRuleConfig) : M unit :=
  ci ← deref commonIngressC; ce ← deref commonEgressC;
  (if AcceptICMPv6 cfg then
     wrapST "failed to allow ICMPv6 in common ingress chain" (allowICMP ci true) ≫= λ _,
     wrapST "failed to allow ICMPv6 in common egress chain" (allowICMP ce true)
   else
     wrapST "failed to allow ICMPv6 neighbor discovery in common ingress chain"
       (allowNeighborDiscovery ci) ≫= λ _,
     wrapST "failed to allow ICMPv6 neighbor discovery in common egress chain"
       (allowNeighborDiscovery ce)) ≫= λ _,
  (if AcceptICMP cfg then
     wrapST "failed to allow ICMP in common ingress chain" (allowICMP ci false) ≫= λ _,
     wrapST "failed to allow ICMP in common egress chain" (allowICMP ce false)
   else mret tt) ≫= λ _,
  (if negb (len (AllowSrcPrefix cfg) =? 0) then
     wrapST "failed to apply common ingress rules" (applyCommonPrefixRules ci (AllowSrcPrefix cfg) common)
   else mret tt) ≫= λ _,
  (if negb (len (AllowDstPrefix cfg) =? 0) then
     wrapST "failed to apply common egress rules" (applyCommonPrefixRules ce (AllowDstPrefix cfg) common)
   else mret tt) ≫= λ _,
  wrapST "failed to apply common ingress conntrack rules" (allowConntracked ci) ≫= λ _,
  wrapST "failed to apply common egress conntrack rules" (allowConntracked ce).

(** ** Entry chains and marks *)

Definition podInterfaceRule (f : Table) (chain policyChain : Chain) (policy : MultiNetworkPolicy)
    (podInterface : InterfaceInfo) : Rule :=
  newRule f chain
    (userDataComment (str "policy:" ++ policyNamespacedName policy ++ str ", name:" ++ Chain_Name chain
       ++ str ", net-attach-def:" ++ NetattachName podInterface
       ++ str ", interface:" ++ InterfaceName podInterface
       ++ str ", cni:" ++ InterfaceType podInterface ++ str ", jump:" ++ Chain_Name policyChain))
    [metaLoad (getMetaKeyInterface (Chain_Name chain)); cmpEq (ifname (InterfaceName podInterface));
     counter; jump (Chain_Name policyChain)].

Definition applyPodInterfaceRules (chain policyChain : Chain) (policy : MultiNetworkPolicy)
    (podInterface : InterfaceInfo) : M bool :=
  f ← getFilter;
  updateRule (podInterfaceRule f chain policyChain policy podInterface) AddRule false.

Definition applyGeneralMarkCheck (chain : Chain) (policy : MultiNetworkPolicy) : M unit :=
  f ← getFilter;
  discard (updateRule (newRule f chain
    (userDataComment (str "policy:" ++ policyNamespacedName policy ++ str ", check mark 0x30000"))
    (checkMark ++ [counter; verdict expr.VerdictReturn])) AddRule false).

Definition applyMarkReset (policyChainName : gostring) (policyChain : Chain) (policyName : gostring)
    (index : nat) : M unit :=
  f ← getFilter;
  discard (updateRule (newRule f policyChain
    (userDataComment (str "policy:" ++ policyName ++ str ", name:" ++ policyChainName
       ++ str " ingress:" ++ itoaN index ++ str ": reset"))
    [metaLoad expr.MetaKeyMARK; bitwise (not32 matchRuleMark) zeroRuleMark; markStore; counter])
    AddRule false).

Definition applyMarkCheck (policyChainName : gostring) (policyChain : Chain) (policyName : gostring)
    (index : nat) : M unit :=
  discard (updateRule (newRule (Chain_Table policyChain) policyChain
    (userDataComment (str "policy:" ++ policyName ++ str ", name:" ++ policyChainName
       ++ str " ingress:" ++ itoaN index ++ str " return"))
    (checkMark ++ [counter; verdict expr.VerdictReturn])) AddRule false).

Definition applyDropRemaining (chain : Chain) (force : bool) : M unit :=
  discard (updateRule (newRule (Chain_Table chain) chain (userDataComment "drop-remaining")
    [counter; verdict expr.VerdictDrop]) AddRule force).

(** ** Peers *)

Definition ipBlockSet (t : Table) (chainName prefix : gostring) (isV6 : bool) (peerIndex : nat)
    (constant : bool) : NftSet :=
  mkSet t 0 (chainName ++ str "_" ++ prefix ++ str "_" ++ addrProto isV6 ++ str "_"
             ++ getAddressSuffix chainName ++ str "_" ++ itoaN peerIndex)
    false constant true true (addrKeyType isV6) false [].

(** [peer.IPBlock] is not nil where [applyPrefixes] is called; it reads the
    CIDR of the peer for the comments. *)
Definition applyPrefixes (chainName : gostring) (chain : Chain) (policyName cidr : gostring)
    (peerIndex : nat) (prefixes exceptPrefixes : list SetElement) (isV6 : bool) : M unit :=
  if 0 <? len prefixes then
    let m s := matchAddr (addrNfProto isV6) (addrOffset chainName isV6) (addrLen isV6) s in
    let comment verb := userDataComment (str "policy:" ++ policyName ++ str ", name:" ++ chainName
                          ++ str ", cidr:" ++ cidr ++ str ", " ++ verb) in
    (if 0 <? len exceptPrefixes then
       exceptSet ← wrapST "failed to update set" (updateSet
         (ipBlockSet (Chain_Table chain) chainName peerIPBlockExceptPrefix isV6 peerIndex false)
         exceptPrefixes);
       discard (updateRule (newRule (Chain_Table chain) chain (comment (str "deny"))
         (m exceptSet ++ [counter; verdict expr.VerdictDrop])) AddRule false)
     else mret tt) ≫= λ _,
    prefixesSet ← wrapST "failed to update set" (updateSet
      (ipBlockSet (Chain_Table chain) chainName peerIPBlockPrefix isV6 peerIndex true) prefixes);
    discard (updateRule (newRule (Chain_Table chain) chain (comment (str "accept"))
      (m prefixesSet ++ setMark peerRuleMark ++ [counter; verdict expr.VerdictReturn])) AddRule false)
  else mret tt.

Definition applyPolicyPeersRulesIPBlock (chainName : gostring) (chain : Chain) (policyName : gostring)
    (block : IPBlock) (peerIndex : nat) : M unit :=
  ex ← wrapST "failed to get except prefix sets of prefixes"
         (lift_result (getPrefixesAsSetInterval (Except block)));
  p ← wrapST "failed to get prefix sets of prefixes"
        (lift_result (getPrefixesAsSetInterval [CIDR block]));
  wrapST "failed to apply ipv4 prefixes"
    (applyPrefixes chainName chain policyName (CIDR block) peerIndex p.1 ex.1 false) ≫= λ _,
  wrapST "failed to apply ipv6 prefixes"
    (applyPrefixes chainName chain policyName (CIDR block) peerIndex p.2 ex.2 true).

(** [net.ParseIP(addr).To4()], and [.To16()] when that is nil; a string that is
    no address has a nil key. *)
Definition addrKey (addr : gostring) : bytes :=
  match ParseIP addr ≫= To4 with
  | Some ip => ip
  | None => default [] (ParseIP addr)
  end.

Definition addIPRule (chainName : gostring) (addrs : list gostring) (chain : Chain)
    (policyName : gostring) (peer : MultiNetworkPolicyPeer) (peerIndex : nat) : M unit :=
  match addrs with
  | [] => mret tt
  | addr0 :: _ =>
    let isV6 := match ParseIP addr0 ≫= To4 with None => true | Some _ => false end in
    let selectorStr := match Peer_PodSelector peer with Some s => ls_String s | None => str "<all>" end in
    let selectorHash := hash_string selectorStr in
    let ipSet := mkSet (Chain_Table chain) 0
      (chainName ++ str "_" ++ getAddressSuffix chainName ++ str "_" ++ itoaN peerIndex ++ str "_"
       ++ addrProto isV6 ++ str "_" ++ selectorHash)
      false false false false (addrKeyType isV6) false [] in
    ipSet ← updateSet ipSet ((λ a, keyElem (addrKey a)) <$> addrs);
    discard (updateRule (newRule (Chain_Table chain) chain
      (userDataComment (str "policy:" ++ policyName ++ str ", name:" ++ chainName
         ++ str ", selector-for:" ++ selectorHash ++ str ", protocol:" ++ addrProto isV6))
      (matchAddr (addrNfProto isV6) (addrOffset chainName isV6) (addrLen isV6) ipSet
       ++ setMark peerRuleMark ++ [counter; verdict expr.VerdictReturn])) AddRule false)
  end.

(** The split of [addIPRules] into IPv4 and IPv6 addresses. *)
Fixpoint splitAddrs (addrs : list gostring) : result (list gostring * list gostring) :=
  match addrs with
  | [] => Ok ([], [])
  | addr :: addrs =>
    match ParseAddr addr with
    | None => Err (ErrOther "failed to parse address")
    | Some ip =>
      p ← splitAddrs addrs;
      mret (if Is6 ip then (p.1, addr :: p.2) else (addr :: p.1, p.2))
    end
  end.

Definition addIPRules (chainName : gostring) (addrs : list gostring) (chain : Chain)
    (policyName : gostring) (peer : MultiNetworkPolicyPeer) (peerIndex : nat) : M unit :=
  p ← lift_result (splitAddrs addrs);
  wrapST "failed to add IPv4 rules" (addIPRule chainName p.1 chain policyName peer peerIndex) ≫= λ _,
  wrapST "failed to add IPv6 rules" (addIPRule chainName p.2 chain policyName peer peerIndex).

(** The addresses collected for one selected pod: for each pair of interfaces
    on a policy network, both interfaces' addresses enter the map and all of
    the map is appended to the list. *)
Definition collectPair (site : gostring) (i : nat) (acc : list gostring * gset gostring * nat)
    (podIntf sPodIntf : InterfaceInfo) : list gostring * gset gostring * nat :=
  let '(ips, seen, round) := acc in
  let seen := seen ∪ list_to_set (IPs podIntf) ∪ list_to_set (IPs sPodIntf) in
  (ips ++ range_keys site (Z.of_nat i) round seen, seen, S round).

Definition collectPod (site : gostring) (i : nat) (policyNetworks : list gostring) (podInfo sPodinfo : PodInfo)
    (acc : list gostring * gset gostring * nat) : list gostring * gset gostring * nat :=
  foldl (λ acc podIntf,
    if negb (CheckPolicyNetwork podIntf policyNetworks) then acc
    else foldl (λ acc sPodIntf,
      if negb (CheckPolicyNetwork sPodIntf policyNetworks) then acc
      else collectPair site i acc podIntf sPodIntf) acc (PI_Interfaces sPodinfo))
    acc (PI_Interfaces podInfo).

(** The loop over the selected pods: one whose namespace or interfaces cannot
    be read, or whose namespace does not match, is skipped. *)
Definition collectPods (deps : PolicyDeps) (site : gostring) (i : nat) (nsSelector : option Selector)
    (policyNetworks : list gostring) (podInfo : PodInfo) (pods : list Pod) : result (list gostring) :=
  acc ← foldR pods ([], ∅, 0%nat) (λ acc sPod,
    match GetNamespaceInfo deps (Pod_Namespace sPod) with
    | Err _ => Ok acc
    | Ok nsLabels =>
      if match nsSelector with Some s => negb (sel_Matches s (NS_Labels nsLabels)) | None => false end
      then Ok acc
      else match GetPodInfo deps sPod with
           | Err e => if isPanic e then Err e else Ok acc
           | Ok sPodinfo => Ok (collectPod site i policyNetworks podInfo sPodinfo acc)
           end
    end);
  mret acc.1.1.

Definition selectorAddrs (deps : PolicyDeps) (chainName : gostring) (peer : MultiNetworkPolicyPeer)
    (podInfo : PodInfo) (policyNetworks : list gostring) (peerIndex : nat) : result (list gostring) :=
  podSelector ← match Peer_PodSelector peer with
                | Some s => wrap "pod selector" (LabelSelectorAsSelector s)
                | None => Ok labels_Everything
                end;
  pods ← wrap "pod list failed" (ListPods deps podSelector);
  nsSelector ← match Peer_NamespaceSelector peer with
               | Some s => s ← wrap "namespace selector" (LabelSelectorAsSelector s); mret (Some s)
               | None => mret None
               end;
  collectPods deps chainName peerIndex nsSelector policyNetworks podInfo pods.

Definition applyPolicyPeersRulesSelector (deps : PolicyDeps) (chainName : gostring) (chain : Chain)
    (policyName : gostring) (peer : MultiNetworkPolicyPeer) (podInfo : PodInfo)
    (policyNetworks : list gostring) (peerIndex : nat) : M unit :=
  podIntfIPs ← lift_result (selectorAddrs deps chainName peer podInfo policyNetworks peerIndex);
  wrapST "add selector IP rules" (addIPRules chainName podIntfIPs chain policyName peer peerIndex).

(** The unconditional rule of a sub-chain without peers or ports. *)
Definition acceptAllRule (t : Table) (c : Chain) (policyName name what : gostring) (mark : Z) : Rule :=
  newRule t c
    (userDataComment (str "policy:" ++ policyName ++ str ", name:" ++ name ++ str ", no " ++ what
       ++ str " skipped accept all"))
    (counter :: setMark mark).

Definition subChainJump (t : Table) (chain : Chain) (policyName chainName target : gostring) : Rule :=
  newRule t chain
    (userDataComment (str "policy:" ++ policyName ++ str ", name:" ++ chainName ++ str ", jump:" ++ target))
    [counter; jump target].

Definition applyPolicyPeersRules (deps : PolicyDeps) (chainName : gostring) (chain : Chain)
    (policyName : gostring) (peers : list MultiNetworkPolicyPeer) (podInfo : PodInfo)
    (policyNetworks : list gostring) (peerIndex : nat) : M unit :=
  let peersName := nftNameWithSuffix chainName "-" (peersChainSuffix ++ str "-" ++ itoaN peerIndex) in
  peersChain ← wrapST "failed to create peers chain" (addChain (regularChain peersName (Chain_Table chain)));
  updateRule (subChainJump (Chain_Table chain) chain policyName chainName (Chain_Name peersChain))
    AddRule false ≫= λ _,
  forM (enumerate peers) (λ '(index, peer),
    match Peer_IPBlock peer with
    | Some block =>
      wrapST "apply IPBlock peer rules"
        (applyPolicyPeersRulesIPBlock peersName peersChain policyName block index)
    | None =>
      match Peer_PodSelector peer, Peer_NamespaceSelector peer with
      | None, None => throw (ErrOther "unknown peer rule")
      | _, _ =>
        wrapST "apply selector peer rules"
          (applyPolicyPeersRulesSelector deps peersName peersChain policyName peer podInfo policyNetworks index)
      end
    end) ≫= λ _,
  if len peers =? 0 then
    discard (updateRule (acceptAllRule (Chain_Table chain) peersChain policyName peersName "peers" peerRuleMark)
      AddRule false)
  else mret tt.

(** ** Ports *)

Definition getInetSet (chain : Chain) (portsName suffix : gostring) : NftSet :=
  let setName := nftNameWithSuffix (getSetName portsName) "_" suffix in
  mkSet (Chain_Table chain) 0 setName false true true true TypeInetService false setName.

Definition applyProtoPortsRules (chainName : gostring) (chain : Chain) (policyName : gostring)
    (set : NftSet) (unixProto : bytes) : M unit :=
  discard (updateRule (newRule (Chain_Table chain) chain
    (userDataComment (str "policy:" ++ policyName ++ str ", name:" ++ chainName
       ++ str ", set:" ++ Set_Name set))
    ([metaLoad expr.MetaKeyL4PROTO; cmpEq unixProto;
      payload expr.PayloadBaseTransportHeader 2 2; lookup set; counter] ++ setMark portRuleMark))
    AddRule false).

(** A protocol without a port stands for all its ports. *)
Definition defaultPort (port : MultiNetworkPolicyPort) : MultiNetworkPolicyPort :=
  match Port_Port port, Port_Protocol port with
  | None, Some proto => mkPort (Some proto) (Some (FromInt 1)) (Some MaxUint16)
  | _, _ => port
  end.

Record portSets := mkPortSets {
  portsTCP : list SetElement;
  portsUDP : list SetElement;
  portsSCTP : list SetElement }.

(** The loop over the ports of [applyPolicyPortsRules]. *)
Fixpoint collectPorts (ports : list MultiNetworkPolicyPort) (acc : portSets) : result portSets :=
  match ports with
  | [] => Ok acc
  | port :: ports =>
    let port := defaultPort port in
    els ← validatePortSpec port;
    let '(mkPortSets t u s) := acc in
    collectPorts ports
      (match Port_Protocol port with
       | Some proto =>
         if bool_decide (proto = ProtocolUDP) then mkPortSets t (u ++ els) s
         else if bool_decide (proto = ProtocolSCTP) then mkPortSets t u (s ++ els)
         else mkPortSets (t ++ els) u s
       | None => mkPortSets (t ++ els) u s
       end)
  end.

(** The set and the rule of one protocol. *)
Definition applyProtocol (chain portChain : Chain) (portsName policyName protocol : gostring)
    (elements : list SetElement) : M unit :=
  if 0 <? len elements then
    let '(suffix, unixFlag) := getProtocolInfo protocol in
    set ← updateSet (getInetSet chain portsName suffix) elements;
    wrapST "failed to apply port rules" (applyProtoPortsRules portsName portChain policyName set unixFlag)
  else mret tt.

Definition applyPolicyPortsRules (chainName : gostring) (chain : Chain) (policyName : gostring)
    (ports : list MultiNetworkPolicyPort) (portIndex : nat) : M unit :=
  let portsName := nftNameWithSuffix chainName "-" (portsChainSuffix ++ str "-" ++ itoaN portIndex) in
  portChain ← wrapST "failed to create ports chain" (addChain (regularChain portsName (Chain_Table chain)));
  updateRule (subChainJump (Chain_Table chain) chain policyName chainName (Chain_Name portChain))
    AddRule false ≫= λ _,
  p ← lift_result (collectPorts ports (mkPortSets [] [] []));
  applyProtocol chain portChain portsName policyName ProtocolTCP (portsTCP p) ≫= λ _,
  applyProtocol chain portChain portsName policyName ProtocolUDP (portsUDP p) ≫= λ _,
  applyProtocol chain portChain portsName policyName ProtocolSCTP (portsSCTP p) ≫= λ _,
  if (len ports =? 0) || ((len (portsTCP p) =? 0) && (len (portsUDP p) =? 0) && (len (portsSCTP p) =? 0))
  then
    discard (updateRule (acceptAllRule (Chain_Table chain) portChain policyName portsName "ports" portRuleMark)
      AddRule false)
  else mret tt.

(** ** One policy *)

(** One entry of [spec.ingress] or [spec.egress]. *)
Definition applyPolicyRule (deps : PolicyDeps) (policyChainName : gostring) (policyChain : Chain)
    (resetName policyName : gostring) (podInfo : PodInfo) (policyNetworks : list gostring)
    (index : nat) (rule : MultiNetworkPolicyRule) : M unit :=
  wrapST "failed to apply mark reset" (applyMarkReset policyChainName policyChain resetName index) ≫= λ _,
  wrapST "failed to apply ports"
    (applyPolicyPortsRules policyChainName policyChain policyName (PRule_Ports rule) index) ≫= λ _,
  wrapST "failed to apply address rules"
    (applyPolicyPeersRules deps policyChainName policyChain policyName (PRule_Peers rule) podInfo
       policyNetworks index) ≫= λ _,
  wrapST "failed to apply mark check" (applyMarkCheck policyChainName policyChain policyName index).

Definition policyChainNameOf (entryChainName : gostring) (policy : MultiNetworkPolicy) : gostring :=
  entryChainName ++ str "-" ++
  truncateNftName (policyRuleNamespacedName policy) (nftNameMaxLen - len entryChainName - 1).

Definition applyPodRules (deps : PolicyDeps) (chain : Chain) (podInfo : PodInfo)
    (policy : MultiNetworkPolicy) (policyNetworks : list gostring) : M bool :=
  let policyChainName := policyChainNameOf (Chain_Name chain) policy in
  f ← getFilter;
  policyChain ← wrapST "failed to create policy chain" (addChain (regularChain policyChainName f));
  newRules ← foldM (PI_Interfaces podInfo) false (λ newRules podIntf,
    if CheckPolicyNetwork podIntf policyNetworks then
      newRule ← wrapST "failed to apply pod interface rules"
        (applyPodInterfaceRules chain policyChain policy podIntf);
      mret (if (newRule : bool) then true else newRules)
    else mret newRules);
  (if isIngressChain policyChainName then
     forM (enumerate (default [] (Spec_Ingress (Policy_Spec policy)))) (λ '(index, ingress),
       applyPolicyRule deps policyChainName policyChain (policyNamespacedName policy)
         (policyNamespacedName policy) podInfo policyNetworks index ingress)
   else
     forM (enumerate (default [] (Spec_Egress (Policy_Spec policy)))) (λ '(index, egress),
       applyPolicyRule deps policyChainName policyChain (Policy_Name policy)
         (policyNamespacedName policy) podInfo policyNetworks index egress)) ≫= λ _,
  mret newRules.
End rules.

(** ** Every generator stays within the daemon's tables *)

(** One step through a generator; the side conditions are about tables. *)
Ltac own_side := simpl; unfold own_chain in *; simpl in *; first [assumption|congruence|done].
Ltac own_step :=
  lazymatch goal with
  | |- triple _ (mret _) (λ _, True) => apply triple_ret; exact Logic.I
  | |- triple _ (mret _) ?Q => tryif is_evar Q then apply (triple_ret _ _ (λ _, True)); exact Logic.I
                               else by apply triple_ret
  | |- triple _ (throw _) _ => apply triple_throw
  | |- triple _ (if ?b then _ else _) _ => destruct b
  | |- triple _ (wrapST _ _) _ => apply triple_wrapST
  | |- triple _ (lift_result _) (λ _, True) => apply triple_preserves, preserves_lift_result
  | |- triple _ (forM _ _) _ => apply triple_forM; intros
  | |- triple _ (_ ≫= _) _ => eapply triple_bind; [|intros]
  end.

Section own_rules.
Context {K : Type} `{LawfulKernel K} `{Gob} `{Arch} `{LabelApi} `{MapOrder}.
Variable P : msg → Prop.
Hypothesis own_P : ∀ m, own_msg m → P m.
Abbreviation I := (own_inv (K:=K) P).
Abbreviation any := (λ _, True).

Lemma own_getFilter : triple I getFilter own_table.
Proof. intros n HI. pose proof HI as (_ & HF & _). split; [done|]. by intros ? [= <-]. Qed.
Lemma own_getNat : triple I getNat own_table.
Proof. intros n HI. pose proof HI as (_ & _ & HF & _). split; [done|]. by intros ? [= <-]. Qed.

Lemma own_AddRule rule force :
  own_table (Rule_Table rule) → Rule_Handle rule = 0 → triple I (updateRule rule AddRule force) any.
Proof. intros. by apply triple_updateRule. Qed.
Lemma own_InsertRule rule force :
  own_table (Rule_Table rule) → Rule_Handle rule = 0 → triple I (updateRule rule InsertRule force) any.
Proof. intros. by apply triple_updateRule. Qed.
Lemma own_discard m : triple I m any → triple I (discard m) any.
Proof. intros Hm. eapply triple_bind; [exact Hm|]. intros. by apply triple_ret. Qed.
Lemma own_lift {A} (r : result A) : triple I (lift_result r) any.
Proof. apply triple_preserves, preserves_lift_result. Qed.
Lemma own_addChain c : own_chain c → triple I (addChain c) own_chain.
Proof.
  intros Hc. eapply triple_weaken; [by apply triple_addChain|]. intros c' [HT _].
  unfold own_chain. by rewrite HT.
Qed.
Lemma own_updateSet s els : own_table (Set_Table s) → triple I (updateSet s els) (λ s, own_table (Set_Table s)).
Proof.
  intros Hs. eapply triple_weaken; [by apply triple_updateSet|]. intros s' HT. by rewrite HT.
Qed.

(** Run through a generator whose calls the lemmas above cover. *)
Ltac own_call :=
  lazymatch goal with
  | |- triple _ (discard _) _ => apply own_discard
  | |- triple _ getFilter _ => apply own_getFilter
  | |- triple _ getNat _ => apply own_getNat
  | |- triple _ (lift_result _) _ => apply own_lift
  | |- triple _ (updateRule _ AddRule _) _ => apply own_AddRule; [own_side|reflexivity]
  | |- triple _ (updateRule _ InsertRule _) _ => apply own_InsertRule; [own_side|reflexivity]
  | |- triple _ (updateSet _ _) _ => apply own_updateSet; own_side
  | |- triple _ (addChain _) _ => apply own_addChain; own_side
  end.
Ltac own_auto := repeat first [own_step | own_call].

Lemma own_allowICMP c b : triple I (allowICMP c b) any.
Proof. unfold allowICMP. cbv zeta. own_auto. Qed.
Lemma own_allowNeighborDiscovery c : triple I (allowNeighborDiscovery c) any.
Proof. unfold allowNeighborDiscovery. cbv zeta. own_auto. Qed.
Lemma own_applyCommonPrefixFamily c s b els :
  own_table (Set_Table s) → triple I (applyCommonPrefixFamily c s b els) any.
Proof. intros. unfold applyCommonPrefixFamily. own_auto. Qed.
Lemma own_applyCommonPrefixRules c ps p : triple I (applyCommonPrefixRules c ps p) any.
Proof.
  unfold applyCommonPrefixRules. own_auto; by apply own_applyCommonPrefixFamily.
Qed.
Lemma own_allowConntracked c : triple I (allowConntracked c) any.
Proof. unfold allowConntracked. own_auto. Qed.

Lemma own_deref f : (∀ n : nftState K, f n ∈ chainFields n) → triple I (deref f) own_chain.
Proof. apply triple_deref_chain. Qed.

Lemma own_applyCommonChainRules cfg : triple I (applyCommonChainRules cfg) any.
Proof.
  unfold applyCommonChainRules.
  eapply triple_bind; [apply own_deref; intros; set_solver|]. intros ci _.
  eapply triple_bind; [apply own_deref; intros; set_solver|]. intros ce _.
  own_auto; first [ simple apply own_allowICMP | simple apply own_allowNeighborDiscovery
                  | simple apply own_applyCommonPrefixRules | simple apply own_allowConntracked ].
Qed.

Lemma own_applyPodInterfaceRules c pc pol i : triple I (applyPodInterfaceRules c pc pol i) any.
Proof. unfold applyPodInterfaceRules. own_auto. Qed.
Lemma own_applyGeneralMarkCheck c pol : triple I (applyGeneralMarkCheck c pol) any.
Proof. unfold applyGeneralMarkCheck. own_auto. Qed.
Lemma own_applyMarkReset nm c pn i : triple I (applyMarkReset nm c pn i) any.
Proof. unfold applyMarkReset. own_auto. Qed.
Lemma own_applyMarkCheck nm c pn i : own_chain c → triple I (applyMarkCheck nm c pn i) any.
Proof. intros. unfold applyMarkCheck. own_auto. Qed.
Lemma own_applyDropRemaining c b : own_chain c → triple I (applyDropRemaining c b) any.
Proof. intros. unfold applyDropRemaining. own_auto. Qed.
Lemma own_applyPrefixes nm c pn cidr i ps es b : own_chain c → triple I (applyPrefixes nm c pn cidr i ps es b) any.
Proof. intros. unfold applyPrefixes. cbv zeta. own_auto. Qed.
Lemma own_IPBlock nm c pn block i : own_chain c → triple I (applyPolicyPeersRulesIPBlock nm c pn block i) any.
Proof. intros. unfold applyPolicyPeersRulesIPBlock. own_auto; by apply own_applyPrefixes. Qed.
Lemma own_addIPRule nm addrs c pn peer i : own_chain c → triple I (addIPRule nm addrs c pn peer i) any.
Proof. intros. unfold addIPRule. cbv zeta. destruct addrs; own_auto. Qed.
Lemma own_Selector deps nm c pn peer info nets i :
  own_chain c → triple I (applyPolicyPeersRulesSelector deps nm c pn peer info nets i) any.
Proof.
  intros. unfold applyPolicyPeersRulesSelector, addIPRules. own_auto; by apply own_addIPRule.
Qed.

Lemma own_applyPolicyPeersRules deps nm c pn peers info nets i :
  own_chain c → triple I (applyPolicyPeersRules deps nm c pn peers info nets i) any.
Proof.
  intros Hc. unfold applyPolicyPeersRules. cbv zeta. own_auto.
  destruct x as [index peer]. repeat case_match; own_auto; by first [simple apply own_IPBlock|simple apply own_Selector].
Qed.
Lemma own_applyProtocol c pc nm pn proto els :
  own_chain c → own_chain pc → triple I (applyProtocol c pc nm pn proto els) any.
Proof.
  intros. unfold applyProtocol, applyProtoPortsRules. destruct (getProtocolInfo proto). own_auto.
Qed.
Lemma own_applyPolicyPortsRules nm c pn ports i :
  own_chain c → triple I (applyPolicyPortsRules nm c pn ports i) any.
Proof.
  intros. unfold applyPolicyPortsRules. cbv zeta. own_auto; by apply own_applyProtocol.
Qed.
Lemma own_applyPolicyRule deps nm c rn pn info nets i rule :
  own_chain c → triple I (applyPolicyRule deps nm c rn pn info nets i rule) any.
Proof.
  intros. unfold applyPolicyRule. own_auto;
    first [ simple apply own_applyMarkReset | by simple apply own_applyPolicyPortsRules
          | by simple apply own_applyPolicyPeersRules | by simple apply own_applyMarkCheck ].
Qed.
Lemma own_applyPodRules deps c info pol nets : own_chain c → triple I (applyPodRules deps c info pol nets) any.
Proof.
  intros. unfold applyPodRules. cbv zeta.
  eapply triple_bind; [apply own_getFilter|]. intros f Hf.
  eapply triple_bind; [apply triple_wrapST, own_addChain; own_side|]. intros pc Hpc.
  eapply (triple_bind _ _ _ _ any).
  { apply triple_foldM; [done|]. intros b i _ _. case_match; [|by apply triple_ret].
    eapply triple_bind; [apply triple_wrapST, own_applyPodInterfaceRules|]. intros. by apply triple_ret. }
  intros b _. own_auto; destruct x; by apply own_applyPolicyRule.
Qed.

(** Assigning a field keeps the invariant when what is assigned is the daemon's. *)
Lemma own_assign (f : nftState K → nftState K) :
  (∀ n, nft (f n) = nft n) → (∀ n, own_fields n → own_fields (f n)) → triple I (modify f) any.
Proof. intros Hn Hf n [H1' H2']. split; [|done]. split; simpl; [by rewrite Hn|by apply Hf]. Qed.

Lemma own_bootstrapNetfilterChains : triple I bootstrapNetfilterChains any.
Proof.
  unfold bootstrapNetfilterChains.
  eapply triple_bind; [apply own_getFilter|]. intros f Hf.
  eapply triple_bind; [apply own_getNat|]. intros nt Hnt.
  repeat first
    [ eapply triple_bind; [apply triple_wrapST, own_addChain; own_side|]; intros ? ?
    | eapply triple_bind; [|intros _ _] | idtac ].
  all: apply own_assign; [done|]; intros n (?&?&HC&?);
    unfold chainFields in HC; repeat setoid_rewrite Forall_cons in HC; destruct_and! HC;
    (split_and!; [done|done| |done]); unfold chainFields; simpl; forall_split; try done;
    by intros ? [= <-].
Qed.

Lemma own_bootstrapBaseRules info : triple I (bootstrapBaseRules info) any.
Proof.
  unfold bootstrapBaseRules. cbv zeta.
  eapply triple_bind; [apply own_getFilter|]. intros f Hf.
  eapply triple_bind; [apply own_getNat|]. intros nt Hnt.
  eapply triple_bind.
  { apply own_assign; [done|]. intros n (?&?&?&?). split_and!; try done. simpl.
    forall_split; by intros ? [= <-]. }
  intros _ _. eapply triple_bind; [apply triple_deref_set; intros; set_solver|]. intros fs Hfs.
  eapply triple_bind; [apply triple_wrapST, own_updateSet; done|]. intros fs' Hfs'.
  eapply triple_bind.
  { apply own_assign; [done|]. intros n (?&?&?&HS). split_and!; try done. simpl.
    forall_split; [by intros ? [= <-]|]. by repeat (apply Forall_cons in HS as [? HS]). }
  intros _ _.
  eapply triple_bind; [apply own_deref; intros; set_solver|]. intros i Hi.
  eapply triple_bind; [apply own_deref; intros; set_solver|]. intros ic Hic.
  eapply triple_bind; [apply triple_wrapST, own_InsertRule; done|]. intros _ _.
  eapply triple_bind; [apply own_deref; intros; set_solver|]. intros o Ho.
  eapply triple_bind; [apply own_deref; intros; set_solver|]. intros ec Hec.
  eapply triple_bind; [apply triple_wrapST, own_InsertRule; done|]. intros _ _.
  eapply triple_bind; [apply triple_deref_set; intros; set_solver|]. intros ns Hns.
  eapply triple_bind; [apply triple_wrapST, own_updateSet; done|]. intros ns' Hns'.
  eapply triple_bind.
  { apply own_assign; [done|]. intros n (?&?&?&HS). split_and!; try done. simpl.
    apply Forall_cons in HS as [? HS]. forall_split; [done|by intros ? [= <-]]. }
  intros _ _.
  eapply triple_bind; [apply own_deref; intros; set_solver|]. intros p Hp.
  eapply triple_bind; [apply own_InsertRule; done|]. intros _ _.
  eapply triple_bind; [apply own_deref; intros; set_solver|]. intros ci Hci.
  eapply triple_bind; [apply own_InsertRule; done|]. intros _ _.
  eapply triple_bind; [apply own_deref; intros; set_solver|]. intros ce Hce.
  eapply triple_bind; [apply own_InsertRule; done|]. intros _ _. by apply triple_ret.
Qed.
End own_rules.
