(* ===== verification/Cleanup.v ===== *)
(** * Removing stale objects

    [cleanup], [cleanupRules] and [cleanupChains] of
    pkg/server/netfilterrules.go: after a sync, every rule, named set and
    empty chain of the daemon's two tables that the sync did not ask for is
    deleted. *)

From S2P Require Import Prelude GoStd Names Nft Conn RefKernel Elements State.

Section cleanup.
Context {K : Type} `{Kernel K} `{Gob}.
Abbreviation M := (ST (nftState K)).

(** What the loops of [cleanupRules] carry: whether to flush, and the errors
    of deletions that were refused. *)
Record sweep := mkSweep { performFlush : bool; cleanupErrs : list error }.

(** One rule of a managed chain. A rule that cannot be hashed is stale. *)
Definition cleanupRule (s : sweep) (rule : Rule) : M sweep :=
  n ← get;
  let stale := match hash_rule rule with
               | Err _ => true
               | Ok key => match rules n !! key with Some _ => false | None => true end
               end in
  if stale then
    r ← try (onNft (DelRule rule));
    mret (match r with
          | Ok _ => mkSweep true (cleanupErrs s)
          | Err e => mkSweep (performFlush s) (cleanupErrs s ++ [ErrWrap "delete rule" e])
          end)
  else mret s.

Definition cleanupChainRules (table : Table) (s : sweep) (chain : Chain) : M sweep :=
  if bool_decide (Table_Name (Chain_Table chain) = Table_Name table) then
    rs ← wrapST "failed to list rules" (onNft (GetRules table chain));
    foldM rs s cleanupRule
  else mret s.

Definition cleanupSet (s : sweep) (set : NftSet) : M sweep :=
  n ← get;
  match sets n !! setKey (Table_Name (Set_Table set)) (Set_Name set) with
  | None =>
    if negb (Set_Anonymous set) then
      onNft (DelSet set) ≫= λ _, mret (mkSweep true (cleanupErrs s))
    else mret s
  | Some _ => mret s
  end.

Definition cleanupRules (table : Table) : M unit :=
  chs ← wrapST "failed to list chains" (onNft (ListChainsOfTableFamily (Table_Family table)));
  s ← foldM chs (mkSweep false []) (cleanupChainRules table);
  ss ← wrapST "failed to list sets" (onNft (GetSets table));
  s ← foldM ss s cleanupSet;
  (if performFlush s then wrapST "failed to flush rules/sets cleanup" (onNft Flush) else mret tt) ≫= λ _,
  if 0 <? len (cleanupErrs s) then throw (ErrJoin (cleanupErrs s)) else mret tt.

Definition cleanupChain (performFlush : bool) (chain : Chain) : M bool :=
  n ← get;
  if negb (bool_decide (Table_Name (Chain_Table chain) = Table_Name (filterT n)
                        ∨ Table_Name (Chain_Table chain) = Table_Name (natT n))) then mret performFlush
  else
    rs ← wrapST "failed to get rules" (onNft (GetRules (Chain_Table chain) chain));
    match chains n !! chainID chain with
    | None =>
      if len rs <? 1 then onNft (DelChain chain) ≫= λ _, mret true else mret performFlush
    | Some _ => mret performFlush
    end.

Definition cleanupChains : M unit :=
  chs ← wrapST "failed to list chains" (onNft (ListChainsOfTableFamily TableFamilyINet));
  performFlush ← foldM chs false cleanupChain;
  if (performFlush : bool) then wrapST "failed to flush chains cleanup" (onNft Flush) else mret tt.

(** [cleanup]; the deferred function empties the maps on every return. *)
Definition cleanup : M unit := λ n,
  let body :=
    wrapST "failed to cleanup filter table" (cleanupRules (filterT n)) ≫= λ _,
    wrapST "failed to cleanup nat table" (cleanupRules (natT n)) ≫= λ _,
    wrapST "failed to cleanup chains" cleanupChains in
  let '(r, n') := body n in
  (r, set_maps ∅ ∅ ∅ n').
End cleanup.

(** ** The cleanup stays within the daemon's tables *)

Section own_cleanup.
Context {K : Type} `{LawfulKernel K} `{Gob}.
Variable P : msg → Prop.
Hypothesis own_P : ∀ m, own_msg m → P m.
Abbreviation I := (own_inv (K:=K) P).
Abbreviation any := (λ _, True).

Lemma own_get {A} (f : nftState K → ST (nftState K) A) Q :
  (∀ n, I n → triple I (f n) Q) → triple I (n ← get; f n) Q.
Proof. intros Hf n Hn. by apply (Hf n). Qed.

Lemma own_cleanupRule s rule : own_table (Rule_Table rule) → triple I (cleanupRule s rule) any.
Proof.
  intros Hr. unfold cleanupRule. apply own_get. intros n _. cbv zeta.
  match goal with |- triple _ (if ?b then _ else _) _ => destruct b end; [|by apply triple_ret].
  eapply triple_bind; [by apply triple_try, triple_onNft, triple_DelRule, own_P|].
  intros. by apply triple_ret.
Qed.

Lemma own_cleanupChainRules t s c : own_table t → triple I (cleanupChainRules t s c) any.
Proof.
  intros Ht. unfold cleanupChainRules. case_match; [|by apply triple_ret].
  eapply triple_bind; [apply triple_wrapST, triple_onNft; read_rules|]. intros rs Hrs.
  apply triple_foldM; [done|]. intros s' r _ Hr. apply own_cleanupRule.
  rewrite Forall_forall in Hrs. by destruct (Hrs r Hr) as [-> _].
Qed.

Lemma own_cleanupSet s set : own_table (Set_Table set) → triple I (cleanupSet s set) any.
Proof.
  intros Hs. unfold cleanupSet. apply own_get. intros n _. case_match; [by apply triple_ret|].
  case_match; [|by apply triple_ret].
  eapply triple_bind; [by apply triple_onNft, triple_push, own_P|]. intros. by apply triple_ret.
Qed.

Lemma own_cleanupRules t : own_table t → triple I (cleanupRules t) any.
Proof.
  intros Ht. unfold cleanupRules.
  eapply triple_bind; [apply triple_wrapST, triple_onNft, (triple_read _ _ any); done|]. intros cs _.
  eapply (triple_bind _ _ _ _ any).
  { apply triple_foldM; [done|]. intros. by apply own_cleanupChainRules. }
  intros s _. eapply triple_bind; [apply triple_wrapST, triple_onNft, triple_GetSets|]. intros ss Hss.
  eapply (triple_bind _ _ _ _ any).
  { apply triple_foldM; [done|]. intros s' x _ Hx. apply own_cleanupSet.
    rewrite Forall_forall in Hss. by rewrite (Hss x Hx). }
  intros s' _. eapply (triple_bind _ _ _ _ any).
  { case_match; [apply triple_wrapST, triple_onNft, triple_Flush|by apply triple_ret]. }
  intros _ _. case_match; [apply triple_throw|by apply triple_ret].
Qed.

Lemma own_cleanupChain b c : triple I (cleanupChain b c) any.
Proof.
  unfold cleanupChain. apply own_get. intros n (_ & Hf & Hn & _).
  case_match eqn:E; [by apply triple_ret|]. apply negb_false_iff, bool_decide_eq_true in E.
  assert (own_chain c) as Hc.
  { unfold own_chain, own_table in *. destruct E as [-> | ->]; done. }
  eapply triple_bind; [apply triple_wrapST, triple_onNft; read_rules|]. intros rs _.
  case_match; [by apply triple_ret|]. case_match; [|by apply triple_ret].
  eapply triple_bind; [by apply triple_onNft, triple_push, own_P|]. intros. by apply triple_ret.
Qed.

Lemma own_cleanupChains : triple I cleanupChains any.
Proof.
  unfold cleanupChains.
  eapply triple_bind; [apply triple_wrapST, triple_onNft, (triple_read _ _ any); done|]. intros cs _.
  eapply (triple_bind _ _ _ _ any); [apply triple_foldM; intros; [done|apply own_cleanupChain]|].
  intros b _. case_match; [apply triple_wrapST, triple_onNft, triple_Flush|by apply triple_ret].
Qed.

Lemma own_cleanup : triple I cleanup any.
Proof.
  intros n Hn. unfold cleanup. pose proof Hn as (_ & Hf & Ht & _).
  assert (triple I (wrapST "failed to cleanup filter table" (cleanupRules (filterT n)) ≫= λ _,
    wrapST "failed to cleanup nat table" (cleanupRules (natT n)) ≫= λ _,
    wrapST "failed to cleanup chains" cleanupChains) any) as Hb.
  { eapply triple_bind; [by apply triple_wrapST, own_cleanupRules|]. intros _ _.
    eapply triple_bind; [by apply triple_wrapST, own_cleanupRules|]. intros _ _.
    apply triple_wrapST, own_cleanupChains. }
  cbv zeta. destruct (Hb n Hn) as [Hi _]. revert Hi.
  match goal with |- context [let '(_, _) := ?x in _] => destruct x end.
  intros [H1' H2']. by split.
Qed.
End own_cleanup.

(** ** Exactly the stale objects are deleted *)

Section exact_cleanup.
Context {K : Type} `{LawfulKernel K} `{Gob}.
Implicit Types n : nftState K.

(** A rule the sync did not ask for: its key is not remembered, or it has none. *)
Definition stale (n : nftState K) (r : Rule) : bool :=
  match hash_rule r with Ok key => bool_decide (rules n !! key = None) | Err _ => true end.
Definition unused_set (n : nftState K) (s : NftSet) : bool :=
  bool_decide (sets n !! setKey (Table_Name (Set_Table s)) (Set_Name s) = None) && negb (Set_Anonymous s).
Definition of_table (t : Table) (c : Chain) : bool :=
  bool_decide (Table_Name (Chain_Table c) = Table_Name t).

(** The deletions of [cleanupRules], given what each chain holds. *)
Definition stale_rules n (t : Table) (rs : gostring → list Rule) (chs : list Chain) : list msg :=
  chs ≫= λ c, if of_table t c then MDelRule <$> List.filter (stale n) (rs (Chain_Name c)) else [].
Definition unused_sets n (ss : list NftSet) : list msg := MDelSet <$> List.filter (unused_set n) ss.

Definition touch (b : bool) (s : sweep) : sweep := mkSweep (b || performFlush s) (cleanupErrs s).

Lemma mbind_if_filter {A} (f : A → bool) (mk : A → msg) l :
  (l ≫= λ x, if f x then [mk x] else []) = mk <$> List.filter f l.
Proof. induction l as [|x l IH]; cbn; [done|]. rewrite IH. by destruct (f x). Qed.

Lemma foldl_touch {A} (f : A → bool) l s :
  foldl (λ s x, touch (f x) s) s l = touch (existsb f l) s.
Proof.
  revert s. induction l as [|x l IH]; intros [b e]; cbn; [done|].
  rewrite IH. unfold touch. cbn. f_equal. by destruct (f x), (existsb f l).
Qed.

Lemma cleanupRule_exact n ms s r :
  Rule_Handle r ≠ 0 →
  cleanupRule s r (pushesN ms n) =
    (Ok (touch (stale n r) s), pushesN (ms ++ if stale n r then [MDelRule r] else []) n).
Proof.
  intros Hh. unfold cleanupRule, mbind at 1, ST_bind at 1, get. cbv zeta.
  assert (match hash_rule r with
          | Ok key => match rules (pushesN ms n) !! key with Some _ => false | None => true end
          | Err _ => true end = stale n r) as ->.
  { unfold stale. destruct (hash_rule r); [|done]. cbn. by destruct (rules n !! a). }
  destruct (stale n r); cbn -[DelRule]; [|rewrite app_nil_r; by destruct s].
  unfold mbind, ST_bind, try. rewrite (onNft_run _ _ (Ok tt) (push (MDelRule r) (pushes ms (nft n))))
    by (by rewrite DelRule_ok).
  cbn. unfold pushesN, push, pushes. cbn. by rewrite <-app_assoc.
Qed.

Lemma quiet_pushesN n ms : quiet (kern (nft n)) → quiet (kern (nft (pushesN ms n))).
Proof. done. Qed.

Lemma cleanupChainRules_exact n t (rs : gostring → list Rule) ms s c :
  quiet (kern (nft n)) → (of_table t c = true → rulesAt (kern (nft n)) t (Chain_Name c) = Ok (rs (Chain_Name c))) →
  cleanupChainRules t s c (pushesN ms n) =
    (Ok (touch (of_table t c && existsb (stale n) (rs (Chain_Name c))) s),
     pushesN (ms ++ if of_table t c then MDelRule <$> List.filter (stale n) (rs (Chain_Name c)) else []) n).
Proof.
  intros Hq HR. unfold cleanupChainRules. fold (of_table t c).
  destruct (of_table t c) eqn:E; [|rewrite app_nil_r; by destruct s].
  specialize (HR eq_refl). unfold mbind at 1, ST_bind at 1, wrapST.
  rewrite (onNft_pure _ _ (Ok (rs (Chain_Name c)))) by (rewrite GetRules_quiet by done; by rewrite <-HR).
  cbn [wrap]. rewrite (foldM_pushesN _ _ _ (λ s r, touch (stale n r) s)
    (λ r, if stale n r then [MDelRule r] else [])).
  - by rewrite foldl_touch, mbind_if_filter.
  - intros s' r ms' Hr. apply cleanupRule_exact. pose proof (rulesAt_lawful _ _ _ _ HR) as HL.
    rewrite Forall_forall in HL. by apply HL.
Qed.

Lemma cleanupSet_exact n ms s x :
  cleanupSet s x (pushesN ms n) =
    (Ok (touch (unused_set n x) s), pushesN (ms ++ if unused_set n x then [MDelSet x] else []) n).
Proof.
  unfold cleanupSet, unused_set, mbind at 1, ST_bind at 1, get. cbn [sets pushesN set_nft].
  destruct (sets n !! _) as [x'|] eqn:E.
  - cbn. rewrite app_nil_r. by destruct s.
  - cbn. destruct (Set_Anonymous x); cbn; [rewrite app_nil_r; by destruct s|].
    unfold mbind, ST_bind. rewrite (onNft_run _ _ (Ok tt) (push (MDelSet x) (pushes ms (nft n)))) by done.
    unfold pushesN, push, pushes. cbn. by rewrite <-app_assoc.
Qed.

Lemma stale_flag n t rs chs :
  existsb (λ c, of_table t c && existsb (stale n) (rs (Chain_Name c))) chs = true ↔ stale_rules n t rs chs ≠ [].
Proof.
  induction chs as [|c chs IH]; cbn; [done|]. rewrite orb_true_iff, IH. unfold stale_rules.
  assert (∀ l, existsb (stale n) l = true ↔ List.filter (stale n) l ≠ []) as Hf.
  { intros l. induction l as [|x l IHl]; cbn; [done|]. destruct (stale n x); cbn; [done|exact IHl]. }
  destruct (of_table t c); cbn; [|naive_solver]. rewrite Hf.
  destruct (List.filter _ (rs (Chain_Name c))); cbn; naive_solver.
Qed.

Lemma unused_flag n ss : existsb (unused_set n) ss = true ↔ unused_sets n ss ≠ [].
Proof.
  unfold unused_sets. induction ss as [|x l IHl]; cbn; [done|]. by destruct (unused_set n x).
Qed.

Lemma Flush_once (c : Conn K) ms :
  messages c = [] → conn_err c = None → ms ≠ [] →
  Flush (pushes ms c) = ((k_commit ms (kern c)).1,
    mkConn (k_commit ms (kern c)).2 [] (lastID c) None (sent c ++ [ms])).
Proof.
  intros Hm He Hne. unfold Flush, pushes. cbn. rewrite Hm, He. cbn.
  destruct ms; [done|]. by destruct (k_commit _ _).
Qed.

Lemma cleanupRules_quiet n t chs rs ss :
  quiet (kern (nft n)) → messages (nft n) = [] → conn_err (nft n) = None →
  (k_ListChainsOfTableFamily (Table_Family t) (kern (nft n))).1 = Ok chs →
  (∀ c, c ∈ chs → of_table t c = true → rulesAt (kern (nft n)) t (Chain_Name c) = Ok (rs (Chain_Name c))) →
  (k_GetSets t (kern (nft n))).1 = Ok ss →
  let dels := stale_rules n t rs chs ++ unused_sets n (in_table t <$> ss) in
  cleanupRules t n =
    if decide (dels = []) then (Ok tt, n)
    else (wrap "failed to flush rules/sets cleanup" (k_commit dels (kern (nft n))).1,
          set_nft (mkConn (k_commit dels (kern (nft n))).2 [] (lastID (nft n)) None
                     (sent (nft n) ++ [dels])) n).
Proof.
  intros Hq Hm He HC HR HS. cbv zeta. unfold cleanupRules. unfold mbind at 1, ST_bind at 1, wrapST at 1.
  rewrite (onNft_pure _ _ (Ok chs))
    by (unfold ListChainsOfTableFamily; rewrite read_quiet by (apply quiet_ListChainsOfTableFamily, Hq); by rewrite HC).
  cbn [wrap]. unfold mbind at 1, ST_bind at 1. rewrite <-(pushesN_nil n) at 1.
  rewrite (foldM_pushesN _ _ _ (λ s c, touch (of_table t c && existsb (stale n) (rs (Chain_Name c))) s)
    (λ c, if of_table t c then MDelRule <$> List.filter (stale n) (rs (Chain_Name c)) else []))
    by (intros; apply cleanupChainRules_exact; auto).
  rewrite foldl_touch. cbn [app]. fold (stale_rules n t rs chs).
  unfold mbind at 1, ST_bind at 1, wrapST at 1.
  rewrite (onNft_pure _ _ (Ok (in_table t <$> ss))).
  2:{ unfold GetSets, mbind, ST_bind. rewrite read_quiet by (by apply quiet_GetSets). cbn. by rewrite HS. }
  cbn [wrap]. unfold mbind at 1, ST_bind at 1.
  rewrite (foldM_pushesN _ _ _ (λ s x, touch (unused_set n x) s)
    (λ x, if unused_set n x then [MDelSet x] else [])) by (intros; apply cleanupSet_exact).
  rewrite foldl_touch, mbind_if_filter. fold (unused_sets n (in_table t <$> ss)).
  assert (∀ b, performFlush (touch b (touch (existsb (λ c, of_table t c && existsb (stale n) (rs (Chain_Name c))) chs)
    (mkSweep false []))) = b || existsb (λ c, of_table t c && existsb (stale n) (rs (Chain_Name c))) chs) as Hpf
    by (intros b; cbn; by rewrite orb_false_r).
  rewrite Hpf. clear Hpf. cbn [cleanupErrs touch len length].
  pose proof (stale_flag n t rs chs) as H1'. pose proof (unused_flag n (in_table t <$> ss)) as H2'.
  case_decide as Hd.
  - apply app_eq_nil in Hd as [Hd1 Hd2].
    assert (existsb (unused_set n) (in_table t <$> ss) = false) as -> by (apply not_true_iff_false; naive_solver).
    assert (existsb (λ c, of_table t c && existsb (stale n) (rs (Chain_Name c))) chs = false) as ->
      by (apply not_true_iff_false; naive_solver).
    rewrite Hd1, Hd2. cbn. by rewrite pushesN_nil.
  - assert (existsb (unused_set n) (in_table t <$> ss)
      || existsb (λ c, of_table t c && existsb (stale n) (rs (Chain_Name c))) chs = true) as ->.
    { apply orb_true_iff. rewrite H1', H2'. destruct (stale_rules n t rs chs); [by left|by right]. }
    unfold mbind, ST_bind, wrapST. erewrite onNft_run by (apply Flush_once; done). cbn.
    destruct (k_commit _ _) as [[[]|e] k']; done.
Qed.
End exact_cleanup.

Section exact_chains.
Context {K : Type} `{LawfulKernel K} `{Gob}.
Implicit Types n : nftState K.

(** A chain of a managed table that the sync did not ask for. *)
Definition managed n (c : Chain) : bool :=
  bool_decide (Table_Name (Chain_Table c) = Table_Name (filterT n)
               ∨ Table_Name (Chain_Table c) = Table_Name (natT n)).
Definition unused_chain n (c : Chain) : bool := managed n c && bool_decide (chains n !! chainID c = None).
Definition dead_chain n (rs : Chain → list Rule) (c : Chain) : bool :=
  unused_chain n c && bool_decide (rs c = []).

Lemma cleanupChain_exact n rs ms b c :
  quiet (kern (nft n)) →
  (managed n c = true → rulesAt (kern (nft n)) (Chain_Table c) (Chain_Name c) = Ok (rs c)) →
  cleanupChain b c (pushesN ms n) =
    (Ok (dead_chain n rs c || b), pushesN (ms ++ if dead_chain n rs c then [MDelChain c] else []) n).
Proof.
  intros Hq HR. unfold cleanupChain, dead_chain, unused_chain, mbind at 1, ST_bind at 1, get.
  cbn [filterT natT pushesN set_nft]. fold (managed n c).
  destruct (managed n c); cbn [negb andb]; [specialize (HR eq_refl)|by rewrite app_nil_r].
  unfold mbind at 1, ST_bind at 1, wrapST.
  rewrite (onNft_pure _ _ (Ok (rs c))) by (rewrite GetRules_quiet by done; by rewrite <-HR).
  cbn [wrap chains pushesN set_nft].
  destruct (chains n !! chainID c) as [x|]; cbn; [by rewrite app_nil_r|].
  destruct (rs c) as [|r l] eqn:E; cbn -[len onNft].
  - replace (len (@nil Rule) <? 1) with true by done.
    unfold mbind, ST_bind. rewrite (onNft_run _ _ (Ok tt) (push (MDelChain c) (pushes ms (nft n)))) by done.
    unfold pushesN, push, pushes. cbn. by rewrite <-app_assoc.
  - replace (len (r :: l) <? 1) with false by (symmetry; apply Z.ltb_ge; unfold len; simpl length; lia).
    by rewrite app_nil_r.
Qed.

Lemma cleanupChains_quiet n chs rs :
  quiet (kern (nft n)) → messages (nft n) = [] → conn_err (nft n) = None →
  (k_ListChainsOfTableFamily TableFamilyINet (kern (nft n))).1 = Ok chs →
  (∀ c, c ∈ chs → managed n c = true → rulesAt (kern (nft n)) (Chain_Table c) (Chain_Name c) = Ok (rs c)) →
  let dels := MDelChain <$> List.filter (dead_chain n rs) chs in
  cleanupChains n =
    if decide (dels = []) then (Ok tt, n)
    else (wrap "failed to flush chains cleanup" (k_commit dels (kern (nft n))).1,
          set_nft (mkConn (k_commit dels (kern (nft n))).2 [] (lastID (nft n)) None
                     (sent (nft n) ++ [dels])) n).
Proof.
  intros Hq Hm He HC HR. cbv zeta. unfold cleanupChains, mbind at 1, ST_bind at 1, wrapST at 1.
  rewrite (onNft_pure _ _ (Ok chs))
    by (unfold ListChainsOfTableFamily; rewrite read_quiet by (apply quiet_ListChainsOfTableFamily, Hq); by rewrite HC).
  cbn [wrap]. unfold mbind at 1, ST_bind at 1. rewrite <-(pushesN_nil n) at 1.
  rewrite (foldM_pushesN _ _ _ (λ b c, dead_chain n rs c || b)
    (λ c, if dead_chain n rs c then [MDelChain c] else []))
    by (intros; apply cleanupChain_exact; auto).
  rewrite mbind_if_filter. cbn [app].
  assert (∀ b, foldl (λ b c, dead_chain n rs c || b) b chs
    = match List.filter (dead_chain n rs) chs with [] => b | _ => true end) as ->.
  { clear HC HR. induction chs as [|c chs IH]; intros b; cbn; [done|]. rewrite IH.
    destruct (dead_chain n rs c); cbn; [by destruct (List.filter _ _)|done]. }
  destruct (List.filter (dead_chain n rs) chs) as [|c l] eqn:E; cbn [fmap list_fmap].
  - rewrite decide_True by done. by rewrite pushesN_nil.
  - rewrite decide_False by done. unfold wrapST.
    by erewrite onNft_run by (apply Flush_once; done).
Qed.
End exact_chains.

(** ** Properties *)

Section properties.
Context {K : Type} `{LawfulKernel K} `{Gob}.
Implicit Types n : nftState K.

(** C8: [cleanupRules] deletes, in one batch, exactly the rules of the
    table's chains whose key the sync did not remember and the named sets it
    did not use, rules first; with nothing stale it sends nothing. Anonymous
    sets and the chains of other tables are not touched. *)
Theorem cleanupRules_exact n t chs rs ss :
  quiet (kern (nft n)) → messages (nft n) = [] → conn_err (nft n) = None →
  (k_ListChainsOfTableFamily (Table_Family t) (kern (nft n))).1 = Ok chs →
  (∀ c, c ∈ chs → of_table t c = true → rulesAt (kern (nft n)) t (Chain_Name c) = Ok (rs (Chain_Name c))) →
  (k_GetSets t (kern (nft n))).1 = Ok ss →
  let dels := stale_rules n t rs chs ++ unused_sets n (in_table t <$> ss) in
  cleanupRules t n =
    if decide (dels = []) then (Ok tt, n)
    else (wrap "failed to flush rules/sets cleanup" (k_commit dels (kern (nft n))).1,
          set_nft (mkConn (k_commit dels (kern (nft n))).2 [] (lastID (nft n)) None
                     (sent (nft n) ++ [dels])) n).
Proof. apply cleanupRules_quiet. Qed.

(** C29: [cleanupChains] deletes, in one batch, exactly the chains of the two
    managed tables that the sync did not use and that hold no rule. *)
Theorem cleanupChains_exact n chs rs :
  quiet (kern (nft n)) → messages (nft n) = [] → conn_err (nft n) = None →
  (k_ListChainsOfTableFamily TableFamilyINet (kern (nft n))).1 = Ok chs →
  (∀ c, c ∈ chs → rulesAt (kern (nft n)) (Chain_Table c) (Chain_Name c) = Ok (rs c)) →
  let dels := MDelChain <$> List.filter (dead_chain n rs) chs in
  cleanupChains n =
    if decide (dels = []) then (Ok tt, n)
    else (wrap "failed to flush chains cleanup" (k_commit dels (kern (nft n))).1,
          set_nft (mkConn (k_commit dels (kern (nft n))).2 [] (lastID (nft n)) None
                     (sent (nft n) ++ [dels])) n).
Proof. intros. by apply cleanupChains_quiet; auto. Qed.

(** a rule in the kernel that matches one the sync remembered under its
    key survives the cleanup, whatever its counters say. *)
Theorem remembered_rule_not_stale n wanted r key :
  hash_rule wanted = Ok key → is_Some (rules n !! key) →
  ruleEqual wanted r = true → Table_Family (Rule_Table wanted) = Table_Family (Rule_Table r) →
  stale n r = false.
Proof.
  intros Hk [x Hx] He HF. unfold stale. rewrite <-(ruleEqual_same_hash_lemma _ _ He HF), Hk.
  apply bool_decide_eq_false. by rewrite Hx.
Qed.
End properties.
