(* ===== verification/Server.v ===== *)
(** * One pod

    [ApplyPolicyRulesForPodAndFamily] of pkg/server/server.go: from the
    policies of the cluster to the nftables rules of one pod's namespace. *)

From S2P Require Import Prelude GoStd Names Nft Netip Api Elements Conn RefKernel State Legacy Rules Cleanup.

(** ** Policy types *)

(** [strings.EqualFold] with an ASCII word. Besides the two ASCII cases of a
    letter, Unicode folds U+017F to [s] and U+212A to [k]. *)
Definition foldRune (r : Z) : Z :=
  if (65 <=? r) && (r <=? 90) then r + 32
  else if r =? 0x17F then 115 else if r =? 0x212A then 107 else r.
Definition EqualFoldASCII (s word : gostring) : bool :=
  bool_decide (foldRune <$> runes s = foldRune <$> word).

Definition PolicyTypeIngress : gostring := "Ingress".
Definition PolicyTypeEgress : gostring := "Egress".

Record internalPolicy `{LabelApi} := mkInternal {
  ip_policy : MultiNetworkPolicy;
  ip_policyNetworks : list gostring }.
Arguments mkInternal {_} _ _.

Section server.
Context `{LabelApi}.

Definition getEnabledPolicyTypes (policy : MultiNetworkPolicy) : bool * bool :=
  let types := Spec_PolicyTypes (Policy_Spec policy) in
  if 0 <? len types then
    foldl (λ acc v,
      if EqualFoldASCII v PolicyTypeIngress then (true, acc.2)
      else if EqualFoldASCII v PolicyTypeEgress then (acc.1, true)
      else acc) (false, false) types
  else (match Spec_Ingress (Policy_Spec policy) with Some _ => true | None => false end,
        match Spec_Egress (Policy_Spec policy) with Some _ => true | None => false end).

Definition podNamespacedName (o : option Pod) : gostring :=
  match o with
  | None => "<nil>"
  | Some o => Pod_Namespace o ++ str "/" ++ Pod_Name o
  end.

(** The error contexts that name the pod. *)
Definition forPod (what : gostring) (pod : Pod) : gostring :=
  what ++ str " for pod [" ++ podNamespacedName (Some pod) ++ str "]".

(** [CompareInternalPolicy] *)
Definition CompareInternalPolicy (a b : internalPolicy) : comparison :=
  strings.Compare (policyNamespacedName (ip_policy a)) (policyNamespacedName (ip_policy b)).

(** The networks of the [policy-for] annotation: spaces removed, split at
    commas, a name without a slash taken in the policy's namespace, sorted. *)
Definition policyNetworksOf (policy : MultiNetworkPolicy) (annot : gostring) : list gostring :=
  let names := strings.Split (strings.ReplaceAll annot 32 []) 44 in
  SortStableFunc strings.Compare
    ((λ n, if bool_decide (47 ∈ n) then n else Policy_Namespace policy ++ str "/" ++ n) <$> names).

(** One round of the loop over the policy map: the policy with its networks
    when it applies to the pod. *)
Definition selectPolicy (pod : Pod) (podInfo : PodInfo) (policy : MultiNetworkPolicy)
    : option internalPolicy :=
  if negb (bool_decide (Policy_Namespace policy = Pod_Namespace pod)) then None
  else
    let sel := Spec_PodSelector (Policy_Spec policy) in
    let matches :=
      if negb (ls_Size sel =? 0) then
        match LabelSelectorAsSelector sel with
        | Err _ => false
        | Ok s => sel_Matches s (Pod_Labels pod)
        end
      else true in
    if negb matches then None
    else match Policy_Annotations policy !! PolicyNetworkAnnotation with
         | None => None
         | Some annot =>
           let nets := policyNetworksOf policy annot in
           if PodInfo_CheckPolicyNetwork podInfo nets then Some (mkInternal policy nets) else None
         end.

Definition ingressEnabled (p : internalPolicy) : bool := (getEnabledPolicyTypes (ip_policy p)).1.
Definition egressEnabled (p : internalPolicy) : bool := (getEnabledPolicyTypes (ip_policy p)).2.

(** The two lists of policies, sorted; [policies] is the policy map in the
    order it happened to be iterated in. *)
Definition selectedPolicies (enabled : internalPolicy → bool) (pod : Pod) (podInfo : PodInfo)
    (policies : list MultiNetworkPolicy) : list internalPolicy :=
  SortStableFunc CompareInternalPolicy (List.filter enabled (omap (selectPolicy pod podInfo) policies)).
End server.

Section apply.
Context {K : Type} `{Kernel K} `{Gob} `{Arch} `{LabelApi} `{MapOrder}.
Abbreviation M := (ST (nftState K)).

(** The policies of one direction, followed by the final drop. *)
Definition applyDirection (deps : PolicyDeps) (chainField : nftState K → option Chain)
    (podInfo : PodInfo) (policies : list internalPolicy) : M unit :=
  if 0 <? len policies then
    forceUpdate ← foldM policies false (λ forceUpdate p,
      chain ← deref chainField;
      newRules ← wrapST "failed to apply pod rules"
        (applyPodRules deps chain podInfo (ip_policy p) (ip_policyNetworks p));
      wrapST "failed to apply mark check rule" (applyGeneralMarkCheck chain (ip_policy p)) ≫= λ _,
      mret (if (newRules : bool) then true else forceUpdate));
    chain ← deref chainField;
    wrapST "failed to apply drop-remaining rules" (applyDropRemaining chain forceUpdate)
  else mret tt.

(** [ApplyPolicyRulesForPodAndFamily]; the initial state holds the connection. *)
Definition ApplyPolicyRulesForPodAndFamily (deps : PolicyDeps) (cfg : CommonRuleConfig)
    (policies : list MultiNetworkPolicy) (pod : Pod) (podInfo : PodInfo) : M unit :=
  podInfo ← wrapST (forPod "bootstrap netfilter rules failed" pod) (bootstrapNetfilterRules podInfo);
  let ingressPolicies := selectedPolicies ingressEnabled pod podInfo policies in
  let egressPolicies := selectedPolicies egressEnabled pod podInfo policies in
  wrapST (forPod "failed to apply common chain rules" pod) (applyCommonChainRules cfg) ≫= λ _,
  applyDirection deps ingressC podInfo ingressPolicies ≫= λ _,
  applyDirection deps egressC podInfo egressPolicies ≫= λ _,
  wrapST (forPod "nft flush failed" pod) (onNft Flush) ≫= λ _,
  wrapST "failed to cleanup nft" cleanup.
End apply.

(** ** A whole sync stays within the daemon's tables *)

(** What a sync may write: messages about the daemon's own tables, and the
    deletions of the legacy cleanup. *)
Definition sync_msg (m : msg) : Prop := own_msg m ∨ legacy_delete m.

Section own_server.
Context {K : Type} `{LawfulKernel K} `{Gob} `{Arch} `{LabelApi} `{MapOrder}.
Abbreviation I := (own_inv (K:=K) sync_msg).
Abbreviation any := (λ _, True).

Lemma own_sync m : own_msg m → sync_msg m.
Proof. by left. Qed.

Lemma own_applyDirection deps f info ps :
  (∀ n : nftState K, f n ∈ chainFields n) → triple I (applyDirection deps f info ps) any.
Proof.
  intros Hf. unfold applyDirection. case_match; [|by apply triple_ret].
  eapply (triple_bind _ _ _ _ any).
  - apply triple_foldM; [done|]. intros b p _ _.
    eapply triple_bind; [by apply own_deref|]. intros c Hc.
    eapply triple_bind; [apply triple_wrapST, own_applyPodRules; [apply own_sync|done]|]. intros b' _.
    eapply triple_bind; [apply triple_wrapST, own_applyGeneralMarkCheck, own_sync|]. intros.
    by apply triple_ret.
  - intros b _. eapply triple_bind; [by apply own_deref|]. intros c Hc.
    apply triple_wrapST, own_applyDropRemaining; [apply own_sync|done].
Qed.

(** The part of the sync after the tables exist. *)
Lemma own_afterTables deps cfg policies pod info :
  triple I (wrapST (forPod "failed to apply common chain rules" pod) (applyCommonChainRules cfg) ≫= λ _,
    applyDirection deps ingressC info (selectedPolicies ingressEnabled pod info policies) ≫= λ _,
    applyDirection deps egressC info (selectedPolicies egressEnabled pod info policies) ≫= λ _,
    wrapST (forPod "nft flush failed" pod) (onNft Flush) ≫= λ _,
    wrapST "failed to cleanup nft" cleanup) any.
Proof.
  eapply triple_bind; [apply triple_wrapST, own_applyCommonChainRules, own_sync|]. intros _ _.
  eapply triple_bind; [apply own_applyDirection; intros; set_solver|]. intros _ _.
  eapply triple_bind; [apply own_applyDirection; intros; set_solver|]. intros _ _.
  eapply triple_bind; [apply triple_wrapST, triple_onNft, triple_Flush|]. intros _ _.
  apply triple_wrapST, own_cleanup, own_sync.
Qed.

(** The tables the sync works in are the daemon's once they exist. *)
Lemma bootstrapTables_own (n : nftState K) :
  all_msgs sync_msg (nft n) →
  match bootstrapTables n with
  | (Ok _, n') => own_inv sync_msg n'
  | (Err _, n') => all_msgs sync_msg (nft n')
  end.
Proof.
  intros Hn. unfold bootstrapTables.
  assert (∀ name, own_table (mkTable name TableFamilyINet) →
    triple (λ n : nftState K, all_msgs sync_msg (nft n))
      (wrapST "failed to add table" (onNft (addTable (mkTable name TableFamilyINet)))) own_table) as Hadd.
  { intros name Ho. apply triple_wrapST. unfold onNft. intros n' Hn'.
    assert (triple (all_msgs sync_msg) (addTable (K:=K) (mkTable name TableFamilyINet)) own_table) as HT.
    { unfold addTable. eapply triple_bind.
      { eapply triple_try, (triple_read _ _ own_table). intros k t k' ->%law_ListTableOfFamily. done. }
      intros [t|e] Ht; [by apply triple_ret, Ht|]. case_match; [apply triple_throw|].
      eapply triple_weaken; [apply triple_AddTable; by left|]. by intros ? <-. }
    unfold zoom. destruct (HT _ Hn') as [Hi HQ]. by destruct (addTable _ (nft n')). }
  unfold mbind, ST_bind at 1.
  destruct (Hadd FilterTableName (or_introl eq_refl) n Hn) as [Hn1 Hf].
  destruct (wrapST _ _ n) as [[f|e] n1]; [|done]. specialize (Hf f eq_refl). simpl in Hn1.
  unfold ST_bind at 1.
  destruct (Hadd NatTableName (or_intror eq_refl) n1 Hn1) as [Hn2 Ht].
  destruct (wrapST _ _ n1) as [[nt|e] n2]; [|done]. specialize (Ht nt eq_refl). simpl in Hn2.
  simpl. split; [done|]. split_and!; [done|done|unfold chainFields; simpl|simpl]; forall_split; done.
Qed.
End own_server.

Section own_bootstrap.
Context {K : Type} `{LawfulKernel K} `{Gob} `{Arch} `{LabelApi} `{MapOrder}.

Lemma legacy_all_msgs (P : msg → Prop) (n : nftState K) :
  (∀ m, legacy_delete m → P m) → messages (nft n) = [] → sent (nft n) = [] →
  all_msgs P (nft (onNft CleanupLegacyTables n).2).
Proof.
  intros HP Hm Hs. unfold onNft, zoom.
  destruct (CleanupLegacyTables_triple (nft n)) as [[Hb1 Hb2] _];
    [split; rewrite ?Hm, ?Hs; constructor|].
  destruct (CleanupLegacyTables (nft n)) as [r c]. simpl in *.
  split; [by eapply Forall_impl|].
  eapply Forall_impl; [exact Hb2|]. intros l Hl. by eapply Forall_impl.
Qed.

Lemma bootstrapNetfilterRules_own podInfo (n : nftState K) :
  messages (nft n) = [] → sent (nft n) = [] →
  match bootstrapNetfilterRules podInfo n with
  | (Ok _, n') => own_inv sync_msg n'
  | (Err _, n') => all_msgs sync_msg (nft n')
  end.
Proof.
  intros Hm Hs. unfold bootstrapNetfilterRules. destruct (len (PI_Interfaces podInfo) =? 0).
  { unfold throw. split; rewrite ?Hm, ?Hs; constructor. }
  pose proof (legacy_all_msgs sync_msg n (λ m Hm, or_intror Hm) Hm Hs) as Hl. unfold mbind at 1, ST_bind at 1.
  destruct (onNft CleanupLegacyTables n) as [[u|e] n1]; [|done]. simpl in Hl.
  pose proof (bootstrapTables_own n1 Hl) as Ht. unfold mbind at 1, ST_bind at 1.
  destruct (bootstrapTables n1) as [[u'|e] n2]; [|done].
  assert (triple (own_inv sync_msg) (bootstrapNetfilterChains (K:=K)) (λ _, True)) as T1
    by apply own_bootstrapNetfilterChains, own_sync.
  assert (triple (own_inv sync_msg) (bootstrapBaseRules (K:=K) (sortInterfaces podInfo)) (λ _, True)) as T2
    by apply own_bootstrapBaseRules, own_sync.
  unfold mbind at 1, ST_bind at 1. destruct (T1 n2 Ht) as [Hi _].
  destruct (bootstrapNetfilterChains n2) as [[u''|e] n3]; [|apply Hi]. simpl in Hi. cbv zeta.
  unfold mbind at 1, ST_bind at 1. destruct (T2 n3 Hi) as [Hj _].
  destruct (bootstrapBaseRules _ n3) as [[u3|e] n4]; [done|apply Hj].
Qed.
End own_bootstrap.

Section safety.
Context {K : Type} `{LawfulKernel K} `{Gob} `{Arch} `{LabelApi} `{MapOrder}.

Lemma ApplyPolicyRules_all_msgs deps cfg policies pod podInfo (n : nftState K) :
  messages (nft n) = [] → sent (nft n) = [] →
  all_msgs sync_msg (nft (ApplyPolicyRulesForPodAndFamily deps cfg policies pod podInfo n).2).
Proof.
  intros Hm Hs.
  assert (all_msgs sync_msg (nft n)) as Hn by (split; rewrite ?Hm, ?Hs; constructor).
  unfold ApplyPolicyRulesForPodAndFamily. apply bind_final.
  pose proof (bootstrapNetfilterRules_own podInfo n Hm Hs) as Hb. unfold wrapST at 1.
  destruct (bootstrapNetfilterRules podInfo n) as [[info|e] n1]; simpl; [|done].
  apply (own_afterTables deps cfg policies pod info), Hb.
Qed.

(** C5: a sync of one pod, failing or not and whatever the namespace holds,
    writes only to the daemon's tables [multi-networkpolicy-filter] and
    [multi-networkpolicy-nat], plus the deletions of daemon-owned leftovers in
    the shared tables; no table is ever deleted and no rule replaced. *)
Theorem ApplyPolicyRules_own_tables deps cfg policies pod podInfo (n : nftState K) :
  messages (nft n) = [] → sent (nft n) = [] →
  let n' := (ApplyPolicyRulesForPodAndFamily deps cfg policies pod podInfo n).2 in
  Forall sync_msg (concat (sent (nft n')) ++ messages (nft n')).
Proof.
  intros Hm Hs. cbv zeta. destruct (ApplyPolicyRules_all_msgs deps cfg policies pod podInfo n Hm Hs) as [Hb1 Hb2].
  apply Forall_app. split; [by apply Forall_concat|done].
Qed.
End safety.

(** ** Which policies apply *)

Section selection.
Context `{LabelApi}.

Lemma selectPolicy_policy pod info policy p :
  selectPolicy pod info policy = Some p → ip_policy p = policy.
Proof. unfold selectPolicy. repeat case_match; intros; simplify_eq; done. Qed.

(** The label selector of a policy accepts the pod; an empty one accepts all
    and one that does not parse accepts none. *)
Definition selectsPod (policy : MultiNetworkPolicy) (pod : Pod) : Prop :=
  ls_Size (Spec_PodSelector (Policy_Spec policy)) = 0 ∨
  ∃ s, LabelSelectorAsSelector (Spec_PodSelector (Policy_Spec policy)) = Ok s ∧
       sel_Matches s (Pod_Labels pod) = true.

Lemma selectPolicy_Some pod info policy p :
  selectPolicy pod info policy = Some p ↔
  Policy_Namespace policy = Pod_Namespace pod ∧ selectsPod policy pod ∧
  ∃ annot, Policy_Annotations policy !! PolicyNetworkAnnotation = Some annot ∧
    p = mkInternal policy (policyNetworksOf policy annot) ∧
    PodInfo_CheckPolicyNetwork info (policyNetworksOf policy annot) = true.
Proof.
  unfold selectPolicy, selectsPod. destruct (decide (Policy_Namespace policy = Pod_Namespace pod)) as [Hn|Hn].
  2:{ rewrite (bool_decide_eq_false_2 (_ = _)) by done. simpl. naive_solver. }
  rewrite (bool_decide_eq_true_2 (_ = _)) by done. cbn [negb].
  destruct (Z.eqb_spec (ls_Size (Spec_PodSelector (Policy_Spec policy))) 0) as [Hz|Hz]; cbn [negb].
  - case_match eqn:Ea; [|naive_solver]. case_match.
    + split; [intros [= <-]; eauto 10|]. by intros (? & ? & ? & [= <-] & -> & ?).
    + split; [done|]. intros (? & ? & ? & [= <-] & _ & ?). congruence.
  - destruct (LabelSelectorAsSelector _) as [sel|] eqn:Es; simpl; [|split; [done|]; intros (_ & [?|(? & ? & ?)] & _); congruence].
    destruct (sel_Matches sel _) eqn:Em; simpl; [|split; [done|]; intros (_ & [?|(? & ? & ?)] & _); congruence].
    case_match eqn:Ea; [|naive_solver]. case_match.
    + split; [intros [= <-]; eauto 10|]. by intros (? & ? & ? & [= <-] & -> & ?).
    + split; [done|]. intros (? & ? & ? & [= <-] & _ & ?). congruence.
Qed.

Lemma omap_policies pod info policies :
  NoDup (policyNamespacedName <$> policies) →
  NoDup (policyNamespacedName <$> (ip_policy <$> omap (selectPolicy pod info) policies)).
Proof.
  rewrite <-!list_fmap_compose.
  induction policies as [|p ps IH]; simpl; [done|]. rewrite NoDup_cons. intros [Hp Hps].
  destruct (selectPolicy pod info p) as [q|] eqn:E; [|auto]. simpl. rewrite NoDup_cons. split; [|auto].
  apply selectPolicy_policy in E as Hq. subst. intros Hin. apply Hp.
  apply list_elem_of_fmap in Hin as (q' & Hk & Hq'). apply list_elem_of_omap in Hq' as (p' & Hp' & E').
  apply selectPolicy_policy in E'. subst. apply list_elem_of_fmap. eauto.
Qed.

(** A filter keeps a duplicate-free key list duplicate-free. *)
Lemma NoDup_filter_keys {A} (key : A → gostring) (f : A → bool) l :
  NoDup (key <$> l) → NoDup (key <$> List.filter f l).
Proof.
  induction l as [|x l IH]; simpl; [done|]. rewrite NoDup_cons. intros [Hx Hl].
  destruct (f x); simpl; [|auto]. rewrite NoDup_cons. split; [|auto]. intros Hin. apply Hx.
  apply list_elem_of_fmap in Hin as (y & -> & Hy%list_elem_of_In%filter_In). apply list_elem_of_fmap.
  exists y. split; [done|]. by apply list_elem_of_In, Hy.
Qed.

Lemma filter_perm {A} (f : A → bool) l k : l ≡ₚ k → List.filter f l ≡ₚ List.filter f k.
Proof.
  induction 1; simpl; repeat case_match; try done; [by constructor|by constructor|by etrans].
Qed.

Lemma getEnabled_fold types acc :
  foldl (λ acc v, if EqualFoldASCII v PolicyTypeIngress then (true, acc.2)
                  else if EqualFoldASCII v PolicyTypeEgress then (acc.1, true) else acc) acc types
  = (acc.1 || existsb (λ v, EqualFoldASCII v PolicyTypeIngress) types,
     acc.2 || existsb (λ v, EqualFoldASCII v PolicyTypeEgress) types).
Proof.
  revert acc. induction types as [|v ts IH]; intros [a b]; simpl; [by rewrite !orb_false_r|].
  assert (EqualFoldASCII v PolicyTypeIngress = true → EqualFoldASCII v PolicyTypeEgress = false) as Hne.
  { unfold EqualFoldASCII. rewrite bool_decide_eq_true, bool_decide_eq_false. intros ->. done. }
  destruct (EqualFoldASCII v PolicyTypeIngress); rewrite ?IH; simpl.
  - by rewrite Hne, orb_true_r.
  - destruct (EqualFoldASCII v PolicyTypeEgress); rewrite ?IH; simpl; [by rewrite orb_true_r|done].
Qed.

(** Any two orders of the same policies give the same list. *)
Lemma selectedPolicies_perm enabled pod podInfo policies1 policies2 :
  NoDup (policyNamespacedName <$> policies1) → policies1 ≡ₚ policies2 →
  selectedPolicies enabled pod podInfo policies1 = selectedPolicies enabled pod podInfo policies2.
Proof.
  intros Hnd Hp. apply (SortStable_canonical (λ a, policyNamespacedName (ip_policy a))).
  - apply NoDup_filter_keys. pose proof (omap_policies pod podInfo _ Hnd) as Ho.
    rewrite <-list_fmap_compose in Ho. exact Ho.
  - apply filter_perm. by rewrite Hp.
Qed.
End selection.

Section selection_properties.
Context `{LabelApi}.

(** the policies a sync applies do not depend on the order in which Go
    iterates over the policy map: any two orders of the same policies, whose
    namespaced names are distinct as map keys are, give the same list, sorted
    by namespace and name. *)
Theorem selectedPolicies_deterministic enabled pod podInfo policies1 policies2 :
  NoDup (policyNamespacedName <$> policies1) → policies1 ≡ₚ policies2 →
  selectedPolicies enabled pod podInfo policies1 = selectedPolicies enabled pod podInfo policies2 ∧
  StronglySorted (λ a b, str_le (policyNamespacedName (ip_policy a)) (policyNamespacedName (ip_policy b)))
    (selectedPolicies enabled pod podInfo policies1).
Proof.
  intros Hnd Hp. split; [by apply selectedPolicies_perm|].
  apply (SortStable_sorted (λ a, policyNamespacedName (ip_policy a))).
Qed.

(** C28: a policy is applied to a pod in a direction exactly when it is in the
    pod's namespace, its pod selector accepts the pod's labels (or is empty),
    it names a network one of the pod's interfaces is attached to, and the
    direction is enabled; it is applied with the networks it names. *)
Theorem selectedPolicies_spec enabled pod podInfo policies p :
  p ∈ selectedPolicies enabled pod podInfo policies ↔
  ∃ policy annot, policy ∈ policies ∧ Policy_Namespace policy = Pod_Namespace pod ∧
    selectsPod policy pod ∧
    Policy_Annotations policy !! PolicyNetworkAnnotation = Some annot ∧
    p = mkInternal policy (policyNetworksOf policy annot) ∧
    (∃ i, i ∈ PI_Interfaces podInfo ∧ NetattachName i ∈ policyNetworksOf policy annot) ∧
    enabled p = true.
Proof.
  pose proof (SortStable_perm (λ a, policyNamespacedName (ip_policy a))
    (List.filter enabled (omap (selectPolicy pod podInfo) policies))) as Hperm.
  change (SortStableFunc _ _) with (selectedPolicies enabled pod podInfo policies) in Hperm.
  rewrite Hperm, list_elem_of_In, filter_In, <-list_elem_of_In, list_elem_of_omap.
  setoid_rewrite selectPolicy_Some. setoid_rewrite PodInfo_CheckPolicyNetwork_spec.
  setoid_rewrite CheckPolicyNetwork_spec. naive_solver.
Qed.

(** the directions of a policy: with policy types given, exactly those
    named (in any letter case); without, those whose section is present, an
    empty one included. *)
Theorem getEnabledPolicyTypes_spec policy :
  getEnabledPolicyTypes policy =
  match Spec_PolicyTypes (Policy_Spec policy) with
  | [] => (bool_decide (is_Some (Spec_Ingress (Policy_Spec policy))),
           bool_decide (is_Some (Spec_Egress (Policy_Spec policy))))
  | types => (existsb (λ v, EqualFoldASCII v PolicyTypeIngress) types,
              existsb (λ v, EqualFoldASCII v PolicyTypeEgress) types)
  end.
Proof.
  unfold getEnabledPolicyTypes. destruct (Spec_PolicyTypes _) as [|t ts] eqn:E.
  - simpl. by destruct (Spec_Ingress _), (Spec_Egress _).
  - assert ((0 <? len (t :: ts)) = true) as -> by (apply Z.ltb_lt; unfold len; simpl length; lia).
    by rewrite getEnabled_fold.
Qed.
End selection_properties.
