(* ===== verification/Events.v ===== *)
(** * Events

    pkg/controller/predicates.go, mappers.go, indexes.go and the watches of
    [SetupWithManager]: which changes of cluster objects make the daemon
    reconcile its node. controller-runtime's event dispatch is what its
    documentation says: a watch passes an event through its predicate and
    enqueues the requests of its mapping, for both objects of an update. *)

From S2P Require Import Prelude GoStd Text Names Api PodInfo Nft Netip Elements Conn RefKernel State Legacy Rules Cleanup Server.

Section events.
Context `{LabelApi}.

(** ** Objects and events *)

(** The kinds of [client.Object] the daemon watches. *)
Inductive Object :=
  | OPod (p : Pod)
  | OPolicy (p : MultiNetworkPolicy)
  | ONamespace (name : gostring) (labels : Labels)
  | ONetDef (namespace name : gostring)
  | ONode (name : gostring).

Inductive Event :=
  | CreateEvent (o : Object)
  | DeleteEvent (o : Object)
  | UpdateEvent (ObjectOld ObjectNew : Object)
  | GenericEvent (o : Object).

(** [reconcile.Request]; the daemon's have only a name. *)
Abbreviation Request := gostring.

Definition object_name (o : Object) : gostring :=
  match o with
  | OPod p => Pod_Name p
  | OPolicy p => Policy_Name p
  | ONamespace name _ => name
  | ONetDef _ name => name
  | ONode name => name
  end.

(** ** predicates.go *)

Definition labelsChanged (oldLabels newLabels : Labels) : bool :=
  if negb (bool_decide (size oldLabels = size newLabels)) then true
  else existsb (λ p, match newLabels !! p.1 with
                     | None => true
                     | Some newVal => negb (bool_decide (newVal = p.2))
                     end) (map_to_list oldLabels).

Definition oldByName (oldStatuses : list ContainerStatus) : gmap gostring gostring :=
  foldl (λ m s, <[CS_Name s := CS_ContainerID s]> m) ∅ oldStatuses.

Definition containerStatusesChanged (oldStatuses newStatuses : list ContainerStatus) : bool :=
  if negb (bool_decide (length oldStatuses = length newStatuses)) then true
  else existsb (λ s, match oldByName oldStatuses !! CS_Name s with
                     | None => true
                     | Some oldID => negb (bool_decide (oldID = CS_ContainerID s))
                     end) newStatuses.

Definition networkAnnotationKeys : list gostring := [NetworkStatusAnnot; NetworkAttachmentAnnot].

(** A missing key of a Go map reads as the empty string. *)
Definition keyChanged (key : gostring) (old new : Labels) : bool :=
  negb (bool_decide (default [] (old !! key) = default [] (new !! key))).

Definition networkAnnotationsChanged (oldAnnotations newAnnotations : Labels) : bool :=
  existsb (λ key, keyChanged key oldAnnotations newAnnotations) networkAnnotationKeys.

Definition policyNetworkAnnotationChanged (oldAnnotations newAnnotations : Labels) : bool :=
  keyChanged PolicyNetworkAnnotation oldAnnotations newAnnotations.

Definition podUpdate (oldPod newPod : Pod) : bool :=
  if negb (bool_decide (Pod_Phase oldPod = Pod_Phase newPod)) then true
  else if negb (bool_decide (Pod_NodeName oldPod = Pod_NodeName newPod)) then true
  else if labelsChanged (Pod_Labels oldPod) (Pod_Labels newPod) then true
  else if containerStatusesChanged (Pod_ContainerStatuses oldPod) (Pod_ContainerStatuses newPod) then true
  else networkAnnotationsChanged (Pod_Annotations oldPod) (Pod_Annotations newPod).

Definition PodPredicate (e : Event) : bool :=
  match e with
  | CreateEvent _ | DeleteEvent _ => true
  | UpdateEvent (OPod oldPod) (OPod newPod) => podUpdate oldPod newPod
  | UpdateEvent _ _ => false
  | GenericEvent _ => false
  end.

(** [GetGeneration] and [GetAnnotations] of the metadata, on policies. *)
Definition PolicyPredicate (e : Event) : bool :=
  match e with
  | CreateEvent _ | DeleteEvent _ => true
  | UpdateEvent (OPolicy oldP) (OPolicy newP) =>
    if negb (Policy_Generation oldP =? Policy_Generation newP) then true
    else policyNetworkAnnotationChanged (Policy_Annotations oldP) (Policy_Annotations newP)
  | UpdateEvent _ _ => false
  | GenericEvent _ => false
  end.

Definition NodePredicate (nodeName : gostring) (e : Event) : bool :=
  match e with
  | CreateEvent o | DeleteEvent o | GenericEvent o | UpdateEvent _ o =>
    bool_decide (object_name o = nodeName)
  end.

(** ** mappers.go *)

Definition mapPodToNode (_ : gostring) (obj : Object) : list Request :=
  match obj with
  | OPod pod => if bool_decide (Pod_NodeName pod = []) then [] else [Pod_NodeName pod]
  | _ => []
  end.
Definition mapPolicyToNode (nodeName : gostring) (obj : Object) : list Request :=
  match obj with OPolicy _ => [nodeName] | _ => [] end.
Definition mapNamespaceToNode (nodeName : gostring) (obj : Object) : list Request :=
  match obj with ONamespace _ _ => [nodeName] | _ => [] end.
Definition mapNetDefToNode (nodeName : gostring) (obj : Object) : list Request :=
  match obj with ONetDef _ _ => [nodeName] | _ => [] end.

(** ** indexes.go *)

Definition podHostnameExtractor (pod : Pod) : list gostring :=
  if bool_decide (Pod_NodeName pod = []) then [] else [Pod_NodeName pod].

(** The pods the index returns for a node. *)
Definition podsOnNode (nodeName : gostring) (pods : list Pod) : list Pod :=
  List.filter (λ p, bool_decide (nodeName ∈ podHostnameExtractor p)) pods.

(** ** SetupWithManager *)

(** The objects of an event, as [EnqueueRequestsFromMapFunc] visits them. *)
Definition event_objects (e : Event) : list Object :=
  match e with
  | CreateEvent o | DeleteEvent o | GenericEvent o => [o]
  | UpdateEvent o o' => [o; o']
  end.

Definition watched (predicate : Event → bool) (mapf : Object → list Request) (e : Event) : list Request :=
  if predicate e then event_objects e ≫= mapf else [].

(** The watch an event belongs to, by the kind of its object. *)
Definition SetupWithManager (nodeName : gostring) (e : Event) : list Request :=
  match last (event_objects e) with
  | Some (ONode _) => watched (NodePredicate nodeName) (λ o, [object_name o]) e
  | Some (OPod _) => watched PodPredicate (mapPodToNode nodeName) e
  | Some (OPolicy _) => watched PolicyPredicate (mapPolicyToNode nodeName) e
  | Some (ONetDef _ _) => watched (λ _, true) (mapNetDefToNode nodeName) e
  | Some (ONamespace _ _) => watched (λ _, true) (mapNamespaceToNode nodeName) e
  | None => []
  end.
End events.

(** ** Lemmas *)

Section events_lemmas.
Context `{LabelApi}.

(** Labels count as changed exactly when the maps differ. *)
Lemma labelsChanged_spec o n : labelsChanged o n = false ↔ o = n.
Proof.
  unfold labelsChanged. split; [|intros ->].
  - case_bool_decide as Hsz; cbn [negb]; [|done]. intros Hex. apply map_subseteq_size_eq; [|lia].
    apply map_subseteq_spec. intros k v Hk. rewrite <-not_true_iff_false, existsb_exists in Hex.
    destruct (n !! k) as [v'|] eqn:E.
    + destruct (decide (v' = v)) as [->|Hne]; [done|]. destruct Hex. exists (k, v).
      split; [by apply list_elem_of_In, elem_of_map_to_list|]. cbn. by rewrite E, bool_decide_eq_false_2.
    + destruct Hex. exists (k, v). split; [by apply list_elem_of_In, elem_of_map_to_list|]. cbn. by rewrite E.
  - rewrite bool_decide_eq_true_2 by done. cbn [negb]. apply not_true_iff_false. rewrite existsb_exists.
    intros ([k v] & Hin%list_elem_of_In%elem_of_map_to_list & Hb). cbn in Hb. rewrite Hin in Hb.
    by rewrite bool_decide_eq_true_2 in Hb.
Qed.

Lemma keyChanged_false k o n : keyChanged k o n = false ↔ default [] (o !! k) = default [] (n !! k).
Proof. unfold keyChanged. rewrite negb_false_iff. by rewrite bool_decide_eq_true. Qed.

Lemma networkAnnotations_unchanged o n :
  networkAnnotationsChanged o n = false ↔
  default [] (o !! NetworkStatusAnnot) = default [] (n !! NetworkStatusAnnot) ∧
  default [] (o !! NetworkAttachmentAnnot) = default [] (n !! NetworkAttachmentAnnot).
Proof.
  unfold networkAnnotationsChanged, networkAnnotationKeys. cbn [existsb].
  rewrite !orb_false_iff, !keyChanged_false. tauto.
Qed.

(** The container ids by name: the last status of a name counts. *)
Lemma oldByName_lookup l n i :
  NoDup (CS_Name <$> l) → oldByName l !! n = Some i ↔ (n, i) ∈ ((λ s, (CS_Name s, CS_ContainerID s)) <$> l).
Proof.
  unfold oldByName. revert n i. induction l as [|s l IH] using rev_ind; intros n i Hnd.
  { cbn. rewrite lookup_empty, elem_of_nil. done. }
  rewrite fmap_app in Hnd. apply NoDup_app in Hnd as (Hnd & Hdis & _).
  rewrite foldl_snoc, fmap_app, elem_of_app. cbn [fmap list_fmap]. rewrite list_elem_of_singleton.
  destruct (decide (CS_Name s = n)) as [<-|Hne].
  - rewrite lookup_insert_eq. split; [intros [= <-]; by right|]. intros [Hin|[= <-]]; [|done].
    apply list_elem_of_fmap in Hin as (s' & [= Hn _] & Hs'). destruct (Hdis (CS_Name s)); [|set_solver].
    rewrite Hn. by apply list_elem_of_fmap_2.
  - rewrite lookup_insert_ne by done. rewrite (IH n i Hnd). split; [by left|]. intros [?|[= ? _]]; [done|congruence].
Qed.

(** With container names unique, as in a pod, the statuses count as unchanged
    exactly when they are the same names with the same ids. *)
Lemma containerStatusesChanged_spec o n :
  NoDup (CS_Name <$> o) → NoDup (CS_Name <$> n) →
  containerStatusesChanged o n = false ↔
  ((λ s, (CS_Name s, CS_ContainerID s)) <$> o) ≡ₚ ((λ s, (CS_Name s, CS_ContainerID s)) <$> n).
Proof.
  intros Ho Hn. set (view := λ s, (CS_Name s, CS_ContainerID s)).
  assert (∀ l, NoDup (CS_Name <$> l) → NoDup (view <$> l)) as Hnd.
  { intros l Hl. apply (NoDup_fmap_1 fst). by rewrite <-list_fmap_compose. }
  assert (containerStatusesChanged o n = false ↔ length o = length n ∧ ∀ x, x ∈ view <$> n → x ∈ view <$> o) as ->.
  { unfold containerStatusesChanged. case_bool_decide as Hl; cbn [negb]; [|split; [done|by intros []]].
    rewrite <-not_true_iff_false, existsb_exists. split.
    - intros Hex. split; [done|]. intros x (s & -> & Hs)%list_elem_of_fmap.
      apply (oldByName_lookup o _ _ Ho). destruct (oldByName o !! CS_Name s) as [i|] eqn:E.
      + destruct (decide (i = CS_ContainerID s)) as [->|Hne]; [done|]. destruct Hex. exists s.
        split; [by apply list_elem_of_In|]. by rewrite E, bool_decide_eq_false_2.
      + destruct Hex. exists s. split; [by apply list_elem_of_In|]. by rewrite E.
    - intros [_ Hall] (s & Hs%list_elem_of_In & Hb).
      assert (view s ∈ view <$> n) as Hv%Hall%(oldByName_lookup o _ _ Ho) by by apply list_elem_of_fmap_2.
      rewrite Hv in Hb. by rewrite bool_decide_eq_true_2 in Hb. }
  split.
  - intros [Hl Hall]. symmetry. apply submseteq_length_Permutation; [|rewrite !length_fmap; lia].
    apply NoDup_submseteq; [by apply Hnd|done].
  - intros Hp. split; [|intros x; by rewrite Hp]. apply Permutation_length in Hp. by rewrite !length_fmap in Hp.
Qed.
End events_lemmas.

Section watch_lemmas.
Context `{LabelApi} `{Json} `{FloatConv} `{ContainerRuntime} `{Sorting}.

(** What an update of a pod leaves as it is: the API server rejects changes of
    these fields. *)
Definition samePod (o n : Pod) : Prop :=
  Pod_Name o = Pod_Name n ∧ Pod_Namespace o = Pod_Namespace n ∧ Pod_HostNetwork o = Pod_HostNetwork n.

Definition samePolicy (o n : MultiNetworkPolicy) : Prop :=
  Policy_Name o = Policy_Name n ∧ Policy_Namespace o = Policy_Namespace n ∧
  (Policy_Generation o = Policy_Generation n → Policy_Spec o = Policy_Spec n).

Lemma podUpdate_false o n :
  podUpdate o n = false →
  Pod_Phase o = Pod_Phase n ∧ Pod_NodeName o = Pod_NodeName n ∧ Pod_Labels o = Pod_Labels n ∧
  containerStatusesChanged (Pod_ContainerStatuses o) (Pod_ContainerStatuses n) = false ∧
  default [] (Pod_Annotations o !! NetworkStatusAnnot) = default [] (Pod_Annotations n !! NetworkStatusAnnot) ∧
  default [] (Pod_Annotations o !! NetworkAttachmentAnnot) = default [] (Pod_Annotations n !! NetworkAttachmentAnnot).
Proof.
  unfold podUpdate. repeat (case_bool_decide; cbn [negb]; [|done]).
  destruct (labelsChanged _ _) eqn:El; [done|]. destruct (containerStatusesChanged _ _) eqn:Ec; [done|].
  intros [? ?]%networkAnnotations_unchanged. apply labelsChanged_spec in El. by split_and!.
Qed.

(** The statuses read from the annotation; a missing one and an empty one give
    none. *)
Lemma GetNetworkStatus_annotation pod :
  (GetNetworkStatus pod).1 = (json_statuses (annotation pod NetworkStatusAnnot)).1.
Proof.
  unfold GetNetworkStatus, annotation. destruct (Pod_Annotations pod !! NetworkStatusAnnot); [done|].
  by rewrite json_statuses_empty.
Qed.

(** The information of a pod depends, apart from its network namespace, only on
    what the predicate compares and on what never changes. *)
Lemma NewPodInfoFromPod_ext o n cri hostname plugins gpt :
  samePod o n → podUpdate o n = false →
  (∀ c, cri = Some c → GetPodNetNSPathWithContext (Some c) o = GetPodNetNSPathWithContext (Some c) n) →
  NewPodInfoFromPod o cri hostname plugins gpt = NewPodInfoFromPod n cri hostname plugins gpt.
Proof.
  intros (Hn & Hns & Hh) (Hph & Hnode & _ & _ & Hst & Hat)%podUpdate_false Hpath. unfold NewPodInfoFromPod.
  assert (IsMultiNetworkpolicyTarget o = IsMultiNetworkpolicyTarget n) as ->.
  { unfold IsMultiNetworkpolicyTarget. by rewrite Hph, Hh. }
  assert (ParsePodNetworkAnnotation o = ParsePodNetworkAnnotation n) as ->.
  { unfold ParsePodNetworkAnnotation, annotation. by rewrite Hat, Hns. }
  rewrite !GetNetworkStatus_annotation. unfold annotation. rewrite Hst, Hn, Hns, Hnode.
  assert (∀ gpt ns, pluginsMap gpt o ns = pluginsMap gpt n ns) as Hpm.
  { intros. unfold pluginsMap, addPlugin, attachmentOf. by rewrite Hns. }
  assert (∀ m l, matchStatuses o plugins m l = matchStatuses n plugins m l) as Hms.
  { intros. unfold matchStatuses, statusName. by rewrite Hns. }
  destruct (IsMultiNetworkpolicyTarget n); [|done].
  destruct (match ParsePodNetworkAnnotation n with Ok _ => _ | Err _ => _ end) as [ns|]; [|done].
  cbn [mbind result_bind]. rewrite Hpm. destruct (pluginsMap gpt n ns) as [m|]; [|done].
  cbn [mbind result_bind]. rewrite Hms. by destruct cri as [c|]; [rewrite (Hpath c)|].
Qed.

(** The container whose namespace is the pod's is the same while the
    containers, in their order, run or do not as before. *)
Definition sameRunning (o n : Pod) : Prop :=
  (λ s, (CS_Name s, CS_Running s)) <$> Pod_ContainerStatuses o =
  (λ s, (CS_Name s, CS_Running s)) <$> Pod_ContainerStatuses n.

Lemma statuses_same (o n : list ContainerStatus) :
  NoDup (CS_Name <$> o) → containerStatusesChanged o n = false →
  (λ s, (CS_Name s, CS_Running s)) <$> o = (λ s, (CS_Name s, CS_Running s)) <$> n → o = n.
Proof.
  intros Hnd Hc Hs.
  assert (CS_Name <$> o = CS_Name <$> n) as Hnames.
  { apply (f_equal (fmap fst)) in Hs. rewrite <-!list_fmap_compose in Hs. exact Hs. }
  apply containerStatusesChanged_spec in Hc; [|done|by rewrite <-Hnames]. apply list_eq. intros i.
  apply (f_equal (λ l : list (gostring * bool), l !! i)) in Hs. cbv beta in Hs. rewrite !list_lookup_fmap in Hs.
  destruct (o !! i) as [a|] eqn:Ea, (n !! i) as [b|] eqn:Eb; try done. cbn in Hs. injection Hs as HN HR.
  assert ((CS_Name a, CS_ContainerID a) ∈ (λ s, (CS_Name s, CS_ContainerID s)) <$> n) as Ha.
  { rewrite <-Hc. apply list_elem_of_fmap. exists a. split; [done|]. by eapply list_elem_of_lookup_2. }
  apply list_elem_of_fmap in Ha as (c & [= HcN HcI] & Hin). apply list_elem_of_lookup in Hin as [j Hj].
  assert (i = j) as <-.
  { rewrite Hnames in Hnd. apply (NoDup_lookup _ _ _ (CS_Name a) Hnd); rewrite list_lookup_fmap.
    - rewrite Eb. cbn. congruence.
    - rewrite Hj. cbn. congruence. }
  assert (b = c) as -> by congruence. f_equal. destruct a, c; cbn in *; congruence.
Qed.

(** So with the runtime at hand too the information stays as it was. *)
Lemma NewPodInfoFromPod_same o n cri hostname plugins gpt :
  samePod o n → podUpdate o n = false → NoDup (CS_Name <$> Pod_ContainerStatuses o) → sameRunning o n →
  NewPodInfoFromPod o cri hostname plugins gpt = NewPodInfoFromPod n cri hostname plugins gpt.
Proof.
  intros Hs Hu Hnd Hr. apply NewPodInfoFromPod_ext; [done..|]. intros c _.
  apply podUpdate_false in Hu as (Hph & _ & _ & Hc & _).
  unfold GetPodNetNSPathWithContext. by rewrite Hph, (statuses_same _ _ Hnd Hc Hr).
Qed.

Lemma selectPolicy_ext o n info policy :
  samePod o n → Pod_Labels o = Pod_Labels n → selectPolicy o info policy = selectPolicy n info policy.
Proof. intros (_ & Hns & _) Hl. unfold selectPolicy. by rewrite Hns, Hl. Qed.

(** An empty annotation names the network with the empty name. *)
Lemma policyNetworksOf_empty p : policyNetworksOf p [] = [Policy_Namespace p ++ str "/"].
Proof. done. Qed.

Definition selection (p : internalPolicy) : MultiNetworkPolicySpec * list gostring :=
  (Policy_Spec (ip_policy p), ip_policyNetworks p).

Lemma selectPolicy_unchanged o n pod info :
  samePolicy o n → PolicyPredicate (UpdateEvent (OPolicy o) (OPolicy n)) = false →
  (∀ i, i ∈ PI_Interfaces info → NetattachName i ≠ Policy_Namespace n ++ str "/") →
  selection <$> selectPolicy pod info o = selection <$> selectPolicy pod info n.
Proof.
  intros (Hn & Hns & Hg) Hp Hno. cbn in Hp. destruct (Z.eqb_spec (Policy_Generation o) (Policy_Generation n)); [|done].
  specialize (Hg e). apply keyChanged_false in Hp. unfold selectPolicy. rewrite Hns, Hg.
  case_bool_decide; cbn [negb]; [|done]. case_match eqn:Hm; [done|]. clear Hm.
  assert (∀ a, policyNetworksOf o a = policyNetworksOf n a) as Hnets.
  { intros a. unfold policyNetworksOf. by rewrite Hns. }
  assert (PodInfo_CheckPolicyNetwork info (policyNetworksOf n []) = false) as Hempty.
  { apply not_true_iff_false. rewrite PodInfo_CheckPolicyNetwork_spec, policyNetworksOf_empty.
    intros (i & Hi & Hc%CheckPolicyNetwork_spec%list_elem_of_singleton). by destruct (Hno i Hi). }
  destruct (Policy_Annotations o !! _) as [a|] eqn:Eo, (Policy_Annotations n !! _) as [b|] eqn:En;
    cbn in Hp; subst; rewrite ?Hnets, ?Hempty; try done.
  case_match; [|done]. cbn. unfold selection. cbn. by rewrite Hg.
Qed.

(** Whether a watch asks for this node, by kind. *)
Lemma pod_requests nodeName e p :
  last (event_objects e) = Some (OPod p) →
  nodeName ∈ SetupWithManager nodeName e ↔
  PodPredicate e = true ∧ ∃ q, OPod q ∈ event_objects e ∧ Pod_NodeName q = nodeName ∧ nodeName ≠ [].
Proof.
  intros Hl. unfold SetupWithManager. rewrite Hl. unfold watched. destruct (PodPredicate e); [|set_solver].
  rewrite list_elem_of_bind. unfold mapPodToNode. split.
  - intros ([q| | | |] & Hq & Ho); cbn in Hq; try by apply elem_of_nil in Hq.
    case_bool_decide as Hne; [by apply elem_of_nil in Hq|]. apply list_elem_of_singleton in Hq as ->.
    split; [done|]. by exists q.
  - intros (_ & q & Hq & <- & Hne). exists (OPod q). split; [|done]. rewrite bool_decide_eq_false_2 by done.
    by apply list_elem_of_singleton.
Qed.

(** ** Properties *)

(** C17: no change goes by that this node's sync would see, but for one. A pod
    of the node can change without a reconcile only so that the policies that
    select it, its labels and all its information but its network namespace
    stay as they were; the namespace too unless the containers, in their order,
    started or stopped running under the same ids, which the predicate does
    not compare. A policy can only change so that it selects the same pods
    with the same rules and networks; an event on a namespace or a network
    attachment always reconciles. *)
Theorem watches_complete nodeName :
  (∀ o n, samePod o n → Pod_NodeName n = nodeName → nodeName ≠ [] →
     nodeName ∉ SetupWithManager nodeName (UpdateEvent (OPod o) (OPod n)) →
     (∀ hostname plugins gpt,
        NewPodInfoFromPod o None hostname plugins gpt = NewPodInfoFromPod n None hostname plugins gpt) ∧
     (NoDup (CS_Name <$> Pod_ContainerStatuses o) → sameRunning o n → ∀ cri hostname plugins gpt,
        NewPodInfoFromPod o cri hostname plugins gpt = NewPodInfoFromPod n cri hostname plugins gpt) ∧
     (∀ info policy, selectPolicy o info policy = selectPolicy n info policy) ∧ Pod_Labels o = Pod_Labels n) ∧
  (∀ o n, samePolicy o n → nodeName ∉ SetupWithManager nodeName (UpdateEvent (OPolicy o) (OPolicy n)) →
     ∀ pod info, (∀ i, i ∈ PI_Interfaces info → NetattachName i ≠ Policy_Namespace n ++ str "/") →
     selection <$> selectPolicy pod info o = selection <$> selectPolicy pod info n) ∧
  (∀ e, (∃ ns name, last (event_objects e) = Some (ONetDef ns name)) ∨
        (∃ name ls, last (event_objects e) = Some (ONamespace name ls)) →
     nodeName ∈ SetupWithManager nodeName e).
Proof.
  split_and!.
  - intros o n Hs Hn Hne Hnin. rewrite (pod_requests nodeName _ n) in Hnin by done.
    destruct (podUpdate o n) eqn:Hu.
    { destruct Hnin. split; [done|]. exists n. cbn. set_solver. }
    split_and!; [intros; by apply NewPodInfoFromPod_ext|intros; by apply NewPodInfoFromPod_same|intros info policy|by apply podUpdate_false in Hu as (_ & _ & ? & _)].
    apply selectPolicy_ext; [done|]. by apply podUpdate_false in Hu as (_ & _ & ? & _).
  - intros o n Hs Hnin pod info Hno. apply selectPolicy_unchanged; [done| |done]. apply not_true_iff_false.
    intros Hp. destruct Hnin. cbn [SetupWithManager event_objects last]. unfold watched. rewrite Hp. cbn. set_solver.
  - intros e [(ns & name & Hl)|(name & ls & Hl)]; unfold SetupWithManager, watched; rewrite Hl;
      apply list_elem_of_bind; eexists; (split; [|by eapply last_Some_elem_of]); by apply list_elem_of_singleton.
Qed.

(** The one change that goes by: the first container stops, the daemon would
    now take the namespace of the second, and no event says so. *)
Lemma stopped_container_unseen :
  ∃ o n : Pod, samePod o n ∧ podUpdate o n = false ∧
    selectContainerID (Pod_ContainerStatuses o) = str "containerd://a" ∧
    selectContainerID (Pod_ContainerStatuses n) = str "containerd://b".
Proof.
  exists (mkPod "web" "ns1" ∅ ∅ "node1" false "Running"
           [mkContainerStatus "a" "containerd://a" true; mkContainerStatus "b" "containerd://b" true]),
         (mkPod "web" "ns1" ∅ ∅ "node1" false "Running"
           [mkContainerStatus "a" "containerd://a" false; mkContainerStatus "b" "containerd://b" true]).
  split_and!; [by repeat split|vm_compute; reflexivity..].
Qed.

(** C34: events on pods that are scheduled on other nodes never reconcile this
    node, although its rules hold the addresses of those pods. *)
Theorem remote_pod_events_ignored nodeName e :
  (∀ o, o ∈ event_objects e → ∃ p, o = OPod p ∧ Pod_NodeName p ≠ nodeName) →
  nodeName ∉ SetupWithManager nodeName e.
Proof.
  intros Hall. destruct (last (event_objects e)) as [o|] eqn:Hl; [|unfold SetupWithManager; rewrite Hl; set_solver].
  destruct (Hall o (last_Some_elem_of _ _ Hl)) as (p & -> & _). rewrite (pod_requests nodeName e p Hl).
  intros (_ & q & Hq & Hn & _). by destruct (Hall _ Hq) as (p' & [= <-] & ?).
Qed.
End watch_lemmas.
