(* ===== verification/Reconciler.v ===== *)
(** * The reconciler

    pkg/controller/reconciler.go, applier_linux.go and cleanup_linux.go: one
    reconcile of the node, the removal of the rules of one pod, and the
    cleanup at shutdown. The state is the cached runtime connection and the
    nf_tables of every network namespace; a call of the API server, of the
    container runtime or of the file system is answered by an interface, and
    is assumed to be answered the same way during one reconcile. *)

From S2P Require Import Prelude GoStd Text Names Api PodInfo Cri Nft Netip Elements Conn RefKernel State Legacy Rules Cleanup Server Events.

(** ** What the cluster and the node provide *)

(** [client.MatchingFields] on the host name index, and
    [client.MatchingLabelsSelector]. *)
Inductive ListOption `{LabelApi} :=
  | MatchingFields (node : gostring)
  | MatchingLabelsSelector (s : Selector).

Class Cluster `{LabelApi} := {
  NAD : Type;
  ListPolicies : result (list MultiNetworkPolicy);
  ListPodsWith : ListOption → result (list Pod);
  GetNamespace : gostring → result (gostring * Labels);
  GetNAD : NamespacedName → result NAD;
  GetCNIConfig : NAD → gostring → result bytes;
  json_NetConfList : bytes → result (list (option gostring));
  json_NetConf : bytes → result gostring;
  ListPods_index n l : ListPodsWith (MatchingFields n) = Ok l → l = podsOnNode n l }.

(** [ns.GetNS]: the namespace a path leads to and the descriptor opened. *)
Class Netns := GetNS : gostring → result (Z * Z).

(** The order in which a policy map happens to be iterated. *)
Class PolicyOrder `{LabelApi} := {
  range_policies : gmap NamespacedName MultiNetworkPolicy → list MultiNetworkPolicy;
  range_policies_perm m : range_policies m ≡ₚ (map_to_list m).*2 }.

Definition MaxInt : Z := 2 ^ 63 - 1.

Record World `{Grpc} (K : Type) := mkWorld {
  w_cri : CriState;
  w_kernels : gmap Z K;
  w_sent : list (Z * list (list msg)) }.
Arguments mkWorld {_ _ _} _ _ _.
Arguments w_cri {_ _ _} _.
Arguments w_kernels {_ _ _} _.
Arguments w_sent {_ _ _} _.

(** [ctrl.Result]; zero is no requeue. *)
Record ctrl_Result := mkResult { RequeueAfter : Z }.
Definition Second : Z := 1000000000.

Section reconciler.
Context {K : Type} `{Kernel K} `{Gob} `{Arch} `{LabelApi} `{MapOrder} `{Json} `{FloatConv} `{Grpc}
  `{Sorting} `{!Cluster} `{Netns} `{!PolicyOrder}.
Abbreviation W := (World K).
Abbreviation M := (ST W).
Abbreviation PolicyMap := (gmap NamespacedName MultiNetworkPolicy).

(** ** The plugin type of a network attachment *)

(** A plugin list may hold [null], whose [Type] is read through a nil pointer. *)
Definition resolvePluginType (namespacedName : NamespacedName) : result gostring :=
  nad ← wrap "get network attachment definition" (GetNAD namespacedName);
  confBytes ← wrap "get CNI config" (GetCNIConfig nad "/etc/cni/multus/net.d");
  let list := json_NetConfList confBytes in
  match list with
  | Ok (Some t :: _) => Ok t
  | Ok (None :: _) => Err (ErrPanic "nil pointer dereference")
  | _ =>
    let conf := json_NetConf confBytes in
    match conf with
    | Ok (b :: t) => Ok (b :: t)
    | _ =>
      match err_list list ++ err_list conf with
      | [] => Err (ErrOther "parse CNI config for network attachment: plugin type is empty")
      | es => Err (ErrWrap "parse CNI config for network attachment" (ErrJoin es))
      end
    end
  end.

Definition buildPolicyMap (policies : list MultiNetworkPolicy) : PolicyMap :=
  foldl (λ pm p, <[(Policy_Namespace p, Policy_Name p) := p]> pm) ∅ policies.

(** [GetPluginType], the method the pod information is built with. *)
Definition GetPluginType (namespacedName : NamespacedName) : result gostring := resolvePluginType namespacedName.

(** ** Entering a pod's namespace *)

Definition prefixed (hostPrefix path : gostring) : gostring :=
  if bool_decide (hostPrefix = []) then path else hostPrefix ++ str "/" ++ path.

(** A connection to the nf_tables of a namespace, for one run of code. *)
Definition withConn {A} (id : Z) (run : ST (Conn K) A) : M A := λ w,
  match w_kernels w !! id with
  | None => (Err (ErrOther "failed to open nftables"), w)
  | Some k =>
    let '(r, c) := run (newConn k) in
    (r, mkWorld (w_cri w) (<[id := kern c]> (w_kernels w)) (w_sent w ++ [(id, sent c)]))
  end.

(** [applyRulesForPod] of applier_linux.go *)
Definition applyRulesForPod (deps : PolicyDeps) (cfg : CommonRuleConfig) (policyMap : PolicyMap)
    (pod : Pod) (podInfo : PodInfo) (hostPrefix : gostring) : M unit :=
  let netnsPath := prefixed hostPrefix (PI_NetNSPath podInfo) in
  '(id, fd) ← wrapST "cannot get pod netns" (lift_result (GetNS netnsPath));
  if MaxInt <? fd then throw (ErrOther (str "netns fd " ++ itoa fd ++ str " overflows int"))
  else withConn id (λ c,
    let '(r, n) := ApplyPolicyRulesForPodAndFamily deps cfg (range_policies policyMap) pod podInfo
                     (startState c) in (r, nft n)).

(** The deletions [flushRulesForPod] queues: the managed tables that exist. *)
Definition managedTables : list Table :=
  [mkTable FilterTableName TableFamilyINet; mkTable NatTableName TableFamilyINet].

Definition flushTable (deleted : nat) (table : Table) : ST (Conn K) nat :=
  r ← try (ListTableOfFamily (Table_Name table) (Table_Family table));
  match r with
  | Err e => if isNotExist e then mret deleted else throw (ErrWrap "failed to list table" e)
  | Ok existing => DelTable existing ≫= λ _, mret (S deleted)
  end.

(** [errors.Join]: no error of no errors. *)
Definition joinErrs {S} (es : list error) : ST S unit :=
  match es with [] => mret tt | _ => throw (ErrJoin es) end.

Definition flushBody : ST (Conn K) unit :=
  r ← try CleanupLegacyTables;
  let cleanupErrs := ErrWrap "failed to clean legacy daemon-owned tables" <$> err_list r in
  deleted ← foldM managedTables 0%nat flushTable;
  if (deleted =? 0)%nat then joinErrs cleanupErrs
  else
    f ← try Flush;
    let cleanupErrs := cleanupErrs ++ (ErrWrap "failed to flush table deletions" <$> err_list f) in
    try (ListTablesOfFamily 0) ≫= λ _, joinErrs cleanupErrs.

(** [flushRulesForPod]; [Do] runs the body in the pod's namespace. *)
Definition flushRulesForPod (netnsPath hostPrefix : gostring) : M unit :=
  '(id, _) ← wrapST "cannot get pod netns" (lift_result (GetNS (prefixed hostPrefix netnsPath)));
  withConn id flushBody.

(** ** NodeReconciler *)

Record NodeReconciler := mkReconciler {
  NodeName : gostring;
  R_PolicyDeps : option PolicyDeps;
  HostPrefix : gostring;
  NetworkPlugins : list gostring;
  CommonCfg : CommonRuleConfig;
  ContainerRuntimeEndpoint : gostring;
  ApplyRulesForPodFunc :
    option (PolicyDeps → CommonRuleConfig → PolicyMap → Pod → PodInfo → gostring → M unit) }.

Definition onCri {A} (m : ST CriState A) : M A :=
  zoom w_cri (λ c w, mkWorld c (w_kernels w) (w_sent w)) m.

Definition R_criRuntimeClient (r : NodeReconciler) : M CriClient :=
  onCri (criRuntimeClient (ContainerRuntimeEndpoint r) (HostPrefix r)).

Definition R_ListPods (selector : Selector) : result (list Pod) :=
  ListPodsWith (MatchingLabelsSelector selector).
Definition R_GetNamespaceInfo (namespace : gostring) : result NamespaceInfo :=
  '(name, ls) ← GetNamespace namespace; Ok (mkNsInfo name ls).

Definition set_NetNSPath (p : gostring) (i : PodInfo) : PodInfo :=
  mkPodInfo (PI_Name i) (PI_Namespace i) p (PI_NetworkStatus i) (PI_NodeName i) (PI_Interfaces i).

Definition R_GetPodInfo (r : NodeReconciler) (pod : Pod) : M PodInfo :=
  podInfo ← wrapST (str "build pod info for " ++ podNamespacedName (Some pod)) (lift_result
    (NewPodInfoFromPod pod None (NodeName r) (NetworkPlugins r) GetPluginType));
  if (len (PI_Interfaces podInfo) =? 0) || negb (CheckNodeNameIdentical (NodeName r) (Pod_NodeName pod))
  then mret podInfo
  else
    criClient ← R_criRuntimeClient r;
    netnsPath ← wrapST (str "resolve pod network namespace for " ++ podNamespacedName (Some pod))
                  (lift_result (GetPodNetNSPathWithContext (Some criClient) pod));
    if bool_decide (netnsPath = []) then
      throw (ErrOther (str "resolve pod network namespace for " ++ podNamespacedName (Some pod) ++ str ": empty netns path"))
    else mret (set_NetNSPath netnsPath podInfo).

(** The reconciler as the [PolicyDeps] of a rule generation that starts in a
    given state. [R_GetPodInfo_cached] below shows that what it returns does
    not change during the generation. *)
Definition depsAt (r : NodeReconciler) (w : W) : PolicyDeps := {|
  ListPods := R_ListPods;
  GetNamespaceInfo := R_GetNamespaceInfo;
  GetPodInfo pod := (R_GetPodInfo r pod w).1 |}.

Definition depsPodInfo (r : NodeReconciler) (pod : Pod) : M PodInfo :=
  match R_PolicyDeps r with
  | Some d => lift_result (GetPodInfo d pod)
  | None => R_GetPodInfo r pod
  end.

Definition policyDeps (r : NodeReconciler) (w : W) : PolicyDeps := default (depsAt r w) (R_PolicyDeps r).

Definition R_applyRulesForPod (r : NodeReconciler) (policyMap : PolicyMap) (pod : Pod) (podInfo : PodInfo)
    : M unit := λ w,
  let apply := default applyRulesForPod (ApplyRulesForPodFunc r) in
  apply (policyDeps r w) (CommonCfg r) policyMap pod podInfo (HostPrefix r) w.

(** A returned error is recorded and the loop goes on; a panic leaves it. *)
Definition recordErr {A} (r : result A) (ctx : gostring) (acc : bool * list error)
    (k : A → M (bool * list error)) : M (bool * list error) :=
  match r with
  | Ok a => k a
  | Err e => if isPanic e then throw e else mret (true, acc.2 ++ [ErrWrap ctx e])
  end.

Definition reconcilePod (r : NodeReconciler) (policyMap : PolicyMap) (acc : bool * list error) (pod : Pod)
    : M (bool * list error) :=
  if negb (IsMultiNetworkpolicyTarget pod) then mret acc
  else
    info ← try (depsPodInfo r pod);
    recordErr info (str "get pod info for " ++ podNamespacedName (Some pod)) acc (λ podInfo,
      if len (PI_Interfaces podInfo) =? 0 then mret acc
      else
        res ← try (R_applyRulesForPod r policyMap pod podInfo);
        recordErr res (str "apply rules for " ++ podNamespacedName (Some pod)) acc (λ _, mret acc)).

Definition Reconcile (r : NodeReconciler) (req : gostring) : M ctrl_Result :=
  if negb (bool_decide (req = NodeName r)) then mret (mkResult 0)
  else
    policies ← wrapST "list policies" (lift_result ListPolicies);
    let policyMap := buildPolicyMap policies in
    pods ← wrapST (str "list pods for node " ++ NodeName r) (lift_result (ListPodsWith (MatchingFields (NodeName r))));
    '(retryNeeded, retryErrs) ← foldM pods (false, []) (reconcilePod r policyMap);
    match retryErrs with
    | _ :: _ => throw (ErrJoin retryErrs)
    | [] => if (retryNeeded : bool) then mret (mkResult (2 * Second)) else mret (mkResult 0)
    end.

(** ** cleanupAllPods *)

Definition ofPod (pod : Pod) (what : gostring) : gostring :=
  str "pod " ++ podNamespacedName (Some pod) ++ str ": " ++ what.

(** [ctxErr i] is what the context says at the start of round [i]. *)
Definition cleanupPod (r : NodeReconciler) (ctxErr : nat → option error)
    (acc : option CriClient * list error) (x : nat * Pod) : M (option CriClient * list error) :=
  let '(i, pod) := x in
  match ctxErr i with
  | Some e => throw (ErrWrap "cleanup canceled" e)
  | None =>
    if negb (IsMultiNetworkpolicyTarget pod) then mret acc
    else
      criClient ← (match acc.1 with
                   | Some c => mret c
                   | None => wrapST "cleanup: connect to CRI" (R_criRuntimeClient r)
                   end);
      match GetPodNetNSPathWithContext (Some criClient) pod with
      | Err e => if isPanic e then throw e
                 else mret (Some criClient, acc.2 ++ [ErrWrap (ofPod pod "resolve netns") e])
      | Ok [] => mret (Some criClient, acc.2 ++ [ErrWrap (ofPod pod "resolve netns") (ErrOther "empty netns path")])
      | Ok netnsPath =>
        res ← try (flushRulesForPod netnsPath (HostPrefix r));
        match res with
        | Ok _ => mret (Some criClient, acc.2)
        | Err e => if isPanic e then throw e
                   else mret (Some criClient, acc.2 ++ [ErrWrap (ofPod pod "flush rules") e])
        end
      end
  end.

Definition cleanupAllPods (r : NodeReconciler) (ctxErr : nat → option error) : M unit :=
  pods ← lift_result (ListPodsWith (MatchingFields (NodeName r)));
  acc ← foldM (enumerate pods) (None, []) (cleanupPod r ctxErr);
  joinErrs acc.2.
Definition CleanupOnShutdown (r : NodeReconciler) (ctxErr : nat → option error) : M unit := cleanupAllPods r ctxErr.
End reconciler.

(** ** Other systems

    applier_other.go and cleanup_other.go: on a system that is not Linux every
    sync and the cleanup fail and nothing is flushed. *)
Definition applyRulesForPod_other {S} (GOOS : gostring) : ST S unit :=
  throw (ErrOther (str "nftables rule application is unsupported on " ++ GOOS)).
Definition flushRulesForPod_other {S} : ST S unit := mret tt.
Definition cleanupAllPods_other {S} (GOOS : gostring) : ST S unit :=
  throw (ErrOther (str "nftables cleanup is unsupported on " ++ GOOS)).
