(* ===== verification/Daemon.v ===== *)
(** * The daemon on its node

    What the reconciler of [Reconciler.v] promises: every pod gets its sync
    whatever happens to the others, every write stays within the daemon's own
    tables of the namespaces of the node's pods, and the shutdown cleanup
    removes the managed tables and nothing else. *)

From S2P Require Import Prelude GoStd Text Names Api PodInfo Cri Nft Netip Elements Conn RefKernel State Legacy Rules Cleanup Server Events Reconciler.

(** ** What the daemon writes *)

(** The messages of the syncs, and the deletion of a managed table. *)
Definition daemon_msg (m : msg) : Prop :=
  sync_msg m ∨ ∃ t, own_table t ∧ m = MDelTable t.

Section daemon.
Context {K : Type} `{LawfulKernel K} `{Gob} `{Arch} `{LabelApi} `{MapOrder} `{Json} `{FloatConv} `{Grpc}
  `{Sorting} `{!Cluster} `{Netns} `{!PolicyOrder}.
Abbreviation W := (World K).
Abbreviation M := (ST W).
Abbreviation PolicyMap := (gmap NamespacedName MultiNetworkPolicy).

Abbreviation writes m := (preserves (all_msgs daemon_msg) m).
Implicit Type r : (NodeReconciler (K:=K)).

Lemma all_msgs_impl (P Q : msg → Prop) (c : Conn K) :
  (∀ m, P m → Q m) → all_msgs P c → all_msgs Q c.
Proof.
  intros HPQ [Hm Hs]. split; [by eapply Forall_impl|]. eapply Forall_impl; [exact Hs|].
  intros l Hl. by eapply Forall_impl.
Qed.

Lemma flushTable_writes deleted t : t ∈ managedTables → writes (flushTable (K:=K) deleted t).
Proof.
  intros Ht. unfold flushTable. apply (preserves_bind_post _ (λ res, ∀ t', res = Ok t' → own_table t')).
  - unfold ListTableOfFamily. writes_auto.
  - intros c r c' Hr t' ->. unfold try in Hr. destruct (ListTableOfFamily _ _ c) as [r1 c1] eqn:E.
    injection Hr as -> _. unfold ListTableOfFamily, read, zoom in E.
    destruct (k_ListTableOfFamily _ _ (kern c)) as [r2 k2] eqn:E2. injection E as -> _.
    apply law_ListTableOfFamily in E2 as ->. unfold managedTables in Ht.
    apply elem_of_cons in Ht as [->| ->%list_elem_of_singleton]; [by left|by right].
  - intros [t'|e] Hown; [|writes_auto]. unfold DelTable. writes_auto. right. exists t'. eauto.
Qed.

Lemma flushBody_writes (k : K) : all_msgs daemon_msg (flushBody (newConn k)).2.
Proof.
  unfold flushBody, mbind at 1, ST_bind at 1, try at 1.
  destruct (CleanupLegacyTables_triple (newConn k)) as [Hi _]; [apply all_msgs_newConn|].
  destruct (CleanupLegacyTables (newConn k)) as [r c]. cbn in Hi.
  apply (all_msgs_impl _ daemon_msg) in Hi; [|intros m Hm; left; by right]. revert Hi.
  generalize c. change (writes (deleted ← foldM managedTables 0%nat flushTable;
    if (deleted =? 0)%nat then joinErrs (ErrWrap "failed to clean legacy daemon-owned tables" <$> err_list r)
    else f ← try Flush; try (ListTablesOfFamily 0) ≫= λ _,
      joinErrs ((ErrWrap "failed to clean legacy daemon-owned tables" <$> err_list r) ++
        (ErrWrap "failed to flush table deletions" <$> err_list f)) : ST (Conn K) unit)).
  apply preserves_bind; [apply preserves_foldM; intros; by apply flushTable_writes|].
  intros deleted. unfold joinErrs, ListTablesOfFamily. writes_auto.
Qed.

Lemma applyRules_writes deps cfg ps pod info (k : K) :
  all_msgs daemon_msg (let '(r, n) := ApplyPolicyRulesForPodAndFamily deps cfg ps pod info
    (startState (newConn k)) in (r, nft n)).2.
Proof.
  pose proof (ApplyPolicyRules_all_msgs deps cfg ps pod info (startState (newConn k)) eq_refl eq_refl) as Hall.
  destruct (ApplyPolicyRulesForPodAndFamily _ _ _ _ _ _) as [r n].
  eapply all_msgs_impl; [|exact Hall]. by left.
Qed.

(** ** Where the daemon writes *)

Lemma podsOnNode_name n l p : p ∈ podsOnNode n l → Pod_NodeName p = n.
Proof.
  unfold podsOnNode. rewrite list_elem_of_In, filter_In, <-list_elem_of_In. intros [_ Hp%bool_decide_eq_true].
  unfold podHostnameExtractor in Hp. case_bool_decide; set_solver.
Qed.

(** The pods the API server lists for the daemon's node. *)
Definition listedPod (r : NodeReconciler (K:=K)) (pod : Pod) : Prop :=
  ∃ pods, ListPodsWith (MatchingFields (NodeName r)) = Ok pods ∧ pod ∈ pods.

(** A namespace the daemon may enter: that of a pod the API server lists for
    its node, running and not on the network of the host, as the runtime
    reports it. *)
Definition podNamespace (r : NodeReconciler (K:=K)) (id : Z) : Prop :=
  ∃ pod cri path fd, listedPod r pod ∧
    Pod_NodeName pod = NodeName r ∧ Pod_Phase pod = PodRunning ∧ Pod_HostNetwork pod = false ∧
    GetPodNetNSPathWithContext (Some cri) pod = Ok path ∧ GetNS (prefixed (HostPrefix r) path) = Ok (id, fd).

Lemma target_pod pod :
  IsMultiNetworkpolicyTarget pod = true → Pod_Phase pod = PodRunning ∧ Pod_HostNetwork pod = false.
Proof.
  unfold IsMultiNetworkpolicyTarget. case_bool_decide; cbn [negb]; [|done]. by destruct (Pod_HostNetwork pod).
Qed.

Lemma podNamespace_intro r pod cri path id fd :
  listedPod r pod → IsMultiNetworkpolicyTarget pod = true →
  GetPodNetNSPathWithContext (Some cri) pod = Ok path → GetNS (prefixed (HostPrefix r) path) = Ok (id, fd) →
  podNamespace r id.
Proof.
  intros Hl [Hph Hh]%target_pod Hp HN. exists pod, cri, path, fd. split_and!; try done.
  destruct Hl as (pods & Hpods & Hin). eapply podsOnNode_name. rewrite <-(ListPods_index _ _ Hpods). exact Hin.
Qed.

Definition good_entry (r : NodeReconciler (K:=K)) (x : Z * list (list msg)) : Prop :=
  Forall daemon_msg (concat x.2) ∧ podNamespace r x.1.
Definition safe_world (r : NodeReconciler (K:=K)) (w : W) : Prop := Forall (good_entry r) (w_sent w).

Lemma withConn_safe {A} r id (run : ST (Conn K) A) :
  podNamespace r id → (∀ k, all_msgs daemon_msg (run (newConn k)).2) → preserves (safe_world r) (withConn id run).
Proof.
  intros Hns Hrun w Hw. unfold withConn. destruct (w_kernels w !! id) as [k|]; [|done].
  specialize (Hrun k). destruct (run (newConn k)) as [res c]. unfold safe_world. cbn.
  apply Forall_app. split; [done|]. constructor; [|constructor]. split; [|done]. cbn.
  by apply Forall_concat, Hrun.
Qed.

Lemma onCri_safe {A} r (m : ST CriState A) : preserves (safe_world r) (onCri m).
Proof. intros w Hw. unfold onCri, zoom. by destruct (m (w_cri w)). Qed.

Lemma GetPodInfo_safe r pod : preserves (safe_world r) (R_GetPodInfo r pod).
Proof.
  unfold R_GetPodInfo, R_criRuntimeClient. apply preserves_bind; [eauto with gost|]. intros info. case_match; [eauto with gost|].
  apply preserves_bind; [apply onCri_safe|]. intros c. apply preserves_bind; [eauto with gost|]. intros p.
  case_match; eauto with gost.
Qed.

(** What [GetPodInfo] returns for a pod of the node that has interfaces: a
    path the runtime reported. *)
Lemma GetPodInfo_path r pod w info w' :
  R_GetPodInfo r pod w = (Ok info, w') → CheckNodeNameIdentical (NodeName r) (Pod_NodeName pod) = true →
  len (PI_Interfaces info) ≠ 0 →
  ∃ cri, GetPodNetNSPathWithContext (Some cri) pod = Ok (PI_NetNSPath info) ∧ PI_NetNSPath info ≠ [].
Proof.
  unfold R_GetPodInfo. intros (i & w1 & Hi & Hb)%bind_Ok Hnode Hlen. rewrite Hnode, orb_false_r in Hb.
  destruct (Z.eqb_spec (len (PI_Interfaces i)) 0) as [E|E]; [injection Hb as -> ->; done|].
  apply bind_Ok in Hb as (c & w2 & Hc & Hb). apply bind_Ok in Hb as (p & w3 & Hp & Hb).
  unfold wrapST, lift_result in Hp. case_bool_decide as Hne; [done|]. injection Hb as <- <-. cbn.
  exists c. split; [|done]. destruct (GetPodNetNSPathWithContext (Some c) pod) as [p'|]; [|done].
  cbn in Hp. by injection Hp as ->.
Qed.

Lemma applyRulesForPod_safe r deps cfg pm pod info :
  listedPod r pod → IsMultiNetworkpolicyTarget pod = true →
  (∃ cri, GetPodNetNSPathWithContext (Some cri) pod = Ok (PI_NetNSPath info)) →
  preserves (safe_world r) (applyRulesForPod deps cfg pm pod info (HostPrefix r)).
Proof.
  intros Hn Ht [cri Hp]. unfold applyRulesForPod.
  apply (preserves_bind_post _ (λ x, GetNS (prefixed (HostPrefix r) (PI_NetNSPath info)) = Ok x)); [eauto with gost| |].
  { intros s a s'. unfold wrapST, lift_result. destruct (GetNS _) as [x|]; [|done]. by intros [= -> _]. }
  intros [id fd] HN. case_match; [apply preserves_throw|]. apply withConn_safe; [by eapply podNamespace_intro|].
  intros k. apply applyRules_writes.
Qed.

Lemma flushRulesForPod_safe r pod cri path :
  listedPod r pod → IsMultiNetworkpolicyTarget pod = true →
  GetPodNetNSPathWithContext (Some cri) pod = Ok path →
  preserves (safe_world r) (flushRulesForPod path (HostPrefix r)).
Proof.
  intros Hn Ht Hp. unfold flushRulesForPod.
  apply (preserves_bind_post _ (λ x, GetNS (prefixed (HostPrefix r) path) = Ok x)); [eauto with gost| |].
  { intros s a s'. unfold wrapST, lift_result. destruct (GetNS _) as [x|]; [|done]. by intros [= -> _]. }
  intros [id fd] HN. apply withConn_safe; [by eapply podNamespace_intro|]. apply flushBody_writes.
Qed.

(** The reconciler as the daemon builds it: no substitutes for its lookups. *)
Definition plain r : Prop := R_PolicyDeps r = None ∧ ApplyRulesForPodFunc r = None.

Lemma recordErr_safe {A} r (res : result A) ctx acc k :
  (∀ a, res = Ok a → preserves (safe_world r) (k a)) → preserves (safe_world r) (recordErr res ctx acc k).
Proof. intros Hk. unfold recordErr. destruct res as [a|e]; [by apply Hk|]. case_match; eauto with gost. Qed.

Lemma reconcilePod_safe r pm acc pod :
  plain r → listedPod r pod → preserves (safe_world r) (reconcilePod r pm acc pod).
Proof.
  intros [Hd Ha] Hn. unfold reconcilePod, depsPodInfo. rewrite Hd.
  destruct (IsMultiNetworkpolicyTarget pod) eqn:Ht; cbn [negb]; [|apply preserves_ret].
  apply (preserves_bind_post _ (λ res, ∀ info, res = Ok info → len (PI_Interfaces info) ≠ 0 →
    ∃ cri, GetPodNetNSPathWithContext (Some cri) pod = Ok (PI_NetNSPath info))).
  - apply preserves_try, GetPodInfo_safe.
  - intros w res w' Hr info -> Hlen. unfold try in Hr. destruct (R_GetPodInfo r pod w) as [x w1] eqn:E.
    injection Hr as -> <-. destruct (GetPodInfo_path _ _ _ _ _ E) as (cri & ? & _); [|done|by exists cri].
    destruct Hn as (pods & Hpods & Hin). rewrite (podsOnNode_name (NodeName r) pods pod); [apply CheckNodeNameIdentical_refl|].
    rewrite <-(ListPods_index _ _ Hpods). exact Hin.
  - intros res Hres. apply recordErr_safe. intros info ->. case_match eqn:Hl; [apply preserves_ret|].
    apply Z.eqb_neq in Hl. apply preserves_bind.
    + apply preserves_try. unfold R_applyRulesForPod. rewrite Ha. cbn [default].
      intros w Hw. by apply applyRulesForPod_safe; [| |apply Hres|].
    + intros res'. apply recordErr_safe. intros. apply preserves_ret.
Qed.

Lemma Reconcile_safe r req : plain r → preserves (safe_world r) (Reconcile r req).
Proof.
  intros Hp. unfold Reconcile. case_match; [apply preserves_ret|].
  apply preserves_bind; [eauto with gost|]. intros ps.
  apply (preserves_bind_post _ (λ pods, ListPodsWith (MatchingFields (NodeName r)) = Ok pods)); [eauto with gost| |].
  { intros s a s'. unfold wrapST, lift_result. destruct (ListPodsWith _); [|done]. by intros [= -> _]. }
  intros pods Hpods. apply preserves_bind.
  - apply preserves_foldM. intros acc pod Hpod. apply reconcilePod_safe; [done|]. by exists pods.
  - intros [b es]. destruct es; [destruct b|]; eauto with gost.
Qed.

Lemma cleanupPod_safe r ctxErr acc x :
  listedPod r x.2 → preserves (safe_world r) (cleanupPod r ctxErr acc x).
Proof.
  intros Hn. destruct x as [i pod]. unfold cleanupPod. destruct (ctxErr i); [apply preserves_throw|].
  destruct (IsMultiNetworkpolicyTarget pod) eqn:Ht; cbn [negb]; [|apply preserves_ret].
  apply preserves_bind.
  - destruct acc.1; [apply preserves_ret|]. apply preserves_wrapST, onCri_safe.
  - intros c. destruct (GetPodNetNSPathWithContext (Some c) pod) as [[|b p]|e] eqn:Ep.
    + apply preserves_ret.
    + apply preserves_bind; [eapply preserves_try, flushRulesForPod_safe; eauto|].
      intros [|e]; [|case_match]; eauto with gost.
    + case_match; eauto with gost.
Qed.

Lemma cleanupAllPods_safe r ctxErr : preserves (safe_world r) (cleanupAllPods r ctxErr).
Proof.
  unfold cleanupAllPods.
  apply (preserves_bind_post _ (λ pods, ListPodsWith (MatchingFields (NodeName r)) = Ok pods)); [eauto with gost| |].
  { intros s a s'. unfold lift_result. by intros [= -> _]. }
  intros pods Hpods. apply preserves_bind.
  - apply preserves_foldM. intros acc x Hx. apply cleanupPod_safe.
    exists pods. split; [done|]. destruct x. by eapply elem_of_enumerate.
  - intros acc. unfold joinErrs. destruct acc.2; eauto with gost.
Qed.

(** What the daemon does over its life, in any order. *)
Inductive daemon_op :=
  | DoReconcile (req : gostring)
  | DoCleanup (ctxErr : nat → option error)
  | DoCloseCRI.

Definition run_op r (w : W) (op : daemon_op) : W :=
  match op with
  | DoReconcile req => (Reconcile r req w).2
  | DoCleanup ctxErr => (cleanupAllPods r ctxErr w).2
  | DoCloseCRI => (onCri CloseCRI w).2
  end.

(** ** Every pod gets its sync *)

(** The sync of one pod, as if it were alone. *)
Definition syncPod r (pm : PolicyMap) (pod : Pod) : M unit :=
  if negb (IsMultiNetworkpolicyTarget pod) then mret tt
  else
    podInfo ← wrapST (str "get pod info for " ++ podNamespacedName (Some pod)) (depsPodInfo r pod);
    if len (PI_Interfaces podInfo) =? 0 then mret tt
    else wrapST (str "apply rules for " ++ podNamespacedName (Some pod)) (R_applyRulesForPod r pm pod podInfo).

Lemma recordErr_step {A} (res : result A) ctx acc k (w : W) :
  match wrap ctx res with
  | Ok a => recordErr res ctx acc k w = k a w
  | Err e => if isPanic e then ∃ e', recordErr res ctx acc k w = (Err e', w) ∧ isPanic e' = true
             else recordErr res ctx acc k w = (Ok (true, acc.2 ++ [e]), w)
  end.
Proof. unfold recordErr. destruct res as [a|e]; cbn; [done|]. destruct (isPanic e) eqn:E; [by exists e|done]. Qed.

(** One round of the loop is the pod's sync with its error recorded. *)
Lemma reconcilePod_collects r pm :
  collects (syncPod r pm) (reconcilePod r pm) snd (λ b _, b.1 = true ↔ b.2 ≠ []).
Proof.
  intros b pod w Hb. unfold syncPod, reconcilePod.
  destruct (IsMultiNetworkpolicyTarget pod); cbn [negb]; [|by exists b].
  unfold mbind, ST_bind, wrapST, try. destruct (depsPodInfo r pod w) as [res w1].
  pose proof (recordErr_step res (str "get pod info for " ++ podNamespacedName (Some pod)) b (λ podInfo,
    if len (PI_Interfaces podInfo) =? 0 then mret b
    else λ s, match (let '(res, s') := R_applyRulesForPod r pm pod podInfo s in (Ok res, s')) with
      | (Ok a, s') => recordErr a (str "apply rules for " ++ podNamespacedName (Some pod)) b (λ _, mret b) s'
      | (Err e, s') => (Err e, s') end) w1) as Hrec.
  assert (∀ e, (true, b.2 ++ [e]).1 = true ↔ (true, b.2 ++ [e]).2 ≠ []) as Hnew.
  { intros e. cbn. split; [|done]. intros _ Hnil%app_nil. naive_solver. }
  destruct (wrap (str "get pod info for " ++ podNamespacedName (Some pod)) res) as [info|e].
  - rewrite Hrec. clear Hrec res. destruct (len (PI_Interfaces info) =? 0); [by exists b|].
    destruct (R_applyRulesForPod r pm pod info w1) as [res w2].
    pose proof (recordErr_step res (str "apply rules for " ++ podNamespacedName (Some pod)) b (λ _, mret b) w2) as Hrec.
    destruct (wrap (str "apply rules for " ++ podNamespacedName (Some pod)) res) as [[]|e]; [rewrite Hrec; by exists b|].
    destruct (isPanic e); [done|]. rewrite Hrec. eexists. by split_and!.
  - destruct (isPanic e); [done|]. rewrite Hrec. eexists. by split_and!.
Qed.

(** ** Every pod is cleaned at shutdown *)

(** The cleanup of one pod, with the cached connection or a new one. *)
Definition cleanPod r (pod : Pod) : M unit :=
  if negb (IsMultiNetworkpolicyTarget pod) then mret tt
  else
    criClient ← wrapST "cleanup: connect to CRI" (R_criRuntimeClient r);
    netnsPath ← wrapST (ofPod pod "resolve netns") (lift_result (GetPodNetNSPathWithContext (Some criClient) pod));
    if bool_decide (netnsPath = []) then throw (ErrWrap (ofPod pod "resolve netns") (ErrOther "empty netns path"))
    else wrapST (ofPod pod "flush rules") (flushRulesForPod netnsPath (HostPrefix r)).

(** The connection the loop holds is the cached one, or can be made. *)
Definition connected r (acc : option CriClient * list error) (w : W) : Prop :=
  match acc.1 with
  | Some c => CS_client (w_cri w) = Some c
  | None => ∃ c w', R_criRuntimeClient r w = (Ok c, w')
  end.

Lemma R_criRuntimeClient_cached r w c :
  CS_client (w_cri w) = Some c → R_criRuntimeClient r w = (Ok c, w).
Proof.
  intros Hc. unfold R_criRuntimeClient, onCri, zoom. rewrite (criRuntimeClient_cached _ _ _ _ Hc). by destruct w.
Qed.
Lemma R_criRuntimeClient_caches r w c w' :
  R_criRuntimeClient r w = (Ok c, w') → CS_client (w_cri w') = Some c.
Proof.
  unfold R_criRuntimeClient, onCri, zoom. destruct (criRuntimeClient _ _ (w_cri w)) as [res s] eqn:E.
  intros [= -> <-]. by eapply criRuntimeClient_caches.
Qed.

Lemma withConn_cri {A} id (run : ST (Conn K) A) (w : W) : w_cri (withConn id run w).2 = w_cri w.
Proof. unfold withConn. destruct (w_kernels w !! id); [|done]. by destruct (run _). Qed.
Lemma flushRulesForPod_cri path prefix (w : W) : w_cri (flushRulesForPod path prefix w).2 = w_cri w.
Proof.
  unfold flushRulesForPod. apply bind_final. unfold wrapST, lift_result, wrap.
  destruct (GetNS _) as [[id fd]|]; [|done]. apply withConn_cri.
Qed.

(** While the context is alive, one round is the pod's cleanup with its error
    recorded. *)
Lemma cleanupPod_collects r ctxErr :
  (∀ i, ctxErr i = None) →
  collects (λ x, cleanPod r x.2) (cleanupPod r ctxErr) snd (connected r).
Proof.
  intros Hctx b [i pod] w Hb. unfold cleanPod, cleanupPod. rewrite Hctx. cbn [snd].
  destruct (IsMultiNetworkpolicyTarget pod); cbn [negb]; [|by exists b].
  assert (∃ c w', R_criRuntimeClient r w = (Ok c, w') ∧ CS_client (w_cri w') = Some c ∧
    (match b.1 with Some c => mret c | None => wrapST "cleanup: connect to CRI" (R_criRuntimeClient r) end) w
      = (Ok c, w')) as (c & w' & Hc & Hcl & Hb').
  { unfold connected in Hb. destruct b.1 as [c|].
    - exists c, w. split_and!; [by apply R_criRuntimeClient_cached|done|done].
    - destruct Hb as (c & w' & Hc). exists c, w'. split_and!; [done|by eapply R_criRuntimeClient_caches|].
      unfold wrapST. by rewrite Hc. }
  rewrite (bind_step _ _ _ _ _ Hb'). unfold mbind at 1, ST_bind at 1, wrapST at 1. rewrite Hc. cbn [wrap].
  unfold mbind at 1, ST_bind at 1, wrapST at 1, lift_result.
  destruct (GetPodNetNSPathWithContext (Some c) pod) as [[|x path]|e] eqn:Ep; cbn [wrap].
  - rewrite bool_decide_eq_true_2 by done. cbn. eexists. by split_and!.
  - rewrite bool_decide_eq_false_2 by done. unfold wrapST, mbind, ST_bind, try.
    pose proof (flushRulesForPod_cri (x :: path) (HostPrefix r) w') as Hw.
    destruct (flushRulesForPod (x :: path) (HostPrefix r) w') as [[[]|e] w2]; cbn in Hw |- *.
    + eexists. split_and!; [done|done|]. unfold connected. cbn. by rewrite Hw.
    + destruct (isPanic e) eqn:E; [by exists e|]. eexists. split_and!; [done|done|].
      unfold connected. cbn. by rewrite Hw.
  - cbn. destruct (isPanic e) eqn:E; [by exists e|]. eexists. by split_and!.
Qed.

(** ** Lookups during a rule generation *)

(** With the connection cached, looking up a pod changes nothing. *)
Lemma R_GetPodInfo_cached r pod (w : W) c :
  CS_client (w_cri w) = Some c → (R_GetPodInfo r pod w).2 = w.
Proof.
  intros Hc. unfold R_GetPodInfo, mbind, ST_bind, wrapST, lift_result.
  destruct (wrap _ (NewPodInfoFromPod _ _ _ _ _)) as [info|e]; [|done]. case_match; [done|].
  rewrite (R_criRuntimeClient_cached _ _ _ Hc). destruct (wrap _ _) as [p|e]; [|done]. by case_match.
Qed.

(** When the rules of a pod of the node are generated, it is cached. *)
Lemma R_GetPodInfo_caches r pod w info w' :
  R_GetPodInfo r pod w = (Ok info, w') → CheckNodeNameIdentical (NodeName r) (Pod_NodeName pod) = true →
  len (PI_Interfaces info) ≠ 0 → is_Some (CS_client (w_cri w')).
Proof.
  unfold R_GetPodInfo. intros (i & w1 & Hi & Hb)%bind_Ok Hnode Hlen. rewrite Hnode, orb_false_r in Hb.
  destruct (Z.eqb_spec (len (PI_Interfaces i)) 0) as [E|E]; [injection Hb as -> ->; done|].
  apply bind_Ok in Hb as (c & w2 & Hc & Hb). apply bind_Ok in Hb as (p & w3 & Hp & Hb).
  apply R_criRuntimeClient_caches in Hc. unfold wrapST, lift_result in Hp. injection Hp as _ <-.
  case_bool_decide; [done|]. injection Hb as _ <-. by exists c.
Qed.

(** The policy map holds every policy of the list. *)
Lemma buildPolicyMap_lookup ps k p :
  NoDup ((λ p, (Policy_Namespace p, Policy_Name p)) <$> ps) →
  buildPolicyMap ps !! k = Some p ↔ p ∈ ps ∧ k = (Policy_Namespace p, Policy_Name p).
Proof.
  unfold buildPolicyMap. revert k p. induction ps as [|q ps IH] using rev_ind; intros k p Hnd.
  { cbn. rewrite lookup_empty, elem_of_nil. naive_solver. }
  rewrite fmap_app in Hnd. apply NoDup_app in Hnd as (Hnd & Hdis & _). rewrite foldl_snoc, elem_of_app, list_elem_of_singleton.
  destruct (decide ((Policy_Namespace q, Policy_Name q) = k)) as [<-|Hne].
  - rewrite lookup_insert_eq. split; [intros [= <-]; auto|]. intros [[Hp| ->] Hk]; [|done].
    destruct (Hdis (Policy_Namespace q, Policy_Name q)); [|set_solver]. rewrite Hk. apply list_elem_of_fmap. by exists p.
  - rewrite lookup_insert_ne by done. rewrite IH by done. naive_solver.
Qed.

(** ** Properties *)

(** C7: a reconcile of the node runs the sync of every listed pod, each as if
    it were alone, and fails with exactly the errors of those that failed, so
    that a pod that cannot be synced keeps no other from its rules. Only a
    panic in the sync of a pod ends the reconcile there. A request for another
    node does nothing. *)
Theorem Reconcile_syncs_every_pod r w ps pods :
  ListPolicies = Ok ps → ListPodsWith (MatchingFields (NodeName r)) = Ok pods →
  let sync := syncPod r (buildPolicyMap ps) in
  (calm (runAll sync pods w).1 →
   Reconcile r (NodeName r) w =
     (match (runAll sync pods w).1 with [] => Ok (mkResult 0) | es => Err (ErrJoin es) end, (runAll sync pods w).2)) ∧
  (∀ l1 pod l2 e w2, pods = l1 ++ pod :: l2 → calm (runAll sync l1 w).1 →
     sync pod (runAll sync l1 w).2 = (Err e, w2) → isPanic e = true →
     ∃ e', Reconcile r (NodeName r) w = (Err e', w2) ∧ isPanic e' = true) ∧
  (∀ req, req ≠ NodeName r → Reconcile r req w = (Ok (mkResult 0), w)).
Proof.
  intros Hps Hpods. cbv zeta.
  assert (Reconcile r (NodeName r) w = (foldM pods (false, []) (reconcilePod r (buildPolicyMap ps)) ≫=
    λ '(retryNeeded, retryErrs), match retryErrs with
      | _ :: _ => throw (ErrJoin retryErrs)
      | [] => if (retryNeeded : bool) then mret (mkResult (2 * Second)) else mret (mkResult 0) end) w) as Hrec.
  { unfold Reconcile. rewrite bool_decide_eq_true_2 by done. cbn [negb]. rewrite Hps, Hpods. reflexivity. }
  split_and!.
  - intros Hc. rewrite Hrec.
    destruct (foldM_collect _ _ _ _ (reconcilePod_collects r (buildPolicyMap ps)) pods (false, []) w) as ([b es] & H1' & H2' & H3');
      [done|done|]. cbn in H2', H3'. rewrite (bind_step _ _ _ _ _ H1'), <-H2'.
    destruct es as [|e es]; [|done]. destruct b; [|done]. by destruct (proj1 H3' eq_refl).
  - intros l1 pod l2 e w2 -> Hc Hp Hpan.
    destruct (foldM_collect_panic _ _ _ _ (reconcilePod_collects r (buildPolicyMap ps)) l1 pod l2 (false, []) w e w2)
      as (e' & Hf & He'); [done..|]. exists e'. split; [|done]. rewrite Hrec. unfold mbind, ST_bind. by rewrite Hf.
  - intros req Hne. unfold Reconcile. by rewrite bool_decide_eq_false_2.
Qed.

(** C6: whatever the daemon does over its life and in whatever order (requests
    for any node, shutdown cleanups cut off at any time, closing the runtime
    connection), everything it writes is about its own two tables, apart from
    deletions of its leftovers in the shared tables, and goes to the network
    namespace of a pod that the API server lists for its own node, that runs,
    and that does not use the host's network. *)
Theorem daemon_writes_confined r ops w :
  plain r → w_sent w = [] → Forall (good_entry r) (w_sent (foldl (run_op r) w ops)).
Proof.
  intros Hp Hw. change (safe_world r (foldl (run_op r) w ops)).
  induction ops as [|op ops IH] using rev_ind; [unfold safe_world; cbn; rewrite Hw; constructor|].
  rewrite foldl_snoc. destruct op; cbn.
  - by apply Reconcile_safe.
  - by apply cleanupAllPods_safe.
  - by apply onCri_safe.
Qed.

(** C23: once the runtime can be reached, the shutdown cleanup attempts every
    listed pod and reports exactly the failures; when its context is cancelled
    it stops there with that error, the earlier pods cleaned. *)
Theorem cleanupAllPods_every_pod r ctxErr w pods :
  ListPodsWith (MatchingFields (NodeName r)) = Ok pods → is_ok (R_criRuntimeClient r w).1 = true →
  ((∀ i, ctxErr i = None) → calm (runAll (cleanPod r) pods w).1 →
   cleanupAllPods r ctxErr w =
     (match (runAll (cleanPod r) pods w).1 with [] => Ok tt | es => Err (ErrJoin es) end,
      (runAll (cleanPod r) pods w).2)) ∧
  (∀ n e, (n < length pods)%nat → ctxErr n = Some e → (∀ i, (i < n)%nat → ctxErr i = None) →
   calm (runAll (cleanPod r) (take n pods) w).1 →
   cleanupAllPods r ctxErr w = (Err (ErrWrap "cleanup canceled" e), (runAll (cleanPod r) (take n pods) w).2)).
Proof.
  intros Hpods Hcri.
  assert (connected r (None, []) w) as Hconn.
  { unfold connected. cbn. destruct (R_criRuntimeClient r w) as [[c|] w1]; [by exists c, w1|done]. }
  assert (cleanupAllPods r ctxErr w = (foldM (enumerate pods) (None, []) (cleanupPod r ctxErr) ≫= λ acc, joinErrs acc.2) w)
    as -> by (unfold cleanupAllPods; by rewrite Hpods).
  assert (∀ l, calm (runAll (cleanPod r) l.*2 w).1 → (∀ x, x ∈ l → ctxErr x.1 = None) →
    ∃ b, foldM l (None, []) (cleanupPod r ctxErr) w = (Ok b, (runAll (cleanPod r) l.*2 w).2) ∧
         b.2 = (runAll (cleanPod r) l.*2 w).1) as Hrun.
  { intros l Hc Hctx. rewrite (foldM_ext _ _ _ (cleanupPod r (λ _, None))).
    - pose proof (runAll_fmap (cleanPod r) snd l w) as Hmap. rewrite <-Hmap in Hc |- *.
      destruct (foldM_collect _ _ _ _ (cleanupPod_collects r (λ _, None) (λ _, eq_refl)) l (None, []) w Hconn Hc)
        as (b & Hb1 & Hb2 & _). by exists b.
    - intros b [i pod] s Hx. pose proof (Hctx _ Hx) as Hi. cbn in Hi. unfold cleanupPod. by rewrite Hi. }
  split.
  - intros Hctx Hc. destruct (Hrun (enumerate pods)) as (b & Hb & Hes); [by rewrite enumerate_snd|by intros|].
    rewrite enumerate_snd in Hb, Hes. rewrite (bind_step _ _ _ _ _ Hb), Hes. by destruct (runAll _ _ _) as [[] ?].
  - intros n e Hn He Hctx Hc. destruct (lookup_lt_is_Some_2 pods n Hn) as [pod Hpod].
    assert (enumerate pods = take n (enumerate pods) ++ (n, pod) :: drop (S n) (enumerate pods)) as Henum.
    { rewrite <-(take_drop_middle (enumerate pods) n (n, pod)) at 1; [done|].
      unfold enumerate. rewrite lookup_zip_with, lookup_seq_lt by done. cbn. by rewrite Hpod. }
    assert ((take n (enumerate pods)).*2 = take n pods) as Htake by by rewrite fmap_take, enumerate_snd.
    destruct (Hrun (take n (enumerate pods))) as (b & Hb & _); [by rewrite Htake| |].
    { intros [i x] Hx. cbn. apply list_elem_of_lookup in Hx as (j & Hj). apply lookup_take_Some in Hj as [Hj Hlt].
      unfold enumerate in Hj. rewrite lookup_zip_with in Hj. apply bind_Some in Hj as (i' & Hi' & Hj).
      apply lookup_seq in Hi' as [-> _]. apply bind_Some in Hj as (? & _ & [= <- _]). apply Hctx. lia. }
    rewrite Htake in Hb. rewrite Henum. unfold mbind at 1, ST_bind at 1. rewrite foldM_app.
    unfold mbind at 1, ST_bind at 1. rewrite Hb. cbn [foldM]. unfold mbind, ST_bind, cleanupPod. by rewrite He.
Qed.
End daemon.

(** ** The rules of a pod removed *)

Section flush.
Context {K : Type} `{LawfulKernel K}.

Definition existsTable (k : K) (t : Table) : bool :=
  is_ok (k_ListTableOfFamily (Table_Name t) (Table_Family t) k).1.

(** Every failing lookup of a managed table says that there is none. *)
Definition lookupsWork (k : K) : Prop :=
  ∀ t e, t ∈ managedTables → (k_ListTableOfFamily (Table_Name t) (Table_Family t) k).1 = Err e → isNotExist e = true.

Lemma flushTable_quiet deleted t (c : Conn K) :
  quiet (kern c) → lookupsWork (kern c) → t ∈ managedTables →
  flushTable deleted t c =
    if existsTable (kern c) t then (Ok (S deleted), pushes [MDelTable t] c) else (Ok deleted, c).
Proof.
  intros Hq Hw Ht. unfold flushTable, existsTable, mbind, ST_bind, try, ListTableOfFamily.
  rewrite read_quiet by apply quiet_ListTableOfFamily, Hq. specialize (Hw t).
  destruct (k_ListTableOfFamily _ _ (kern c)) as [[t'|e] k'] eqn:E; cbn in Hw |- *.
  - apply law_ListTableOfFamily in E as ->. by destruct t.
  - by rewrite (Hw e Ht eq_refl).
Qed.

Lemma flushTables_quiet ts deleted (c : Conn K) :
  quiet (kern c) → lookupsWork (kern c) → (∀ t, t ∈ ts → t ∈ managedTables) →
  foldM ts deleted flushTable c =
    (Ok (deleted + length (List.filter (existsTable (kern c)) ts))%nat,
     pushes (MDelTable <$> List.filter (existsTable (kern c)) ts) c).
Proof.
  revert deleted c. induction ts as [|t ts IH]; intros deleted c Hq Hw Hts; cbn [foldM List.filter].
  { cbn. by rewrite pushes_nil, Nat.add_0_r. }
  unfold mbind, ST_bind. rewrite (flushTable_quiet deleted t c Hq Hw) by (apply Hts; by left).
  destruct (existsTable (kern c) t).
  - rewrite IH; [|done|done|intros; apply Hts; by right]. cbn [kern pushes]. rewrite pushes_app. cbn.
    by rewrite Nat.add_succ_r.
  - rewrite IH; [done|done|done|intros; apply Hts; by right].
Qed.

(** The whole run, on a kernel nobody else changes. *)
Lemma flushBody_run (k : K) r (c : Conn K) :
  CleanupLegacyTables (newConn k) = (r, c) → quiet (kern c) → lookupsWork (kern c) → conn_err c = None →
  let ts := List.filter (existsTable (kern c)) managedTables in
  let legacyErrs := ErrWrap "failed to clean legacy daemon-owned tables" <$> err_list r in
  let commit := k_commit (messages c ++ (MDelTable <$> ts)) (kern c) in
  let joined es := match es with [] => Ok tt | _ => Err (ErrJoin es) end in
  flushBody (newConn k) =
    if decide (ts = []) then (joined legacyErrs, c)
    else (joined (legacyErrs ++ (ErrWrap "failed to flush table deletions" <$> err_list commit.1)),
          mkConn (k_ListTablesOfFamily 0 commit.2).2 [] (lastID c) None (sent c ++ [messages c ++ (MDelTable <$> ts)])).
Proof.
  intros Hl Hq Hw He. cbv zeta. unfold flushBody, mbind, ST_bind, try at 1. rewrite Hl.
  rewrite (flushTables_quiet managedTables 0 c Hq Hw) by done.
  assert (∀ es (s : Conn K), joinErrs es s = (match es with [] => Ok tt | _ => Err (ErrJoin es) end, s)) as Hjoin
    by by intros [].
  set (ts := List.filter (existsTable (kern c)) managedTables).
  destruct (decide (ts = [])) as [Hts|Hts].
  { rewrite Hts. cbn [length Nat.add Nat.eqb]. rewrite Hjoin. cbn. by rewrite pushes_nil. }
  assert (((0 + length ts) =? 0)%nat = false) as -> by (destruct ts; done).
  set (ms := MDelTable <$> ts).
  assert (Flush (pushes ms c) = let '(f, k') := k_commit (messages c ++ ms) (kern c) in
    (f, mkConn k' [] (lastID c) None (sent c ++ [messages c ++ ms]))) as HF.
  { unfold Flush, pushes. cbn [messages conn_err kern sent lastID]. rewrite He.
    destruct (messages c ++ ms) eqn:Em; [|done]. apply app_nil in Em as [_ Em]. by destruct ts. }
  unfold try at 1. rewrite HF. destruct (k_commit (messages c ++ ms) (kern c)) as [f k']. cbn [fst snd].
  unfold try, ListTablesOfFamily, read, zoom. cbn [kern].
  destruct (k_ListTablesOfFamily 0 k') as [l k'']. by rewrite Hjoin.
Qed.

(** C12: the removal of a pod's rules deletes, in one batch, exactly the two
    managed tables as far as they exist, on top of the legacy cleanup, whose
    error it keeps but is not stopped by; with neither table there it sends
    nothing. *)
Theorem flushBody_exact (k : K) (c := (CleanupLegacyTables (newConn k)).2) :
  quiet (kern c) → lookupsWork (kern c) → conn_err c = None →
  let ts := List.filter (existsTable (kern c)) managedTables in
  let legacyErrs := ErrWrap "failed to clean legacy daemon-owned tables" <$> err_list (CleanupLegacyTables (newConn k)).1 in
  let commit := k_commit (messages c ++ (MDelTable <$> ts)) (kern c) in
  let joined es := match es with [] => Ok tt | _ => Err (ErrJoin es) end in
  (ts = [] → flushBody (newConn k) = (joined legacyErrs, c)) ∧
  (ts ≠ [] → (flushBody (newConn k)).1 =
               joined (legacyErrs ++ (ErrWrap "failed to flush table deletions" <$> err_list commit.1)) ∧
             sent (flushBody (newConn k)).2 = sent c ++ [messages c ++ (MDelTable <$> ts)]).
Proof.
  intros Hq Hw He. subst c. destruct (CleanupLegacyTables (newConn k)) as [r c] eqn:Hl.
  rewrite (flushBody_run k r c Hl Hq Hw He). cbn [fst snd] in *. cbv zeta.
  destruct (decide _) as [Hts|Hts]; by split.
Qed.
End flush.
