(* ===== verification/Options.v ===== *)
(** * Options

    pkg/server/options.go: the command line options, their validation and the
    configuration of the reconciler built from them. Parsing the command line
    is pflag's; [AddFlags] is what it leaves in the options before any flag is
    given. *)

From S2P Require Import Prelude GoStd Text Names Netip Api Elements PodInfo.

(** ** net *)

(** [net.dtoi], where it takes the whole string. *)
Fixpoint dtoiLoop (s : gostring) (n : Z) : option Z :=
  match s with
  | [] => Some n
  | b :: s =>
    if is_digit b then
      let n := n * 10 + (b - 48) in
      if 0xFFFFFF <=? n then None else dtoiLoop s n
    else None
  end.
Definition dtoi (s : gostring) : option Z := if bool_decide (s = []) then None else dtoiLoop s 0.

(** [net.ParseCIDR]: the address and the mask length. *)
Definition ParseCIDR (s : gostring) : option (Addr * Z) :=
  '(addr, mask) ← Cut s "/";
  ipAddr ← ParseAddr addr;
  if negb (bool_decide (Addr_zone ipAddr = [])) then None
  else
    n ← dtoi mask;
    if BitLen ipAddr <? n then None else Some (ipAddr, n).

(** [net.JoinHostPort] *)
Definition JoinHostPort (host port : gostring) : gostring :=
  if bool_decide (58 ∈ host) then str "[" ++ host ++ str "]:" ++ port else host ++ str ":" ++ port.

(** [filepath.IsAbs] on Unix *)
Definition IsAbs (path : gostring) : bool := strings.HasPrefix path "/".

(** ** Options *)

Definition defaultSyncPeriod : Z := 30.

Record Options := mkOptions {
  Kubeconfig : gostring;
  master : gostring;
  hostnameOverride : gostring;
  hostPrefix : gostring;
  containerRuntime : gostring;
  containerRuntimeEndpoint : gostring;
  networkPlugins : list gostring;
  syncPeriod : Z;
  acceptICMPv6 : bool;
  acceptICMP : bool;
  allowSrcPrefixText : gostring;
  allowDstPrefixText : gostring;
  healthPort : Z;
  healthBindAddress : gostring;
  allowSrcPrefix : list gostring;
  allowDstPrefix : list gostring }.

Definition NewOptions : Options :=
  mkOptions [] [] [] [] Cri [] [] 0 false false [] [] 0 [] [] [].

(** The defaults the flags bring. *)
Definition AddFlags (o : Options) : Options :=
  mkOptions (Kubeconfig o) (master o) (hostnameOverride o) (hostPrefix o) (containerRuntime o)
    (containerRuntimeEndpoint o) [str "macvlan"] defaultSyncPeriod false false [] [] 0 []
    (allowSrcPrefix o) (allowDstPrefix o).

Definition set_allowSrcPrefix (l : list gostring) (o : Options) : Options :=
  mkOptions (Kubeconfig o) (master o) (hostnameOverride o) (hostPrefix o) (containerRuntime o)
    (containerRuntimeEndpoint o) (networkPlugins o) (syncPeriod o) (acceptICMPv6 o) (acceptICMP o)
    (allowSrcPrefixText o) (allowDstPrefixText o) (healthPort o) (healthBindAddress o) l (allowDstPrefix o).
Definition set_allowDstPrefix (l : list gostring) (o : Options) : Options :=
  mkOptions (Kubeconfig o) (master o) (hostnameOverride o) (hostPrefix o) (containerRuntime o)
    (containerRuntimeEndpoint o) (networkPlugins o) (syncPeriod o) (acceptICMPv6 o) (acceptICMP o)
    (allowSrcPrefixText o) (allowDstPrefixText o) (healthPort o) (healthBindAddress o) (allowSrcPrefix o) l.
Definition set_endpoint (e : gostring) (o : Options) : Options :=
  mkOptions (Kubeconfig o) (master o) (hostnameOverride o) (hostPrefix o) (containerRuntime o)
    e (networkPlugins o) (syncPeriod o) (acceptICMPv6 o) (acceptICMP o)
    (allowSrcPrefixText o) (allowDstPrefixText o) (healthPort o) (healthBindAddress o)
    (allowSrcPrefix o) (allowDstPrefix o).

(** The list is emptied first, and filled as far as the text is valid. *)
Definition parseIPPrefixText (prefixText : gostring) : ST (list gostring) unit :=
  if bool_decide (prefixText = []) then mret tt
  else
    modify (λ _, []) ≫= λ _,
    forM (strings.Split prefixText 44) (λ addrRaw,
      let addr := TrimSpace addrRaw in
      match ParseCIDR addr with
      | None => throw (ErrOther (str "invalid CIDR address: " ++ addr))
      | Some _ => modify (λ l, l ++ [addr])
      end).

Definition check {S} (bad : bool) (e : error) : ST S unit := if bad then throw e else mret tt.

Definition Validate : ST Options unit :=
  o ← get;
  check ((healthPort o <? 0) || (65535 <? healthPort o))
    (ErrOther (str "health-port " ++ itoa (healthPort o) ++ str " is out of range [0, 65535]")) ≫= λ _,
  check (negb (bool_decide (healthBindAddress o = [])) && bool_decide (ParseIP (healthBindAddress o) = None))
    (ErrOther (str "health-bind-address is not a valid IP address")) ≫= λ _,
  zoom allowSrcPrefix set_allowSrcPrefix (parseIPPrefixText (allowSrcPrefixText o)) ≫= λ _,
  zoom allowDstPrefix set_allowDstPrefix (parseIPPrefixText (allowDstPrefixText o)) ≫= λ _,
  let endpoint := TrimSpace (containerRuntimeEndpoint o) in
  modify (set_endpoint endpoint) ≫= λ _,
  check (bool_decide (endpoint = [])) (ErrOther "container-runtime-endpoint must not be empty") ≫= λ _,
  check (Contains endpoint "://")
    (ErrOther "container-runtime-endpoint must be an absolute filesystem path, not a URL") ≫= λ _,
  check (negb (IsAbs endpoint)) (ErrOther "container-runtime-endpoint must be an absolute filesystem path").

(** [os.Hostname] *)
Class Hostname := os_Hostname : result gostring.

(** [nodeutil.GetHostname] *)
Definition GetHostname `{Unicode} `{Hostname} (override : gostring) : result gostring :=
  hostName ← (if bool_decide (override = []) then wrap "couldn't determine hostname" os_Hostname
              else Ok override);
  let hostName := TrimSpace hostName in
  if bool_decide (hostName = []) then Err (ErrOther "empty hostname is invalid") else Ok (ToLower hostName).

Record ReconcilerConfig := mkReconcilerConfig {
  RC_Kubeconfig : gostring;
  RC_Master : gostring;
  RC_NodeName : gostring;
  RC_HostPrefix : gostring;
  RC_ContainerRuntimeEndpoint : gostring;
  RC_NetworkPlugins : list gostring;
  RC_SyncPeriodSeconds : Z;
  RC_CommonRuleConfig : CommonRuleConfig }.

Definition BuildReconcilerConfig `{Unicode} `{Hostname} : ST Options ReconcilerConfig :=
  wrapST "options validation" Validate ≫= λ _,
  o ← get;
  hostname ← wrapST "get hostname" (lift_result (GetHostname (hostnameOverride o)));
  mret (mkReconcilerConfig (Kubeconfig o) (master o) hostname (hostPrefix o) (containerRuntimeEndpoint o)
          (networkPlugins o) (syncPeriod o)
          (mkCommonCfg (acceptICMPv6 o) (acceptICMP o) (allowSrcPrefix o) (allowDstPrefix o))).

Definition HealthEnabled (o : Options) : bool := negb (healthPort o =? 0).
Definition HealthAddr (o : Options) : gostring := JoinHostPort (healthBindAddress o) (itoa (healthPort o)).

(** ** Lemmas *)

Lemma dtoiLoop_digits s n m :
  dtoiLoop s n = Some m → forallb is_digit s = true ∧ m = foldl (λ acc b, acc * 10 + (b - 48)) n s.
Proof.
  revert n. induction s as [|b s IH]; intros n; cbn; [by intros [= ->]|].
  destruct (is_digit b); [|done]. case_match; [done|]. intros [? ->]%IH. done.
Qed.

(** A mask with digits to spare in front. *)
Definition paddedMask (mask : gostring) : bool :=
  match mask with c :: _ :: _ => c =? 48 | _ => false end.

(** The mask of a CIDR: what follows its slash. *)
Definition maskOf (s : gostring) : gostring :=
  match Cut s "/" with Some (_, mask) => mask | None => [] end.

Lemma cutByte_app s t b : b ∉ s → cutByte (s ++ b :: t) b = (s, Some t).
Proof.
  induction s as [|c s IH]; cbn; intros Hb; [by rewrite Z.eqb_refl|].
  apply not_elem_of_cons in Hb as [Hc Hb]. destruct (Z.eqb_spec c b); [congruence|]. by rewrite IH.
Qed.

Lemma digits_no_slash s : forallb is_digit s = true → 47 ∉ s.
Proof.
  rewrite forallb_forall. intros Hd Hin%list_elem_of_In%Hd. done.
Qed.

Lemma dtoi_Atoi s n : dtoi s = Some n → Atoi s = Some n.
Proof.
  unfold dtoi. case_bool_decide as Hne; [done|]. intros Hd. pose proof (dtoiLoop_digits _ _ _ Hd) as [Hdig Hn].
  assert (0 ≤ n < 0xFFFFFF) as Hr.
  { clear Hne. assert (∀ s a m, 0 ≤ a < 0xFFFFFF → dtoiLoop s a = Some m → 0 ≤ m < 0xFFFFFF) as Hb.
    { clear. induction s as [|b s IH]; intros a m Ha; cbn; [by intros [= ->]|].
      destruct (is_digit b) eqn:E; [|done]. apply is_digit_range in E.
      destruct (Z.leb_spec 0xFFFFFF (a * 10 + (b - 48))); [done|]. apply IH. lia. }
    by apply (Hb s 0 n). }
  unfold Atoi. destruct s as [|b s]; [done|]. cbn in Hdig. apply andb_true_iff in Hdig as [Hb Hs].
  assert (Hb' := is_digit_range _ Hb).
  assert (match b :: s with 43 :: r => (false, r) | 45 :: r => (true, r) | _ => (false, b :: s) end = (false, b :: s)) as ->.
  { destruct b as [|p|p]; try done. do 6 (destruct p as [p|p|]; try done); lia. }
  rewrite bool_decide_eq_false_2 by done. cbn [forallb]. rewrite Hb, Hs. cbn [orb negb andb].
  unfold digits_val. rewrite <-Hn.
  replace ((- 2 ^ 63 <=? n) && (n <? 2 ^ 63)) with true; [done|]. symmetry. apply andb_true_iff. lia.
Qed.

Lemma dtoi_nonneg s n : dtoi s = Some n → 0 ≤ n.
Proof.
  unfold dtoi. case_bool_decide; [done|]. intros [Hdig ->]%dtoiLoop_digits.
  assert (∀ l a, forallb is_digit l = true → 0 ≤ a → 0 ≤ foldl (λ acc b, acc * 10 + (b - 48)) a l) as Hf.
  { induction l as [|x l IH]; intros a; cbn; [done|]. intros [Hx Hl]%andb_true_iff Ha.
    apply is_digit_range in Hx. apply IH; [done|lia]. }
  by apply Hf.
Qed.

(** An accepted CIDR is a prefix to [netip.ParsePrefix] too, unless its mask
    has a leading zero. *)
Lemma ParseCIDR_ParsePrefix s ip n :
  ParseCIDR s = Some (ip, n) →
  ParsePrefix s = if paddedMask (maskOf s) then None else Some (mkPrefix ip n).
Proof.
  unfold ParseCIDR, maskOf. destruct (Cut s "/") as [[a m]|] eqn:Ec; [|done]. cbn [mbind option_bind].
  apply Cut_spec in Ec. cbn [fst snd] in Ec. change (str "/") with [47] in Ec.
  destruct (ParseAddr a) as [ip'|] eqn:Ea; [|done]. cbn [mbind option_bind].
  case_bool_decide as Hz; cbn [negb]; [|done]. destruct (dtoi m) as [n'|] eqn:En; [|done]. cbn [mbind option_bind].
  destruct (Z.ltb_spec (BitLen ip') n'); [done|]. intros [= -> ->].
  assert (∃ b bs, m = b :: bs ∧ forallb is_digit m = true) as (b & bs & Hm & Hd).
  { unfold dtoi in En. case_bool_decide; [done|]. apply dtoiLoop_digits in En as [? _]. destruct m as [|b bs]; [done|].
    by exists b, bs. }
  unfold ParsePrefix, cutLastSlash. rewrite Ec, reverse_app, reverse_app.
  change (reverse [47]) with [47]. rewrite <-app_assoc. cbn [app].
  rewrite cutByte_app by (rewrite elem_of_reverse; by apply digits_no_slash). rewrite !reverse_involutive.
  cbn [mbind option_bind]. rewrite Ea. cbn [mbind option_bind].
  rewrite (bool_decide_eq_true_2 (Addr_zone ip = [])) by done. rewrite andb_false_r.
  rewrite (dtoi_Atoi _ _ En). cbn [mbind option_bind].
  pose proof (dtoi_nonneg _ _ En).
  destruct (Z.ltb_spec n 0); [lia|]. destruct (Z.ltb_spec (BitLen ip) n); [lia|]. cbn [orb].
  subst m. cbn [forallb] in Hd. apply andb_true_iff in Hd as [Hb%is_digit_range _]. destruct bs as [|b' bs]; [done|].
  unfold paddedMask. destruct (Z.eqb_spec b 48) as [->|Hne]; [done|].
  by replace ((49 <=? b) && (b <=? 57)) with true by lia.
Qed.

(** A text of CIDRs, each as its spaces are trimmed. *)
Definition textCIDRs (text : gostring) : list gostring :=
  if bool_decide (text = []) then [] else TrimSpace <$> strings.Split text 44.
Definition textOk (text : gostring) : bool :=
  forallb (λ a, bool_decide (is_Some (ParseCIDR a))) (textCIDRs text).

Lemma prefixLoop_spec raws (l : list gostring) :
  let run := forM raws (λ addrRaw,
    let addr := TrimSpace addrRaw in
    match ParseCIDR addr with
    | None => throw (ErrOther (str "invalid CIDR address: " ++ addr))
    | Some _ => modify (λ l, l ++ [addr])
    end) l in
  is_ok run.1 = forallb (λ a, bool_decide (is_Some (ParseCIDR a))) (TrimSpace <$> raws) ∧
  (is_ok run.1 = true → run.2 = l ++ (TrimSpace <$> raws)).
Proof.
  cbv zeta. revert l. induction raws as [|a raws IH]; intros l; cbn [forM fmap list_fmap forallb].
  { cbn. by rewrite app_nil_r. }
  unfold mbind, ST_bind. destruct (ParseCIDR (TrimSpace a)) as [p|]; cbn [throw modify]; [|done].
  rewrite bool_decide_eq_true_2 by done. cbn [andb]. destruct (IH (l ++ [TrimSpace a])) as [-> Hf].
  split; [done|]. intros Hok. rewrite Hf by done. by rewrite <-app_assoc.
Qed.

(** What a text does to the list it fills: the CIDRs of the text when it has
    any and all are valid. *)
Lemma parseIPPrefixText_spec text l :
  is_ok (parseIPPrefixText text l).1 = textOk text ∧
  (textOk text = true →
   (parseIPPrefixText text l).2 = if bool_decide (text = []) then l else textCIDRs text).
Proof.
  unfold parseIPPrefixText, textOk, textCIDRs. case_bool_decide; [done|].
  rewrite (bind_step _ _ _ tt []) by done. pose proof (prefixLoop_spec (strings.Split text 44) []) as [He Hf].
  cbv zeta in He, Hf. split; [exact He|]. rewrite <-He. exact Hf.
Qed.

(** [Validate] as one decision. *)
Definition validOptions (o : Options) : bool :=
  let endpoint := TrimSpace (containerRuntimeEndpoint o) in
  ((0 <=? healthPort o) && (healthPort o <=? 65535)) &&
  (bool_decide (healthBindAddress o = []) || bool_decide (is_Some (ParseIP (healthBindAddress o)))) &&
  textOk (allowSrcPrefixText o) && textOk (allowDstPrefixText o) &&
  negb (Contains endpoint "://") && IsAbs endpoint.

(** The options after a successful validation. *)
Definition validated (o : Options) : Options :=
  set_endpoint (TrimSpace (containerRuntimeEndpoint o))
    (set_allowDstPrefix (if bool_decide (allowDstPrefixText o = []) then allowDstPrefix o
                         else textCIDRs (allowDstPrefixText o))
      (set_allowSrcPrefix (if bool_decide (allowSrcPrefixText o = []) then allowSrcPrefix o
                           else textCIDRs (allowSrcPrefixText o)) o)).

Lemma Validate_cases o :
  is_ok (Validate o).1 = validOptions o ∧ (validOptions o = true → (Validate o).2 = validated o).
Proof.
  unfold Validate, validOptions, check, mbind, ST_bind, get, mret, ST_ret, throw, modify, zoom. cbn [fst snd].
  assert (((healthPort o <? 0) || (65535 <? healthPort o)) =
    negb ((0 <=? healthPort o) && (healthPort o <=? 65535))) as -> by lia.
  destruct ((0 <=? healthPort o) && (healthPort o <=? 65535)); cbn [negb andb]; [|done].
  assert ((negb (bool_decide (healthBindAddress o = [])) && bool_decide (ParseIP (healthBindAddress o) = None)) =
    negb (bool_decide (healthBindAddress o = []) || bool_decide (is_Some (ParseIP (healthBindAddress o))))) as ->.
  { rewrite negb_orb. f_equal. destruct (ParseIP _); [|done]. by rewrite bool_decide_eq_false_2. }
  destruct (_ || _); cbn [negb andb]; [|done].
  destruct (parseIPPrefixText_spec (allowSrcPrefixText o) (allowSrcPrefix o)) as [Hs1 Hs2].
  destruct (parseIPPrefixText (allowSrcPrefixText o) (allowSrcPrefix o)) as [[[]|e] l]; cbn in Hs1, Hs2 |- *;
    rewrite <-Hs1; cbn [andb]; [|done].
  destruct (parseIPPrefixText_spec (allowDstPrefixText o) (allowDstPrefix o)) as [Hd1 Hd2].
  destruct (parseIPPrefixText (allowDstPrefixText o) (allowDstPrefix o)) as [[[]|e] l']; cbn in Hd1, Hd2 |- *;
    rewrite <-Hd1; cbn [andb]; [|done].
  assert (IsAbs [] = false) as Habs by done. unfold validated. rewrite <-Hs2, <-Hd2 by done.
  destruct (bool_decide (TrimSpace (containerRuntimeEndpoint o) = [])) eqn:Ee.
  { apply bool_decide_eq_true in Ee. rewrite Ee. split; [done|]. by rewrite Habs, andb_false_r. }
  destruct (Contains _ _); cbn [negb andb]; [done|]. by destruct (IsAbs (TrimSpace (containerRuntimeEndpoint o))).
Qed.

(** A validated list gives interval sets unless one of its masks is padded. *)
Definition usableText (text : gostring) : bool := forallb (λ a, negb (paddedMask (maskOf a))) (textCIDRs text).

Lemma textOk_usable text :
  textOk text = true → is_ok (getPrefixesAsSetInterval (textCIDRs text)) = usableText text.
Proof.
  unfold textOk, usableText. intros Hok. rewrite getPrefixes_eq. induction (textCIDRs text) as [|a l IH]; [done|].
  cbn [forallb] in Hok. apply andb_true_iff in Hok as [[[ip n] Ha]%bool_decide_eq_true Hl]. specialize (IH Hl).
  cbn [mapM forallb]. rewrite (ParseCIDR_ParsePrefix _ _ _ Ha). destruct (paddedMask (maskOf a)); [done|].
  cbn [mbind option_bind negb andb]. rewrite <-IH. by destruct (mapM ParsePrefix l).
Qed.

(** ** Properties *)

(** C24: the options are accepted exactly when the port is in range, the bind
    address is an IP address or empty, every entry of the two prefix texts is
    a CIDR once trimmed, and the trimmed runtime endpoint is an absolute path
    and no URL; the accepted options then hold the trimmed endpoint and the
    CIDRs of the texts. *)
Theorem Validate_correct o :
  is_ok (Validate o).1 = validOptions o ∧ (is_ok (Validate o).1 = true → (Validate o).2 = validated o).
Proof. destruct (Validate_cases o) as [H1 H2]. split; [done|]. by rewrite H1. Qed.

Example padded_mask_accepted :
  textOk "10.0.0.0/08, fe80::/10" = true ∧
  is_ok (getPrefixesAsSetInterval (textCIDRs "10.0.0.0/08, fe80::/10")) = false ∧
  is_ok (getPrefixesAsSetInterval (textCIDRs "10.0.0.0/8, fe80::/10")) = true.
Proof. vm_compute. done. Qed.
