(* ===== verification/Health.v ===== *)
(** * Health and readiness

    The [Server] of pkg/server/server.go, the HTTP handlers and the life of
    the health server of pkg/server/healthserver.go, and the runnable and the
    shutdown watcher of cmd/multi-networkpolicy-nftables/main.go that set its
    flags. The flags are atomics that several goroutines use at once: each
    load and each store is a step of its own. *)

From S2P Require Import Prelude GoStd Text Names.
From stdpp Require Import relations.

(** ** Server *)

Record Server := mkServer {
  policySynced : bool;
  netdefSynced : bool;
  nsSynced : bool;
  shuttingDown : bool }.

Definition NewServer : Server := mkServer false false false false.

Definition AllSynced (s : Server) : bool := policySynced s && netdefSynced s && nsSynced s.
Definition MarkPolicySynced (s : Server) : Server := mkServer true (netdefSynced s) (nsSynced s) (shuttingDown s).
Definition MarkNetDefSynced (s : Server) : Server := mkServer (policySynced s) true (nsSynced s) (shuttingDown s).
Definition MarkNSSynced (s : Server) : Server := mkServer (policySynced s) (netdefSynced s) true (shuttingDown s).
Definition MarkShuttingDown (s : Server) : Server := mkServer (policySynced s) (netdefSynced s) (nsSynced s) true.

(** ** Handlers *)

Definition StatusOK : Z := 200.
Definition StatusServiceUnavailable : Z := 503.

Definition healthz (_ : Server) : Z * gostring := (StatusOK, str "ok").
Definition readyz (s : Server) : Z * gostring :=
  if shuttingDown s then (StatusServiceUnavailable, str "shutting down")
  else if AllSynced s then (StatusOK, str "ok")
  else (StatusServiceUnavailable, str "not ready").

(** A /readyz request between two loads: before the load of [shuttingDown],
    before the loads of [AllSynced], which stop at the first [false], or
    answered. *)
Inductive request :=
  | LoadShutdown
  | LoadPolicy
  | LoadNetdef
  | LoadNS
  | Answered (status : Z).

Definition request_step (s : Server) (q : request) : request :=
  match q with
  | LoadShutdown => if shuttingDown s then Answered StatusServiceUnavailable else LoadPolicy
  | LoadPolicy => if policySynced s then LoadNetdef else Answered StatusServiceUnavailable
  | LoadNetdef => if netdefSynced s then LoadNS else Answered StatusServiceUnavailable
  | LoadNS => Answered (if nsSynced s then StatusOK else StatusServiceUnavailable)
  | Answered n => Answered n
  end.

(** ** The goroutines that set the flags *)

(** The informers [healthSyncRunnable] waits for, in its order. *)
Inductive informer := PolicyInformer | NetDefInformer | NamespaceInformer.
#[export] Instance informer_eq_dec : EqDecision informer.
Proof. solve_decision. Defined.

Definition targets : list informer := [PolicyInformer; NetDefInformer; NamespaceInformer].
Definition mark (i : informer) : Server → Server :=
  match i with
  | PolicyInformer => MarkPolicySynced
  | NetDefInformer => MarkNetDefSynced
  | NamespaceInformer => MarkNSSynced
  end.
Definition marked (i : informer) (s : Server) : bool :=
  match i with
  | PolicyInformer => policySynced s
  | NetDefInformer => netdefSynced s
  | NamespaceInformer => nsSynced s
  end.

Definition NeedLeaderElection : bool := false.

(** [Start] of the runnable in a world where each [GetInformer] returns an
    error or not: the flags it leaves. *)
Fixpoint healthSyncStart (GetInformer : informer → result unit) (ts : list informer) (s : Server)
    : result unit * Server :=
  match ts with
  | [] => (Ok tt, s)
  | t :: ts =>
    match GetInformer t with
    | Err e => (Err (ErrWrap "wait for informer sync" e), s)
    | Ok _ => healthSyncStart GetInformer ts (mark t s)
    end
  end.

(** The same goroutine between its steps: waiting in [GetInformer] for the
    first of these informers, or about to mark it. *)
Inductive syncer :=
  | Waiting (ts : list informer)
  | Marking (t : informer) (ts : list informer)
  | SyncerDone.

(** The shutdown watcher of [run]: waiting for its context, or past it. *)
Inductive watcher := Watching | WatcherWoken | WatcherDone.

(** The process as /readyz sees it: the flags, the informers that have synced,
    whether the signal context is cancelled and whether [run] has cancelled
    the watcher's, the goroutines, and the requests, each with the value
    [shuttingDown] had when it arrived. *)
Record process := mkProcess {
  flags : Server;
  informed : list informer;
  signalled : bool;
  cancelled : bool;
  sync_pc : syncer;
  watch_pc : watcher;
  requests : list (bool * request) }.

Definition start_process : process :=
  mkProcess NewServer [] false false (Waiting targets) Watching [].

Inductive step : process → process → Prop :=
  | step_informed i f inf sg c sp wp qs :
      step (mkProcess f inf sg c sp wp qs) (mkProcess f (i :: inf) sg c sp wp qs)
  | step_signal f inf sg c sp wp qs :
      step (mkProcess f inf sg c sp wp qs) (mkProcess f inf true c sp wp qs)
  | step_cancel f inf sg c sp wp qs :
      step (mkProcess f inf sg c sp wp qs) (mkProcess f inf sg true sp wp qs)
  | step_synced t ts f inf sg c wp qs :
      t ∈ inf →
      step (mkProcess f inf sg c (Waiting (t :: ts)) wp qs) (mkProcess f inf sg c (Marking t ts) wp qs)
  | step_sync_error t ts f inf sg c wp qs :
      step (mkProcess f inf sg c (Waiting (t :: ts)) wp qs) (mkProcess f inf sg c SyncerDone wp qs)
  | step_mark t ts f inf sg c wp qs :
      step (mkProcess f inf sg c (Marking t ts) wp qs) (mkProcess (mark t f) inf sg c (Waiting ts) wp qs)
  | step_sync_end f inf sg c wp qs :
      step (mkProcess f inf sg c (Waiting []) wp qs) (mkProcess f inf sg c SyncerDone wp qs)
  | step_wake f inf sg c sp qs :
      sg || c = true →
      step (mkProcess f inf sg c sp Watching qs) (mkProcess f inf sg c sp WatcherWoken qs)
  | step_watch f inf sg c sp qs :
      step (mkProcess f inf sg c sp WatcherWoken qs)
           (mkProcess (if sg then MarkShuttingDown f else f) inf sg c sp WatcherDone qs)
  | step_arrive f inf sg c sp wp qs :
      step (mkProcess f inf sg c sp wp qs) (mkProcess f inf sg c sp wp (qs ++ [(shuttingDown f, LoadShutdown)]))
  | step_request n b q f inf sg c sp wp qs :
      qs !! n = Some (b, q) →
      step (mkProcess f inf sg c sp wp qs) (mkProcess f inf sg c sp wp (<[n := (b, request_step f q)]> qs)).

Definition reachable (p : process) : Prop := rtc step start_process p.

(** ** Lemmas *)

(** A request alone gives the answer of the handler. *)
Lemma readyz_request s : Nat.iter 4 (request_step s) LoadShutdown = Answered (readyz s).1.
Proof.
  by destruct s as [[] [] [] []].
Qed.

Lemma healthSyncStart_spec GetInformer ts s :
  (∀ t, t ∈ ts → is_ok (GetInformer t) = true) →
  healthSyncStart GetInformer ts s = (Ok tt, foldl (λ s t, mark t s) s ts).
Proof.
  revert s. induction ts as [|t ts IH]; intros s Hall; [done|]. cbn.
  destruct (GetInformer t) eqn:E; [apply IH; set_solver|].
  assert (is_ok (GetInformer t) = true) as Ht by (apply Hall; by left). by rewrite E in Ht.
Qed.

(** The flags a request has already seen are set. *)
Definition request_ok (f : Server) (x : bool * request) : Prop :=
  match x.2 with
  | LoadShutdown => x.1 = true → shuttingDown f = true
  | LoadPolicy => x.1 = false
  | LoadNetdef => x.1 = false ∧ policySynced f = true
  | LoadNS => x.1 = false ∧ policySynced f = true ∧ netdefSynced f = true
  | Answered n => (n = StatusOK → x.1 = false ∧ AllSynced f = true) ∧ (n = StatusOK ∨ n = StatusServiceUnavailable)
  end.

Definition process_ok (p : process) : Prop :=
  (∀ i, marked i (flags p) = true → i ∈ informed p) ∧
  (match sync_pc p with Marking t _ => t ∈ informed p | _ => True end) ∧
  (shuttingDown (flags p) = true → signalled p = true) ∧
  Forall (request_ok (flags p)) (requests p).

(** Flags are only ever set. *)
Definition flags_le (f g : Server) : Prop :=
  (policySynced f = true → policySynced g = true) ∧ (netdefSynced f = true → netdefSynced g = true) ∧
  (nsSynced f = true → nsSynced g = true) ∧ (shuttingDown f = true → shuttingDown g = true).

Lemma request_ok_mono f g x : flags_le f g → request_ok f x → request_ok g x.
Proof.
  intros (H1 & H2 & H3 & H4). destruct x as [b []]; unfold request_ok, AllSynced; cbn.
  - intros Hb ?. auto.
  - done.
  - intros [??]. auto.
  - intros (? & ? & ?). auto.
  - intros [Ha Hb]. split; [|done]. intros Hn.
    destruct (Ha Hn) as [? [[? ?]%andb_true_iff ?]%andb_true_iff].
    split; [done|]. by rewrite H1, H2, H3.
Qed.

Lemma requests_mono f g qs : flags_le f g → Forall (request_ok f) qs → Forall (request_ok g) qs.
Proof. intros Hle HF. eapply Forall_impl; [exact HF|]. intros x. by apply request_ok_mono. Qed.

Lemma flags_le_mark i f : flags_le f (mark i f).
Proof. destruct i; by repeat split. Qed.
Lemma flags_le_shutdown f : flags_le f (MarkShuttingDown f).
Proof. by repeat split. Qed.

Lemma request_step_ok f x : request_ok f x → request_ok f (x.1, request_step f x.2).
Proof.
  destruct x as [b q]. unfold request_ok, request_step, AllSynced. cbn.
  destruct q; cbn; try done.
  - destruct (shuttingDown f); [by intros; split; [|right]|]. intros Hb. by destruct b; [specialize (Hb eq_refl)|].
  - destruct (policySynced f); [done|]. by intros; split; [|right].
  - destruct (netdefSynced f); [intros [??]; auto|]. by intros; split; [|right].
  - intros (-> & -> & ->). destruct (nsSynced f); (split; [|auto]); [auto|done].
Qed.

Lemma marked_mark i j f : marked i (mark j f) = bool_decide (i = j) || marked i f.
Proof. by destruct i, j. Qed.

Lemma step_ok p p' : step p p' → process_ok p → process_ok p'.
Proof.
  unfold process_ok. intros []; cbn; intros (H1 & H2 & H3 & H4); (split; [|split; [|split]]); try assumption;
    try exact I.
  - intros j Hj. right. by apply H1.
  - destruct sp; [done|by right|done].
  - done.
  - intros i. rewrite marked_mark. intros [->%bool_decide_eq_true|?]%orb_true_iff; auto.
  - intros Hs. apply H3. by destruct t.
  - eapply requests_mono; [apply flags_le_mark|done].
  - intros i Hi. apply H1. by destruct sg, i.
  - destruct sg; [done|auto].
  - destruct sg; [|done]. eapply requests_mono; [apply flags_le_shutdown|done].
  - apply Forall_app. split; [done|]. constructor; [by intros ?|constructor].
  - apply Forall_insert; [done|]. apply (request_step_ok f (b, q)). by eapply Forall_lookup_1 in H4.
Qed.

Lemma reachable_ok p : reachable p → process_ok p.
Proof.
  apply (rtc_ind_r (R:=step) process_ok start_process).
  - split_and!; cbn; [by intros []|done|done|constructor].
  - intros p1 p2 _ Hs Hok. by eapply step_ok.
Qed.

(** ** Properties *)

(** C18: however the goroutines interleave, /readyz answers 200 only to a
    request that arrived before the shutdown was announced and after every
    informer has synced; it answers nothing but 200 and 503; and the shutdown
    is only announced once a signal was received. *)
Theorem readyz_sound p b n :
  reachable p → (b, Answered n) ∈ requests p →
  (n = StatusOK ∨ n = StatusServiceUnavailable) ∧
  (n = StatusOK → b = false ∧ AllSynced (flags p) = true ∧ ∀ i, i ∈ informed p) ∧
  (shuttingDown (flags p) = true → signalled p = true).
Proof.
  intros (H1 & _ & H3 & H4)%reachable_ok Hin. rewrite Forall_forall in H4.
  destruct (H4 _ Hin) as [Ha Hb]. cbn in Ha, Hb. split_and!; [done| |done]. intros Hn.
  destruct (Ha Hn) as [Hfalse Hall]. split_and!; [done..|].
  intros i. apply H1. unfold AllSynced in Hall. apply andb_true_iff in Hall as [[? ?]%andb_true_iff ?]. by destruct i.
Qed.

(** ** The life of the health server *)

(** The goroutine [Start] spawns: before it closes [serving], in [Serve],
    after [Serve] returned, and gone. *)
Inductive serve_pc := Spawned | Serving | ServeReturned | ServeExited.

(** [Stop]: waiting for [serving], closing the listener, shutting the server
    down, waiting for the goroutine, and returned. *)
Inductive stop_pc := AwaitServing | CloseListener | ShutdownServer | AwaitGroup | StopReturned.

Record HealthServer := mkHealthServer {
  serving_closed : bool;
  ln_closed : bool;
  inShutdown : bool;
  wg : nat;
  serve_at : serve_pc;
  stop_at : stop_pc }.

(** The [http.Server] that [NewHealthServer] makes: its address, its multiplexer
    and the timeout, in nanoseconds; no listener and no goroutine yet. A
    pattern without a trailing slash matches its path only, and the
    multiplexer answers any other path itself. *)
Record http_Server := mkHttpServer {
  http_Addr : gostring;
  http_Handler : gostring → Server → Z * gostring;
  ReadHeaderTimeout : Z }.
Definition NewHealthServer (addr : gostring) : http_Server :=
  mkHttpServer addr
    (λ path s,
      if bool_decide (path = str "/healthz") then healthz s
      else if bool_decide (path = str "/readyz") then readyz s
      else (404%Z, str "404 page not found"))
    (5 * 1000000000).

(** [Start]: the listener, then the goroutine. *)
Definition HealthServer_Start (Listen : result unit) : result HealthServer :=
  _ ← wrap "health server failed to listen" Listen;
  Ok (mkHealthServer false false false 1 Spawned AwaitServing).

(** Who takes a step: the program, or [Serve] returning by an error of its own,
    which nothing makes it do. *)
Inductive life_actor := Program | ServeError.

(** [Serve] returns once the listener is closed or the server shut down, or by
    an error of its own; [Shutdown] returns, at the latest after its timeout. *)
Inductive life_step : life_actor → HealthServer → HealthServer → Prop :=
  | life_serving lc sd w st :
      life_step Program (mkHealthServer false lc sd w Spawned st) (mkHealthServer true lc sd w Serving st)
  | life_returned sv lc sd w st :
      lc || sd = true →
      life_step Program (mkHealthServer sv lc sd w Serving st) (mkHealthServer sv lc sd w ServeReturned st)
  | life_failed sv lc sd w st :
      life_step ServeError (mkHealthServer sv lc sd w Serving st) (mkHealthServer sv lc sd w ServeReturned st)
  | life_done sv lc sd w st :
      life_step Program (mkHealthServer sv lc sd (S w) ServeReturned st) (mkHealthServer sv lc sd w ServeExited st)
  | stop_serving lc sd w g :
      life_step Program (mkHealthServer true lc sd w g AwaitServing) (mkHealthServer true lc sd w g CloseListener)
  | stop_close sv lc sd w g :
      life_step Program (mkHealthServer sv lc sd w g CloseListener) (mkHealthServer sv true sd w g ShutdownServer)
  | stop_shutdown sv lc sd w g :
      life_step Program (mkHealthServer sv lc sd w g ShutdownServer) (mkHealthServer sv lc true w g AwaitGroup)
  | stop_wait sv lc sd g :
      life_step Program (mkHealthServer sv lc sd 0 g AwaitGroup) (mkHealthServer sv lc sd 0 g StopReturned).

(** A step of either. *)
Definition life_any (h h' : HealthServer) : Prop := ∃ a, life_step a h h'.

Definition serve_left (g : serve_pc) : nat :=
  match g with Spawned => 3 | Serving => 2 | ServeReturned => 1 | ServeExited => 0 end.
Definition stop_left (s : stop_pc) : nat :=
  match s with AwaitServing => 4 | CloseListener => 3 | ShutdownServer => 2 | AwaitGroup => 1 | StopReturned => 0 end.
Definition life_left (h : HealthServer) : nat := serve_left (serve_at h) + stop_left (stop_at h).

Definition life_ok (h : HealthServer) : Prop :=
  serving_closed h = negb (bool_decide (serve_left (serve_at h) = 3%nat)) ∧
  wg h = (if decide (serve_left (serve_at h) = 0%nat) then 0 else 1)%nat ∧
  ((stop_left (stop_at h) ≤ 2)%nat → ln_closed h = true) ∧
  (stop_at h = StopReturned → serve_at h = ServeExited).

Lemma life_step_left h h' : life_any h h' → life_left h = S (life_left h').
Proof. intros [? []]; unfold life_left; cbn; lia. Qed.

Lemma life_step_ok h h' : life_any h h' → life_ok h → life_ok h'.
Proof.
  unfold life_ok. intros [? []]; cbn; intros (H1 & H2 & H3 & H4); split_and!; try done; try (intros; lia);
    try (intros Hst; by specialize (H4 Hst)); try (intros; apply H3; lia).
  - by injection H2.
  - intros _. by destruct g.
Qed.

(** [Stop] is never stuck, even on a [Serve] that would serve forever. *)
Lemma life_progress h :
  life_ok h → (∃ h', life_step Program h h') ∨ (stop_at h = StopReturned ∧ serve_at h = ServeExited).
Proof.
  destruct h as [sv lc sd w g st]. unfold life_ok. cbn. intros (H1 & H2 & H3 & H4).
  destruct g; cbn in H1, H2; subst sv w.
  - left. eexists. apply life_serving.
  - destruct st; [left; eexists; constructor..|by discriminate (H4 eq_refl)]; by rewrite H3 by (cbn; lia).
  - left. eexists. apply life_done.
  - destruct st; [left; eexists; constructor..|by right].
Qed.

(** C19: [Stop] after a successful [Start] always returns, however it
    interleaves with the serving goroutine and even if [Serve] would never
    return by itself: the two take at most seven steps together, before both
    are done the program always has a step of its own to take, and [Stop] has
    returned only after the goroutine is gone. *)
Theorem Stop_terminates Listen h0 :
  HealthServer_Start Listen = Ok h0 →
  ∀ n h, nsteps life_any n h0 h →
  (n ≤ 7)%nat ∧
  ((∃ h', life_step Program h h') ∨ (stop_at h = StopReturned ∧ serve_at h = ServeExited)) ∧
  (stop_at h = StopReturned → serve_at h = ServeExited).
Proof.
  unfold HealthServer_Start. destruct Listen; cbn; [|done]. intros [= <-] n h Hn.
  assert (∀ n h1 h2, nsteps life_any n h1 h2 → life_ok h1 → life_ok h2 ∧ life_left h1 = (n + life_left h2)%nat) as Hrun.
  { clear. induction 1 as [|n h1 h2 h3 Hs _ IH]; [done|]. intros Hok.
    destruct IH as [? Heq]; [by eapply life_step_ok|]. apply life_step_left in Hs. split; [done|]. lia. }
  destruct (Hrun _ _ _ Hn) as [Hok Hleft]; [split_and!; cbn; try done; intros; lia|]. unfold life_left at 1 in Hleft. cbn in Hleft.
  split_and!; [lia|by apply life_progress|]. apply Hok.
Qed.
