(* ===== verification/Main.v ===== *)
(** * The process

    [run] and [startManagerAndCleanup] of
    cmd/multi-networkpolicy-nftables/main.go: what the process sets up, in
    which order it releases it, and when the shutdown cleanup runs. The
    manager is controller-runtime's; it is what it documents itself to be: it
    delivers requests to the reconciler until its context is cancelled or it
    fails. Deferred calls run last in, first out, also when a later step
    fails or panics. *)

From S2P Require Import Prelude GoStd Text Names Netip Api Elements PodInfo Cri Nft Conn RefKernel State Legacy Rules Cleanup Server Events Reconciler Daemon Options.

(** What the process does that others can see. *)
Inductive act :=
  | HealthStarted (addr : gostring)
  | HealthStopped
  | WatcherSpawned
  | WatcherCancelled
  | WatcherWaited
  | ManagerStarted
  | CleanupRun
  | CRIClosed.

(** The API groups the manager's scheme knows. *)
Inductive apiGroup := multiv1beta1 | netdefv1 | corev1.

(** What the libraries answer to one run of the process. [mgr_requests] are
    the requests the manager delivers before it stops, [mgr_Start] its error,
    [ctx_Err] the error of the signal context at that time. *)
Record MainEnv := mkMainEnv {
  InClusterConfig : result unit;
  ClientConfig : gostring → gostring → result unit;
  AddToScheme : apiGroup → result unit;
  NewManager : Z → result unit;
  SetupIndexes : result unit;
  mgr_Add : result unit;
  Listen : gostring → result unit;
  SetupController : result unit;
  NewDirectClient : result unit;
  mgr_requests : list gostring;
  mgr_Start : result unit;
  ctx_Err : option error;
  cleanupCtx_Err : nat → option error }.

(** [SetupScheme] of pkg/controller/scheme.go *)
Definition SetupScheme (env : MainEnv) : result unit :=
  AddToScheme env multiv1beta1 ≫= λ _, AddToScheme env netdefv1 ≫= λ _, AddToScheme env corev1.

Section main.
Context {K : Type} `{LawfulKernel K} `{Gob} `{Arch} `{LabelApi} `{MapOrder} `{Json} `{FloatConv} `{Grpc}
  `{Sorting} `{!Cluster} `{Netns} `{!PolicyOrder} `{Unicode} `{Hostname}.

Record Proc := mkProc { p_world : World K; p_log : list act }.
Abbreviation P := (ST Proc).

Definition log (a : act) : P unit := modify (λ p, mkProc (p_world p) (p_log p ++ [a])).
Definition onWorld {A} (m : ST (World K) A) : P A := zoom p_world (λ w p, mkProc w (p_log p)) m.

(** [defer d; body] *)
Definition defer {A} (d : P unit) (body : P A) : P A := λ p,
  let '(r, p1) := body p in (r, (d p1).2).

(** [startManagerAndCleanup]; a panic of the cleanup is let through. *)
Definition startManagerAndCleanup (start : P unit) (ctxErr : option error) (cleanup : P unit) : P unit :=
  startErr ← try start;
  match startErr, ctxErr with
  | Err e, None => throw e
  | _, _ =>
    cleanupErr ← try cleanup;
    if existsb isPanic (err_list cleanupErr) then lift_result cleanupErr
    else joinErrs (err_list startErr ++ err_list cleanupErr)
  end.

Definition reconcilerOf (cfg : ReconcilerConfig) : NodeReconciler (K:=K) :=
  mkReconciler (RC_NodeName cfg) None (RC_HostPrefix cfg) (RC_NetworkPlugins cfg) (RC_CommonRuleConfig cfg)
    (RC_ContainerRuntimeEndpoint cfg) None.

(** The manager: the error of a reconcile only makes it deliver the request
    again, and a panic is recovered. *)
Definition runManager (env : MainEnv) (r : NodeReconciler (K:=K)) : P unit :=
  log ManagerStarted ≫= λ _,
  forM (mgr_requests env) (λ req, try (onWorld (Reconcile r req)) ≫= λ _, mret tt) ≫= λ _,
  lift_result (mgr_Start env).

(** The health server and its shutdown watcher around the rest of [run]. *)
Definition withHealth (env : MainEnv) (enabled : bool) (addr : gostring) (body : P unit) : P unit :=
  if enabled then
    wrapST "start health server" (lift_result (Listen env addr)) ≫= λ _,
    log (HealthStarted addr) ≫= λ _,
    defer (log HealthStopped)
      (defer (log WatcherWaited)
        (defer (log WatcherCancelled)
          (log WatcherSpawned ≫= λ _, body)))
  else body.

Definition runReconciler (env : MainEnv) (cfg : ReconcilerConfig) : P unit :=
  let r := reconcilerOf cfg in
  defer (try (onWorld (onCri CloseCRI)) ≫= λ _, log CRIClosed)
    (wrapST "setup reconciler" (lift_result (SetupController env)) ≫= λ _,
     wrapST "create direct client for cleanup" (lift_result (NewDirectClient env)) ≫= λ _,
     startManagerAndCleanup (runManager env r) (ctx_Err env)
       (log CleanupRun ≫= λ _, onWorld (CleanupOnShutdown r (cleanupCtx_Err env)))).

Definition run (env : MainEnv) (opts : Options) : P unit :=
  let '(rcfg, opts) := BuildReconcilerConfig opts in
  cfg ← wrapST "build reconciler config" (lift_result rcfg);
  wrapST "build kubeconfig"
    (lift_result (if bool_decide (RC_Kubeconfig cfg = []) then InClusterConfig env
                  else ClientConfig env (RC_Kubeconfig cfg) (RC_Master cfg))) ≫= λ _,
  wrapST "setup scheme" (lift_result (SetupScheme env)) ≫= λ _,
  wrapST "create manager" (lift_result (NewManager env (RC_SyncPeriodSeconds cfg * Second))) ≫= λ _,
  wrapST "setup indexes" (lift_result (SetupIndexes env)) ≫= λ _,
  wrapST "add health sync runnable" (lift_result (mgr_Add env)) ≫= λ _,
  withHealth env (HealthEnabled opts) (HealthAddr opts) (runReconciler env cfg).

(** How the process ends: its exit status, and whether the deferred
    [klog.Flush] ran. *)
Record ending := mkEnding { exitCode : Z; logsFlushed : bool }.

(** [main]; [parsed] is what cobra makes of the command line: the options, or
    its error. [os.Exit] does not run deferred calls; a panic does, on its way
    out of the process. *)
Definition main (env : MainEnv) (parsed : result Options) (p : Proc) : ending * Proc :=
  let '(r, p) := match parsed with Ok opts => run env opts p | Err e => (Err e, p) end in
  match r with
  | Ok _ => (mkEnding 0 true, p)
  | Err e => (if isPanic e then mkEnding 2 true else mkEnding 1 false, p)
  end.

(** ** Lemmas *)

(** The process started in [p] and ended in [p'] did [acts]. *)
Definition did (p p' : Proc) (acts : list act) : Prop := p_log p' = p_log p ++ acts.

Lemma onWorld_log {A} (m : ST (World K) A) p : p_log (onWorld m p).2 = p_log p.
Proof. unfold onWorld, zoom. by destruct (m (p_world p)). Qed.

Lemma requests_log (r : NodeReconciler (K:=K)) reqs p :
  ∃ p', forM reqs (λ req, try (onWorld (Reconcile r req)) ≫= λ _, mret tt) p = (Ok tt, p') ∧ p_log p' = p_log p.
Proof.
  revert p. induction reqs as [|q reqs IH]; intros p; cbn [forM]; [by exists p|].
  unfold mbind, ST_bind, try. pose proof (onWorld_log (Reconcile r q) p) as Hl.
  destruct (onWorld (Reconcile r q) p) as [res p1]. cbn in Hl |- *. destruct (IH p1) as (p' & Hp & Hl').
  exists p'. split; [exact Hp|]. by rewrite Hl', Hl.
Qed.

Lemma runManager_log env r p :
  (runManager env r p).1 = mgr_Start env ∧ did p (runManager env r p).2 [ManagerStarted].
Proof.
  destruct (requests_log r (mgr_requests env) (log ManagerStarted p).2) as (p' & Hf & Hl).
  assert (runManager env r p = (mgr_Start env, p')) as ->; [|by split].
  unfold runManager. rewrite (bind_step _ _ _ tt (log ManagerStarted p).2) by done.
  by rewrite (bind_step _ _ _ _ _ Hf).
Qed.

(** The cleanup runs exactly when the manager ended well or by a signal. *)
Definition cleansUp (env : MainEnv) : bool := is_ok (mgr_Start env) || bool_decide (is_Some (ctx_Err env)).

Definition joined (es : list error) : result unit :=
  match es with [] => Ok tt | _ => Err (ErrJoin es) end.

Lemma startManagerAndCleanup_run start ctxErr cleanup p :
  let '(s, p1) := start p in
  let '(c, p2) := cleanup p1 in
  startManagerAndCleanup start ctxErr cleanup p =
    if is_ok s || bool_decide (is_Some ctxErr) then
      (if existsb isPanic (err_list c) then c else joined (err_list s ++ err_list c), p2)
    else (s, p1).
Proof.
  unfold startManagerAndCleanup, mbind, ST_bind, try. destruct (start p) as [s p1].
  assert (∀ es (q : Proc), joinErrs es q = (joined es, q)) as Hj by by intros [].
  destruct s as [[]|e]; cbn [is_ok orb].
  - destruct (cleanup p1) as [c p2]. destruct (existsb isPanic _); [done|]. by rewrite Hj.
  - destruct ctxErr as [e'|]; cbn.
    + destruct (cleanup p1) as [c p2]. destruct (existsb isPanic (err_list c)); [done|]. done.
    + by destruct (cleanup p1).
Qed.

Lemma did_trans p1 p2 p3 l1 l2 : did p1 p2 l1 → did p2 p3 l2 → did p1 p3 (l1 ++ l2).
Proof. unfold did. intros E1 E2. by rewrite E2, E1, app_assoc. Qed.
Lemma did_log a p : did p (log a p).2 [a].
Proof. done. Qed.
Lemma did_nil p : did p p [].
Proof. unfold did. by rewrite app_nil_r. Qed.

Lemma defer_did {A} (d : P unit) (body : P A) p l1 l2 :
  did p (body p).2 l1 → (∀ q, did q (d q).2 l2) → did p (defer d body p).2 (l1 ++ l2).
Proof.
  intros Hb Hd. unfold defer. destruct (body p) as [r p1]. cbn in *. by eapply did_trans.
Qed.

Lemma did_seq {A} a (body : P A) q l :
  (∀ q, did q (body q).2 l) → did q ((log a ≫= λ _, body) q).2 (a :: l).
Proof. intros Hb. exact (did_trans _ _ _ [a] l (did_log a q) (Hb (log a q).2)). Qed.

Lemma close_did q : did q ((try (onWorld (onCri CloseCRI)) ≫= λ _, log CRIClosed) q).2 [CRIClosed].
Proof.
  unfold mbind, ST_bind, try. pose proof (onWorld_log (onCri CloseCRI) q) as Hw.
  destruct (onWorld (onCri CloseCRI) q) as [res p2]. cbn in Hw |- *. unfold did. cbn. by rewrite Hw.
Qed.

Definition started (env : MainEnv) : bool := is_ok (SetupController env) && is_ok (NewDirectClient env).

(** What the part of [run] after the health server does. *)
Definition core_acts (env : MainEnv) : list act :=
  (if started env then ManagerStarted :: (if cleansUp env then [CleanupRun] else []) else []) ++ [CRIClosed].

Lemma runReconciler_acts env cfg p : did p (runReconciler env cfg p).2 (core_acts env).
Proof.
  unfold runReconciler, core_acts. apply defer_did; [|apply close_did].
  unfold started, mbind at 1, ST_bind at 1, wrapST at 1, lift_result at 1.
  destruct (SetupController env); cbn [wrap is_ok andb fst snd]; [|apply did_nil].
  unfold mbind at 1, ST_bind at 1, wrapST at 1, lift_result at 1.
  destruct (NewDirectClient env); cbn [wrap is_ok andb fst snd]; [|apply did_nil].
  set (r := reconcilerOf cfg).
  pose proof (startManagerAndCleanup_run (runManager env r) (ctx_Err env)
    (log CleanupRun ≫= λ _, onWorld (CleanupOnShutdown r (cleanupCtx_Err env))) p) as Hrun.
  destruct (runManager_log env r p) as [Hm Hd]. unfold cleansUp. rewrite <-Hm.
  destruct (runManager env r p) as [s p1]. cbn [fst snd] in *.
  destruct ((log CleanupRun ≫= λ _, onWorld (CleanupOnShutdown r (cleanupCtx_Err env))) p1) as [c p2] eqn:Ec.
  rewrite Hrun. destruct (is_ok s || bool_decide (is_Some (ctx_Err env))); cbn [fst snd]; [|exact Hd].
  apply (did_trans p p1 p2 [ManagerStarted] [CleanupRun] Hd). unfold mbind, ST_bind, log, modify in Ec.
  pose proof (onWorld_log (CleanupOnShutdown r (cleanupCtx_Err env)) (mkProc (p_world p1) (p_log p1 ++ [CleanupRun]))) as Hl.
  rewrite Ec in Hl. exact Hl.
Qed.

(** What the health server adds around it. *)
Lemma withHealth_acts env enabled addr body p l :
  (∀ q, did q (body q).2 l) →
  did p (withHealth env enabled addr body p).2
    (if enabled then
       if is_ok (Listen env addr) then
         HealthStarted addr :: WatcherSpawned :: l ++ [WatcherCancelled; WatcherWaited; HealthStopped]
       else []
     else l).
Proof.
  intros Hb. unfold withHealth. destruct enabled; [|apply Hb].
  unfold mbind at 1, ST_bind at 1, wrapST at 1, lift_result at 1.
  destruct (Listen env addr); cbn [wrap is_ok fst snd]; [|apply did_nil].
  apply did_seq. clear p. intros p.
  change (WatcherSpawned :: l ++ [WatcherCancelled; WatcherWaited; HealthStopped])
    with ((WatcherSpawned :: l) ++ [WatcherCancelled] ++ [WatcherWaited] ++ [HealthStopped]).
  rewrite !app_assoc. repeat (apply defer_did; [|apply did_log]). by apply did_seq.
Qed.

(** ** The writes of a process *)

Definition safe_proc r (p : Proc) : Prop := safe_world r (p_world p).

Lemma log_safe r a : preserves (safe_proc r) (log a).
Proof. by intros p Hp. Qed.
Lemma onWorld_safe {A} r (m : ST (World K) A) : preserves (safe_world r) m → preserves (safe_proc r) (onWorld m).
Proof. intros Hm p Hp. unfold onWorld, zoom, safe_proc. specialize (Hm _ Hp). by destruct (m (p_world p)). Qed.
Lemma defer_safe {A} r (d : P unit) (body : P A) :
  preserves (safe_proc r) d → preserves (safe_proc r) body → preserves (safe_proc r) (defer d body).
Proof. intros Hd Hb p Hp. unfold defer. specialize (Hb p Hp). destruct (body p). by apply Hd. Qed.

Lemma reconcilerOf_plain cfg : plain (reconcilerOf cfg).
Proof. done. Qed.

Lemma runReconciler_safe env cfg : preserves (safe_proc (reconcilerOf cfg)) (runReconciler env cfg).
Proof.
  pose proof (reconcilerOf_plain cfg) as Hplain. unfold runReconciler.
  apply defer_safe.
  { apply preserves_bind; [apply preserves_try, onWorld_safe, onCri_safe|]. intros _. apply log_safe. }
  do 2 (apply preserves_bind; [eauto with gost|]; intros _).
  unfold startManagerAndCleanup. apply preserves_bind.
  { apply preserves_try. unfold runManager. apply preserves_bind; [apply log_safe|]. intros _.
    apply preserves_bind; [|eauto with gost]. apply preserves_forM. intros req _.
    apply preserves_bind; [by apply preserves_try, onWorld_safe, Reconcile_safe|]. eauto with gost. }
  intros s. assert (preserves (safe_proc (reconcilerOf cfg))
    (cleanupErr ← try (log CleanupRun ≫= λ _, onWorld (CleanupOnShutdown (reconcilerOf cfg) (cleanupCtx_Err env)));
     if existsb isPanic (err_list cleanupErr) then lift_result cleanupErr
     else joinErrs (err_list s ++ err_list cleanupErr))) as Hc.
  { apply preserves_bind.
    - apply preserves_try, preserves_bind; [apply log_safe|]. intros _. apply onWorld_safe, cleanupAllPods_safe.
    - intros c. case_match; [eauto with gost|]. unfold joinErrs. case_match; eauto with gost. }
  destruct s; [exact Hc|]. destruct (ctx_Err env); [exact Hc|apply preserves_throw].
Qed.

Lemma withHealth_safe r env enabled addr body :
  preserves (safe_proc r) body → preserves (safe_proc r) (withHealth env enabled addr body).
Proof.
  intros Hb. unfold withHealth. destruct enabled; [|done].
  apply preserves_bind; [eauto with gost|]. intros _. apply preserves_bind; [apply log_safe|]. intros _.
  repeat (apply defer_safe; [apply log_safe|]). apply preserves_bind; [apply log_safe|]. by intros _.
Qed.

(** *** Prefixes that no sync can use *)

Lemma applyCommonPrefixRules_usable chain prefixes prefix n u n' :
  applyCommonPrefixRules (K:=K) chain prefixes prefix n = (Ok u, n') → is_ok (getPrefixesAsSetInterval prefixes) = true.
Proof.
  unfold applyCommonPrefixRules. intros (f & n1 & _ & Hb)%bind_Ok. apply bind_Ok in Hb as (p & n2 & Hp & _).
  revert Hp. unfold wrapST, lift_result. by destruct (getPrefixesAsSetInterval prefixes).
Qed.

Lemma wrapST_Ok {S A} c (m : ST S A) s a s' : wrapST c m s = (Ok a, s') → m s = (Ok a, s').
Proof. unfold wrapST. destruct (m s) as [[?|?] ?]; [|done]. by intros [= -> ->]. Qed.

Lemma applyCommonChainRules_usable cfg n u n' :
  applyCommonChainRules (K:=K) cfg n = (Ok u, n') →
  is_ok (getPrefixesAsSetInterval (AllowSrcPrefix cfg)) = true ∧
  is_ok (getPrefixesAsSetInterval (AllowDstPrefix cfg)) = true.
Proof.
  assert (∀ chain ps n u n' ctx,
    (if negb (len ps =? 0) then wrapST ctx (applyCommonPrefixRules (K:=K) chain ps common) else mret tt) n = (Ok u, n') →
    is_ok (getPrefixesAsSetInterval ps) = true) as Hif.
  { clear. intros chain ps n u n' ctx. destruct ps as [|p ps]; [by intros _|].
    case_match; [intros Hr%wrapST_Ok; by eapply applyCommonPrefixRules_usable|done]. }
  unfold applyCommonChainRules. do 4 (intros (? & ? & _ & Hb)%bind_Ok; revert Hb).
  intros (? & ? & Hsrc & Hb)%bind_Ok. apply bind_Ok in Hb as (? & ? & Hdst & _). split; by eapply Hif.
Qed.

Lemma sync_usable deps cfg policies pod info n u n' :
  ApplyPolicyRulesForPodAndFamily (K:=K) deps cfg policies pod info n = (Ok u, n') →
  is_ok (getPrefixesAsSetInterval (AllowSrcPrefix cfg)) = true ∧
  is_ok (getPrefixesAsSetInterval (AllowDstPrefix cfg)) = true.
Proof.
  unfold ApplyPolicyRulesForPodAndFamily. intros (i & n1 & _ & Hb)%bind_Ok.
  apply bind_Ok in Hb as (? & n2 & Hc%wrapST_Ok & _). by eapply applyCommonChainRules_usable.
Qed.

(** The prefixes of the configuration are those of the texts. *)
Lemma BuildReconcilerConfig_prefixes opts cfg :
  (BuildReconcilerConfig opts).1 = Ok cfg →
  textOk (allowSrcPrefixText opts) = true ∧ textOk (allowDstPrefixText opts) = true ∧
  AllowSrcPrefix (RC_CommonRuleConfig cfg) =
    (if bool_decide (allowSrcPrefixText opts = []) then allowSrcPrefix opts else textCIDRs (allowSrcPrefixText opts)) ∧
  AllowDstPrefix (RC_CommonRuleConfig cfg) =
    (if bool_decide (allowDstPrefixText opts = []) then allowDstPrefix opts else textCIDRs (allowDstPrefixText opts)).
Proof.
  destruct (Validate_cases opts) as [Hok Hval]. unfold BuildReconcilerConfig, mbind, ST_bind, wrapST.
  destruct (Validate opts) as [[[]|e] o]; [|done]. cbn in Hok, Hval |- *. symmetry in Hok. specialize (Hval Hok). subst o.
  unfold validOptions in Hok. rewrite !andb_true_iff in Hok. destruct Hok as [[[[[_ _] Hs] Hd] _] _].
  unfold lift_result. destruct (GetHostname _) as [h|]; [|done]. cbn. intros [= <-]. cbn. split_and!; done.
Qed.

(** ** Properties *)

(** C22: the shutdown cleanup runs exactly when the manager ended without error
    or after a signal; the process then fails with exactly the errors of the
    two, and otherwise with the manager's alone. *)
Theorem startManagerAndCleanup_correct start ctxErr cleanup p :
  let '(s, p1) := start p in
  let '(c, p2) := cleanup p1 in
  (is_ok s = true ∨ is_Some ctxErr → calm (err_list c) →
   startManagerAndCleanup start ctxErr cleanup p = (joined (err_list s ++ err_list c), p2)) ∧
  (is_ok s = false → ctxErr = None → startManagerAndCleanup start ctxErr cleanup p = (s, p1)).
Proof.
  pose proof (startManagerAndCleanup_run start ctxErr cleanup p) as Hrun.
  destruct (start p) as [s p1]. destruct (cleanup p1) as [c p2]. rewrite Hrun. split.
  - intros Hs Hc. assert (is_ok s || bool_decide (is_Some ctxErr) = true) as ->.
    { apply orb_true_iff. rewrite bool_decide_eq_true. exact Hs. }
    assert (existsb isPanic (err_list c) = false) as ->; [|done].
    destruct c as [|e]; [done|]. apply Forall_cons in Hc as [He _]. cbn in He |- *. by rewrite He.
  - intros -> ->. done.
Qed.

(** C21: everything the process acquires it releases, in the reverse order and
    whatever step fails: once the reconciler exists the runtime connection is
    closed last of its part; once the health server is started its watcher is
    first cancelled, then waited for, and then the server is stopped. *)
Theorem run_releases env opts p :
  ∃ acts, did p (run env opts p).2 acts ∧
    (acts = [] ∨
     acts = core_acts env ∨
     ∃ addr, acts = HealthStarted addr :: WatcherSpawned :: core_acts env ++
                    [WatcherCancelled; WatcherWaited; HealthStopped]).
Proof.
  unfold run. destruct (BuildReconcilerConfig opts) as [[cfg|e] opts']; [|exists []; split; [apply did_nil|by left]].
  unfold mbind, ST_bind, wrapST, lift_result. cbn [wrap fst snd].
  destruct (if bool_decide _ then _ else _); [|exists []; split; [apply did_nil|by left]].
  destruct (SetupScheme env); [|exists []; split; [apply did_nil|by left]].
  destruct (NewManager env _); [|exists []; split; [apply did_nil|by left]].
  destruct (SetupIndexes env); [|exists []; split; [apply did_nil|by left]].
  destruct (mgr_Add env); [|exists []; split; [apply did_nil|by left]]. cbn [wrap fst snd].
  eexists. split; [apply withHealth_acts, runReconciler_acts|].
  destruct (HealthEnabled opts'); [|by right; left]. destruct (is_ok _); [|by left]. right. right. by eexists.
Qed.

(** C14: the whole process, from parsing its options to its end, writes only
    what a reconciler for its configuration may: the daemon's own tables and
    its leftovers, in the namespaces of the running pods off the host's network
    that the API server lists for its node. *)
Theorem process_writes_confined env opts p cfg :
  (BuildReconcilerConfig opts).1 = Ok cfg → w_sent (p_world p) = [] →
  Forall (good_entry (reconcilerOf cfg)) (w_sent (p_world (run env opts p).2)).
Proof.
  intros Hcfg Hp. change (safe_proc (reconcilerOf cfg) (run env opts p).2). unfold run.
  destruct (BuildReconcilerConfig opts) as [rcfg opts']. cbn in Hcfg. subst rcfg.
  assert (safe_proc (reconcilerOf cfg) p) as Hsafe by (unfold safe_proc, safe_world; rewrite Hp; constructor).
  revert Hsafe. generalize p. change (preserves (safe_proc (reconcilerOf cfg)) (
    cfg' ← wrapST "build reconciler config" (lift_result (Ok cfg));
    wrapST "build kubeconfig"
      (lift_result (if bool_decide (RC_Kubeconfig cfg' = []) then InClusterConfig env
                    else ClientConfig env (RC_Kubeconfig cfg') (RC_Master cfg'))) ≫= λ _,
    wrapST "setup scheme" (lift_result (SetupScheme env)) ≫= λ _,
    wrapST "create manager" (lift_result (NewManager env (RC_SyncPeriodSeconds cfg' * Second))) ≫= λ _,
    wrapST "setup indexes" (lift_result (SetupIndexes env)) ≫= λ _,
    wrapST "add health sync runnable" (lift_result (mgr_Add env)) ≫= λ _,
    withHealth env (HealthEnabled opts') (HealthAddr opts') (runReconciler env cfg'))).
  apply (preserves_bind_post _ (λ c, c = cfg)); [eauto with gost|by intros s c s' [= <- _]|]. intros c ->.
  do 5 (apply preserves_bind; [eauto with gost|]; intros _).
  apply withHealth_safe, runReconciler_safe.
Qed.

(** C35: what [Validate] accepts as an allowed prefix is not all that the rule
    generator can use. The two lists of an accepted configuration give interval
    sets exactly when no mask in the option has a leading zero (["10.0.0.0/08"]
    has one); with such a mask in either, no sync of any pod on any kernel
    succeeds, whatever the policies and the state it starts from. The options
    are those the flags leave: the lists themselves are empty before the
    validation fills them. *)
Theorem validated_prefixes_usable opts cfg :
  (BuildReconcilerConfig opts).1 = Ok cfg →
  allowSrcPrefix opts = [] → allowDstPrefix opts = [] →
  let common := RC_CommonRuleConfig cfg in
  is_ok (getPrefixesAsSetInterval (AllowSrcPrefix common)) = usableText (allowSrcPrefixText opts) ∧
  is_ok (getPrefixesAsSetInterval (AllowDstPrefix common)) = usableText (allowDstPrefixText opts) ∧
  (usableText (allowSrcPrefixText opts) = false ∨ usableText (allowDstPrefixText opts) = false →
   ∀ deps policies pod info (n : nftState K),
     is_ok (ApplyPolicyRulesForPodAndFamily deps common policies pod info n).1 = false).
Proof.
  intros (Hs & Hd & HS & HD)%BuildReconcilerConfig_prefixes Hns Hnd. cbv zeta.
  assert (∀ (text : gostring) (l : list gostring), l = [] → (if bool_decide (text = []) then l else textCIDRs text) = textCIDRs text) as Htext
    by (intros text l ->; destruct text; reflexivity).
  rewrite Htext in HS, HD by done. rewrite HS, HD, !textOk_usable by done. split_and!; [done..|].
  intros Hbad deps policies pod info n.
  destruct (ApplyPolicyRulesForPodAndFamily _ _ _ _ _ n) as [[u|e] n'] eqn:E; [|done].
  apply sync_usable in E as [Es Ed]. rewrite HS, textOk_usable in Es by done. rewrite HD, textOk_usable in Ed by done.
  destruct Hbad; congruence.
Qed.
End main.
