(* ===== verification/VM.v ===== *)
(** * What the generated rules do to a packet

    nf_tables evaluates a rule expression by expression on a packet, a
    register and the packet mark, and a chain rule by rule. The evaluator is
    the kernel's; [NftVM] states its documented behaviour for the expressions
    the daemon emits, and the lemmas below derive what each kind of generated
    rule does. *)

From S2P Require Import Prelude GoStd Names Nft Netip Api Elements Conn RefKernel State Legacy Rules.

(** What a rule can read of a packet: meta data, header bytes (none past the
    end of the packet) and the conntrack state. *)
Record packet := mkPacket {
  pkt_meta : expr.MetaKey → bytes;
  pkt_payload : expr.PayloadBase → Z → Z → option bytes;
  pkt_ct : bytes }.

(** The rules of each chain and the members of each set. *)
Record ruleset := mkRuleset {
  rs_chain : gostring → list (list expr.Any);
  rs_set : gostring → bytes → bool }.

(** The end of a rule: on to the next one, or a verdict. *)
Inductive rule_end :=
  | Next (mark : Z)
  | Decided (k : expr.VerdictKind) (chain : gostring) (mark : Z).

(** The end of a chain: back to the caller with the mark, or a final verdict. *)
Inductive chain_end :=
  | Falls (mark : Z)
  | Accepted
  | Dropped.

Class NftVM `{Arch} := {
  (** The rest of a rule, with the contents of register 1 and the mark. *)
  vm_rule : ruleset → packet → list expr.Any → bytes → Z → rule_end;
  (** The rest of a chain, with the mark. *)
  vm_rules : ruleset → packet → list (list expr.Any) → Z → chain_end → Prop;

  vm_nil rs p r m : vm_rule rs p [] r m = Next m;
  vm_counter rs p b c es r m : vm_rule rs p (expr.Counter b c :: es) r m = vm_rule rs p es r m;
  vm_mark_load rs p es r m :
    vm_rule rs p (expr.Meta expr.MetaKeyMARK false 1 :: es) r m =
    vm_rule rs p es (NativeEndian.PutUint32 m) m;
  vm_meta_load rs p k es r m :
    k ≠ expr.MetaKeyMARK → vm_rule rs p (expr.Meta k false 1 :: es) r m = vm_rule rs p es (pkt_meta p k) m;
  vm_mark_store rs p es r m :
    vm_rule rs p (expr.Meta expr.MetaKeyMARK true 1 :: es) r m =
    vm_rule rs p es r (NativeEndian.Uint32 r);
  vm_cmp_eq rs p d es r m :
    length r = length d →
    vm_rule rs p (expr.Cmp expr.CmpOpEq 1 d :: es) r m =
    if bool_decide (r = d) then vm_rule rs p es r m else Next m;
  vm_cmp_neq rs p d es r m :
    length r = length d →
    vm_rule rs p (expr.Cmp expr.CmpOpNeq 1 d :: es) r m =
    if bool_decide (r = d) then Next m else vm_rule rs p es r m;
  vm_payload rs p b o l es r m :
    vm_rule rs p (expr.Payload 0 1 0 b o l 0 0 0 :: es) r m =
    match pkt_payload p b o l with Some d => vm_rule rs p es d m | None => Next m end;
  vm_lookup rs p id n es r m :
    vm_rule rs p (expr.Lookup 1 0 false id n false :: es) r m =
    if rs_set rs n r then vm_rule rs p es r m else Next m;
  vm_bitwise rs p mask xor es r m :
    length r = 4%nat → length mask = 4%nat → length xor = 4%nat →
    vm_rule rs p (expr.Bitwise 1 1 4 mask xor :: es) r m =
    vm_rule rs p es (zip_with Z.lxor (zip_with Z.land r mask) xor) m;
  vm_ct rs p es r m :
    vm_rule rs p (expr.Ct 1 false expr.CtKeySTATE 0 false :: es) r m = vm_rule rs p es (pkt_ct p) m;
  vm_verdict rs p k c es r m : vm_rule rs p (expr.Verdict k c :: es) r m = Decided k c m;

  vm_chain_end rs p m : vm_rules rs p [] m (Falls m);
  vm_next rs p es rest m m' o :
    vm_rule rs p es [] m = Next m' → vm_rules rs p rest m' o → vm_rules rs p (es :: rest) m o;
  vm_return rs p es rest m m' c :
    vm_rule rs p es [] m = Decided expr.VerdictReturn c m' → vm_rules rs p (es :: rest) m (Falls m');
  vm_accept rs p es rest m m' c :
    vm_rule rs p es [] m = Decided expr.VerdictAccept c m' → vm_rules rs p (es :: rest) m Accepted;
  vm_drop rs p es rest m m' c :
    vm_rule rs p es [] m = Decided expr.VerdictDrop c m' → vm_rules rs p (es :: rest) m Dropped;
  vm_jump rs p es rest m m' m'' c o :
    vm_rule rs p es [] m = Decided expr.VerdictJump c m' → vm_rules rs p (rs_chain rs c) m' (Falls m'') →
    vm_rules rs p rest m'' o → vm_rules rs p (es :: rest) m o;
  vm_jump_final rs p es rest m m' c o :
    vm_rule rs p es [] m = Decided expr.VerdictJump c m' → vm_rules rs p (rs_chain rs c) m' o →
    o = Accepted ∨ o = Dropped → vm_rules rs p (es :: rest) m o;
  vm_det rs p rules m o o' : vm_rules rs p rules m o → vm_rules rs p rules m o' → o = o' }.

(** ** The mark *)

Definition is_u32 (m : Z) : Prop := 0 ≤ m < 2 ^ 32.
(** The bits [portRuleMark] and [peerRuleMark]. *)
Definition portBit (m : Z) : bool := Z.testbit m 16.
Definition peerBit (m : Z) : bool := Z.testbit m 17.

(** What [bitwise (not32 b) b], [bitwise (not32 matchRuleMark) 0] compute. *)
Definition orMark (b m : Z) : Z := Z.lxor (Z.land m (not32 b)) b.
Definition clearMarks (m : Z) : Z := Z.land m (not32 matchRuleMark).

Lemma u8_land a b : Z.land (u8 a) (u8 b) = u8 (Z.land a b).
Proof.
  unfold u8. rewrite <-!Z.land_ones by lia. apply Z.bits_inj'. intros i Hi. rewrite !Z.land_spec.
  by destruct (Z.testbit a i), (Z.testbit b i), (Z.testbit (Z.ones 8) i).
Qed.
Lemma u8_lxor a b : Z.lxor (u8 a) (u8 b) = u8 (Z.lxor a b).
Proof.
  unfold u8. rewrite <-!Z.land_ones by lia. apply Z.bits_inj'. intros i Hi.
  rewrite !Z.lxor_spec, !Z.land_spec, Z.lxor_spec.
  by destruct (Z.testbit a i), (Z.testbit b i), (Z.testbit (Z.ones 8) i).
Qed.
Lemma le_bytes_land n a b : zip_with Z.land (le_bytes n a) (le_bytes n b) = le_bytes n (Z.land a b).
Proof.
  revert a b. induction n as [|n IH]; intros a b; simpl; [done|].
  by rewrite IH, Z.shiftr_land, u8_land.
Qed.
Lemma le_bytes_lxor n a b : zip_with Z.lxor (le_bytes n a) (le_bytes n b) = le_bytes n (Z.lxor a b).
Proof.
  revert a b. induction n as [|n IH]; intros a b; simpl; [done|].
  by rewrite IH, Z.shiftr_lxor, u8_lxor.
Qed.
Lemma zip_with_reverse (f : Z → Z → Z) (l k : list Z) :
  length l = length k → zip_with f (reverse l) (reverse k) = reverse (zip_with f l k).
Proof.
  revert k. induction l as [|x l IH]; intros [|y k] Hl; try done. injection Hl as Hl.
  simpl. rewrite !reverse_cons, zip_with_app by (by rewrite !length_reverse). by rewrite IH.
Qed.

Section mark.
Context `{Arch}.

Lemma PutUint32_op (f : Z → Z → Z) a b :
  (∀ n a b, zip_with f (le_bytes n a) (le_bytes n b) = le_bytes n (f a b)) →
  zip_with f (NativeEndian.PutUint32 a) (NativeEndian.PutUint32 b) = NativeEndian.PutUint32 (f a b).
Proof.
  intros Hf. unfold NativeEndian.PutUint32, be_bytes. case_match; [apply Hf|].
  rewrite zip_with_reverse by (by rewrite !length_le_bytes). by rewrite Hf.
Qed.

Lemma native_round v : is_u32 v → NativeEndian.Uint32 (NativeEndian.PutUint32 v) = v.
Proof.
  intros Hv. unfold NativeEndian.Uint32, NativeEndian.PutUint32. case_match.
  - change (reverse (le_bytes 4 v)) with (be_bytes 4 v). rewrite be_val_be_bytes.
    by apply Z.mod_small.
  - rewrite be_val_be_bytes. by apply Z.mod_small.
Qed.

Lemma length_native v : length (NativeEndian.PutUint32 v) = 4%nat.
Proof. unfold NativeEndian.PutUint32, be_bytes. case_match; by rewrite ?length_reverse, length_le_bytes. Qed.

Lemma native_inj a b : is_u32 a → is_u32 b →
  bool_decide (NativeEndian.PutUint32 a = NativeEndian.PutUint32 b) = bool_decide (a = b).
Proof.
  intros Ha Hb. apply bool_decide_ext. split; [|by intros ->]. intros He.
  by rewrite <-(native_round a), He, native_round.
Qed.
End mark.

(** A 32-bit number is its 32 bits. *)
Lemma u32_testbit m i : is_u32 m → 32 ≤ i → Z.testbit m i = false.
Proof.
  intros Hm Hi. destruct (decide (m = 0)) as [->|Hz]; [by rewrite Z.bits_0|].
  apply Z.bits_above_log2; [unfold is_u32 in Hm; lia|].
  apply Z.lt_le_trans with 32; [|done]. apply Z.log2_lt_pow2; unfold is_u32 in Hm; lia.
Qed.
Lemma testbit_u32 m : 0 ≤ m → (∀ i, 32 ≤ i → Z.testbit m i = false) → is_u32 m.
Proof.
  intros Hm Hi. unfold is_u32. split; [done|]. apply Z.nle_gt. intros Hge.
  pose proof (Z.bit_log2 m ltac:(lia)) as Hb. rewrite Hi in Hb; [done|].
  apply Z.log2_le_pow2; lia.
Qed.
Lemma land_u32 m b : is_u32 m → is_u32 (Z.land m b).
Proof.
  intros Hm. apply testbit_u32; [apply Z.land_nonneg; unfold is_u32 in *; lia|].
  intros i Hi. by rewrite Z.land_spec, u32_testbit.
Qed.
Lemma not32_testbit b i : 0 ≤ i → Z.testbit (not32 b) i = xorb (Z.testbit b i) (i <? 32).
Proof.
  intros Hi. unfold not32. rewrite Z.lxor_spec. f_equal. change (2 ^ 32 - 1) with (Z.ones 32).
  destruct (Z.ltb_spec i 32); [by apply Z.ones_spec_low|by apply Z.ones_spec_high].
Qed.

Lemma orMark_testbit b m i :
  is_u32 m → 0 ≤ b → 0 ≤ i → Z.testbit (orMark b m) i = Z.testbit m i || Z.testbit b i.
Proof.
  intros Hm Hb Hi. unfold orMark. rewrite Z.lxor_spec, Z.land_spec, not32_testbit by done.
  destruct (Z.ltb_spec i 32).
  - by destruct (Z.testbit m i), (Z.testbit b i).
  - rewrite (u32_testbit m) by done. by destruct (Z.testbit b i).
Qed.
Lemma clearMarks_testbit m i :
  is_u32 m → 0 ≤ i → Z.testbit (clearMarks m) i = Z.testbit m i && negb (Z.testbit matchRuleMark i).
Proof.
  intros Hm Hi. unfold clearMarks. rewrite Z.land_spec, not32_testbit by done.
  destruct (Z.ltb_spec i 32).
  - by destruct (Z.testbit m i), (Z.testbit matchRuleMark i).
  - by rewrite (u32_testbit m).
Qed.
Lemma orMark_u32 b m : is_u32 m → is_u32 b → is_u32 (orMark b m).
Proof.
  intros Hm Hb. apply testbit_u32.
  - unfold orMark. apply Z.lxor_nonneg. rewrite Z.land_nonneg. unfold is_u32 in *. lia.
  - intros i Hi. rewrite orMark_testbit by (done || unfold is_u32 in *; lia).
    by rewrite !u32_testbit.
Qed.
Lemma clearMarks_u32 m : is_u32 m → is_u32 (clearMarks m).
Proof.
  intros Hm. apply testbit_u32.
  - apply Z.land_nonneg. unfold is_u32 in *. lia.
  - intros i Hi. rewrite clearMarks_testbit by (done || lia). by rewrite u32_testbit.
Qed.

(** Both bits set is what the mark check tests. *)
Lemma matchMark_bits m : (Z.land m matchRuleMark =? matchRuleMark) = portBit m && peerBit m.
Proof.
  apply eq_true_iff_eq. rewrite Z.eqb_eq, andb_true_iff. unfold portBit, peerBit, matchRuleMark. split.
  - intros He. split; rewrite <-(andb_true_r (Z.testbit m _));
      [change true with (Z.testbit 0x30000 16)|change true with (Z.testbit 0x30000 17)];
      rewrite <-Z.land_spec, He; done.
  - intros [H16 H17]. apply Z.bits_inj'. intros i Hi. rewrite Z.land_spec.
    destruct (decide (i = 16)) as [->|]; [by rewrite H16|].
    destruct (decide (i = 17)) as [->|]; [by rewrite H17|].
    assert (Z.testbit 0x30000 i = false) as ->; [|by rewrite andb_false_r].
    change 0x30000 with (Z.lor (2 ^ 16) (2 ^ 17)). rewrite Z.lor_spec, !Z.pow2_bits_false by lia. done.
Qed.

Lemma orMark_idem b m : is_u32 m → is_u32 b → orMark b (orMark b m) = orMark b m.
Proof.
  intros Hm Hb. apply Z.bits_inj'. intros i Hi.
  assert (0 ≤ b) by (unfold is_u32 in *; lia).
  rewrite !orMark_testbit by (done || by apply orMark_u32). by destruct (Z.testbit m i), (Z.testbit b i).
Qed.

Lemma portMark_u32 : is_u32 portRuleMark.
Proof. done. Qed.
Lemma peerMark_u32 : is_u32 peerRuleMark.
Proof. done. Qed.
#[export] Hint Resolve portMark_u32 peerMark_u32 orMark_u32 clearMarks_u32 : gost.

(** How the three mark operations move the two bits. *)
Lemma mark_bits m :
  is_u32 m →
  portBit (orMark portRuleMark m) = true ∧ peerBit (orMark portRuleMark m) = peerBit m ∧
  portBit (orMark peerRuleMark m) = portBit m ∧ peerBit (orMark peerRuleMark m) = true ∧
  portBit (clearMarks m) = false ∧ peerBit (clearMarks m) = false.
Proof.
  intros Hm. unfold portBit, peerBit.
  rewrite !orMark_testbit, !clearMarks_testbit by done.
  change (Z.testbit portRuleMark 16) with true. change (Z.testbit portRuleMark 17) with false.
  change (Z.testbit peerRuleMark 16) with false. change (Z.testbit peerRuleMark 17) with true.
  change (Z.testbit matchRuleMark 16) with true. change (Z.testbit matchRuleMark 17) with true.
  by rewrite !orb_true_r, !orb_false_r, !andb_false_r.
Qed.

(** ** The generated rules *)

Section rules_vm.
Context `{NftVM}.
Implicit Types (rs : ruleset) (p : packet) (es : list expr.Any) (r : bytes) (m : Z).

Lemma vm_native_bitwise rs p mask xor es v m :
  vm_rule rs p (bitwise mask xor :: es) (NativeEndian.PutUint32 v) m =
  vm_rule rs p es (NativeEndian.PutUint32 (Z.lxor (Z.land v mask) xor)) m.
Proof.
  unfold bitwise. rewrite vm_bitwise by apply length_native.
  rewrite (PutUint32_op Z.land) by apply le_bytes_land. by rewrite (PutUint32_op Z.lxor) by apply le_bytes_lxor.
Qed.

Lemma vm_setMark rs p b es r m :
  is_u32 m → is_u32 b →
  vm_rule rs p (setMark b ++ es) r m =
  vm_rule rs p es (NativeEndian.PutUint32 (orMark b m)) (orMark b m).
Proof.
  intros Hm Hb. unfold setMark, metaLoad, markStore. cbn [app].
  rewrite vm_mark_load, vm_native_bitwise, vm_mark_store. fold (orMark b m).
  by rewrite native_round by auto with gost.
Qed.

Lemma vm_checkMark rs p es r m :
  is_u32 m →
  vm_rule rs p (checkMark ++ es) r m =
  if portBit m && peerBit m
  then vm_rule rs p es (NativeEndian.PutUint32 (Z.land m matchRuleMark)) m else Next m.
Proof.
  intros Hm. unfold checkMark, metaLoad, cmpEq. cbn [app].
  rewrite vm_mark_load, vm_native_bitwise. change zeroRuleMark with 0. rewrite Z.lxor_0_r.
  pose proof (land_u32 m matchRuleMark Hm) as Hl.
  rewrite vm_cmp_eq by (by rewrite !length_native). rewrite native_inj by done.
  rewrite <-matchMark_bits. case_bool_decide as He; [by rewrite He, Z.eqb_refl|].
  by apply Z.eqb_neq in He as ->.
Qed.

(** [applyMarkReset]'s rule. *)
Lemma vm_reset rs p r m :
  is_u32 m →
  vm_rule rs p [metaLoad expr.MetaKeyMARK; bitwise (not32 matchRuleMark) zeroRuleMark; markStore; counter] r m
  = Next (clearMarks m).
Proof.
  intros Hm. unfold metaLoad, markStore, counter.
  rewrite vm_mark_load, vm_native_bitwise, vm_mark_store, vm_counter, vm_nil.
  change zeroRuleMark with 0. rewrite Z.lxor_0_r. fold (clearMarks m).
  by rewrite native_round by auto with gost.
Qed.

(** The check rules of the entry and policy chains. *)
Lemma vm_check_return rs p r m :
  is_u32 m →
  vm_rule rs p (checkMark ++ [counter; verdict expr.VerdictReturn]) r m =
  if portBit m && peerBit m then Decided expr.VerdictReturn [] m else Next m.
Proof.
  intros Hm. rewrite vm_checkMark by done. unfold counter, verdict. by rewrite vm_counter, vm_verdict.
Qed.

Lemma vm_jump_rule rs p r m c : vm_rule rs p [counter; jump c] r m = Decided expr.VerdictJump c m.
Proof. unfold counter, jump. by rewrite vm_counter, vm_verdict. Qed.
Lemma vm_drop_rule rs p r m : vm_rule rs p [counter; verdict expr.VerdictDrop] r m = Decided expr.VerdictDrop [] m.
Proof. unfold counter, verdict. by rewrite vm_counter, vm_verdict. Qed.
Lemma vm_acceptAll rs p r m b :
  is_u32 m → is_u32 b → vm_rule rs p (counter :: setMark b) r m = Next (orMark b m).
Proof.
  intros. unfold counter. rewrite vm_counter. rewrite <-(app_nil_r (setMark b)).
  by rewrite vm_setMark, vm_nil.
Qed.

(** A match on an address field. *)
Lemma vm_matchAddr rs p nf off len s es r m x d :
  pkt_meta p expr.MetaKeyNFPROTO = [x] → (x = nf → pkt_payload p expr.PayloadBaseNetworkHeader off len = Some d) →
  vm_rule rs p (matchAddr nf off len s ++ es) r m =
  if bool_decide (x = nf) && rs_set rs (Set_Name s) d then vm_rule rs p es d m else Next m.
Proof.
  intros Hx Hd. unfold matchAddr, metaLoad, cmpEq, payload, lookup. cbn [app].
  rewrite vm_meta_load, Hx by done. rewrite vm_cmp_eq by done.
  destruct (decide (x = nf)) as [->|Hne].
  - rewrite !bool_decide_eq_true_2 by done. rewrite vm_payload, Hd, vm_lookup by done. done.
  - rewrite !bool_decide_eq_false_2 by (done || by intros [= ?]). done.
Qed.

(** [applyProtoPortsRules]'s rule. *)
Lemma vm_ports rs p proto s r m x :
  pkt_meta p expr.MetaKeyL4PROTO = [x] → is_u32 m →
  vm_rule rs p ([metaLoad expr.MetaKeyL4PROTO; cmpEq [proto]; payload expr.PayloadBaseTransportHeader 2 2;
                 lookup s; counter] ++ setMark portRuleMark) r m =
  Next (if bool_decide (x = proto) &&
           match pkt_payload p expr.PayloadBaseTransportHeader 2 2 with
           | Some d => rs_set rs (Set_Name s) d | None => false end
        then orMark portRuleMark m else m).
Proof.
  intros Hx Hm. unfold metaLoad, cmpEq, payload, lookup, counter. cbn [app].
  rewrite vm_meta_load, Hx, vm_cmp_eq by done.
  destruct (decide (x = proto)) as [->|Hne].
  - rewrite !bool_decide_eq_true_2 by done. rewrite vm_payload. cbn [andb]. case_match; [|done].
    rewrite vm_lookup. case_match; [|done]. rewrite vm_counter, <-(app_nil_r (setMark _)).
    by rewrite vm_setMark, vm_nil by auto with gost.
  - rewrite !bool_decide_eq_false_2 by (done || by intros [= ?]). done.
Qed.
End rules_vm.
