(* ===== verification/Fresh.v ===== *)
(** * Runs in an empty namespace

    In a namespace without any object of the daemon every generator succeeds
    and writes a determined list of messages. [emits] describes such runs and
    composes along the monad; the lemmas give the messages of the basic
    operations. *)

From S2P Require Import Prelude GoStd Names Nft Netip Api Elements Conn RefKernel State Legacy Rules.

(** A namespace nobody else changes and that has none of the objects asked for. *)
Record fresh {K} `{Kernel K} (k : K) : Prop := {
  fresh_quiet : quiet k;
  fresh_chain t n : is_ok (k_ListChain t n k).1 = false;
  fresh_rules t n : (k_GetRules t n k).1 = Ok [];
  fresh_set t n : ∃ e, (k_GetSetByName t n k).1 = Err e ∧ isNotExist e = true }.

(** Every rule can be encoded, as the expression types the daemon emits can. *)
Definition gob_total `{Gob} : Prop := ∀ r, is_ok (hash_rule r) = true.

Section emits.
Context {K : Type}.
Implicit Types n : nftState K.

(** What a generator leaves as it was. *)
Definition same_env n n' : Prop :=
  kern (nft n') = kern (nft n) ∧ conn_err (nft n') = conn_err (nft n) ∧ sent (nft n') = sent (nft n) ∧
  filterT n' = filterT n ∧ natT n' = natT n ∧ chainFields n' = chainFields n.

Definition emits {A} (m : ST (nftState K) A) n (Q : A → list msg → Prop) : Prop :=
  ∃ a ms n', m n = (Ok a, n') ∧ messages (nft n') = messages (nft n) ++ ms ∧ same_env n n' ∧ Q a ms.

#[export] Instance same_env_refl : Reflexive same_env.
Proof. by intros n. Qed.
#[export] Instance same_env_trans : Transitive same_env.
Proof. intros n1 n2 n3 (?&?&?&?&?&?) (?&?&?&?&?&?). split_and!; congruence. Qed.

Lemma emits_ret {A} (a : A) n (Q : A → list msg → Prop) : Q a [] → emits (mret a) n Q.
Proof. intros HQ. exists a, [], n. by rewrite app_nil_r. Qed.
Lemma emits_bind {A B} (m : ST (nftState K) A) (f : A → ST (nftState K) B) n R Q :
  emits m n R →
  (∀ a ms n', same_env n n' → R a ms → emits (f a) n' (λ b ms', Q b (ms ++ ms'))) →
  emits (m ≫= f) n Q.
Proof.
  intros (a & ms & n1 & Hm & Hms & He & HR) Hf.
  destruct (Hf a ms n1 He HR) as (b & ms' & n2 & Hb & Hms' & He' & HQ).
  exists b, (ms ++ ms'), n2. split_and!; [|by rewrite Hms', Hms, app_assoc|by etrans|done].
  unfold mbind, ST_bind. by rewrite Hm.
Qed.
Lemma emits_weaken {A} (m : ST (nftState K) A) n (Q R : A → list msg → Prop) :
  emits m n Q → (∀ a ms, Q a ms → R a ms) → emits m n R.
Proof. intros (a & ms & n' & Hm & Hms & He & HQ) HR. exists a, ms, n'. auto. Qed.
Lemma emits_wrapST {A} ctx (m : ST (nftState K) A) n Q : emits m n Q → emits (wrapST ctx m) n Q.
Proof.
  intros (a & ms & n' & Hm & Hms & He & HQ). exists a, ms, n'. split_and!; try done.
  unfold wrapST. by rewrite Hm.
Qed.
Lemma emits_lift {A} (a : A) n (r : result A) (Q : A → list msg → Prop) :
  r = Ok a → Q a [] → emits (lift_result r) n Q.
Proof. intros -> HQ. exists a, [], n. by rewrite app_nil_r. Qed.
Lemma emits_getFilter n (Q : Table → list msg → Prop) : Q (filterT n) [] → emits getFilter n Q.
Proof. intros HQ. exists (filterT n), [], n. by rewrite app_nil_r. Qed.
Lemma emits_discard (m : ST (nftState K) bool) n (Q : unit → list msg → Prop) :
  emits m n (λ _ ms, Q tt ms) → emits (discard m) n Q.
Proof.
  intros Hm. eapply emits_bind; [exact Hm|]. intros b ms n' _ HQ. apply emits_ret. by rewrite app_nil_r.
Qed.

(** A loop whose rounds each satisfy a specification that appends. *)
Lemma emits_foldM {A B} (l : list A) (f : B → A → ST (nftState K) B) b n (Q : list A → list msg → Prop) :
  Q [] [] →
  (∀ b x n', x ∈ l → same_env n n' → emits (f b x) n' (λ _ ms, ∀ k ms0, Q k ms0 → Q (k ++ [x]) (ms0 ++ ms))) →
  emits (foldM l b f) n (λ _ ms, Q l ms).
Proof.
  intros HQ Hf.
  assert (∀ k ms0 b n', Q k ms0 → same_env n n' → emits (foldM l b f) n' (λ _ ms, Q (k ++ l) (ms0 ++ ms))) as Hgo.
  { clear HQ. induction l as [|x l IH]; intros k ms0 b' n' HQ He; cbn [foldM].
    - apply emits_ret. by rewrite !app_nil_r.
    - eapply emits_bind; [apply Hf; [set_solver|done]|]. intros u ms n1 He1 Hstep.
      eapply emits_weaken.
      + apply (IH ltac:(intros; apply Hf; [set_solver|done]) (k ++ [x]) (ms0 ++ ms)); [by apply Hstep|by etrans].
      + intros u' ms' HQ'. by rewrite <-!app_assoc in HQ'. }
  by apply (Hgo [] []).
Qed.

Lemma emits_forM {A} (l : list A) (f : A → ST (nftState K) unit) n (Q : list A → list msg → Prop) :
  Q [] [] →
  (∀ x n', x ∈ l → same_env n n' → emits (f x) n' (λ _ ms, ∀ k ms0, Q k ms0 → Q (k ++ [x]) (ms0 ++ ms))) →
  emits (forM l f) n (λ _ ms, Q l ms).
Proof.
  intros HQ Hf.
  assert (∀ n, forM l f n = foldM l tt (λ _, f) n) as Heq.
  { clear. induction l as [|x l IH]; intros n; [done|]. cbn. unfold mbind, ST_bind.
    destruct (f x n) as [[[]|e] n']; [apply IH|done]. }
  destruct (emits_foldM l (λ _, f) tt n Q HQ) as (u & ms & n' & Hr & ?); [by intros; apply Hf|].
  exists u, ms, n'. by rewrite Heq.
Qed.
End emits.

Section fresh.
Context {K : Type} `{LawfulKernel K} `{Gob}.
Hypothesis total : gob_total.
Implicit Types n : nftState K.

Lemma fresh_env n n' : fresh (kern (nft n)) → same_env n n' → fresh (kern (nft n')).
Proof. by intros Hf (-> & _). Qed.

Lemma emits_updateRule rule mk force n (Q : bool → list msg → Prop) :
  fresh (kern (nft n)) → Rule_Handle rule = 0 →
  (∀ id, Q true [mk (set_Rule_ID id rule)]) → emits (updateRule rule (writeRule mk) force) n Q.
Proof.
  intros Hf Hh HQ. pose proof (total rule) as Hk. destruct (hash_rule rule) as [key|] eqn:Ek; [|done].
  assert (rulesAt (kern (nft n)) (Rule_Table rule) (Chain_Name (Rule_Chain rule)) = Ok []) as HR
    by (unfold rulesAt; by rewrite fresh_rules).
  pose proof (updateRule_quiet rule mk force n [] key (fresh_quiet _ Hf) HR Ek Hh) as Hu.
  eexists true, _, _. split; [exact Hu|]. by split_and!.
Qed.

Lemma emits_addChain c n (Q : Chain → list msg → Prop) :
  fresh (kern (nft n)) →
  (let c' := set_Chain_Name (kernelName (Chain_Name c)) c in Q c' [MNewChain c']) → emits (addChain c) n Q.
Proof.
  intros Hf HQ. pose proof (addChain_quiet c n (fresh_quiet _ Hf)) as Ha. cbv zeta in *.
  pose proof (fresh_chain _ Hf (Chain_Table c) (kernelName (Chain_Name c))) as Hc.
  destruct (k_ListChain _ _ _) as [[ex|e] k']; [done|]. cbn [fst] in Ha.
  eexists _, _, _. split; [exact Ha|]. by split_and!.
Qed.

Lemma emits_updateSet s els n (Q : NftSet → list msg → Prop) :
  fresh (kern (nft n)) → Set_ID s = 0 → Set_Anonymous s = false → els ≠ [] →
  (∀ id, let s' := set_Set_ID id (set_Set_Name (kernelName (Set_Name s)) s) in
         Q s' [MNewSet s'; MNewSetElem s' els]) →
  emits (updateSet s els) n Q.
Proof.
  intros Hf Hid Ha Hne HQ.
  destruct (fresh_set _ Hf (Set_Table s) (kernelName (Set_Name s))) as (e & HG & He).
  pose proof (updateSet_quiet_new s els n e (fresh_quiet _ Hf) HG He Hid Ha Hne) as Hu.
  eexists _, _, _. split; [exact Hu|]. by split_and!.
Qed.
End fresh.

(** ** The chains and sets a list of messages makes *)

(** The rules appended to a chain, in order. *)
Definition chainOf (ms : list msg) (name : gostring) : list (list expr.Any) :=
  omap (λ m, match m with
             | MNewRule r => if bool_decide (Chain_Name (Rule_Chain r) = name) then Some (Rule_Exprs r) else None
             | _ => None
             end) ms.
(** The chains added. *)
Definition created (ms : list msg) : list gostring :=
  omap (λ m, match m with MNewChain c => Some (Chain_Name c) | _ => None end) ms.

Lemma chainOf_app ms1 ms2 x : chainOf (ms1 ++ ms2) x = chainOf ms1 x ++ chainOf ms2 x.
Proof. apply omap_app. Qed.
Lemma created_app ms1 ms2 : created (ms1 ++ ms2) = created ms1 ++ created ms2.
Proof. apply omap_app. Qed.

Lemma RK_fresh : fresh emptyRK.
Proof. split; [apply RK_quiet|done|done|]. intros. by exists ErrNotExist. Qed.
