(* ===== verification/Semantics.v ===== *)
(** * From a policy to verdicts

    What the chains generated for a policy in an empty namespace do to a
    packet: a rule of the policy lets a packet through exactly when one of its
    ports and one of its peers match, an [except] block drops it, and the
    policy chain returns with both mark bits set exactly when some rule lets
    the packet through. *)

From S2P Require Import Prelude GoStd Names Nft Netip Api Elements Conn RefKernel State Legacy Rules VM Fresh.

(** ** Set membership *)

Lemma interval_mem_Exists els k :
  interval_mem els k ↔
  Exists (λ s, IntervalEnd s = false ∧ be_val (Key s) ≤ k ∧
    Forall (λ e, IntervalEnd e = true → ¬ (be_val (Key s) < be_val (Key e) ≤ k)) els) els.
Proof. unfold interval_mem. rewrite Exists_exists. setoid_rewrite Forall_forall. naive_solver. Qed.

#[export] Instance interval_mem_dec els k : Decision (interval_mem els k).
Proof.
  destruct (decide (Exists (λ s, IntervalEnd s = false ∧ be_val (Key s) ≤ k ∧
    Forall (λ e, IntervalEnd e = true → ¬ (be_val (Key s) < be_val (Key e) ≤ k)) els) els));
    [left|right]; by rewrite interval_mem_Exists.
Defined.

(** Membership of a key in a set with the given elements. *)
Definition memb (interval : bool) (els : list SetElement) (key : bytes) : bool :=
  if interval then bool_decide (interval_mem els (be_val key)) else bool_decide (key ∈ Key <$> els).

(** ** What a rule sees of a packet *)

(** The family and peer address of the packet in the direction of the chain,
    its transport protocol and destination port. *)
Record view := mkView {
  v_v6 : bool;
  v_addr : bytes;
  v_l4 : Z;
  v_dport : option bytes }.

(** Where the IP headers have the source and the destination address
    (RFC 791, RFC 8200), and the numbers of the families. *)
Definition ipSource (v6 : bool) : Z := if v6 then 8 else 12.
Definition ipDestination (v6 : bool) : Z := if v6 then 24 else 16.
Definition ipLength (v6 : bool) : Z := if v6 then 16 else 4.
Definition ipFamily (v6 : bool) : Z := if v6 then 10 else 2.

(** The peer of incoming traffic is the source, of outgoing the destination. *)
Definition views (ingress : bool) (p : packet) (v : view) : Prop :=
  pkt_meta p expr.MetaKeyNFPROTO = [ipFamily (v_v6 v)] ∧
  pkt_payload p expr.PayloadBaseNetworkHeader
    (if ingress then ipSource (v_v6 v) else ipDestination (v_v6 v)) (ipLength (v_v6 v)) = Some (v_addr v) ∧
  pkt_meta p expr.MetaKeyL4PROTO = [v_l4 v] ∧
  pkt_payload p expr.PayloadBaseTransportHeader 2 2 = v_dport v.

(** ** The meaning of ports and peers *)

Definition proto_match (v : view) (proto : Z) (els : list SetElement) : bool :=
  bool_decide (v_l4 v = proto) && match v_dport v with Some d => memb true els d | None => false end.

Definition no_ports (s : portSets) : bool :=
  (len (portsTCP s) =? 0) && (len (portsUDP s) =? 0) && (len (portsSCTP s) =? 0).

(** A port of the rule matches; a rule without ports matches all. *)
Definition ports_match (v : view) (s : portSets) : bool :=
  no_ports s || proto_match v IPPROTO_TCP (portsTCP s) || proto_match v IPPROTO_UDP (portsUDP s)
  || proto_match v IPPROTO_SCTP (portsSCTP s).

(** What a peer asks for: deny or allow the addresses of a set. *)
Inductive action :=
  | Deny (v6 : bool) (els : list SetElement)
  | Allow (v6 interval : bool) (els : list SetElement).

Definition family_actions (v6 : bool) (prefixes except : list SetElement) : list action :=
  match prefixes with
  | [] => []
  | _ => match except with [] => [] | _ => [Deny v6 except] end ++ [Allow v6 true prefixes]
  end.

Definition block_actions (b : IPBlock) : result (list action) :=
  ex ← getPrefixesAsSetInterval (Except b);
  p ← getPrefixesAsSetInterval [CIDR b];
  mret (family_actions false p.1 ex.1 ++ family_actions true p.2 ex.2).

Definition addrs_actions (addrs : list gostring) : list action :=
  match addrs with
  | [] => []
  | a :: _ => [Allow (match ParseIP a ≫= To4 with None => true | Some _ => false end) false
                 ((λ a, keyElem (addrKey a)) <$> addrs)]
  end.

Inductive outcome := Matched | Denied | Unmatched.

(** The first action that applies decides. *)
Fixpoint eval_actions (v : view) (acts : list action) : outcome :=
  match acts with
  | [] => Unmatched
  | Deny v6 els :: acts =>
    if bool_decide (v_v6 v = v6) && memb true els (v_addr v) then Denied else eval_actions v acts
  | Allow v6 i els :: acts =>
    if bool_decide (v_v6 v = v6) && memb i els (v_addr v) then Matched else eval_actions v acts
  end.

Lemma addrOffset_ingress nm v6 :
  addrOffset nm v6 = if isIngressChain nm then ipSource v6 else ipDestination v6.
Proof. unfold addrOffset. by destruct (isIngressChain nm), v6. Qed.

(** ** Evaluating the generated rules *)

(** Expressions that look up a set; rules as a dump shows them. *)
Definition isLookup (e : expr.Any) : bool := match e with expr.Lookup _ _ _ _ _ _ => true | _ => false end.
Definition dumped (l : list (list expr.Any)) : list (list expr.Any) := (λ es : list expr.Any, dumpExpr <$> es) <$> l.

Section eval.
Context `{NftVM}.
Implicit Types (rs : ruleset) (p : packet) (v : view) (m : Z).

(** The set a rule looks up has the elements it was made with. *)
Definition set_is rs (s : NftSet) (els : list SetElement) : Prop :=
  ∀ k, rs_set rs (Set_Name s) k = memb (Set_Interval s) els k.

(** The rule generated for an action. *)
Definition action_rule rs (nm : gostring) (a : action) (es : list expr.Any) : Prop :=
  ∃ s, match a with
       | Deny v6 els => Set_Interval s = true ∧ set_is rs s els ∧
         es = matchAddr (addrNfProto v6) (addrOffset nm v6) (addrLen v6) s
              ++ [counter; verdict expr.VerdictDrop]
       | Allow v6 i els => Set_Interval s = i ∧ set_is rs s els ∧
         es = matchAddr (addrNfProto v6) (addrOffset nm v6) (addrLen v6) s
              ++ setMark peerRuleMark ++ [counter; verdict expr.VerdictReturn]
       end.

Lemma nfproto_eq b b' : bool_decide (ipFamily b = addrNfProto b') = bool_decide (b = b').
Proof. by destruct b, b'. Qed.

Lemma vm_matchAddr_view rs p v nm (v6 : bool) s es r m :
  views (isIngressChain nm) p v →
  vm_rule rs p (matchAddr (addrNfProto v6) (addrOffset nm v6) (addrLen v6) s ++ es) r m =
  if bool_decide (v_v6 v = v6) && rs_set rs (Set_Name s) (v_addr v)
  then vm_rule rs p es (v_addr v) m else Next m.
Proof.
  intros (Hn & Ha & _). rewrite addrOffset_ingress.
  rewrite (vm_matchAddr _ _ _ _ _ _ _ _ _ (ipFamily (v_v6 v)) (v_addr v)); [|done|].
  - by rewrite nfproto_eq.
  - intros He. assert (v_v6 v = v6) as <- by (by destruct (v_v6 v), v6).
    change (addrLen (v_v6 v)) with (ipLength (v_v6 v)). done.
Qed.

(** A chain of action rules ends as the first action that applies says. *)
Lemma run_actions rs p v nm acts rules m :
  views (isIngressChain nm) p v → is_u32 m → Forall2 (action_rule rs nm) acts rules →
  vm_rules rs p rules m (match eval_actions v acts with
                         | Matched => Falls (orMark peerRuleMark m) | Denied => Dropped | Unmatched => Falls m end).
Proof.
  intros Hv Hm. induction 1 as [|a es acts rules Ha _ IH]; [apply vm_chain_end|].
  destruct a as [v6 els|v6 i els]; destruct Ha as (s & Hi & Hs & ->); cbn [eval_actions];
    pose proof (Hs (v_addr v)) as Hk; rewrite Hi in Hk;
    destruct (bool_decide (v_v6 v = v6) && memb _ els (v_addr v)) eqn:E.
  - apply (vm_drop _ _ _ _ _ m []). rewrite (vm_matchAddr_view _ _ v), Hk, E by done. apply vm_drop_rule.
  - eapply vm_next; [|exact IH]. by rewrite (vm_matchAddr_view _ _ v), Hk, E by done.
  - apply (vm_return _ _ _ _ _ _ []). rewrite (vm_matchAddr_view _ _ v), Hk, E by done.
    rewrite vm_setMark by auto with gost. unfold counter, verdict. by rewrite vm_counter, vm_verdict.
  - eapply vm_next; [|exact IH]. by rewrite (vm_matchAddr_view _ _ v), Hk, E by done.
Qed.

(** The rule generated for the ports of one protocol. *)
Definition port_rule rs (proto : Z) (els : list SetElement) (es : list expr.Any) : Prop :=
  ∃ s, Set_Interval s = true ∧ set_is rs s els ∧
    es = [metaLoad expr.MetaKeyL4PROTO; cmpEq [proto]; payload expr.PayloadBaseTransportHeader 2 2;
          lookup s; counter] ++ setMark portRuleMark.

(** A dump shows these rules alike whatever the transaction id of the set. *)
Lemma dump_inv es es' : existsb isLookup es = false → dumpExpr <$> es' = dumpExpr <$> es → es' = es.
Proof.
  revert es'. induction es as [|e es IH]; intros [|e' es'] Hl; cbn in *; try done.
  apply orb_false_iff in Hl as [He Hl]. intros [= Hd Hds]. rewrite (IH _ Hl Hds). f_equal. by destruct e, e'.
Qed.
Lemma dump_inv_lookup pre s post es' :
  existsb isLookup (pre ++ post) = false → dumpExpr <$> es' = dumpExpr <$> (pre ++ lookup s :: post) →
  ∃ i, es' = pre ++ lookup (set_Set_ID i s) :: post.
Proof.
  rewrite existsb_app, fmap_app, fmap_cons. intros [Hpre Hpost]%orb_false_iff Hd.
  apply fmap_app_inv in Hd as (es1 & es2 & E1 & E2 & ->). symmetry in E1. apply dump_inv in E1 as ->; [|done].
  destruct es2 as [|e es2]; [done|]. cbn in E2. injection E2 as He Hes. symmetry in Hes. apply dump_inv in Hes as ->; [|done].
  destruct e; try done. injection He as <- <- <- <- <-. by eexists.
Qed.

Lemma action_rule_dump rs nm a es es' :
  dumpExpr <$> es' = dumpExpr <$> es → action_rule rs nm a es → action_rule rs nm a es'.
Proof.
  intros Hd (s & Ha). destruct a as [v6 els|v6 i els]; destruct Ha as (Hi & Hs & ->).
  all: apply (dump_inv_lookup [_; _; _] s) in Hd as [j ->]; [|done]; by exists (set_Set_ID j s).
Qed.
Lemma port_rule_dump rs proto els es es' :
  dumpExpr <$> es' = dumpExpr <$> es → port_rule rs proto els es → port_rule rs proto els es'.
Proof.
  intros Hd (s & Hi & Hs & ->). apply (dump_inv_lookup [_; _; _] s) in Hd as [j ->]; [|done]. by exists (set_Set_ID j s).
Qed.

Lemma vm_port_rule rs p v ing proto els es r m :
  views ing p v → is_u32 m → port_rule rs proto els es →
  vm_rule rs p es r m = Next (if proto_match v proto els then orMark portRuleMark m else m).
Proof.
  intros (_ & _ & Hl & Hd) Hm (s & Hi & Hs & ->). rewrite (vm_ports _ _ _ _ _ _ (v_l4 v)) by done.
  unfold proto_match. rewrite Hd. destruct (v_dport v) as [d|]; [|done]. by rewrite Hs, Hi.
Qed.

Definition proto_sets (s : portSets) : list (Z * list SetElement) :=
  [(IPPROTO_TCP, portsTCP s); (IPPROTO_UDP, portsUDP s); (IPPROTO_SCTP, portsSCTP s)].

(** A chain of port rules sets the port bit when one of them matches. *)
Lemma run_ports rs p v ing (l : list (Z * list SetElement)) rules m :
  views ing p v → is_u32 m → Forall2 (λ x, port_rule rs x.1 x.2) l rules →
  vm_rules rs p rules m
    (Falls (if existsb (λ x, proto_match v x.1 x.2) l then orMark portRuleMark m else m)).
Proof.
  intros Hv Hm HF. revert m Hm. induction HF as [|x es l rules Hx _ IH]; intros m Hm; [apply vm_chain_end|].
  cbn [existsb]. eapply vm_next; [by eapply vm_port_rule|].
  destruct (proto_match v x.1 x.2); cbn [orb].
  - specialize (IH (orMark portRuleMark m) ltac:(auto with gost)).
    rewrite orMark_idem in IH by auto with gost. by destruct (existsb _ l).
  - by apply IH.
Qed.
End eval.

(** ** What the generators emit in an empty namespace *)

(** Every set the messages fill has these elements in the ruleset. *)
Definition holds `{NftVM} (rs : ruleset) (ms : list msg) : Prop :=
  ∀ s els, MNewSetElem s els ∈ ms → set_is rs s els.

Lemma holds_app `{NftVM} rs ms1 ms2 : holds rs (ms1 ++ ms2) ↔ holds rs ms1 ∧ holds rs ms2.
Proof. unfold holds. set_solver. Qed.

(** [ms] makes no chain and appends to the chain [x] only. *)
Definition fills (x : gostring) (ms : list msg) : Prop :=
  created ms = [] ∧ ∀ y, y ≠ x → chainOf ms y = [].
Lemma fills_app x ms1 ms2 : fills x ms1 → fills x ms2 → fills x (ms1 ++ ms2).
Proof.
  intros [H1 H2] [H3 H4]. split; [by rewrite created_app, H1, H3|].
  intros y Hy. by rewrite chainOf_app, H2, H4.
Qed.
Lemma fills_nil x : fills x [].
Proof. done. Qed.

Section emission.
Context {K : Type} `{LawfulKernel K} `{Gob} `{NftVM} `{LabelApi} `{MapOrder}.
Hypothesis total : gob_total.
Implicit Types n : nftState K.

(** The messages of some actions, in the chain [x] of name [nm]. *)
Definition emits_actions (nm x : gostring) (acts : list action) (ms : list msg) : Prop :=
  fills x ms ∧ ∀ rs, holds rs ms → Forall2 (action_rule rs nm) acts (chainOf ms x).

Lemma emits_actions_nil nm x : emits_actions nm x [] [].
Proof. split; [apply fills_nil|constructor]. Qed.
Lemma emits_actions_app nm x a1 a2 ms1 ms2 :
  emits_actions nm x a1 ms1 → emits_actions nm x a2 ms2 → emits_actions nm x (a1 ++ a2) (ms1 ++ ms2).
Proof.
  intros [F1 E1] [F2 E2]. split; [by apply fills_app|]. intros rs [Hh1 Hh2]%holds_app.
  rewrite chainOf_app. apply Forall2_app; auto.
Qed.

(** A set and one rule that looks it up: the shape of every address and port
    rule. *)
Definition set_rule_msgs (s0 : NftSet) (els : list SetElement) (x : gostring) (f : NftSet → list expr.Any)
    (ms : list msg) : Prop :=
  ∃ s r, Set_Interval s = Set_Interval s0 ∧ ms = [MNewSet s; MNewSetElem s els; MNewRule r] ∧
    Chain_Name (Rule_Chain r) = x ∧ Rule_Exprs r = f s.

Lemma emits_set_rule (m : ST (nftState K) NftSet) s0 els t chain (ud : NftSet → bytes) f n :
  (∀ Q, emits (updateSet s0 els) n Q → emits m n Q) →
  fresh (kern (nft n)) → Set_ID s0 = 0 → Set_Anonymous s0 = false → els ≠ [] →
  emits (s ← m; discard (updateRule (newRule t chain (ud s) (f s)) AddRule false)) n
    (λ _ ms, set_rule_msgs s0 els (Chain_Name chain) f ms).
Proof.
  intros Hm Hf Hid Ha Hne. eapply emits_bind; [apply Hm|].
  { apply emits_updateSet with (Q := λ s ms, Set_Interval s = Set_Interval s0 ∧ ms = [MNewSet s; MNewSetElem s els]);
      done. }
  intros s ms n' He [Hi ->]. apply emits_discard, emits_updateRule; [done|by eapply fresh_env|done|].
  intros id. eexists s, _. by split_and!.
Qed.

Lemma set_rule_fills s0 els x f ms : set_rule_msgs s0 els x f ms → fills x ms.
Proof.
  intros (s & r & _ & -> & <- & _). split; [done|]. intros y Hy. cbn.
  by rewrite bool_decide_eq_false_2.
Qed.
Lemma set_rule_chain s0 els x f ms rs :
  set_rule_msgs s0 els x f ms → holds rs ms →
  ∃ s, Set_Interval s = Set_Interval s0 ∧ set_is rs s els ∧ chainOf ms x = [f s].
Proof.
  intros (s & r & Hi & -> & <- & HE) Hh. exists s. split_and!; [done|apply Hh; set_solver|].
  cbn. by rewrite bool_decide_eq_true_2, HE.
Qed.

Lemma emits_applyPrefixes nm chain pn cidr i ps es v6 n :
  fresh (kern (nft n)) →
  emits (applyPrefixes nm chain pn cidr i ps es v6) n
    (λ _ ms, emits_actions nm (Chain_Name chain) (family_actions v6 ps es) ms).
Proof.
  intros Hf. unfold applyPrefixes. rewrite !len_pos. cbv zeta.
  destruct ps as [|x ps]; [apply emits_ret, emits_actions_nil|]. cbn [family_actions].
  eapply (emits_bind _ _ _ (λ _ ms, emits_actions nm (Chain_Name chain)
    (match es with [] => [] | _ => [Deny v6 es] end) ms)).
  - destruct es as [|e es]; [apply emits_ret, emits_actions_nil|].
    eapply emits_weaken.
    + eapply (emits_set_rule _ _ (e :: es) _ _ (λ _, _) (λ s, matchAddr _ _ _ s ++ [_; _]));
        [intros Q HQ; apply emits_wrapST; exact HQ|done..].
    + intros ? ms Hms. split; [eapply set_rule_fills, Hms|]. intros rs Hh.
      destruct (set_rule_chain _ _ _ _ _ _ Hms Hh) as (s & Hi & Hs & ->).
      constructor; [|constructor]. by exists s.
  - intros ? ms n' He Hd. eapply emits_weaken.
    + eapply (emits_set_rule _ _ (x :: ps) _ _ (λ _, _) (λ s, matchAddr _ _ _ s ++ setMark _ ++ [_; _]));
        [intros Q HQ; apply emits_wrapST; exact HQ|by eapply fresh_env|done..].
    + intros ? ms' Hms. apply emits_actions_app; [done|]. split; [eapply set_rule_fills, Hms|]. intros rs Hh.
      destruct (set_rule_chain _ _ _ _ _ _ Hms Hh) as (s & Hi & Hs & ->).
      constructor; [|constructor]. by exists s.
Qed.

Lemma emits_IPBlock nm chain pn block i n acts :
  fresh (kern (nft n)) → block_actions block = Ok acts →
  emits (applyPolicyPeersRulesIPBlock nm chain pn block i) n
    (λ _ ms, emits_actions nm (Chain_Name chain) acts ms).
Proof.
  intros Hf. unfold block_actions. destruct (getPrefixesAsSetInterval (Except block)) as [ex|] eqn:E1; [|done].
  destruct (getPrefixesAsSetInterval [CIDR block]) as [p|] eqn:E2; [|done]. intros [= <-].
  unfold applyPolicyPeersRulesIPBlock.
  eapply (emits_bind _ _ _ (λ a ms, a = ex ∧ ms = [])); [by apply emits_wrapST, (emits_lift ex)|].
  intros a ms n' He [-> ->].
  eapply (emits_bind _ _ _ (λ a ms, a = p ∧ ms = [])); [by apply emits_wrapST, (emits_lift p)|].
  intros a ms n2 He2 [-> ->].
  eapply emits_bind; [apply emits_wrapST, emits_applyPrefixes; by repeat (eapply fresh_env; [|eassumption])|].
  intros ? ms1 n3 He3 H1'. cbn [app].
  eapply emits_weaken; [apply emits_wrapST, emits_applyPrefixes; by repeat (eapply fresh_env; [|eassumption])|].
  intros ? ms2 H2'. by apply emits_actions_app.
Qed.

Lemma emits_addIPRule nm addrs chain pn peer i n :
  fresh (kern (nft n)) →
  emits (addIPRule nm addrs chain pn peer i) n
    (λ _ ms, emits_actions nm (Chain_Name chain) (addrs_actions addrs) ms).
Proof.
  intros Hf. unfold addIPRule. destruct addrs as [|a addrs]; [apply emits_ret, emits_actions_nil|].
  cbv zeta. eapply emits_weaken.
  - eapply (emits_set_rule _ _ ((λ a, keyElem (addrKey a)) <$> a :: addrs) _ _ (λ _, _)
      (λ s, matchAddr _ _ _ s ++ setMark _ ++ [_; _])); [intros Q HQ; exact HQ|done..].
  - intros ? ms Hms. split; [eapply set_rule_fills, Hms|]. intros rs Hh.
    destruct (set_rule_chain _ _ _ _ _ _ Hms Hh) as (s & Hi & Hs & ->).
    constructor; [|constructor]. by exists s.
Qed.

(** The actions of a peer: its block, or the addresses its selectors find. *)
Definition peer_actions (deps : PolicyDeps) (nm : gostring) (info : PodInfo) (nets : list gostring)
    (x : nat * MultiNetworkPolicyPeer) : result (list action) :=
  match Peer_IPBlock x.2 with
  | Some block => block_actions block
  | None =>
    match Peer_PodSelector x.2, Peer_NamespaceSelector x.2 with
    | None, None => Err (ErrOther "unknown peer rule")
    | _, _ =>
      addrs ← selectorAddrs deps nm x.2 info nets x.1;
      p ← splitAddrs addrs;
      mret (addrs_actions p.1 ++ addrs_actions p.2)
    end
  end.

Lemma emits_Selector deps nm chain pn peer info nets i n addrs p :
  fresh (kern (nft n)) → selectorAddrs deps nm peer info nets i = Ok addrs → splitAddrs addrs = Ok p →
  emits (applyPolicyPeersRulesSelector deps nm chain pn peer info nets i) n
    (λ _ ms, emits_actions nm (Chain_Name chain) (addrs_actions p.1 ++ addrs_actions p.2) ms).
Proof.
  intros Hf Ha Hp. unfold applyPolicyPeersRulesSelector, addIPRules.
  eapply (emits_bind _ _ _ (λ a ms, a = addrs ∧ ms = [])); [by apply (emits_lift addrs)|].
  intros a ms n' He [-> ->]. apply emits_wrapST.
  eapply (emits_bind _ _ _ (λ a ms, a = p ∧ ms = [])); [by apply (emits_lift p)|].
  intros a ms n2 He2 [-> ->].
  eapply emits_bind; [apply emits_wrapST, emits_addIPRule; by repeat (eapply fresh_env; [|eassumption])|].
  intros ? ms1 n3 He3 H1'. cbn [app].
  eapply emits_weaken; [apply emits_wrapST, emits_addIPRule; by repeat (eapply fresh_env; [|eassumption])|].
  intros ? ms2 H2'. by apply emits_actions_app.
Qed.
End emission.

(** ** The sub-chains of one policy rule *)

(** The actions of all peers of a rule, in order. *)
Fixpoint collect {A} (f : A → result (list action)) (l : list A) : result (list action) :=
  match l with
  | [] => Ok []
  | x :: l => a ← f x; b ← collect f l; mret (a ++ b)
  end.

Lemma collect_snoc {A} (f : A → result (list action)) l x a b :
  collect f l = Ok a → f x = Ok b → collect f (l ++ [x]) = Ok (a ++ b).
Proof.
  revert a. induction l as [|y l IH]; intros a; cbn.
  - intros [= <-] ->. cbn. by rewrite app_nil_r.
  - destruct (f y) as [c|]; [|done]. cbn. destruct (collect f l) as [d|]; [|done]. cbn. intros [= <-] Hx.
    rewrite (IH d) by done. cbn. by rewrite app_assoc.
Qed.
Lemma collect_elem {A} (f : A → result (list action)) l acts x :
  collect f l = Ok acts → x ∈ l → ∃ a, f x = Ok a.
Proof.
  revert acts. induction l as [|y l IH]; intros acts; cbn; [set_solver|].
  destruct (f y) as [c|] eqn:E; [|done]. cbn. destruct (collect f l) as [d|]; [|done].
  intros _ [->|Hx]%elem_of_cons; eauto.
Qed.

(** A rule without peers matches every address. *)
Definition peers_outcome {A} (v : view) (peers : list A) (acts : list action) : outcome :=
  match peers with [] => Matched | _ => eval_actions v acts end.

Definition peersNameOf (chainName : gostring) (i : nat) : gostring :=
  nftNameWithSuffix chainName "-" (peersChainSuffix ++ str "-" ++ itoaN i).
Definition portsNameOf (chainName : gostring) (i : nat) : gostring :=
  nftNameWithSuffix chainName "-" (portsChainSuffix ++ str "-" ++ itoaN i).

Section subchains.
Context {K : Type} `{LawfulKernel K} `{Gob} `{NftVM} `{LabelApi} `{MapOrder}.
Hypothesis total : gob_total.
Implicit Types n : nftState K.

Definition peers_rules {A} rs (nm : gostring) (peers : list A) (acts : list action)
    (rules : list (list expr.Any)) : Prop :=
  match peers with
  | [] => rules = [counter :: setMark peerRuleMark]
  | _ => Forall2 (action_rule rs nm) acts rules
  end.

Lemma run_peers {A} rs p v nm (peers : list A) acts rules m :
  views (isIngressChain nm) p v → is_u32 m → peers_rules rs nm peers acts rules →
  vm_rules rs p rules m (match peers_outcome v peers acts with
                         | Matched => Falls (orMark peerRuleMark m) | Denied => Dropped | Unmatched => Falls m end).
Proof.
  intros Hv Hm Hr. destruct peers; cbn in *; [|by eapply run_actions].
  subst. eapply vm_next; [apply vm_acceptAll; auto with gost|]. apply vm_chain_end.
Qed.

(** One sub-chain [sub] of [x]: made, jumped to from [x], and filled. *)
Definition sub_chain (x sub : gostring) (ms : list msg) : Prop :=
  created ms = [sub] ∧ chainOf ms x = [[counter; jump sub]] ∧
  ∀ y, y ≠ x → y ≠ sub → chainOf ms y = [].

Lemma sub_chain_app x sub ms1 ms2 :
  x ≠ sub → sub_chain x sub ms1 → fills sub ms2 → sub_chain x sub (ms1 ++ ms2).
Proof.
  intros Hne (H1' & H2' & H3') [H4' H5']. split_and!.
  - by rewrite created_app, H1', H4'.
  - rewrite chainOf_app, H2', H5' by done. done.
  - intros y Hy1 Hy2. by rewrite chainOf_app, H3', H5'.
Qed.

(** Making the sub-chain and the jump to it, before the rest of a generator. *)
Lemma emits_sub_chain ctx nm chain t pn chainName (g : Chain → ST (nftState K) unit) n Q :
  fresh (kern (nft n)) → kernelName nm ≠ Chain_Name chain →
  (∀ ms n', same_env n n' → sub_chain (Chain_Name chain) (kernelName nm) ms →
     chainOf ms (kernelName nm) = [] → (∀ rs, holds rs ms) →
     emits (g (regularChain (kernelName nm) t)) n' (λ u ms', Q u (ms ++ ms'))) →
  emits (c ← wrapST ctx (addChain (regularChain nm t));
         updateRule (subChainJump t chain pn chainName (Chain_Name c)) AddRule false ≫= λ _, g c) n Q.
Proof.
  intros Hf Hne Hg. eapply (emits_bind _ _ _ (λ c ms, c = regularChain (kernelName nm) t ∧ ms = [MNewChain c])).
  { by apply emits_wrapST, emits_addChain. }
  intros c ms n' He [-> ->].
  eapply (emits_bind _ _ _ (λ _ ms, ∃ id, ms = [MNewRule (set_Rule_ID id
    (subChainJump t chain pn chainName (kernelName nm)))])).
  { apply emits_updateRule; [done|by eapply fresh_env|done|]. intros id. by exists id. }
  intros b ms n2 He2 [id ->]. eapply emits_weaken; [apply Hg; [by etrans|..]|].
  4:{ intros u ms' HQ. rewrite app_assoc. exact HQ. }
  - split_and!; [done| |].
    + cbn. by rewrite bool_decide_eq_true_2.
    + intros y Hy1 Hy2. cbn. by rewrite bool_decide_eq_false_2.
  - cbn. by rewrite bool_decide_eq_false_2.
  - intros rs s els. set_solver.
Qed.

(** A rule of the sub-chain written by itself. *)
Lemma emits_single_rule r force n (es := Rule_Exprs r) :
  fresh (kern (nft n)) → Rule_Handle r = 0 →
  emits (discard (updateRule r AddRule force)) n
    (λ _ ms, fills (Chain_Name (Rule_Chain r)) ms ∧ chainOf ms (Chain_Name (Rule_Chain r)) = [es] ∧
             created ms = [] ∧ ∀ rs, holds rs ms).
Proof.
  intros Hf Hh. apply emits_discard, emits_updateRule; [done|done|done|]. intros id. split_and!.
  - split; [done|]. intros y Hy. cbn. by rewrite bool_decide_eq_false_2.
  - cbn. by rewrite bool_decide_eq_true_2.
  - done.
  - intros rs s els. set_solver.
Qed.

Lemma emits_one_peer deps nm chain pn info nets x n acts :
  fresh (kern (nft n)) → peer_actions deps nm info nets x = Ok acts →
  emits ((λ '(index, peer),
    match Peer_IPBlock peer with
    | Some block =>
      wrapST "apply IPBlock peer rules"
        (applyPolicyPeersRulesIPBlock nm chain pn block index)
    | None =>
      match Peer_PodSelector peer, Peer_NamespaceSelector peer with
      | None, None => throw (ErrOther "unknown peer rule")
      | _, _ =>
        wrapST "apply selector peer rules"
          (applyPolicyPeersRulesSelector deps nm chain pn peer info nets index)
      end
    end) x) n (λ _ ms, emits_actions nm (Chain_Name chain) acts ms).
Proof.
  intros Hf. destruct x as [i peer]. unfold peer_actions. cbn [fst snd].
  destruct (Peer_IPBlock peer) as [block|].
  { intros Ha. by apply emits_wrapST, emits_IPBlock. }
  assert ((addrs ← selectorAddrs deps nm peer info nets i; p ← splitAddrs addrs;
           mret (addrs_actions p.1 ++ addrs_actions p.2)) = Ok acts →
    emits (wrapST "apply selector peer rules"
      (applyPolicyPeersRulesSelector deps nm chain pn peer info nets i)) n
      (λ _ ms, emits_actions nm (Chain_Name chain) acts ms)) as Hsel.
  { destruct (selectorAddrs _ _ _ _ _ _) as [addrs|] eqn:E1; [|done]. cbn.
    destruct (splitAddrs addrs) as [p|] eqn:E2; [|done]. cbn. intros [= <-].
    by eapply emits_wrapST, emits_Selector. }
  destruct (Peer_PodSelector peer), (Peer_NamespaceSelector peer); done || exact Hsel.
Qed.

Lemma emits_peers deps chainName chain pn peers info nets i n acts :
  let nm := peersNameOf chainName i in
  fresh (kern (nft n)) → kernelName nm ≠ Chain_Name chain →
  collect (peer_actions deps nm info nets) (enumerate peers) = Ok acts →
  emits (applyPolicyPeersRules deps chainName chain pn peers info nets i) n
    (λ _ ms, sub_chain (Chain_Name chain) (kernelName nm) ms ∧
             ∀ rs, holds rs ms → peers_rules rs nm peers acts (chainOf ms (kernelName nm))).
Proof.
  intros nm Hf Hne Hc. unfold applyPolicyPeersRules. cbv zeta. fold (peersNameOf chainName i). fold nm.
  apply emits_sub_chain; [done|done|]. intros ms n1 He Hsub Hempty Hh.
  assert (fresh (kern (nft n1))) as Hf1 by (by eapply fresh_env).
  eapply emits_bind.
  { apply (emits_forM _ _ _ (λ k ms, ∃ a, collect (peer_actions deps nm info nets) k = Ok a ∧
      emits_actions nm (kernelName nm) a ms)).
    - exists []. split; [done|apply emits_actions_nil].
    - intros x n' Hx He'. destruct (collect_elem _ _ _ _ Hc Hx) as [a Ha].
      eapply emits_weaken; [by apply (emits_one_peer deps nm _ pn info nets x n' a); [eapply fresh_env|]|].
      intros ? ms' Hms' k ms0 (a0 & Ha0 & Hms0). exists (a0 ++ a). split; [by apply collect_snoc|].
      by apply emits_actions_app. }
  intros ? ms' n2 He2 (a & Ha & [Hfill Hacts]). rewrite Hc in Ha. injection Ha as <-.
  rewrite len_zero. destruct peers as [|x peers].
  - eapply emits_weaken; [apply emits_single_rule; [by repeat (eapply fresh_env; [|eassumption])|done]|].
    intros ? ms'' (Hfill' & Hch & _). cbn in Hch, Hfill'. split.
    + rewrite app_assoc. apply sub_chain_app; [done| |done]. by apply sub_chain_app.
    + intros rs [_ [Hh' _]%holds_app]%holds_app. cbn [peers_rules].
      specialize (Hacts rs Hh'). cbn in Hc. injection Hc as <-. apply Forall2_nil_inv_l in Hacts.
      by rewrite !chainOf_app, Hempty, Hacts, Hch.
  - apply emits_ret. rewrite app_nil_r. split; [by apply sub_chain_app|].
    intros rs [_ Hh']%holds_app. rewrite chainOf_app, Hempty. by apply Hacts.
Qed.

Definition nonempty (x : Z * list SetElement) : bool := negb (len x.2 =? 0).

Definition ports_rules rs (s : portSets) (rules : list (list expr.Any)) : Prop :=
  if no_ports s then rules = [counter :: setMark portRuleMark]
  else Forall2 (λ x, port_rule rs x.1 x.2) (List.filter nonempty (proto_sets s)) rules.

Lemma proto_match_nil v proto : proto_match v proto [] = false.
Proof.
  unfold proto_match, memb. destruct (v_dport v) as [d|]; [|by rewrite andb_false_r].
  rewrite (bool_decide_eq_false_2 (interval_mem [] _)); [by rewrite andb_false_r|].
  intros (s & Hs & _). by apply not_elem_of_nil in Hs.
Qed.

Lemma existsb_nonempty v l :
  existsb (λ x, proto_match v x.1 x.2) (List.filter nonempty l) = existsb (λ x, proto_match v x.1 x.2) l.
Proof.
  induction l as [|[proto els] l IH]; cbn; [done|]. unfold nonempty at 1. cbn. rewrite len_zero.
  destruct els; cbn; [by rewrite proto_match_nil|]. by rewrite IH.
Qed.

Lemma run_ports_chain rs p v ing s rules m :
  views ing p v → is_u32 m → ports_rules rs s rules →
  vm_rules rs p rules m (Falls (if ports_match v s then orMark portRuleMark m else m)).
Proof.
  intros Hv Hm. unfold ports_rules, ports_match. destruct (no_ports s); cbn [orb].
  - intros ->. eapply vm_next; [apply vm_acceptAll; auto with gost|]. apply vm_chain_end.
  - intros Hr. pose proof (run_ports _ _ _ _ _ _ _ Hv Hm Hr) as Hrun.
    rewrite existsb_nonempty in Hrun. cbn in Hrun. rewrite orb_false_r, orb_assoc in Hrun. exact Hrun.
Qed.

(** The set and rule of one protocol, if it has ports. *)
Definition proto_spec (x : gostring) (l : list (Z * list SetElement)) (ms : list msg) : Prop :=
  fills x ms ∧ ∀ rs, holds rs ms → Forall2 (λ x, port_rule rs x.1 x.2) (List.filter nonempty l) (chainOf ms x).

Lemma proto_spec_app x l1 l2 ms1 ms2 :
  proto_spec x l1 ms1 → proto_spec x l2 ms2 → proto_spec x (l1 ++ l2) (ms1 ++ ms2).
Proof.
  intros [F1 E1] [F2 E2]. split; [by apply fills_app|]. intros rs [Hh1 Hh2]%holds_app.
  rewrite chainOf_app, List.filter_app. apply Forall2_app; auto.
Qed.

Lemma emits_applyProtocol chain portChain nm pn protocol proto els n :
  fresh (kern (nft n)) → (getProtocolInfo protocol).2 = [proto] →
  emits (applyProtocol chain portChain nm pn protocol els) n
    (λ _ ms, proto_spec (Chain_Name portChain) [(proto, els)] ms).
Proof.
  intros Hf Hp. unfold applyProtocol, applyProtoPortsRules. rewrite len_pos.
  destruct els as [|e els]; [apply emits_ret; split; [apply fills_nil|constructor]|].
  destruct (getProtocolInfo protocol) as [suffix flag]. cbn in Hp. subst flag.
  eapply (emits_bind _ _ _ (λ s ms, Set_Interval s = true ∧ ms = [MNewSet s; MNewSetElem s (e :: els)])).
  { by apply emits_updateSet. }
  intros s ms n' He [Hi ->]. apply emits_wrapST.
  eapply emits_weaken; [apply emits_single_rule; [by eapply fresh_env|done]|].
  intros ? ms' (Hfill & Hch & Hcr & _). cbn in Hfill, Hch. split.
  - apply fills_app; [|done]. done.
  - intros rs Hh. rewrite chainOf_app, Hch. cbn. constructor; [|constructor].
    exists s. split_and!; [done|apply Hh; set_solver|done].
Qed.

Lemma collectPorts_nil_ports ports s :
  collectPorts ports (mkPortSets [] [] []) = Ok s → ports = [] → no_ports s = true.
Proof. intros Hc ->. by injection Hc as <-. Qed.

Lemma emits_ports chainName chain pn ports i n s :
  let nm := portsNameOf chainName i in
  fresh (kern (nft n)) → kernelName nm ≠ Chain_Name chain →
  collectPorts ports (mkPortSets [] [] []) = Ok s →
  emits (applyPolicyPortsRules chainName chain pn ports i) n
    (λ _ ms, sub_chain (Chain_Name chain) (kernelName nm) ms ∧
             ∀ rs, holds rs ms → ports_rules rs s (chainOf ms (kernelName nm))).
Proof.
  intros nm Hf Hne Hc. unfold applyPolicyPortsRules. cbv zeta. fold (portsNameOf chainName i). fold nm.
  apply emits_sub_chain; [done|done|]. intros ms n1 He Hsub Hempty Hh.
  eapply (emits_bind _ _ _ (λ a ms, a = s ∧ ms = [])); [by apply (emits_lift s)|].
  intros a ms0 n2 He2 [-> ->]. cbn [app].
  eapply emits_bind; [apply (emits_applyProtocol _ _ _ _ _ IPPROTO_TCP); [|done]|].
  { by repeat (eapply fresh_env; [|eassumption]). }
  intros ? ms1 n3 He3 H1'.
  eapply emits_bind; [apply (emits_applyProtocol _ _ _ _ _ IPPROTO_UDP); [|done]|].
  { by repeat (eapply fresh_env; [|eassumption]). }
  intros ? ms2 n4 He4 H2'.
  eapply emits_bind; [apply (emits_applyProtocol _ _ _ _ _ IPPROTO_SCTP); [|done]|].
  { by repeat (eapply fresh_env; [|eassumption]). }
  intros ? ms3 n5 He5 H3'. cbn [Chain_Name regularChain] in *.
  pose proof (proto_spec_app _ _ _ _ _ H1' (proto_spec_app _ _ _ _ _ H2' H3')) as [Hfill Hall]. cbn [app] in Hall.
  assert ((len ports =? 0) || no_ports s = no_ports s) as Hcond.
  { rewrite len_zero. destruct ports; [|done]. by rewrite (collectPorts_nil_ports [] s). }
  fold (no_ports s). rewrite Hcond. destruct (no_ports s) eqn:En.
  - eapply emits_weaken; [apply emits_single_rule; [|done]; by repeat (eapply fresh_env; [|eassumption])|].
    intros ? ms4 (Hfill' & Hch & _). cbn in Hch, Hfill'. rewrite !app_assoc. split.
    + apply sub_chain_app; [done| |done]. rewrite <-!app_assoc. by apply sub_chain_app.
    + intros rs [Hh' _]%holds_app. unfold ports_rules. rewrite En.
      rewrite <-!app_assoc in Hh'. apply holds_app in Hh' as [_ Hh']. specialize (Hall rs Hh').
      assert (List.filter nonempty (proto_sets s) = []) as Hnil.
      { unfold no_ports in En. apply andb_true_iff in En as [[E1 E2]%andb_true_iff E3]. cbn.
        unfold nonempty. cbn. by rewrite E1, E2, E3. }
      unfold proto_sets in Hnil. rewrite Hnil in Hall. apply Forall2_nil_inv_l in Hall.
      rewrite <-!app_assoc, !chainOf_app, Hempty, Hch. rewrite !chainOf_app in Hall.
      apply app_eq_nil in Hall as [-> [-> ->]%app_eq_nil]. done.
  - apply emits_ret. rewrite app_nil_r. split; [by apply sub_chain_app|].
    intros rs [_ Hh']%holds_app. unfold ports_rules. rewrite En, chainOf_app, Hempty. by apply Hall.
Qed.
End subchains.

(** ** A policy *)

(** What one rule of a policy says: its ports, and the actions of its peers. *)
Record rule_spec := mkRuleSpec {
  spec_ports : portSets;
  spec_nopeers : bool;
  spec_actions : list action }.

Definition spec_peers (s : rule_spec) : list unit := if spec_nopeers s then [] else [tt].

(** A denied address is dropped; otherwise ports and peers must both match. *)
Definition rule_outcome (v : view) (s : rule_spec) : outcome :=
  match peers_outcome v (spec_peers s) (spec_actions s) with
  | Matched => if ports_match v (spec_ports s) then Matched else Unmatched
  | o => o
  end.

(** The rules of a policy in order; the first that matches or denies decides. *)
Fixpoint policy_outcome (v : view) (specs : list rule_spec) : outcome :=
  match specs with
  | [] => Unmatched
  | s :: specs => match rule_outcome v s with Unmatched => policy_outcome v specs | o => o end
  end.

Definition block_rules `{Arch} (ports peers : gostring) : list (list expr.Any) :=
  [[metaLoad expr.MetaKeyMARK; bitwise (not32 matchRuleMark) zeroRuleMark; markStore; counter];
   [counter; jump ports]; [counter; jump peers];
   checkMark ++ [counter; verdict expr.VerdictReturn]].

(** The kernel names of the sub-chains of a policy chain, per rule. *)
Definition sub_names {A} (chainName : gostring) (l : list (nat * A)) : list gostring :=
  l ≫= λ x, [kernelName (portsNameOf chainName x.1); kernelName (peersNameOf chainName x.1)].

Lemma Forall2_impl_l {A B} (P Q : A → B → Prop) l k :
  Forall2 P l k → (∀ x y, x ∈ l → P x y → Q x y) → Forall2 Q l k.
Proof.
  induction 1 as [|x y l k Hxy _ IH]; intros HPQ; constructor.
  - apply HPQ; [by left|done].
  - apply IH. intros x' y' Hx. apply HPQ. by right.
Qed.

Section policy.
Context {K : Type} `{LawfulKernel K} `{Gob} `{NftVM} `{LabelApi} `{MapOrder}.
Hypothesis total : gob_total.
Implicit Types n : nftState K.

Definition rule_spec_of (deps : PolicyDeps) (chainName : gostring) (info : PodInfo) (nets : list gostring)
    (x : nat * MultiNetworkPolicyRule) : result rule_spec :=
  s ← collectPorts (PRule_Ports x.2) (mkPortSets [] [] []);
  acts ← collect (peer_actions deps (peersNameOf chainName x.1) info nets) (enumerate (PRule_Peers x.2));
  mret (mkRuleSpec s (len (PRule_Peers x.2) =? 0) acts).

(** The ruleset has the sub-chains of a rule. *)
Definition rule_chains rs (chainName : gostring) (i : nat) (s : rule_spec)
    (portsRules peersRules : list (list expr.Any)) : Prop :=
  ports_rules rs (spec_ports s) portsRules ∧
  peers_rules rs (peersNameOf chainName i) (spec_peers s) (spec_actions s) peersRules.

Lemma run_block rs p v chainName i s m (P := kernelName (portsNameOf chainName i))
    (Q := kernelName (peersNameOf chainName i)) :
  views (isIngressChain (peersNameOf chainName i)) p v → is_u32 m →
  rule_chains rs chainName i s (rs_chain rs P) (rs_chain rs Q) →
  match rule_outcome v s with
  | Denied => ∀ rest, vm_rules rs p (block_rules P Q ++ rest) m Dropped
  | Matched => ∃ m', is_u32 m' ∧ portBit m' && peerBit m' = true ∧
                 ∀ rest, vm_rules rs p (block_rules P Q ++ rest) m (Falls m')
  | Unmatched => ∃ m', is_u32 m' ∧ portBit m' && peerBit m' = false ∧
                   ∀ rest o, vm_rules rs p rest m' o → vm_rules rs p (block_rules P Q ++ rest) m o
  end.
Proof.
  intros Hv Hm [Hports Hpeers]. unfold block_rules. cbn [app].
  assert (is_u32 (clearMarks m)) as Hm1 by auto with gost.
  destruct (mark_bits m Hm) as (_ & _ & _ & _ & Hc1 & Hc2).
  pose proof (run_ports_chain _ _ _ _ _ _ _ Hv Hm1 Hports) as Hrp.
  set (m2 := if ports_match v (spec_ports s) then orMark portRuleMark (clearMarks m) else clearMarks m) in *.
  assert (is_u32 m2) as Hm2 by (unfold m2; case_match; auto with gost).
  destruct (mark_bits m2 Hm2) as (_ & _ & Hb1 & Hb2 & _).
  destruct (mark_bits _ Hm1) as (Hb3 & Hb4 & _).
  assert (portBit m2 = ports_match v (spec_ports s) ∧ peerBit m2 = false) as [Hp2 Hq2].
  { unfold m2. destruct (ports_match _ _); by rewrite ?Hb3, ?Hb4, ?Hc1, ?Hc2. }
  pose proof (run_peers _ _ _ _ _ _ _ _ Hv Hm2 Hpeers) as Hrq.
  assert (∀ o rest, vm_rules rs p ([counter; jump Q] :: rest) m2 o →
    vm_rules rs p ([metaLoad expr.MetaKeyMARK; bitwise (not32 matchRuleMark) zeroRuleMark; markStore; counter]
      :: [counter; jump P] :: [counter; jump Q] :: rest) m o) as Hstart.
  { intros o rest Hr. eapply vm_next; [by apply vm_reset|].
    eapply vm_jump; [apply vm_jump_rule|exact Hrp|exact Hr]. }
  unfold rule_outcome. destruct (peers_outcome v (spec_peers s) (spec_actions s)).
  - set (m3 := orMark peerRuleMark m2) in *. assert (is_u32 m3) as Hm3 by (unfold m3; auto with gost).
    assert (portBit m3 && peerBit m3 = ports_match v (spec_ports s)) as Hbits
      by (rewrite Hb1, Hb2, Hp2; by rewrite andb_true_r).
    destruct (ports_match v (spec_ports s)); exists m3; (split_and!; [done|done|]).
    + intros rest. apply Hstart. eapply vm_jump; [apply vm_jump_rule|exact Hrq|].
      eapply vm_return. by rewrite vm_check_return, Hbits.
    + intros rest o Hr. apply Hstart. eapply vm_jump; [apply vm_jump_rule|exact Hrq|].
      eapply vm_next; [by rewrite vm_check_return, Hbits|done].
  - intros rest. apply Hstart. eapply vm_jump_final; [apply vm_jump_rule|exact Hrq|by right].
  - exists m2. split_and!; [done|by rewrite Hq2, andb_false_r|]. intros rest o Hr.
    apply Hstart. eapply vm_jump; [apply vm_jump_rule|exact Hrq|].
    eapply vm_next; [by rewrite vm_check_return, Hq2, andb_false_r|done].
Qed.

Lemma Forall2_dumped {A} (P : A → list expr.Any → Prop) l k k' :
  (∀ x es es', dumpExpr <$> es' = dumpExpr <$> es → P x es → P x es') →
  dumped k' = dumped k → Forall2 P l k → Forall2 P l k'.
Proof.
  intros HP Hd Hl. revert k' Hd. induction Hl as [|x es l k Hx _ IH]; intros [|es' k'] Hd; try done.
  injection Hd as Hd Hds. constructor; [by eapply HP|by apply IH].
Qed.

Lemma dumped_inv k k' : Forall (λ es, existsb isLookup es = false) k → dumped k' = dumped k → k' = k.
Proof.
  intros Hk. revert k'. induction Hk as [|es k He _ IH]; intros [|es' k'] Hd; try done. injection Hd as Hd Hds.
  by rewrite (IH _ Hds), (dump_inv _ _ He Hd).
Qed.

Lemma rule_chains_dump rs chainName i s portsRules peersRules portsRules' peersRules' :
  dumped portsRules' = dumped portsRules → dumped peersRules' = dumped peersRules →
  rule_chains rs chainName i s portsRules peersRules → rule_chains rs chainName i s portsRules' peersRules'.
Proof.
  intros HP HQ [Hports Hpeers]. split.
  - unfold ports_rules in *. destruct (no_ports (spec_ports s)); [|eapply Forall2_dumped; [|exact HP|exact Hports]].
    + subst. apply dumped_inv; [|done]. by repeat constructor.
    + intros x es es'. apply port_rule_dump.
  - unfold peers_rules in *. destruct (spec_peers s); [|eapply Forall2_dumped; [|exact HQ|exact Hpeers]].
    + subst. apply dumped_inv; [|done]. by repeat constructor.
    + intros x es es'. apply action_rule_dump.
Qed.

(** The messages of one rule: its two sub-chains and its block in [x]. *)
Definition rule_emission (chainName x : gostring) (i : nat) (s : rule_spec) (ms : list msg) : Prop :=
  let P := kernelName (portsNameOf chainName i) in
  let Q := kernelName (peersNameOf chainName i) in
  created ms = [P; Q] ∧ chainOf ms x = block_rules P Q ∧
  (∀ z, z ≠ x → z ≠ P → z ≠ Q → chainOf ms z = []) ∧
  ∀ rs, holds rs ms → rule_chains rs chainName i s (chainOf ms P) (chainOf ms Q).

Lemma emits_applyMarkReset nm chain rn i n :
  fresh (kern (nft n)) →
  emits (applyMarkReset nm chain rn i) n
    (λ _ ms, fills (Chain_Name chain) ms ∧ chainOf ms (Chain_Name chain) =
       [[metaLoad expr.MetaKeyMARK; bitwise (not32 matchRuleMark) zeroRuleMark; markStore; counter]]).
Proof.
  intros Hf. eapply (emits_bind _ _ _ (λ _ ms, ms = [])); [by apply emits_getFilter|].
  intros f ms0 n0 He0 ->. eapply emits_weaken; [apply (emits_single_rule total); [by eapply fresh_env|done]|].
  by intros ? ms (? & ? & _).
Qed.

Lemma emits_applyPolicyRule deps chainName chain rn pn info nets i rule n s
    (P := kernelName (portsNameOf chainName i)) (Q := kernelName (peersNameOf chainName i)) :
  fresh (kern (nft n)) → NoDup [Chain_Name chain; P; Q] →
  rule_spec_of deps chainName info nets (i, rule) = Ok s →
  emits (applyPolicyRule deps chainName chain rn pn info nets i rule) n
    (λ _ ms, rule_emission chainName (Chain_Name chain) i s ms).
Proof.
  intros Hf Hnd Hs. rewrite !NoDup_cons in Hnd. destruct Hnd as (Hx & HPQ & _).
  assert (P ≠ Chain_Name chain ∧ Q ≠ Chain_Name chain ∧ P ≠ Q) as (HP & HQ & HPQ') by set_solver.
  clear Hx HPQ. unfold rule_spec_of in Hs. cbn [fst snd] in Hs.
  destruct (collectPorts _ _) as [ps|] eqn:Ep; [|done]. cbn in Hs.
  destruct (collect _ _) as [acts|] eqn:Ec; [|done]. cbn in Hs. injection Hs as <-.
  unfold applyPolicyRule, applyMarkCheck.
  eapply emits_bind; [by apply emits_wrapST, emits_applyMarkReset|].
  intros ? ms1 n1 He1 ([Hc1 Hf1] & Hch1).
  eapply emits_bind; [apply emits_wrapST, (emits_ports total); [by eapply fresh_env|exact HP|exact Ep]|].
  intros ? ms2 n2 He2 ((Hc2 & Hx2 & Hf2) & Hr2).
  eapply emits_bind; [apply emits_wrapST, (emits_peers total); [by do 2 (eapply fresh_env; [|eassumption])|exact HQ|exact Ec]|].
  intros ? ms3 n3 He3 ((Hc3 & Hx3 & Hf3) & Hr3).
  eapply emits_weaken; [apply emits_wrapST, (emits_single_rule total); [by do 3 (eapply fresh_env; [|eassumption])|done]|].
  intros ? ms4 ([Hc4 Hf4] & Hch4 & _ & _). cbn [Chain_Name Rule_Chain newRule] in *.
  fold P in Hc2, Hx2, Hf2, Hr2. fold Q in Hc3, Hx3, Hf3, Hr3. split_and!.
  - rewrite !created_app, Hc1, Hc2, Hc3, Hc4. done.
  - rewrite !chainOf_app, Hch1, Hx2, Hx3, Hch4. done.
  - intros z Hz1 Hz2 Hz3. rewrite !chainOf_app, Hf1, Hf2, Hf3, Hf4 by done. done.
  - intros rs (_ & (Hh2 & (Hh3 & _)%holds_app)%holds_app)%holds_app. fold P Q.
    rewrite !chainOf_app, (Hf1 P), (Hf3 P), (Hf4 P), (Hf1 Q), (Hf2 Q), (Hf4 Q) by done.
    cbn [app]. rewrite !app_nil_r. split; [by apply Hr2|]. specialize (Hr3 rs Hh3).
    cbn [spec_peers spec_nopeers spec_actions]. rewrite len_zero. by destruct (PRule_Peers rule).
Qed.

(** The messages of all rules. *)
Definition policy_emission (chainName x : gostring) (l : list (nat * MultiNetworkPolicyRule))
    (specs : list rule_spec) (ms : list msg) : Prop :=
  created ms = sub_names chainName l ∧
  chainOf ms x = (l ≫= λ y, block_rules (kernelName (portsNameOf chainName y.1))
                                        (kernelName (peersNameOf chainName y.1))) ∧
  (∀ z, z ≠ x → z ∉ sub_names chainName l → chainOf ms z = []) ∧
  ∀ rs, holds rs ms →
    Forall2 (λ y s, rule_chains rs chainName y.1 s
      (chainOf ms (kernelName (portsNameOf chainName y.1)))
      (chainOf ms (kernelName (peersNameOf chainName y.1)))) l specs.

Lemma elem_of_sub_names {A} chainName (l : list (nat * A)) y :
  y ∈ l → kernelName (portsNameOf chainName y.1) ∈ sub_names chainName l ∧
          kernelName (peersNameOf chainName y.1) ∈ sub_names chainName l.
Proof.
  intros Hy. unfold sub_names. split; apply list_elem_of_bind; exists y; (split; [|done]);
    rewrite !elem_of_cons; auto.
Qed.

Lemma sub_names_NoDup {A} chainName (l : list (nat * A)) y :
  NoDup (sub_names chainName l) → y ∈ l →
  NoDup [kernelName (portsNameOf chainName y.1); kernelName (peersNameOf chainName y.1)].
Proof.
  induction l as [|z l IH]; [set_solver|]. unfold sub_names. cbn [mbind list_bind].
  intros (Hz & _ & Hl)%NoDup_app [->|Hy]%elem_of_cons; [done|by apply IH].
Qed.

Lemma policy_emission_snoc chainName x l specs ms y s ms' :
  NoDup (x :: sub_names chainName (l ++ [y])) →
  policy_emission chainName x l specs ms → rule_emission chainName x y.1 s ms' →
  policy_emission chainName x (l ++ [y]) (specs ++ [s]) (ms ++ ms').
Proof.
  assert (sub_names chainName (l ++ [y]) = sub_names chainName l ++
    [kernelName (portsNameOf chainName y.1); kernelName (peersNameOf chainName y.1)]) as Hsn
    by (unfold sub_names; by rewrite bind_app).
  rewrite Hsn. intros [Hx Hnd]%NoDup_cons (Hc & Hb & Hz & Hr) (Hc' & Hb' & Hz' & Hr').
  rewrite not_elem_of_app, !not_elem_of_cons in Hx. destruct Hx as (Hx1 & Hx2 & Hx3 & _).
  apply NoDup_app in Hnd as (_ & Hdis & _). setoid_rewrite not_elem_of_cons in Hdis.
  setoid_rewrite not_elem_of_cons in Hdis.
  split_and!.
  - by rewrite created_app, Hc, Hc', Hsn.
  - rewrite chainOf_app, Hb, Hb', bind_app. done.
  - intros z Hz1 Hz2. rewrite Hsn, not_elem_of_app, !not_elem_of_cons in Hz2.
    destruct Hz2 as (Hz2 & Hz3 & Hz4 & _). rewrite chainOf_app, Hz, Hz' by done. done.
  - intros rs [Hh1 Hh2]%holds_app. apply Forall2_app.
    + specialize (Hr rs Hh1). eapply Forall2_impl_l; [exact Hr|]. intros y' s' Hy' Hch.
      destruct (elem_of_sub_names chainName l y' Hy') as [HP HQ].
      destruct (Hdis _ HP) as (? & ? & _), (Hdis _ HQ) as (? & ? & _).
      assert (kernelName (portsNameOf chainName y'.1) ≠ x) by (by intros <-).
      assert (kernelName (peersNameOf chainName y'.1) ≠ x) by (by intros <-).
      rewrite !chainOf_app, !Hz', !app_nil_r by done. done.
    + constructor; [|constructor]. specialize (Hr' rs Hh2).
      rewrite !chainOf_app, !Hz; [done|done| |done|].
      * intros Hin. destruct (Hdis _ Hin) as (_ & ? & _). done.
      * intros Hin. destruct (Hdis _ Hin) as (? & _). done.
Qed.

Lemma emits_policy deps chainName chain rn pn info nets l specs n :
  fresh (kern (nft n)) → NoDup (Chain_Name chain :: sub_names chainName l) →
  Forall2 (λ y s, rule_spec_of deps chainName info nets y = Ok s) l specs →
  emits (forM l (λ '(index, r), applyPolicyRule deps chainName chain rn pn info nets index r)) n
    (λ _ ms, policy_emission chainName (Chain_Name chain) l specs ms).
Proof.
  intros Hf Hnd Hsp. eapply emits_weaken.
  - apply (emits_forM _ _ _ (λ k ms, ∃ sp, Forall2 (λ y s, rule_spec_of deps chainName info nets y = Ok s) k sp ∧
      (NoDup (Chain_Name chain :: sub_names chainName k) → policy_emission chainName (Chain_Name chain) k sp ms))).
    + exists []. split; [constructor|]. intros _. split_and!; [done|done|done|]. intros. constructor.
    + intros [i r] n' Hy He. destruct (Forall2_elem_l _ _ _ _ Hsp Hy) as (s & _ & Hs).
      eapply emits_weaken; [apply emits_applyPolicyRule; [by eapply fresh_env| |exact Hs]|].
      * apply NoDup_cons in Hnd as [Hx Hnd]. pose proof (elem_of_sub_names chainName l (i, r) Hy) as [HP HQ].
        rewrite NoDup_cons, not_elem_of_cons, not_elem_of_cons. split_and!;
          [by intros He'; apply Hx; rewrite He'|by intros He'; apply Hx; rewrite He'|by apply not_elem_of_nil|].
        by apply (sub_names_NoDup chainName l (i, r)).
      * intros ? ms Hms k ms0 (sp & Hk & Hms0). exists (sp ++ [s]). split; [by apply Forall2_app; [|constructor]|].
        intros Hnd'. apply policy_emission_snoc; [done| |done]. apply Hms0.
        unfold sub_names in *. rewrite bind_app in Hnd'. apply NoDup_cons in Hnd' as [Hx' Hnd'].
        apply NoDup_app in Hnd' as (? & _ & _). apply NoDup_cons. split; [|done].
        by apply not_elem_of_app in Hx' as [? _].
  - intros ? ms (sp & Hk & Hms). specialize (Hms Hnd).
    assert (sp = specs) as <-; [|done]. clear -Hk Hsp. revert specs Hsp.
    induction Hk as [|y s k sp Hy _ IH]; intros specs Hsp; inversion Hsp; subst; [done|].
    f_equal; [congruence|auto].
Qed.

(** A chain of blocks ends as the policy's outcome says. *)
Lemma run_policy rs p v chainName ing (l : list (nat * MultiNetworkPolicyRule)) specs m :
  (∀ y, y ∈ l → isIngressChain (peersNameOf chainName y.1) = ing) →
  views ing p v → is_u32 m →
  Forall2 (λ y s, rule_chains rs chainName y.1 s
      (rs_chain rs (kernelName (portsNameOf chainName y.1)))
      (rs_chain rs (kernelName (peersNameOf chainName y.1)))) l specs →
  let rules := l ≫= λ y, block_rules (kernelName (portsNameOf chainName y.1))
                                     (kernelName (peersNameOf chainName y.1)) in
  match policy_outcome v specs with
  | Denied => vm_rules rs p rules m Dropped
  | Matched => ∃ m', is_u32 m' ∧ portBit m' && peerBit m' = true ∧ vm_rules rs p rules m (Falls m')
  | Unmatched => ∃ m', is_u32 m' ∧ (portBit m' && peerBit m' = true → portBit m && peerBit m = true) ∧
                   vm_rules rs p rules m (Falls m')
  end.
Proof.
  intros Hdir Hv. intros Hm HF. revert m Hm.
  induction HF as [|y s l specs Hy _ IH]; intros m Hm.
  - exists m. split_and!; [done|done|apply vm_chain_end].
  - cbn [policy_outcome mbind list_bind].
    pose proof (run_block rs p v chainName y.1 s m) as Hb. rewrite Hdir in Hb by (by left).
    specialize (Hb Hv Hm Hy). destruct (rule_outcome v s).
    + destruct Hb as (m' & Hm' & Hbits & Hr). exists m'. split_and!; [done|done|apply Hr].
    + apply Hb.
    + destruct Hb as (m' & Hm' & Hbits & Hr).
      assert (∀ y, y ∈ l → isIngressChain (peersNameOf chainName y.1) = ing) as Hdir'
        by (intros; apply Hdir; by right).
      specialize (IH Hdir' m' Hm'). cbv zeta in IH. destruct (policy_outcome v specs).
      * destruct IH as (m2 & ? & ? & ?). exists m2. split_and!; [done|done|by apply Hr].
      * by apply Hr.
      * destruct IH as (m2 & ? & Hb2 & ?). exists m2. split_and!; [done| |by apply Hr].
        intros Hboth. rewrite Hb2 in Hbits by done. done.
Qed.
End policy.
