(* ===== verification/Verdict.v ===== *)
(** * The verdict on a packet of a selected pod

    The entry chain of a direction ([multi-ingress] or [multi-egress]) as
    generated in an empty namespace: a packet that no policy for its interface
    lets through is dropped, one that some policy lets through returns to the
    base chain. *)

From S2P Require Import Prelude GoStd Names Nft Netip Api Elements Conn RefKernel State Legacy Rules Cleanup Server VM Fresh Semantics.

Definition entryName (ing : bool) : gostring := if ing then ingressChain else egressChain.

(** ** Names *)

Section names.
Context `{LabelApi}.

Lemma entry_chars ing : Forall (λ r, nft_char r = true) (entryName ing).
Proof. destruct ing; apply (bool_decide_unpack _); vm_compute; exact I. Qed.

Lemma policyChainName_chars ing policy :
  Forall (λ r, nft_char r = true) (policyChainNameOf (entryName ing) policy).
Proof.
  unfold policyChainNameOf. forall_split; [apply entry_chars|apply (bool_decide_unpack _); vm_compute; exact I|].
  apply truncate_chars.
Qed.
Lemma policyChainName_long ing policy : (13 ≤ length (policyChainNameOf (entryName ing) policy))%nat.
Proof.
  unfold policyChainNameOf. rewrite !length_app.
  assert (12 ≤ length (entryName ing))%nat by (destruct ing; vm_compute; lia).
  change (length (str "-")) with 1%nat. lia.
Qed.
Lemma policyChainName_ingress ing policy : isIngressChain (policyChainNameOf (entryName ing) policy) = ing.
Proof.
  unfold policyChainNameOf. rewrite app_assoc.
  rewrite isIngress_app by (destruct ing; vm_compute; lia). by destruct ing.
Qed.

Lemma itoaN_short i : Z.of_nat i < 2 ^ 63 → len (itoaN i) ≤ 19.
Proof.
  intros Hi. unfold len, itoaN. pose proof (length_itoa 19 (Z.of_nat i)) as Hl.
  assert (0 ≤ Z.of_nat i < 10 ^ Z.of_nat 19) as Hb; [|specialize (Hl Hb); lia].
  split; [lia|]. etrans; [exact Hi|]. by vm_compute.
Qed.

(** The sub-chains of a policy chain look in its direction. *)
Lemma peersName_ingress ing policy i :
  Z.of_nat i < 2 ^ 63 → isIngressChain (peersNameOf (policyChainNameOf (entryName ing) policy) i) = ing.
Proof.
  intros Hi. unfold peersNameOf. rewrite nftNameWithSuffix_ingress.
  - apply policyChainName_ingress.
  - apply policyChainName_chars.
  - apply policyChainName_long.
  - pose proof (itoaN_short i Hi). unfold len in *. rewrite !length_app.
    change (length (str "-")) with 1%nat. change (length peersChainSuffix) with 5%nat. lia.
Qed.
End names.

Lemma enumerate_lookup {A} (l : list A) i x : (i, x) ∈ enumerate l → (i < length l)%nat.
Proof.
  unfold enumerate. intros [k Hk]%list_elem_of_lookup.
  apply lookup_zip_with_Some in Hk as (j & y & [= <- <-] & Hj & _). apply lookup_seq in Hj as [-> ?]. simpl. lia.
Qed.

(** ** The rules for the interfaces of a policy *)

Section entry.
Context `{NftVM} `{LabelApi}.

Definition ifaceKey (ing : bool) : expr.MetaKey := if ing then expr.MetaKeyIIFNAME else expr.MetaKeyOIFNAME.
Definition ifaceRule (ing : bool) (target : gostring) (i : InterfaceInfo) : list expr.Any :=
  [metaLoad (ifaceKey ing); cmpEq (ifname (InterfaceName i)); counter; jump target].
Definition returnRule : list expr.Any := checkMark ++ [counter; verdict expr.VerdictReturn].

(** The interfaces a policy covers. *)
Definition covered (info : PodInfo) (p : internalPolicy) : list InterfaceInfo :=
  List.filter (λ i, CheckPolicyNetwork i (ip_policyNetworks p)) (PI_Interfaces info).

(** What a policy says of a packet on the interface with the key [ifn]. *)
Definition policy_says (v : view) (ifn : bytes) (covers : list InterfaceInfo) (specs : list rule_spec) : outcome :=
  if bool_decide (ifn ∈ (λ i, ifname (InterfaceName i)) <$> covers) then policy_outcome v specs else Unmatched.

(** The first policy that matches or denies decides; without one the packet
    is not let through. *)
Fixpoint entry_outcome (v : view) (ifn : bytes) (l : list (list InterfaceInfo * list rule_spec)) : outcome :=
  match l with
  | [] => Unmatched
  | (c, s) :: l => match policy_says v ifn c s with Unmatched => entry_outcome v ifn l | o => o end
  end.

Definition unmarked (m : Z) : Prop := is_u32 m ∧ portBit m && peerBit m = false.

Lemma vm_iface rs p ing target i r m ifn :
  pkt_meta p (ifaceKey ing) = ifn → length ifn = 16%nat →
  vm_rule rs p (ifaceRule ing target i) r m =
  if bool_decide (ifn = ifname (InterfaceName i)) then Decided expr.VerdictJump target m else Next m.
Proof.
  intros Hp Hl. unfold ifaceRule, metaLoad, cmpEq, counter, jump.
  rewrite vm_meta_load, Hp by (by destruct ing). rewrite vm_cmp_eq by (by rewrite length_ifname).
  by rewrite vm_counter, vm_verdict.
Qed.

(** A policy chain as [run_policy] describes it. *)
Definition chain_says rs p (o : outcome) (target : gostring) : Prop :=
  ∀ m, is_u32 m →
  match o with
  | Denied => vm_rules rs p (rs_chain rs target) m Dropped
  | Matched => ∃ m', is_u32 m' ∧ portBit m' && peerBit m' = true ∧ vm_rules rs p (rs_chain rs target) m (Falls m')
  | Unmatched => ∃ m', is_u32 m' ∧ (portBit m' && peerBit m' = true → portBit m && peerBit m = true) ∧
                   vm_rules rs p (rs_chain rs target) m (Falls m')
  end.

(** Interface rules of which none matches are passed over. *)
Lemma run_ifaces_none rs p ing target l ifn rest m o :
  pkt_meta p (ifaceKey ing) = ifn → length ifn = 16%nat →
  ifn ∉ (λ i, ifname (InterfaceName i)) <$> l →
  vm_rules rs p rest m o → vm_rules rs p ((ifaceRule ing target <$> l) ++ rest) m o.
Proof.
  intros Hp Hl. induction l as [|i l IH]; intros Hn Hr; [done|]. cbn in *.
  rewrite not_elem_of_cons in Hn. destruct Hn as [Hn1 Hn2]. eapply vm_next; [|by apply IH].
  by rewrite (vm_iface _ _ _ _ _ _ _ ifn), bool_decide_eq_false_2.
Qed.

Lemma run_pod rs p v ing target covers specs ifn m :
  pkt_meta p (ifaceKey ing) = ifn → length ifn = 16%nat →
  NoDup ((λ i, ifname (InterfaceName i)) <$> covers) →
  chain_says rs p (policy_outcome v specs) target → unmarked m →
  match policy_says v ifn covers specs with
  | Denied => ∀ rest, vm_rules rs p ((ifaceRule ing target <$> covers) ++ returnRule :: rest) m Dropped
  | Matched => ∃ m', is_u32 m' ∧
      ∀ rest, vm_rules rs p ((ifaceRule ing target <$> covers) ++ returnRule :: rest) m (Falls m')
  | Unmatched => ∃ m', unmarked m' ∧ ∀ rest o, vm_rules rs p rest m' o →
      vm_rules rs p ((ifaceRule ing target <$> covers) ++ returnRule :: rest) m o
  end.
Proof.
  intros Hp Hl Hnd Hchain [Hm Hum].
  assert (∀ m' rest o, unmarked m' → vm_rules rs p rest m' o → vm_rules rs p (returnRule :: rest) m' o) as Hpass.
  { intros m' rest o [Hm' Hu] Hr. eapply vm_next; [|exact Hr]. unfold returnRule. by rewrite vm_check_return, Hu. }
  unfold policy_says. case_bool_decide as Hin.
  2:{ exists m. split; [done|]. intros rest o Hr. eapply run_ifaces_none; [done|done|done|]. by apply Hpass. }
  apply list_elem_of_fmap in Hin as (i & Hi & Hin). apply list_elem_of_split in Hin as (l1 & l2 & ->).
  rewrite fmap_app, fmap_cons in Hnd. rewrite (fmap_app (ifaceRule ing target)), fmap_cons. apply NoDup_app in Hnd as (_ & Hd & [Hd2 _]%NoDup_cons).
  assert (ifn ∉ (λ i, ifname (InterfaceName i)) <$> l1) as Hn1.
  { intros Hin. apply (Hd _ Hin). rewrite Hi. by left. }
  rewrite <-Hi in Hd2.
  assert (∀ rest, ((ifaceRule ing target <$> l1) ++ ifaceRule ing target i :: (ifaceRule ing target <$> l2)) ++ rest
    = (ifaceRule ing target <$> l1) ++ ifaceRule ing target i :: (ifaceRule ing target <$> l2) ++ rest) as Happ
    by (intros; by rewrite <-app_assoc).
  assert (vm_rule rs p (ifaceRule ing target i) [] m = Decided expr.VerdictJump target m) as Hj
    by (rewrite (vm_iface _ _ _ _ _ _ _ ifn) by done; by rewrite bool_decide_eq_true_2).
  specialize (Hchain m Hm). destruct (policy_outcome v specs).
  - destruct Hchain as (m' & Hm' & Hb & Hr). exists m'. split; [done|]. intros rest. rewrite Happ.
    eapply run_ifaces_none; [done|done|done|]. eapply vm_jump; [exact Hj|exact Hr|].
    eapply run_ifaces_none; [done|done|done|]. eapply vm_return. unfold returnRule. by rewrite vm_check_return, Hb.
  - intros rest. rewrite Happ. eapply run_ifaces_none; [done|done|done|].
    eapply vm_jump_final; [exact Hj|exact Hchain|by right].
  - destruct Hchain as (m' & Hm' & Hb & Hr). exists m'.
    assert (unmarked m') as Hu.
    { split; [done|]. apply not_true_iff_false. intros Hboth. rewrite Hb in Hum; done. }
    split; [done|]. intros rest o Ho. rewrite Happ. eapply run_ifaces_none; [done|done|done|].
    eapply vm_jump; [exact Hj|exact Hr|]. eapply run_ifaces_none; [done|done|done|]. by apply Hpass.
Qed.

(** The whole entry chain: the policies in order, then the drop. *)
Lemma run_entry rs p v ing ifn (l : list (gostring * list InterfaceInfo * list rule_spec)) m :
  pkt_meta p (ifaceKey ing) = ifn → length ifn = 16%nat →
  Forall (λ x, NoDup ((λ i, ifname (InterfaceName i)) <$> x.1.2) ∧
               chain_says rs p (policy_outcome v x.2) x.1.1) l → unmarked m →
  let rules := (l ≫= λ x, (ifaceRule ing x.1.1 <$> x.1.2) ++ [returnRule]) ++ [[counter; verdict expr.VerdictDrop]] in
  match entry_outcome v ifn ((λ x, (x.1.2, x.2)) <$> l) with
  | Matched => ∃ m', vm_rules rs p rules m (Falls m')
  | _ => vm_rules rs p rules m Dropped
  end.
Proof.
  intros Hp Hl HF. cbv zeta. revert m. induction HF as [|[[target covers] specs] l [Hnd Hc] _ IH]; intros m Hm.
  - cbn. eapply vm_drop. apply vm_drop_rule.
  - cbn [fmap list_fmap entry_outcome mbind list_bind fst snd].
    pose proof (run_pod rs p v ing target covers specs ifn m Hp Hl Hnd Hc Hm) as Hr.
    rewrite <-!app_assoc. cbn [app] in *. destruct (policy_says v ifn covers specs).
    + destruct Hr as (m' & _ & Hr). exists m'. apply Hr.
    + apply Hr.
    + destruct Hr as (m' & Hu & Hr). specialize (IH m' Hu). destruct (entry_outcome _ _ _).
      * destruct IH as [m2 IH]. exists m2. by apply Hr.
      * by apply Hr.
      * by apply Hr.
Qed.
End entry.

(** ** What the entry chain is made of *)

Section direction.
Context {K : Type} `{LawfulKernel K} `{Gob} `{NftVM} `{LabelApi} `{MapOrder}.
Hypothesis total : gob_total.
Variable ing : bool.
Variable info : PodInfo.
Variable deps : PolicyDeps.
Implicit Types (n : nftState K) (p : internalPolicy).

Abbreviation E := (entryName ing).
Definition nameOf (p : internalPolicy) : gostring := policyChainNameOf (entryName ing) (ip_policy p).
Definition targetOf (p : internalPolicy) : gostring := kernelName (nameOf p).
Definition rulesOf (p : internalPolicy) : list (nat * MultiNetworkPolicyRule) :=
  enumerate (default [] (if ing then Spec_Ingress (Policy_Spec (ip_policy p))
                         else Spec_Egress (Policy_Spec (ip_policy p)))).

(** The rules of the policy are well formed, with these meanings. *)
Definition policy_specs (p : internalPolicy) (specs : list rule_spec) : Prop :=
  Forall2 (λ y s, rule_spec_of deps (nameOf p) info (ip_policyNetworks p) y = Ok s) (rulesOf p) specs.

(** The kernel names of the chains of a policy. *)
Definition chainNames (p : internalPolicy) : list gostring := targetOf p :: sub_names (nameOf p) (rulesOf p).

Definition entryRules (p : internalPolicy) : list (list expr.Any) :=
  (ifaceRule ing (targetOf p) <$> covered info p) ++ [returnRule].

Definition sub_chains rs (p : internalPolicy) (specs : list rule_spec)
    (chain : gostring → list (list expr.Any)) : Prop :=
  chain (targetOf p) = (rulesOf p ≫= λ y, block_rules (kernelName (portsNameOf (nameOf p) y.1))
                                                       (kernelName (peersNameOf (nameOf p) y.1))) ∧
  Forall2 (λ y s, rule_chains rs (nameOf p) y.1 s (chain (kernelName (portsNameOf (nameOf p) y.1)))
                    (chain (kernelName (peersNameOf (nameOf p) y.1)))) (rulesOf p) specs.

(** The messages of one policy: its chains, and its rules [er] in the entry chain. *)
Definition pod_emission (p : internalPolicy) (specs : list rule_spec) (er : list (list expr.Any))
    (ms : list msg) : Prop :=
  created ms = chainNames p ∧ chainOf ms E = er ∧
  (∀ z, z ≠ E → z ∉ chainNames p → chainOf ms z = []) ∧
  ∀ rs, holds rs ms → sub_chains rs p specs (chainOf ms).

Lemma emits_ifaces chain pc (p : internalPolicy) n :
  fresh (kern (nft n)) → Chain_Name chain = E →
  emits (foldM (PI_Interfaces info) false (λ newRules podIntf,
    if CheckPolicyNetwork podIntf (ip_policyNetworks p) then
      newRule ← wrapST "failed to apply pod interface rules"
        (applyPodInterfaceRules chain pc (ip_policy p) podIntf);
      mret (if (newRule : bool) then true else newRules)
    else mret newRules)) n
    (λ _ ms, fills E ms ∧ chainOf ms E = ifaceRule ing (Chain_Name pc) <$> covered info p ∧ ∀ rs, holds rs ms).
Proof.
  intros Hf HE. unfold covered.
  apply (emits_foldM _ _ _ _ (λ k ms, fills E ms ∧ chainOf ms E = ifaceRule ing (Chain_Name pc) <$>
    List.filter (λ i, CheckPolicyNetwork i (ip_policyNetworks p)) k ∧ ∀ rs, holds rs ms)).
  { split_and!; [apply fills_nil|done|]. intros rs s els. by intros ?%not_elem_of_nil. }
  intros b i n' _ He. destruct (CheckPolicyNetwork i (ip_policyNetworks p)) eqn:Ec.
  2:{ apply emits_ret. intros k ms0 (? & ? & ?). rewrite app_nil_r, List.filter_app. cbn.
      by rewrite Ec, app_nil_r. }
  eapply (emits_bind _ _ _ (λ _ ms, ∃ r, ms = [MNewRule r] ∧ Chain_Name (Rule_Chain r) = E ∧
    Rule_Exprs r = ifaceRule ing (Chain_Name pc) i)).
  - apply emits_wrapST. unfold applyPodInterfaceRules.
    eapply (emits_bind _ _ _ (λ _ ms, ms = [])); [by apply emits_getFilter|]. intros f ms n1 He1 ->.
    apply emits_updateRule; [done|by do 2 (eapply fresh_env; [|eassumption])|done|].
    intros id. eexists. split; [reflexivity|]. split; [exact HE|]. cbn. unfold ifaceRule, getMetaKeyInterface.
    rewrite HE. by destruct ing.
  - intros b' ms n1 He1 (r & -> & Hr & Hx). apply emits_ret. intros k ms0 ([? Hfill] & Hch & Hh). split_and!.
    + apply fills_app; [done|]. split; [done|]. intros y Hy. cbn. by rewrite Hr, bool_decide_eq_false_2.
    + rewrite chainOf_app, Hch, List.filter_app, fmap_app. cbn. rewrite Ec.
      by rewrite bool_decide_eq_true_2, Hx.
    + intros rs. apply holds_app. split; [apply Hh|]. intros s els. set_solver.
Qed.

Lemma emits_applyPodRules chain (p : internalPolicy) specs n :
  fresh (kern (nft n)) → Chain_Name chain = E → NoDup (E :: chainNames p) → policy_specs p specs →
  emits (applyPodRules deps chain info (ip_policy p) (ip_policyNetworks p)) n
    (λ _ ms, pod_emission p specs (ifaceRule ing (targetOf p) <$> covered info p) ms).
Proof.
  intros Hf HE Hnd Hsp. apply NoDup_cons in Hnd as [HEn Hnd]. unfold chainNames in HEn, Hnd.
  rewrite not_elem_of_cons in HEn. destruct HEn as [HEt HEs]. pose proof Hnd as [Ht _]%NoDup_cons.
  unfold applyPodRules. cbv zeta. rewrite HE. fold (nameOf p).
  eapply (emits_bind _ _ _ (λ _ ms, ms = [])); [by apply emits_getFilter|]. intros f ms0 n0 He0 ->.
  eapply (emits_bind _ _ _ (λ c ms, c = regularChain (targetOf p) f ∧ ms = [MNewChain c])).
  { apply emits_wrapST, emits_addChain; [by eapply fresh_env|done]. }
  intros c ms1 n1 He1 [-> ->].
  eapply emits_bind; [apply emits_ifaces; [by do 2 (eapply fresh_env; [|eassumption])|done]|].
  intros b ms2 n2 He2 ([Hc2 Hf2] & Hi2 & _). cbn [Chain_Name regularChain] in Hi2.
  eapply (emits_bind _ _ _ (λ _ ms, policy_emission (nameOf p) (targetOf p) (rulesOf p) specs ms)).
  { assert (fresh (kern (nft n2))) as Hf3 by (by do 3 (eapply fresh_env; [|eassumption])).
    pose proof (emits_policy total deps (nameOf p) (regularChain (targetOf p) f)
      (if ing then policyNamespacedName (ip_policy p) else Policy_Name (ip_policy p))
      (policyNamespacedName (ip_policy p)) info (ip_policyNetworks p) (rulesOf p) specs n2 Hf3 Hnd Hsp) as Hpol.
    replace (isIngressChain (nameOf p)) with ing by (symmetry; apply policyChainName_ingress).
    clear -Hpol. unfold rulesOf in *. by destruct ing. }
  intros ? ms3 n3 He3 (Hc3 & Hb3 & Hf3 & Hr3). apply emits_ret. rewrite app_nil_r. cbn [app].
  assert (∀ z, chainOf (MNewChain (regularChain (targetOf p) f) :: ms2 ++ ms3) z
    = chainOf ms2 z ++ chainOf ms3 z) as Hch by (intros z; rewrite <-chainOf_app; done).
  split_and!.
  - change (targetOf p :: created (ms2 ++ ms3) = chainNames p). by rewrite created_app, Hc2, Hc3.
  - by rewrite Hch, Hi2, (Hf3 E), app_nil_r.
  - intros z Hz1 Hz2. unfold chainNames in Hz2. rewrite not_elem_of_cons in Hz2. destruct Hz2.
    by rewrite Hch, Hf2, Hf3.
  - intros rs Hh. assert (holds rs ms3) as Hh3 by (intros s els Hs; apply Hh; set_solver). split.
    + by rewrite Hch, Hf2, Hb3.
    + eapply Forall2_impl_l; [exact (Hr3 rs Hh3)|]. intros y s Hy Hrc.
      destruct (elem_of_sub_names (nameOf p) _ y Hy) as [HP HQ].
      assert (kernelName (portsNameOf (nameOf p) y.1) ≠ E) by (by intros He; rewrite <-He in HEs).
      assert (kernelName (peersNameOf (nameOf p) y.1) ≠ E) by (by intros He; rewrite <-He in HEs).
      by rewrite !Hch, !Hf2.
Qed.

(** With the mark check of the policy. *)
Lemma emits_policy_entry chain (p : internalPolicy) specs n :
  fresh (kern (nft n)) → Chain_Name chain = E → NoDup (E :: chainNames p) → policy_specs p specs →
  ∀ b : bool,
  emits (newRules ← wrapST "failed to apply pod rules"
           (applyPodRules deps chain info (ip_policy p) (ip_policyNetworks p));
         wrapST "failed to apply mark check rule" (applyGeneralMarkCheck chain (ip_policy p)) ≫= λ _,
         mret (if (newRules : bool) then true else b)) n
    (λ _ ms, pod_emission p specs (entryRules p) ms).
Proof.
  intros Hf HE Hnd Hsp b. pose proof Hnd as [HEn _]%NoDup_cons.
  eapply emits_bind; [by apply emits_wrapST, emits_applyPodRules|].
  intros r ms n1 He1 (Hc & Her & Hz & Hr).
  eapply (emits_bind _ _ _ (λ _ ms, fills E ms ∧ chainOf ms E = [returnRule])).
  { apply emits_wrapST. unfold applyGeneralMarkCheck.
    eapply (emits_bind _ _ _ (λ _ ms, ms = [])); [by apply emits_getFilter|]. intros f ms0 n0 He0 ->.
    eapply emits_weaken; [apply (emits_single_rule total); [by do 2 (eapply fresh_env; [|eassumption])|done]|].
    intros ? ms' (Hfl & Hch & _). cbn in *. by rewrite HE in *. }
  intros ? ms' n2 He2 [[Hc' Hf'] Hch']. apply emits_ret. rewrite app_nil_r.
  assert (∀ z, z ≠ E → chainOf (ms ++ ms') z = chainOf ms z) as Hch.
  { intros z Hz'. by rewrite chainOf_app, Hf', app_nil_r. }
  split_and!.
  - by rewrite created_app, Hc, Hc', app_nil_r.
  - by rewrite chainOf_app, Her, Hch'.
  - intros z Hz1 Hz2. rewrite Hch by done. by apply Hz.
  - intros rs [Hh _]%holds_app. destruct (Hr rs Hh) as [Ht Hs].
    unfold chainNames in HEn. rewrite not_elem_of_cons in HEn. destruct HEn as [HEt HEs]. split.
    + by rewrite Hch.
    + eapply Forall2_impl_l; [exact Hs|]. intros y s Hy Hrc.
      destruct (elem_of_sub_names (nameOf p) _ y Hy) as [HP HQ].
      rewrite !Hch; [done| |]; by intros He; rewrite <-He in HEs.
Qed.

Lemma policy_specs_fun l sp specs :
  Forall2 policy_specs l sp → Forall2 policy_specs l specs → sp = specs.
Proof.
  assert (∀ p s1 s2, policy_specs p s1 → policy_specs p s2 → s1 = s2) as Hone.
  { unfold policy_specs. intros p s1 s2 H1'. revert s2. induction H1' as [|y s k sp' Hy _ IH];
      intros s2 H2'; inversion H2'; subst; [done|]. f_equal; [congruence|auto]. }
  intros Hk. revert specs. induction Hk as [|y s k sp' Hy _ IH]; intros specs Hsp; inversion Hsp; subst; [done|].
  f_equal; [by eapply Hone|auto].
Qed.

Lemma sub_chains_ext rs (p : internalPolicy) specs f g :
  (∀ z, z ∈ chainNames p → f z = g z) → sub_chains rs p specs f → sub_chains rs p specs g.
Proof.
  intros Hfg [Ht Hs]. split.
  - rewrite <-Hfg; [done|by left].
  - eapply Forall2_impl_l; [exact Hs|]. intros y s Hy Hrc.
    destruct (elem_of_sub_names (nameOf p) _ y Hy) as [HP HQ].
    rewrite <-!Hfg; [done|by right|by right].
Qed.

Lemma sub_chains_dump rs (p : internalPolicy) specs f g :
  (∀ z, z ∈ chainNames p → dumped (g z) = dumped (f z)) → sub_chains rs p specs f → sub_chains rs p specs g.
Proof.
  intros Hfg [Ht Hs]. split.
  - apply dumped_inv; [|rewrite <-Ht; apply Hfg; by left]. apply Forall_forall. intros es (y & Hes & _)%list_elem_of_bind.
    revert es Hes. apply Forall_forall. by repeat constructor.
  - eapply Forall2_impl_l; [exact Hs|]. intros y s Hy. destruct (elem_of_sub_names (nameOf p) _ y Hy) as [HP HQ].
    apply rule_chains_dump; apply Hfg; by right.
Qed.

(** The messages of all policies of the direction. *)
Definition direction_emission (l : list internalPolicy) (specs : list (list rule_spec)) (ms : list msg) : Prop :=
  created ms = (l ≫= chainNames) ∧ chainOf ms E = (l ≫= entryRules) ∧
  (∀ z, z ≠ E → z ∉ (l ≫= chainNames) → chainOf ms z = []) ∧
  ∀ rs, holds rs ms → Forall2 (λ p s, sub_chains rs p s (chainOf ms)) l specs.

Lemma direction_emission_snoc l specs ms p s ms' :
  NoDup (E :: ((l ++ [p]) ≫= chainNames)) → direction_emission l specs ms →
  pod_emission p s (entryRules p) ms' → direction_emission (l ++ [p]) (specs ++ [s]) (ms ++ ms').
Proof.
  assert (((l ++ [p]) ≫= chainNames) = (l ≫= chainNames) ++ chainNames p) as Hsn.
  { rewrite bind_app. cbn [mbind list_bind]. by rewrite app_nil_r. }
  rewrite Hsn. intros [Hx Hnd]%NoDup_cons (Hc & Hb & Hz & Hr) (Hc' & Hb' & Hz' & Hr').
  apply not_elem_of_app in Hx as [Hx1 Hx2]. apply NoDup_app in Hnd as (_ & Hdis & _). split_and!.
  - by rewrite created_app, Hc, Hc', Hsn.
  - rewrite chainOf_app, Hb, Hb', bind_app. cbn [mbind list_bind]. by rewrite app_nil_r.
  - intros z Hz1 Hz2. rewrite Hsn, not_elem_of_app in Hz2. destruct Hz2.
    by rewrite chainOf_app, Hz, Hz'.
  - intros rs [Hh1 Hh2]%holds_app. apply Forall2_app.
    + eapply Forall2_impl_l; [exact (Hr rs Hh1)|]. intros q sq Hq.
      apply sub_chains_ext. intros z Hzq.
      assert (z ∈ (l ≫= chainNames)) as Hzl by (apply list_elem_of_bind; eauto).
      rewrite chainOf_app, (Hz' z), app_nil_r; [done| |by apply Hdis]. by intros ->.
    + constructor; [|constructor]. eapply sub_chains_ext; [|exact (Hr' rs Hh2)]. intros z Hzq.
      rewrite chainOf_app, (Hz z); [done| |]; [by intros ->|]. intros Hzl. by apply (Hdis z).
Qed.

Definition dropRule : list expr.Any := [counter; verdict expr.VerdictDrop].

Lemma emits_applyDirection (field : nftState K → option Chain) chain l specs n :
  (∀ n n', chainFields n' = chainFields n → field n' = field n) → field n = Some chain →
  fresh (kern (nft n)) → Chain_Name chain = E → l ≠ [] →
  NoDup (E :: (l ≫= chainNames)) → Forall2 policy_specs l specs →
  emits (applyDirection deps field info l) n
    (λ _ ms, created ms = (l ≫= chainNames) ∧ chainOf ms E = (l ≫= entryRules) ++ [dropRule] ∧
       ∀ rs, holds rs ms → Forall2 (λ p s, sub_chains rs p s (chainOf ms)) l specs).
Proof.
  intros Hfield Hn Hf HE Hne Hnd Hsp. unfold applyDirection. rewrite len_pos.
  destruct l as [|p0 l0]; [done|]. set (l := p0 :: l0) in *. clearbody l. clear p0 l0 Hne.
  assert (∀ n', same_env n n' → ∀ (g : Chain → ST (nftState K) unit) Q,
    emits (g chain) n' Q → emits (c ← deref field; g c) n' Q) as Hderef1.
  { intros n' (_ & _ & _ & _ & _ & Hcf) g Q (a & ms & n2 & Hg & ?). exists a, ms, n2.
    unfold mbind, ST_bind, deref. by rewrite (Hfield n n' Hcf), Hn. }
  assert (∀ n', same_env n n' → ∀ (g : Chain → ST (nftState K) bool) Q,
    emits (g chain) n' Q → emits (c ← deref field; g c) n' Q) as Hderef2.
  { intros n' (_ & _ & _ & _ & _ & Hcf) g Q (a & ms & n2 & Hg & ?). exists a, ms, n2.
    unfold mbind, ST_bind, deref. by rewrite (Hfield n n' Hcf), Hn. }
  eapply (emits_bind _ _ _ (λ _ ms, direction_emission l specs ms)).
  { eapply emits_weaken.
    - apply (emits_foldM _ _ _ _ (λ k ms, ∃ sp, Forall2 policy_specs k sp ∧
        (NoDup (E :: (k ≫= chainNames)) → direction_emission k sp ms))).
      + exists []. split; [constructor|]. intros _. split_and!; [done|done|done|]. intros. constructor.
      + intros b p n' Hp He. destruct (Forall2_elem_l _ _ _ _ Hsp Hp) as (s & _ & Hs).
        apply Hderef2; [done|].
        assert (NoDup (E :: chainNames p)) as Hndp.
        { apply NoDup_cons in Hnd as [HEn Hnd]. apply NoDup_cons. split.
          - intros Hin. apply HEn, list_elem_of_bind. eauto.
          - clear -Hnd Hp. induction l as [|q l IH]; [set_solver|]. cbn [mbind list_bind] in Hnd.
            apply NoDup_app in Hnd as (? & _ & ?). apply elem_of_cons in Hp as [->|?]; [done|by apply IH]. }
        eapply emits_weaken; [eapply (emits_policy_entry chain p s); [by eapply fresh_env|done|done|done]|].
        intros ? ms Hms k ms0 (sp & Hk & Hms0). exists (sp ++ [s]). split; [by apply Forall2_app; [|constructor]|].
        intros Hnd'. apply direction_emission_snoc; [done| |done]. apply Hms0.
        rewrite bind_app in Hnd'. apply NoDup_cons in Hnd' as [Hx' Hnd'].
        apply NoDup_app in Hnd' as (? & _ & _). apply NoDup_cons. split; [|done].
        by apply not_elem_of_app in Hx' as [? _].
    - intros ? ms (sp & Hk & Hms). specialize (Hms Hnd).
      assert (sp = specs) as <-; [|done]. eapply policy_specs_fun; eassumption. }
  intros b ms n1 He1 (Hc & Hb & Hz & Hr). apply Hderef1; [done|]. unfold applyDropRemaining.
  eapply emits_weaken; [apply emits_wrapST, (emits_single_rule total); [by eapply fresh_env|done]|].
  intros ? ms' ([Hc' Hf'] & Hch' & _). cbn in Hc', Hf', Hch'. rewrite HE in Hf', Hch'. split_and!.
  - by rewrite created_app, Hc, Hc', app_nil_r.
  - by rewrite chainOf_app, Hb, Hch'.
  - intros rs [Hh _]%holds_app. eapply Forall2_impl_l; [exact (Hr rs Hh)|]. intros q sq Hq.
    apply sub_chains_ext. intros z Hzq. rewrite chainOf_app, (Hf' z), app_nil_r; [done|].
    intros ->. apply NoDup_cons in Hnd as [HEn _]. apply HEn, list_elem_of_bind. eauto.
Qed.
End direction.

(** ** Properties *)

(** What holds of a ruleset with the chains and sets of some messages; the
    kernel does not keep the transaction ids of looked up sets. *)
Definition installed `{NftVM} (rs : ruleset) (ms : list msg) : Prop :=
  holds rs ms ∧ ∀ z, z ∈ created ms → dumped (rs_chain rs z) = dumped (chainOf ms z).

(** A packet on an interface, as the rules of a direction see it. *)
Definition arrives (ing : bool) (p : packet) (v : view) (ifn : bytes) : Prop :=
  views ing p v ∧ pkt_meta p (ifaceKey ing) = ifn ∧ length ifn = 16%nat.

(** The pair of chain field and name of a direction. *)
Definition entryField {K} (ing : bool) (n : nftState K) : option Chain := if ing then ingressC n else egressC n.

Lemma Forall2_zip_elem {A B} (P : A → B → Prop) l k x y :
  Forall2 P l k → (x, y) ∈ zip l k → x ∈ l ∧ P x y.
Proof.
  induction 1 as [|a b l k Hab _ IH]; cbn; [by intros ?%not_elem_of_nil|].
  intros [[= -> ->]|Hin]%elem_of_cons; [split; [by left|done]|].
  destruct (IH Hin). split; [by right|done].
Qed.

Section verdict_lemmas.
Context {K : Type} `{LawfulKernel K} `{Gob} `{NftVM} `{LabelApi} `{MapOrder}.

Lemma entryField_env ing (n n' : nftState K) : chainFields n' = chainFields n → entryField ing n' = entryField ing n.
Proof. unfold chainFields, entryField. intros [=]. by destruct ing. Qed.

(** The chain of a policy behaves as its rules say. *)
Lemma policy_chain_says rs p v ing ifn q specs ms :
  arrives ing p v ifn →
  Forall (λ y, Z.of_nat y.1 < 2 ^ 63) (rulesOf ing q) →
  (∀ z, z ∈ chainNames ing q → dumped (rs_chain rs z) = dumped (chainOf ms z)) →
  sub_chains ing rs q specs (chainOf ms) →
  chain_says rs p (policy_outcome v specs) (targetOf ing q).
Proof.
  intros (Hv & _) Hidx Hrs Hsub m Hm.
  apply (sub_chains_dump ing rs q specs (chainOf ms) (rs_chain rs)) in Hsub as [Ht Hs]; [|done].
  pose proof (run_policy rs p v (nameOf ing q) ing (rulesOf ing q) specs m) as Hrun. cbv zeta in Hrun.
  rewrite Ht. apply Hrun; [|done|done|done]. intros y Hy. apply peersName_ingress.
  rewrite Forall_forall in Hidx. by apply Hidx.
Qed.

Lemma entry_chain_run rs p v ing ifn info l specs ms m :
  arrives ing p v ifn → unmarked m →
  NoDup ((λ i, ifname (InterfaceName i)) <$> PI_Interfaces info) →
  Forall (λ q, Forall (λ y, Z.of_nat y.1 < 2 ^ 63) (rulesOf ing q)) l →
  created ms = (l ≫= chainNames ing) → installed rs ms →
  Forall2 (λ q s, sub_chains ing rs q s (chainOf ms)) l specs →
  match entry_outcome v ifn (zip (covered info <$> l) specs) with
  | Matched => ∃ m', vm_rules rs p ((l ≫= entryRules ing info) ++ [dropRule]) m (Falls m')
  | _ => vm_rules rs p ((l ≫= entryRules ing info) ++ [dropRule]) m Dropped
  end.
Proof.
  intros Hv Hm Hnd Hidx Hc [_ Hrs] Hsub.
  pose proof (run_entry rs p v ing ifn ((λ x, (targetOf ing x.1, covered info x.1, x.2)) <$> zip l specs) m) as Hrun.
  cbv zeta in Hrun.
  assert ((λ x : gostring * list InterfaceInfo * list rule_spec, (x.1.2, x.2)) <$>
    ((λ x, (targetOf ing x.1, covered info x.1, x.2)) <$> zip l specs) = zip (covered info <$> l) specs) as Hzip.
  { clear. revert specs. induction l as [|q l IH]; intros [|s specs]; cbn; [done|done|done|]. f_equal. apply IH. }
  assert (((λ x, (targetOf ing x.1, covered info x.1, x.2)) <$> zip l specs) ≫=
    (λ x, (ifaceRule ing x.1.1 <$> x.1.2) ++ [returnRule]) = (l ≫= entryRules ing info)) as Hbind.
  { apply Forall2_length in Hsub. clear -Hsub. revert specs Hsub.
    induction l as [|q l IH]; intros [|s specs] Hl; try done. cbn in *. rewrite IH by lia. done. }
  rewrite Hzip, Hbind in Hrun. destruct Hv as (Hviews & Hp & Hlen). apply Hrun; [done|done| |done].
  apply Forall_fmap, Forall_forall. intros [q s] Hqs. cbn [fst snd compose].
  destruct (Forall2_zip_elem _ _ _ _ _ Hsub Hqs) as [Hq Hs]. split.
  - unfold covered. clear -Hnd. induction (PI_Interfaces info) as [|i ifs IH]; cbn; [done|].
    cbn in Hnd. apply NoDup_cons in Hnd as [Hi Hnd].
    destruct (CheckPolicyNetwork i _); cbn; [|by apply IH]. apply NoDup_cons. split; [|by apply IH].
    intros Hin. apply Hi. apply list_elem_of_fmap in Hin as (j & ? & Hj%list_elem_of_In%filter_In).
    apply list_elem_of_fmap. exists j. split; [done|]. by apply list_elem_of_In, Hj.
  - eapply policy_chain_says; [by split_and!| | |exact Hs].
    + rewrite Forall_forall in Hidx. by apply Hidx.
    + intros z Hz. apply Hrs. rewrite Hc. apply list_elem_of_bind. eauto.
Qed.
End verdict_lemmas.

(** Actions without a denial match when one of them does. *)
Lemma eval_actions_spec v acts :
  (∀ v6 els, Deny v6 els ∉ acts) →
  eval_actions v acts ≠ Denied ∧
  (eval_actions v acts = Matched ↔ ∃ i els, Allow (v_v6 v) i els ∈ acts ∧ memb i els (v_addr v) = true).
Proof.
  induction acts as [|a acts IH]; intros Hn; cbn.
  { split; [done|]. split; [done|]. intros (i & els & ?%not_elem_of_nil & _). done. }
  destruct IH as [IH1 IH2]; [intros v6 els Hin; apply (Hn v6 els); by right|].
  destruct a as [v6 els|v6 i els]; [by destruct (Hn v6 els); left|].
  destruct (bool_decide (v_v6 v = v6) && memb i els (v_addr v)) eqn:E.
  - apply andb_true_iff in E as [<-%bool_decide_eq_true E]. split; [done|]. split; [|done]. intros _.
    exists i, els. split; [by left|done].
  - split; [done|]. rewrite IH2. split; intros (i' & els' & Hin & Hm); exists i', els'; (split; [|done]).
    + by right.
    + apply elem_of_cons in Hin as [[= <- <- <-]|Hin]; [|done].
      rewrite bool_decide_eq_true_2, Hm in E by done. done.
Qed.

Section verdict.
Context {K : Type} `{LawfulKernel K} `{Gob} `{NftVM} `{LabelApi} `{MapOrder}.

(** The chains generated for the policies of a direction decide every
    packet as the policies say. In an empty namespace the generation succeeds,
    and in a ruleset with what it wrote a packet of an interface whose mark
    does not carry both bits already has exactly one fate in the entry chain:
    it returns to the base chain when the first policy of its interface that
    matches or denies matches, and is dropped otherwise, also when no policy
    covers its interface. *)
Lemma applyDirection_fate ing deps info policies specs (n : nftState K) chain :
  gob_total → fresh (kern (nft n)) →
  entryField ing n = Some chain → Chain_Name chain = entryName ing →
  policies ≠ [] → Forall2 (policy_specs ing info deps) policies specs →
  NoDup (entryName ing :: (policies ≫= chainNames ing)) →
  NoDup ((λ i, ifname (InterfaceName i)) <$> PI_Interfaces info) →
  Forall (λ q, Forall (λ y, Z.of_nat y.1 < 2 ^ 63) (rulesOf ing q)) policies →
  ∃ n' ms, applyDirection deps (entryField ing) info policies n = (Ok tt, n') ∧
    messages (nft n') = messages (nft n) ++ ms ∧
    ∀ rs p v ifn m, installed rs ms → arrives ing p v ifn → unmarked m →
      ∃ o, vm_rules rs p (chainOf ms (entryName ing)) m o ∧
        (∀ o', vm_rules rs p (chainOf ms (entryName ing)) m o' → o' = o) ∧
        match entry_outcome v ifn (zip (covered info <$> policies) specs) with
        | Matched => ∃ m', o = Falls m'
        | _ => o = Dropped
        end.
Proof.
  intros Hg Hf Hfield HE Hne Hsp Hnd Hndi Hidx.
  destruct (emits_applyDirection Hg ing info deps (entryField ing) chain policies specs n
    (entryField_env ing) Hfield Hf HE Hne Hnd Hsp) as ([] & ms & n' & Hr & Hms & _ & Hc & Hch & Hsub).
  exists n', ms. split_and!; [done|done|]. intros rs p v ifn m Hi Hv Hm.
  pose proof (entry_chain_run rs p v ing ifn info policies specs ms m Hv Hm Hndi Hidx Hc Hi (Hsub rs (proj1 Hi))) as Hrun.
  rewrite Hch. destruct (entry_outcome _ _ _).
  - destruct Hrun as [m' Hrun]. exists (Falls m'). split_and!; [done| |eauto]. intros. by eapply vm_det.
  - exists Dropped. split_and!; [done| |done]. intros. by eapply vm_det.
  - exists Dropped. split_and!; [done| |done]. intros. by eapply vm_det.
Qed.
End verdict.
