(* ===== verification/Meaning.v ===== *)
(** * What a policy means

    How the generators read the objects of the API: port ranges, CIDRs, the
    addresses of the pods selectors find, and the order in which peers, rules
    and policies decide. The set elements the generators compute for a
    well-formed policy denote it, and so do the verdicts of the generated
    chains. Crd.v compares this reading with the one of the CRD. *)

From S2P Require Import Prelude GoStd Names Nft Netip Api Elements Conn RefKernel State Legacy Rules Cleanup Server VM Fresh Semantics Verdict.

(** ** Ports *)

(** TCP is the default protocol, and an unknown one is taken for it. *)
Definition protoNumber (port : MultiNetworkPolicyPort) : Z :=
  match Port_Protocol port with
  | Some q => if bool_decide (q = ProtocolUDP) then 17 else if bool_decide (q = ProtocolSCTP) then 132 else 6
  | None => 6
  end.

(** The ports an entry names: one port or a range, all ports of the protocol
    when only that is given, and none when nothing is. *)
Definition portRange (port : MultiNetworkPolicyPort) : option (Z * Z) :=
  match Port_Port port, Port_Protocol port with
  | Some p, _ => port_range p (Port_EndPort port)
  | None, Some _ => Some (1, 65535)
  | None, None => None
  end.

Definition validPort (port : MultiNetworkPolicyPort) : Prop :=
  is_Some (Port_Port port) → is_Some (portRange port).

Definition rangesOf (proto : Z) (ports : list MultiNetworkPolicyPort) : list (Z * Z) :=
  omap (λ port, if protoNumber port =? proto then portRange port else None) ports.

(** Every entry is valid, and the ranges of a protocol do not overlap. *)
Definition validPorts (ports : list MultiNetworkPolicyPort) : Prop :=
  Forall validPort ports ∧ ∀ proto, disjoint_ranges (rangesOf proto ports).

(** No entry names a port, or one names the port of the packet. *)
Definition portsAllow (v : view) (ports : list MultiNetworkPolicyPort) : Prop :=
  (∀ port, port ∈ ports → portRange port = None) ∨
  ∃ port r d, port ∈ ports ∧ portRange port = Some r ∧ v_l4 v = protoNumber port ∧
    v_dport v = Some d ∧ in_range (be_val d) r.

(** The header fields of a packet have the sizes of the protocols. *)
Record wellSized (v : view) : Prop := {
  ws_addr : Forall is_byte (v_addr v) ∧ Z.of_nat (length (v_addr v)) = ipLength (v_v6 v);
  ws_dport d : v_dport v = Some d → Forall is_byte d ∧ length d = 2%nat }.

Definition protoSet (proto : Z) (s : portSets) : list SetElement :=
  if proto =? 6 then portsTCP s else if proto =? 17 then portsUDP s
  else if proto =? 132 then portsSCTP s else [].

Lemma protoNumber_cases port : protoNumber port = 6 ∨ protoNumber port = 17 ∨ protoNumber port = 132.
Proof. unfold protoNumber. repeat case_match; auto. Qed.

(** One entry: nothing, or the two elements of its range. *)
Lemma validatePort_range port :
  validPort port →
  match portRange port with
  | Some r => ∃ els, validatePortSpec (defaultPort port) = Ok els ∧ represents 16 r els
  | None => validatePortSpec (defaultPort port) = Ok []
  end.
Proof.
  unfold validPort, portRange, defaultPort. intros Hv. destruct (Port_Port port) as [p|] eqn:Hp.
  - destruct Hv as [[lo hi] Hr]; [done|]. rewrite Hr. exact (validatePortSpec_range _ _ _ _ Hp Hr).
  - destruct (Port_Protocol port) as [q|].
    + by eapply (validatePortSpec_range _ (FromInt 1)).
    + unfold validatePortSpec. by rewrite Hp.
Qed.

Lemma defaultPort_protocol port : Port_Protocol (defaultPort port) = Port_Protocol port.
Proof. unfold defaultPort. by destruct (Port_Port port), (Port_Protocol port) eqn:E; rewrite ?E. Qed.

(** The elements of a protocol's set are those of its ranges. *)
Lemma collectPorts_ranges ports acc :
  Forall validPort ports →
  ∃ s, collectPorts ports acc = Ok s ∧ ∀ proto, proto ∈ [6; 17; 132] →
    ∃ parts, protoSet proto s = protoSet proto acc ++ concat parts ∧
      Forall2 (represents 16) (rangesOf proto ports) parts.
Proof.
  intros Hv. revert acc. induction Hv as [|port ports Hp _ IH]; intros acc; cbn [collectPorts].
  { exists acc. split; [done|]. intros proto _. exists []. cbn. by rewrite app_nil_r. }
  pose proof (validatePort_range port Hp) as Hr. rewrite defaultPort_protocol.
  destruct (portRange port) as [r|] eqn:Er.
  - destruct Hr as (els & -> & R). cbn [mbind result_bind].
    destruct acc as [t u c].
    assert (∃ acc, match Port_Protocol port with
      | Some proto => if bool_decide (proto = ProtocolUDP) then mkPortSets t (u ++ els) c
                      else if bool_decide (proto = ProtocolSCTP) then mkPortSets t u (c ++ els)
                      else mkPortSets (t ++ els) u c
      | None => mkPortSets (t ++ els) u c end = acc ∧
      ∀ proto, proto ∈ [6; 17; 132] → protoSet proto acc =
        protoSet proto (mkPortSets t u c) ++ (if protoNumber port =? proto then els else [])) as (acc' & -> & Hacc).
    { eexists. split; [done|]. intros proto Hproto. unfold protoNumber.
      rewrite !elem_of_cons, elem_of_nil in Hproto.
      destruct Hproto as [->|[->|[->|[]]]]; repeat case_match; cbn; by rewrite ?app_nil_r. }
    destruct (IH acc') as (s & -> & Hs). exists s. split; [done|]. intros proto Hproto.
    destruct (Hs proto Hproto) as (parts & -> & HF). rewrite Hacc by done.
    unfold rangesOf in *. cbn [omap list_omap]. destruct (protoNumber port =? proto).
    + exists (els :: parts). rewrite Er. split; [by rewrite <-app_assoc|by constructor].
    + exists parts. rewrite app_nil_r. by split.
  - rewrite Hr. cbn [mbind result_bind].
    destruct acc as [t u c]. rewrite !app_nil_r.
    assert (match Port_Protocol port with
      | Some proto => if bool_decide (proto = ProtocolUDP) then mkPortSets t u c
                      else if bool_decide (proto = ProtocolSCTP) then mkPortSets t u c
                      else mkPortSets t u c
      | None => mkPortSets t u c end = mkPortSets t u c) as -> by (destruct (Port_Protocol port) as [q|]; [|done]; by destruct (bool_decide (q = ProtocolUDP)), (bool_decide (q = ProtocolSCTP))).
    destruct (IH (mkPortSets t u c)) as (s & -> & Hs). exists s. split; [done|]. intros proto Hproto.
    destruct (Hs proto Hproto) as (parts & -> & HF). exists parts. split; [done|].
    unfold rangesOf in *. cbn [omap list_omap]. rewrite Er. by destruct (_ =? _).
Qed.

Lemma rangesOf_elem proto ports r :
  r ∈ rangesOf proto ports ↔ ∃ port, port ∈ ports ∧ protoNumber port = proto ∧ portRange port = Some r.
Proof.
  unfold rangesOf. rewrite list_elem_of_omap. apply exist_proper. intros port.
  destruct (Z.eqb_spec (protoNumber port) proto); naive_solver.
Qed.

Lemma len_zero_true {A} (l : list A) : (len l =? 0) = true ↔ l = [].
Proof. by destruct l. Qed.
Lemma parts_nil {w} (ivs : list (Z * Z)) parts : Forall2 (represents w) ivs parts → concat parts = [] ↔ ivs = [].
Proof. destruct 1 as [|iv part ivs parts (s & e & -> & _)]; done. Qed.

Lemma proto_match_ranges v proto els parts ports :
  wellSized v → Forall2 (represents 16) (rangesOf proto ports) parts → els = concat parts →
  disjoint_ranges (rangesOf proto ports) →
  proto_match v proto els = true ↔
  ∃ port r d, port ∈ ports ∧ protoNumber port = proto ∧ portRange port = Some r ∧ v_l4 v = proto ∧
    v_dport v = Some d ∧ in_range (be_val d) r.
Proof.
  intros Hws HF -> Hd. unfold proto_match. rewrite andb_true_iff, bool_decide_eq_true.
  destruct (v_dport v) as [d|] eqn:Ed; [|naive_solver].
  unfold memb. rewrite bool_decide_eq_true. destruct (ws_dport _ Hws d Ed) as [Hb Hl].
  pose proof (be_val_bound d Hb) as Hbd. rewrite Hl in Hbd.
  change (concat parts) with ([] ++ concat parts).
  rewrite (interval_mem_ranges 16 (rangesOf proto ports)) by (done || constructor).
  setoid_rewrite rangesOf_elem. naive_solver.
Qed.

(** The port sets of a rule mean its ports. *)
Lemma collectPorts_means ports v :
  wellSized v → validPorts ports →
  ∃ s, collectPorts ports (mkPortSets [] [] []) = Ok s ∧ (ports_match v s = true ↔ portsAllow v ports).
Proof.
  intros Hws [Hv Hd]. destruct (collectPorts_ranges ports (mkPortSets [] [] []) Hv) as (s & Hs & Hp).
  exists s. split; [done|].
  destruct (Hp 6) as (p6 & E6 & F6); [set_solver|]. destruct (Hp 17) as (p17 & E17 & F17); [set_solver|].
  destruct (Hp 132) as (p132 & E132 & F132); [set_solver|]. cbn in E6, E17, E132.
  unfold ports_match. rewrite !orb_true_iff.
  change IPPROTO_TCP with 6. change IPPROTO_UDP with 17. change IPPROTO_SCTP with 132.
  rewrite (proto_match_ranges v 6 _ p6 ports), (proto_match_ranges v 17 _ p17 ports),
    (proto_match_ranges v 132 _ p132 ports) by done.
  assert (no_ports s = true ↔ ∀ port, port ∈ ports → portRange port = None) as ->.
  { unfold no_ports. rewrite !andb_true_iff, !len_zero_true, E6, E17, E132.
    rewrite (parts_nil _ _ F6), (parts_nil _ _ F17), (parts_nil _ _ F132). split.
    - intros [[H6 H17] H132] port Hin. destruct (portRange port) as [r|] eqn:Er; [|done].
      assert (r ∈ rangesOf (protoNumber port) ports) as Hr by (apply rangesOf_elem; eauto).
      destruct (protoNumber_cases port) as [E|[E|E]]; rewrite E in Hr; rewrite ?H6, ?H17, ?H132 in Hr;
        by apply not_elem_of_nil in Hr.
    - intros Hn. assert (∀ proto, rangesOf proto ports = []) as Hr; [|by rewrite !Hr].
      intros proto. apply elem_of_nil_inv. intros r (port & Hin & _ & Er)%rangesOf_elem.
      by rewrite Hn in Er. }
  unfold portsAllow. split.
  - intros [[[?|Hx]|Hx]|Hx]; [by left|right..];
    destruct Hx as (port & r & d & ? & ? & ? & ? & ? & ?);
      exists port, r, d; split_and!; first [done|congruence].
  - intros [?|(port & r & d & ? & ? & ? & ? & ?)]; [by left; left; left|].
    destruct (protoNumber_cases port) as [E|[E|E]].
    + left. left. right. exists port, r, d. split_and!; first [done|congruence].
    + left. right. exists port, r, d. split_and!; first [done|congruence].
    + right. exists port, r, d. split_and!; first [done|congruence].
Qed.

(** ** Peers *)

(** An [except] entry of the block, in the family of its CIDR, has the address. *)
Definition blockExcludes (v : view) (b : IPBlock) : Prop :=
  ∃ p c q, ParsePrefix (CIDR b) = Some p ∧ Addr_is6 (Prefix_addr p) = v_v6 v ∧ c ∈ Except b ∧
    ParsePrefix c = Some q ∧ Addr_is6 (Prefix_addr q) = v_v6 v ∧ in_prefix q (be_val (v_addr v)).
Definition blockIncludes (v : view) (b : IPBlock) : Prop :=
  ∃ p, ParsePrefix (CIDR b) = Some p ∧ Addr_is6 (Prefix_addr p) = v_v6 v ∧ in_prefix p (be_val (v_addr v)).

(** The block parses, and its [except] entries of a family do not overlap. *)
Definition validBlock (b : IPBlock) : Prop :=
  is_Some (ParsePrefix (CIDR b)) ∧
  ∃ ex, mapM ParsePrefix (Except b) = Some ex ∧ ∀ is6, disjoint_ranges (prefix_range <$> family is6 ex).

(** A textual address without a zone that is not an IPv4 address mapped to
    IPv6. *)
Definition plainAddr (a : gostring) (x : Addr) : Prop :=
  ParseAddr a = Some x ∧ Addr_zone x = [] ∧ take 12 (AsSlice x) ≠ replicate 10 0 ++ [255; 255].

Definition says_of (denied allowed : Prop) (o : outcome) : Prop :=
  match o with
  | Denied => denied
  | Matched => ¬ denied ∧ allowed
  | Unmatched => ¬ denied ∧ ¬ allowed
  end.

Lemma getPrefixes_mem (ps : list Prefix) v (b : bool) :
  wellSized v → v_v6 v = b → Forall Prefix_wf ps → disjoint_ranges (prefix_range <$> family b ps) →
  memb true (lead b ps ++ family_elems b ps) (v_addr v) = true ↔
  ∃ p, p ∈ ps ∧ Addr_is6 (Prefix_addr p) = b ∧ in_prefix p (be_val (v_addr v)).
Proof.
  intros Hws Hb Hwf Hd. unfold memb. rewrite bool_decide_eq_true. apply family_elems_mem; [done| |done].
  destruct (ws_addr _ Hws) as [Hby Hl]. pose proof (be_val_bound _ Hby) as Hv. rewrite Hl, Hb in Hv.
  by destruct b.
Qed.

Lemma eval_family_other v b ps ex acts :
  v_v6 v ≠ b → eval_actions v (family_actions b ps ex ++ acts) = eval_actions v acts.
Proof.
  intros Hb. unfold family_actions. destruct ps as [|x ps]; [done|].
  destruct ex; cbn; rewrite !bool_decide_eq_false_2 by done; done.
Qed.

Lemma eval_family v ps ex :
  ps ≠ [] →
  eval_actions v (family_actions (v_v6 v) ps ex) =
  if memb true ex (v_addr v) then Denied else if memb true ps (v_addr v) then Matched else Unmatched.
Proof.
  intros Hps. unfold family_actions. destruct ps as [|x ps]; [done|]. destruct ex as [|e ex].
  - cbn [app eval_actions]. rewrite bool_decide_eq_true_2 by done. cbn [andb].
    assert (memb true [] (v_addr v) = false) as ->; [|done].
    unfold memb. apply bool_decide_eq_false. intros (s & Hs & _). by apply not_elem_of_nil in Hs.
  - cbn [app eval_actions]. rewrite !bool_decide_eq_true_2 by done. done.
Qed.

Lemma eval_family_nil v b acts ex : eval_actions v (family_actions b [] ex ++ acts) = eval_actions v acts.
Proof. done. Qed.

(** A block's actions mean the block. *)
Lemma block_means b v :
  wellSized v → validBlock b →
  ∃ acts, block_actions b = Ok acts ∧ says_of (blockExcludes v b) (blockIncludes v b) (eval_actions v acts).
Proof.
  intros Hws [[p Hp] (ex & Hex & Hd)]. unfold block_actions.
  rewrite !getPrefixes_eq, Hex. cbn [mapM]. rewrite Hp. cbn [mbind option_bind mret option_ret result_bind].
  eexists. split; [done|]. cbn [fst snd].
  pose proof (ParsePrefix_wf _ _ Hp) as Hwf. pose proof (mapM_ParsePrefix_wf _ _ Hex) as Hexwf.
  assert (blockIncludes v b ↔ Addr_is6 (Prefix_addr p) = v_v6 v ∧ in_prefix p (be_val (v_addr v))) as Hinc.
  { unfold blockIncludes. rewrite Hp. naive_solver. }
  assert (blockExcludes v b ↔ Addr_is6 (Prefix_addr p) = v_v6 v ∧
    ∃ q, q ∈ ex ∧ Addr_is6 (Prefix_addr q) = v_v6 v ∧ in_prefix q (be_val (v_addr v))) as Hexc.
  { unfold blockExcludes. rewrite Hp. apply mapM_Some in Hex. split.
    - intros (? & c & q & [= <-] & H6 & Hc & Hq & Hq6 & Hin). split; [done|].
      destruct (Forall2_elem_l _ _ _ _ Hex Hc) as (q' & Hq' & E). rewrite Hq in E. injection E as <-. eauto.
    - intros [H6 (q & Hq & Hq6 & Hin)]. apply list_elem_of_lookup in Hq as [i Hi].
      destruct (Forall2_lookup_r _ _ _ _ _ Hex Hi) as (c & Hc & E).
      exists p, c, q. split_and!; try done. by eapply list_elem_of_lookup_2. }
  assert (∀ b', Addr_is6 (Prefix_addr p) ≠ b' → lead b' [p] ++ family_elems b' [p] = []) as Hnil.
  { intros b' Hb. unfold family_elems, family, lead. cbn.
    destruct (Bool.eqb _ b') eqn:E; [by apply eqb_prop in E|done]. }
  assert (lead (Addr_is6 (Prefix_addr p)) [p] ++ family_elems (Addr_is6 (Prefix_addr p)) [p] ≠ []) as Hne.
  { unfold lead. by rewrite eqb_reflx. }
  destruct (decide (Addr_is6 (Prefix_addr p) = v_v6 v)) as [E|E].
  - assert (eval_actions v (family_actions false (lead false [p] ++ family_elems false [p])
        (lead false ex ++ family_elems false ex) ++ family_actions true (lead true [p] ++ family_elems true [p])
        (lead true ex ++ family_elems true ex)) =
      eval_actions v (family_actions (v_v6 v) (lead (v_v6 v) [p] ++ family_elems (v_v6 v) [p])
        (lead (v_v6 v) ex ++ family_elems (v_v6 v) ex))) as ->.
    { destruct (v_v6 v) eqn:Ev.
      - by rewrite (Hnil false), eval_family_nil by congruence.
      - rewrite (Hnil true) by congruence. cbn [family_actions]. by rewrite app_nil_r. }
    rewrite eval_family by (by rewrite <-E).
    pose proof (getPrefixes_mem ex v (v_v6 v) Hws eq_refl Hexwf (Hd _)) as Hme.
    pose proof (getPrefixes_mem [p] v (v_v6 v) Hws eq_refl) as Hmp. rewrite Forall_singleton in Hmp.
    assert (disjoint_ranges (prefix_range <$> family (v_v6 v) [p])) as Hone.
    { unfold family. cbn. destruct (Bool.eqb _ _); intros [|i] [|j] ? ? ? ? ?; simplify_eq/=; done. }
    specialize (Hmp Hwf Hone).
    setoid_rewrite list_elem_of_singleton in Hmp.
    revert Hme Hmp. generalize (memb true (lead (v_v6 v) ex ++ family_elems (v_v6 v) ex) (v_addr v)) as bex.
    generalize (memb true (lead (v_v6 v) [p] ++ family_elems (v_v6 v) [p]) (v_addr v)) as bp.
    intros bp bex Hme Hmp.
    destruct bex; [|destruct bp]; cbn [says_of]; rewrite Hexc, ?Hinc, <-Hme; naive_solver.
  - assert (eval_actions v (family_actions false (lead false [p] ++ family_elems false [p])
        (lead false ex ++ family_elems false ex) ++ family_actions true (lead true [p] ++ family_elems true [p])
        (lead true ex ++ family_elems true ex)) = Unmatched) as ->.
    { destruct (v_v6 v) eqn:Ev.
      - rewrite (Hnil true), eval_family_other by congruence. done.
      - rewrite (Hnil false), eval_family_nil by congruence.
        rewrite <-(app_nil_r (family_actions true _ _)), eval_family_other by congruence. done. }
    cbn. rewrite Hexc, Hinc. naive_solver.
Qed.

(** *** The addresses a selector finds *)

Section selectors.
Context `{LabelApi} `{MapOrder}.

Definition peerPods (deps : PolicyDeps) (peer : MultiNetworkPolicyPeer) (pods : list Pod) : Prop :=
  ∃ sel, match Peer_PodSelector peer with
         | Some s => LabelSelectorAsSelector s = Ok sel
         | None => sel = labels_Everything
         end ∧ ListPods deps sel = Ok pods.

(** The lookup of none of the pods panics. *)
Definition calmPods (deps : PolicyDeps) (pods : list Pod) : Prop :=
  ∀ pod e, pod ∈ pods → GetPodInfo deps pod = Err e → isPanic e = false.

Definition nsAccepts (deps : PolicyDeps) (peer : MultiNetworkPolicyPeer) (pod : Pod) : Prop :=
  ∃ ns, GetNamespaceInfo deps (Pod_Namespace pod) = Ok ns ∧
    ∀ s, Peer_NamespaceSelector peer = Some s →
      ∃ sel, LabelSelectorAsSelector s = Ok sel ∧ sel_Matches sel (NS_Labels ns) = true.

(** The addresses of a peer with selectors: those of the interfaces on the
    networks of the policy, of the pods found and of the pod itself. *)
Definition peerAddr (deps : PolicyDeps) (info : PodInfo) (nets : list gostring)
    (peer : MultiNetworkPolicyPeer) (a : gostring) : Prop :=
  ∃ pods pod pinfo i j, peerPods deps peer pods ∧ pod ∈ pods ∧ nsAccepts deps peer pod ∧
    GetPodInfo deps pod = Ok pinfo ∧
    i ∈ PI_Interfaces info ∧ CheckPolicyNetwork i nets = true ∧
    j ∈ PI_Interfaces pinfo ∧ CheckPolicyNetwork j nets = true ∧ (a ∈ IPs i ∨ a ∈ IPs j).

Abbreviation found := (list gostring * gset gostring * nat)%type.

(** The list has the keys of the map. *)
Definition acc_ok (c : found) : Prop := ∀ x, x ∈ c.1.1 ↔ x ∈ c.1.2.

Lemma foldl_acc {A} (f : found → A → found) (P : A → gostring → Prop) l c :
  (∀ c a, acc_ok c → acc_ok (f c a) ∧ ∀ x, x ∈ (f c a).1.2 ↔ x ∈ c.1.2 ∨ P a x) → acc_ok c →
  acc_ok (foldl f c l) ∧ ∀ x, x ∈ (foldl f c l).1.2 ↔ x ∈ c.1.2 ∨ ∃ a, a ∈ l ∧ P a x.
Proof.
  intros Hf. revert c. induction l as [|a l IH]; intros c Hc; cbn [foldl].
  { split; [done|]. intros x. split; [by left|]. by intros [?|(? & ?%not_elem_of_nil & _)]. }
  destruct (Hf c a Hc) as [Hok Hx]. destruct (IH _ Hok) as [Hok' Hx']. split; [done|]. intros x.
  rewrite Hx', Hx. setoid_rewrite elem_of_cons. naive_solver.
Qed.

Lemma collectPair_acc site n c i j :
  acc_ok c → acc_ok (collectPair site n c i j) ∧
  ∀ x, x ∈ (collectPair site n c i j).1.2 ↔ x ∈ c.1.2 ∨ (x ∈ IPs i ∨ x ∈ IPs j).
Proof.
  destruct c as [[ips seen] round]. intros Hc. unfold acc_ok, collectPair in *. cbn [fst snd] in *.
  assert (∀ x, x ∈ seen ∪ list_to_set (IPs i) ∪ list_to_set (IPs j) ↔ x ∈ seen ∨ x ∈ IPs i ∨ x ∈ IPs j) as Hs.
  { intros x. rewrite !elem_of_union, !elem_of_list_to_set. tauto. }
  split; [|exact Hs]. intros x. rewrite elem_of_app, range_keys_perm, elem_of_elements, Hc, !Hs. tauto.
Qed.

Lemma collectPod_acc site n nets info pinfo c :
  acc_ok c → acc_ok (collectPod site n nets info pinfo c) ∧
  ∀ x, x ∈ (collectPod site n nets info pinfo c).1.2 ↔ x ∈ c.1.2 ∨
    ∃ i, i ∈ PI_Interfaces info ∧ CheckPolicyNetwork i nets = true ∧
      ∃ j, j ∈ PI_Interfaces pinfo ∧ CheckPolicyNetwork j nets = true ∧ (x ∈ IPs i ∨ x ∈ IPs j).
Proof.
  apply foldl_acc. clear c. intros c i Hc. destruct (CheckPolicyNetwork i nets); cbn [negb]; [|naive_solver].
  destruct (foldl_acc (λ acc sPodIntf, if negb (CheckPolicyNetwork sPodIntf nets) then acc
    else collectPair site n acc i sPodIntf)
    (λ j x, CheckPolicyNetwork j nets = true ∧ (x ∈ IPs i ∨ x ∈ IPs j)) (PI_Interfaces pinfo) c) as [Hok Hx].
  - clear c Hc. intros c j Hc. destruct (CheckPolicyNetwork j nets); cbn [negb]; [|naive_solver].
    destruct (collectPair_acc site n c i j Hc) as [? Hx]. split; [done|]. intros x. rewrite Hx. naive_solver.
  - done.
  - split; [done|]. intros x. rewrite Hx. naive_solver.
Qed.

(** The addresses collected are those of the peer. *)
Lemma selectorAddrs_means deps site peer info nets n pods :
  peerPods deps peer pods → calmPods deps pods →
  (∀ s, Peer_NamespaceSelector peer = Some s → is_ok (LabelSelectorAsSelector s) = true) →
  ∃ addrs, selectorAddrs deps site peer info nets n = Ok addrs ∧ ∀ a, a ∈ addrs ↔ peerAddr deps info nets peer a.
Proof.
  intros (sel & Hsel & Hpods) Hcalm Hns. unfold selectorAddrs.
  assert (match Peer_PodSelector peer with
    | Some s => wrap "pod selector" (LabelSelectorAsSelector s) | None => Ok labels_Everything end = Ok sel) as ->.
  { destruct (Peer_PodSelector peer); [by rewrite Hsel|by subst]. }
  cbn [mbind result_bind]. rewrite Hpods. cbn [wrap mbind result_bind].
  assert (∃ nsSel, match Peer_NamespaceSelector peer with
    | Some s => s ← wrap "namespace selector" (LabelSelectorAsSelector s); mret (Some s)
    | None => mret None end = Ok nsSel ∧
    ∀ ns, match nsSel with Some s => sel_Matches s ns | None => true end = true ↔
      ∀ s, Peer_NamespaceSelector peer = Some s →
        ∃ sel, LabelSelectorAsSelector s = Ok sel ∧ sel_Matches sel ns = true) as (nsSel & -> & Hsels).
  { destruct (Peer_NamespaceSelector peer) as [s|]; [|exists None; split; [done|]; intros ns; naive_solver].
    specialize (Hns s eq_refl). destruct (LabelSelectorAsSelector s) as [s'|] eqn:E; [|done].
    exists (Some s'). split; [done|]. intros ns. split; [intros; simplify_eq; eauto|].
    intros Hall. destruct (Hall s eq_refl) as (s'' & E' & ?). congruence. }
  cbn [mbind result_bind]. unfold collectPods.
  rewrite (foldR_total _ (λ acc sPod,
    match GetNamespaceInfo deps (Pod_Namespace sPod) with
    | Err _ => acc
    | Ok ns => if match nsSel with Some s => negb (sel_Matches s (NS_Labels ns)) | None => false end then acc
      else match GetPodInfo deps sPod with Err _ => acc | Ok pinfo => collectPod site n nets info pinfo acc end
    end)).
  2:{ intros c pod Hpod. destruct (GetNamespaceInfo deps (Pod_Namespace pod)) as [ns|]; [|done].
      destruct (match nsSel with Some s => _ | None => _ end); [done|].
      destruct (GetPodInfo deps pod) as [pi|e] eqn:E; [done|]. by rewrite (Hcalm _ e Hpod E). }
  cbn [mbind result_bind]. eexists. split; [done|]. intros a.
  match goal with |- a ∈ (foldl ?f _ _).1.1 ↔ _ =>
    destruct (foldl_acc f (λ pod x, nsAccepts deps peer pod ∧ ∃ pinfo, GetPodInfo deps pod = Ok pinfo ∧
      ∃ i, i ∈ PI_Interfaces info ∧ CheckPolicyNetwork i nets = true ∧
        ∃ j, j ∈ PI_Interfaces pinfo ∧ CheckPolicyNetwork j nets = true ∧ (x ∈ IPs i ∨ x ∈ IPs j))
      pods ([], ∅, 0%nat)) as [Hok Hx]
  end.
  - intros c pod Hc. unfold nsAccepts. destruct (GetNamespaceInfo deps (Pod_Namespace pod)) as [ns|]; [|naive_solver].
    specialize (Hsels (NS_Labels ns)).
    assert (match nsSel with Some s => negb (sel_Matches s (NS_Labels ns)) | None => false end =
      negb (match nsSel with Some s => sel_Matches s (NS_Labels ns) | None => true end)) as -> by by destruct nsSel.
    destruct (match nsSel with Some s => sel_Matches s (NS_Labels ns) | None => true end); cbn [negb].
    + destruct (GetPodInfo deps pod) as [pinfo|]; [|naive_solver].
      destruct (collectPod_acc site n nets info pinfo c Hc) as [? Hx]. split; [done|]. intros x. rewrite Hx.
      destruct Hsels as [Hsels _]. specialize (Hsels eq_refl). naive_solver.
    + split; [done|]. intros x. split; [by left|]. intros [?|[(ns' & [= <-] & Hall) _]]; [done|].
      by apply Hsels in Hall.
  - intros x. cbn. set_solver.
  - rewrite (Hok a), (Hx a). unfold peerAddr. assert (a ∉ (∅ : gset gostring)) by set_solver.
    unfold peerPods. split.
    + intros [?|(pod & ? & ? & pinfo & ? & i & ? & ? & j & ? & ? & ?)]; [done|].
      exists pods, pod, pinfo, i, j. split_and!; eauto.
    + intros (pods' & pod & pinfo & i & j & (sel' & Hsel' & Hp') & ? & ? & ? & ? & ? & ? & ? & ?). right.
      assert (pods' = pods) as -> by (destruct (Peer_PodSelector peer); congruence).
      exists pod. split_and!; [done..|]. exists pinfo. split; [done|]. exists i. split_and!; [done..|].
      exists j. by split_and!.
Qed.
End selectors.

(** *** Addresses as set elements *)

Lemma plainAddr_key a x :
  plainAddr a x →
  addrKey a = AsSlice x ∧
  match ParseIP a ≫= To4 with None => true | Some _ => false end = Addr_is6 x.
Proof.
  intros (Hp & Hz & Hm). unfold addrKey, ParseIP. rewrite Hp. cbn [mbind option_bind].
  rewrite bool_decide_eq_true_2 by done. cbn [mbind option_bind]. unfold As16, AsSlice in *.
  destruct (Addr_is6 x).
  - unfold To4. by rewrite bool_decide_eq_false_2.
  - unfold To4. rewrite bool_decide_eq_true_2 by done. done.
Qed.

Lemma AsSlice_view x v :
  wellSized v → Addr_wf x → Addr_is6 x = v_v6 v → AsSlice x = v_addr v ↔ Addr_val x = be_val (v_addr v).
Proof.
  intros Hws Hwf Hb. rewrite <-(be_val_AsSlice x) by done. split; [by intros ->|].
  destruct (ws_addr _ Hws) as [Hby Hl]. unfold ipLength in Hl. rewrite <-Hb in Hl.
  apply be_val_inj; [|done|].
  - unfold AsSlice, be_bytes. apply Forall_reverse, le_bytes_is_byte.
  - unfold AsSlice. rewrite length_be_bytes. destruct (Addr_is6 x); lia.
Qed.

Lemma splitAddrs_ok addrs :
  Forall (λ a, is_Some (ParseAddr a)) addrs →
  ∃ p, splitAddrs addrs = Ok p ∧ ∀ (b : bool) a,
    a ∈ (if b then p.2 else p.1) ↔ a ∈ addrs ∧ ∃ x, ParseAddr a = Some x ∧ Addr_is6 x = b.
Proof.
  induction 1 as [|c addrs [y Hy] _ (p & IH1 & IH2)]; cbn [splitAddrs].
  { exists ([], []). split; [done|]. intros b a. destruct b; cbn; rewrite elem_of_nil; naive_solver. }
  rewrite Hy, IH1. cbn [mbind result_bind]. eexists. split; [done|]. intros b a. specialize (IH2 b a).
  rewrite elem_of_cons. unfold Is6. destruct (Addr_is6 y) eqn:E, b; cbn [fst snd];
    rewrite ?elem_of_cons, IH2; (split; [naive_solver|]); intros [[->|Ha] (x & Hx & Hb)]; naive_solver congruence.
Qed.

Lemma addrs_actions_mem (l : list gostring) (b : bool) v :
  wellSized v → (∀ a, a ∈ l → ∃ x, plainAddr a x ∧ Addr_is6 x = b) →
  (∀ v6 els, Deny v6 els ∉ addrs_actions l) ∧
  ((∃ i els, Allow (v_v6 v) i els ∈ addrs_actions l ∧ memb i els (v_addr v) = true) ↔
   ∃ a x, a ∈ l ∧ plainAddr a x ∧ Addr_is6 x = v_v6 v ∧ Addr_val x = be_val (v_addr v)).
Proof.
  intros Hws Hl. unfold addrs_actions. destruct l as [|a0 l0].
  { split; [by intros ? ? ?%not_elem_of_nil|]. split; [by intros (? & ? & ?%not_elem_of_nil & _)|].
    by intros (? & ? & ?%not_elem_of_nil & _). }
  destruct (Hl a0) as (x0 & Hx0 & Hb0); [by left|]. destruct (plainAddr_key _ _ Hx0) as [_ ->]. rewrite Hb0.
  set (l := a0 :: l0) in *. remember ((λ a, keyElem (addrKey a)) <$> l) as E eqn:HE.
  split; [intros ? ?; by rewrite list_elem_of_singleton|].
  assert (∀ a x, a ∈ l → plainAddr a x → Addr_is6 x = b) as Hfam.
  { intros a x Ha (Hx & _). destruct (Hl a Ha) as (x' & (Hx' & _) & <-). congruence. }
  assert (∀ a x, plainAddr a x → Addr_is6 x = v_v6 v →
    addrKey a = v_addr v ↔ Addr_val x = be_val (v_addr v)) as Hkey.
  { intros a x Hx Hv. destruct (plainAddr_key _ _ Hx) as [-> _]. apply AsSlice_view; [done| |done].
    destruct Hx as [Hx _]. by eapply ParseAddr_wf. }
  split.
  - intros (i & els & Heq%list_elem_of_singleton & Hmem). injection Heq as Hv -> ->. cbn [memb] in Hmem.
    subst E. apply bool_decide_eq_true, list_elem_of_fmap in Hmem as (e & He & (a & -> & Ha)%list_elem_of_fmap).
    destruct (Hl a Ha) as (x & Hx & Hb). exists a, x.
    assert (Addr_is6 x = v_v6 v) by congruence. split_and!; [done..|]. apply (Hkey a); [done..|]. by rewrite He.
  - intros (a & x & Ha & Hx & Hv & Hval). exists false, E. rewrite <-Hv, (Hfam a x) by done. split; [by apply list_elem_of_singleton|]. cbn [memb].
    subst E. apply bool_decide_eq_true, list_elem_of_fmap. exists (keyElem (addrKey a)).
    split; [symmetry; by apply (Hkey a x)|]. by apply list_elem_of_fmap; exists a.
Qed.

(** ** What a peer, a rule, a policy and a list of policies say *)

Section says.
Context `{LabelApi} `{MapOrder}.
Variable deps : PolicyDeps.
Variable info : PodInfo.

Definition peerExcludes (v : view) (peer : MultiNetworkPolicyPeer) : Prop :=
  match Peer_IPBlock peer with Some b => blockExcludes v b | None => False end.
Definition peerIncludes (nets : list gostring) (v : view) (peer : MultiNetworkPolicyPeer) : Prop :=
  match Peer_IPBlock peer with
  | Some b => blockIncludes v b
  | None => ∃ a x, peerAddr deps info nets peer a ∧ plainAddr a x ∧ Addr_is6 x = v_v6 v ∧
              Addr_val x = be_val (v_addr v)
  end.

(** A peer is a valid block, or has selectors that parse and find pods with
    plain addresses. *)
Definition validPeer (nets : list gostring) (peer : MultiNetworkPolicyPeer) : Prop :=
  match Peer_IPBlock peer with
  | Some b => validBlock b
  | None =>
    (is_Some (Peer_PodSelector peer) ∨ is_Some (Peer_NamespaceSelector peer)) ∧
    (∃ pods, peerPods deps peer pods ∧ calmPods deps pods) ∧
    (∀ s, Peer_NamespaceSelector peer = Some s → is_ok (LabelSelectorAsSelector s) = true) ∧
    ∀ a, peerAddr deps info nets peer a → ∃ x, plainAddr a x
  end.

Lemma peer_means nm nets v i peer :
  wellSized v → validPeer nets peer →
  ∃ acts, peer_actions deps nm info nets (i, peer) = Ok acts ∧
    says_of (peerExcludes v peer) (peerIncludes nets v peer) (eval_actions v acts).
Proof.
  intros Hws. unfold validPeer, peer_actions, peerExcludes, peerIncludes. cbn [fst snd].
  destruct (Peer_IPBlock peer) as [b|]; [by apply block_means|].
  intros (Hsel & (pods & Hpods & Hcalm) & Hns & Hplain).
  destruct (selectorAddrs_means deps nm peer info nets i pods Hpods Hcalm Hns) as (addrs & Ha & Haddrs).
  destruct (splitAddrs_ok addrs) as (p & Hp & Hsplit).
  { apply Forall_forall. intros a Hin%Haddrs%Hplain. destruct Hin as (x & Hx & _). by exists x. }
  exists (addrs_actions p.1 ++ addrs_actions p.2). split.
  { rewrite Ha. cbn [mbind result_bind]. rewrite Hp.
    destruct (Peer_PodSelector peer), (Peer_NamespaceSelector peer); try done.
    by destruct Hsel as [[? ?]|[? ?]]. }
  assert (∀ (b : bool) a, a ∈ (if b then p.2 else p.1) ↔ a ∈ addrs ∧ ∃ x, plainAddr a x ∧ Addr_is6 x = b) as Hin.
  { intros b a. rewrite Hsplit, Haddrs. split; intros [Hin (x & Hx & Hb)]; (split; [done|]).
    - destruct (Hplain a Hin) as [x' Hx']. exists x'. split; [done|]. destruct Hx'. congruence.
    - exists x. split; [apply Hx|done]. }
  destruct (addrs_actions_mem p.1 false v Hws) as [Hd1 Hm1]; [intros a Hi; by apply (Hin false)|].
  destruct (addrs_actions_mem p.2 true v Hws) as [Hd2 Hm2]; [intros a Hi; by apply (Hin true)|].
  destruct (eval_actions_spec v (addrs_actions p.1 ++ addrs_actions p.2)) as [Hnd Hmt].
  { intros v6 els [?|?]%elem_of_app; [by eapply Hd1|by eapply Hd2]. }
  assert (eval_actions v (addrs_actions p.1 ++ addrs_actions p.2) = Matched ↔
    ∃ a x, peerAddr deps info nets peer a ∧ plainAddr a x ∧ Addr_is6 x = v_v6 v ∧
      Addr_val x = be_val (v_addr v)) as Hiff.
  { rewrite Hmt. setoid_rewrite elem_of_app. setoid_rewrite <-Haddrs.
    pose proof (Hin false) as Hi1. pose proof (Hin true) as Hi2. cbn in Hi1, Hi2. split.
    - intros (i' & els & [Hx|Hx] & Hmem).
      + destruct Hm1 as [Hm1 _]. destruct Hm1 as (a & x & Hi & ?); [eauto|]. exists a, x. split; [|done]. by apply Hi1.
      + destruct Hm2 as [Hm2 _]. destruct Hm2 as (a & x & Hi & ?); [eauto|]. exists a, x. split; [|done]. by apply Hi2.
    - intros (a & x & Hi & Hx & Hv & Hval). destruct (Addr_is6 x) eqn:E.
      + destruct Hm2 as [_ Hm2]. destruct Hm2 as (i' & els & ? & ?); [|by exists i', els; split; [right|]].
        exists a, x. rewrite E, Hi2. eauto 10.
      + destruct Hm1 as [_ Hm1]. destruct Hm1 as (i' & els & ? & ?); [|by exists i', els; split; [left|]].
        exists a, x. rewrite E, Hi1. eauto 10. }
  destruct (eval_actions v _); cbn [says_of]; [|done|]; rewrite <-Hiff; naive_solver.
Qed.

(** The first element that is decided decides the list. *)
Inductive firstSays {A} (says : A → outcome → Prop) : list A → outcome → Prop :=
  | first_nil : firstSays says [] Unmatched
  | first_decides x l o : says x o → o ≠ Unmatched → firstSays says (x :: l) o
  | first_next x l o : says x Unmatched → firstSays says l o → firstSays says (x :: l) o.

(** The peers of a rule; a rule without peers admits all. *)
Definition peersSay (nets : list gostring) (v : view) (peers : list MultiNetworkPolicyPeer) (o : outcome) : Prop :=
  match peers with
  | [] => o = Matched
  | _ => firstSays (λ peer, says_of (peerExcludes v peer) (peerIncludes nets v peer)) peers o
  end.

(** A rule denies when its peers do, and matches when its peers and its ports
    do. *)
Definition ruleSays (nets : list gostring) (v : view) (r : MultiNetworkPolicyRule) (o : outcome) : Prop :=
  match o with
  | Denied => peersSay nets v (PRule_Peers r) Denied
  | Matched => peersSay nets v (PRule_Peers r) Matched ∧ portsAllow v (PRule_Ports r)
  | Unmatched => peersSay nets v (PRule_Peers r) Unmatched ∨
                 peersSay nets v (PRule_Peers r) Matched ∧ ¬ portsAllow v (PRule_Ports r)
  end.

Definition directionRules (ing : bool) (q : internalPolicy) : list MultiNetworkPolicyRule :=
  default [] (if ing then Spec_Ingress (Policy_Spec (ip_policy q)) else Spec_Egress (Policy_Spec (ip_policy q))).

(** A policy speaks of the packets of the interfaces on its networks. *)
Definition coversIface (ifn : bytes) (q : internalPolicy) : Prop :=
  ∃ i, i ∈ PI_Interfaces info ∧ NetattachName i ∈ ip_policyNetworks q ∧ ifn = ifname (InterfaceName i).
Definition policySays (ing : bool) (v : view) (ifn : bytes) (q : internalPolicy) (o : outcome) : Prop :=
  coversIface ifn q ∧ firstSays (ruleSays (ip_policyNetworks q) v) (directionRules ing q) o ∨
  ¬ coversIface ifn q ∧ o = Unmatched.

Definition validRule (nets : list gostring) (r : MultiNetworkPolicyRule) : Prop :=
  validPorts (PRule_Ports r) ∧ Forall (validPeer nets) (PRule_Peers r).
Definition validPolicy (ing : bool) (q : internalPolicy) : Prop :=
  Forall (validRule (ip_policyNetworks q)) (directionRules ing q).

(** *** The computed outcomes are those *)

Lemma firstSays_det {A} (says : A → outcome → Prop) l o o' :
  (∀ x o o', says x o → says x o' → o = o') → firstSays says l o → firstSays says l o' → o = o'.
Proof.
  intros Hdet Ho. revert o'. induction Ho as [|x l o Hx Ho|x l o Hx Ho IH]; intros o' Ho'; inversion Ho'; subst; eauto.
  - assert (o = Unmatched) by eauto. done.
  - assert (o' = Unmatched) by eauto. done.
Qed.

Lemma says_of_det denied allowed o o' : says_of denied allowed o → says_of denied allowed o' → o = o'.
Proof. destruct o, o'; cbn; naive_solver. Qed.

Lemma peersSay_det nets v peers o o' : peersSay nets v peers o → peersSay nets v peers o' → o = o'.
Proof.
  unfold peersSay. destruct peers as [|x l]; [by intros -> ->|].
  apply firstSays_det. intros ???. apply says_of_det.
Qed.

Lemma ruleSays_det nets v r o o' : ruleSays nets v r o → ruleSays nets v r o' → o = o'.
Proof.
  pose proof (peersSay_det nets v (PRule_Peers r)) as Hd.
  assert (∀ a b, peersSay nets v (PRule_Peers r) a → peersSay nets v (PRule_Peers r) b → a ≠ b → False) as Hc
    by (intros a b Ha Hb Hne; by apply Hne, Hd).
  destruct o, o'; cbn; intros Ho Ho'; destruct_and?; destruct_or?; destruct_and?; try done; exfalso;
    first [contradiction|match goal with
      | Ha : peersSay _ _ _ ?a, Hb : peersSay _ _ _ ?b |- _ => exact (Hc a b Ha Hb ltac:(discriminate))
      end].
Qed.
Lemma policySays_det ing v ifn q o o' : policySays ing v ifn q o → policySays ing v ifn q o' → o = o'.
Proof.
  intros [[? Ho]|[? ->]] [[? Ho']|[? ->]]; try done. eapply firstSays_det; [|exact Ho|exact Ho'].
  intros ???. apply ruleSays_det.
Qed.

Lemma eval_app v a b :
  eval_actions v (a ++ b) = match eval_actions v a with Unmatched => eval_actions v b | o => o end.
Proof. induction a as [|[v6 els|v6 i els] a IH]; cbn; [done|..]; destruct (_ && _); [done|exact IH|done|exact IH]. Qed.

Lemma peers_means nm nets v j peers :
  wellSized v → Forall (validPeer nets) peers →
  ∃ acts, collect (peer_actions deps nm info nets) (zip (seq j (length peers)) peers) = Ok acts ∧
    firstSays (λ peer, says_of (peerExcludes v peer) (peerIncludes nets v peer)) peers (eval_actions v acts).
Proof.
  intros Hws Hv. revert j. induction Hv as [|peer peers Hp _ IH]; intros j; cbn.
  { exists []. split; [done|]. constructor. }
  destruct (peer_means nm nets v j peer Hws Hp) as (a & Ha & Hsays). destruct (IH (S j)) as (b & Hb & Hfirst).
  rewrite Ha. cbn [mbind result_bind]. rewrite Hb. eexists. split; [done|]. rewrite eval_app.
  destruct (eval_actions v a) eqn:E; [by apply first_decides|by apply first_decides|by apply first_next].
Qed.

Lemma rule_means nm nets v i r :
  wellSized v → validRule nets r →
  ∃ s, rule_spec_of deps nm info nets (i, r) = Ok s ∧ ruleSays nets v r (rule_outcome v s).
Proof.
  intros Hws [Hports Hpeers]. destruct (collectPorts_means (PRule_Ports r) v Hws Hports) as (s & Hs & Hmatch).
  destruct (peers_means (peersNameOf nm i) nets v 0 (PRule_Peers r) Hws Hpeers) as (acts & Ha & Hfirst).
  unfold rule_spec_of, enumerate. cbn [fst snd]. rewrite Hs. cbn [mbind result_bind]. rewrite Ha.
  eexists. split; [done|].
  unfold rule_outcome, spec_peers, peers_outcome. cbn [spec_ports spec_nopeers spec_actions].
  assert (peersSay nets v (PRule_Peers r)
    (match (if len (PRule_Peers r) =? 0 then [] else [tt]) with [] => Matched | _ :: _ => eval_actions v acts end)) as Hp.
  { revert Hfirst. generalize (eval_actions v acts) as o. unfold peersSay. by destruct (PRule_Peers r). }
  destruct (match (if len (PRule_Peers r) =? 0 then [] else [tt]) with [] => Matched | _ => _ end); cbn; [|done|by left].
  destruct (ports_match v s); cbn; [by rewrite <-Hmatch|]. right. split; [done|]. by rewrite <-Hmatch.
Qed.

Lemma rules_mean nm nets v j rules :
  wellSized v → Forall (validRule nets) rules →
  ∃ specs, Forall2 (λ y s, rule_spec_of deps nm info nets y = Ok s) (zip (seq j (length rules)) rules) specs ∧
    firstSays (ruleSays nets v) rules (policy_outcome v specs).
Proof.
  intros Hws Hv. revert j. induction Hv as [|r rules Hr _ IH]; intros j; cbn.
  { exists []. split; constructor. }
  destruct (rule_means nm nets v j r Hws Hr) as (s & Hs & Hsays). destruct (IH (S j)) as (specs & Hb & Hfirst).
  exists (s :: specs). split; [by constructor|]. cbn.
  destruct (rule_outcome v s) eqn:E; [by apply first_decides|by apply first_decides|by apply first_next].
Qed.

Lemma covered_iface ifn q :
  ifn ∈ (λ i, ifname (InterfaceName i)) <$> covered info q ↔ coversIface ifn q.
Proof.
  unfold covered, coversIface. rewrite list_elem_of_fmap. apply exist_proper. intros i.
  rewrite list_elem_of_In, filter_In, <-list_elem_of_In, CheckPolicyNetwork_spec. naive_solver.
Qed.

Lemma policy_means ing v ifn q specs :
  wellSized v → validPolicy ing q → policy_specs ing info deps q specs →
  policySays ing v ifn q (policy_says v ifn (covered info q) specs).
Proof.
  intros Hws Hv Hsp. destruct (rules_mean (nameOf ing q) (ip_policyNetworks q) v 0 _ Hws Hv) as (specs' & Hsp' & Hf).
  assert (specs' = specs) as -> by (enough ([specs'] = [specs]) by congruence; eapply (policy_specs_fun _ _ _ [q]); by repeat constructor).
  unfold policySays, policy_says. case_bool_decide as Hc; rewrite covered_iface in Hc; [by left|by right].
Qed.

Lemma policies_mean ing v ifn policies specs :
  wellSized v → Forall (validPolicy ing) policies → Forall2 (policy_specs ing info deps) policies specs →
  firstSays (policySays ing v ifn) policies (entry_outcome v ifn (zip (covered info <$> policies) specs)).
Proof.
  intros Hws Hv. revert specs. induction Hv as [|q policies Hq _ IH]; intros specs Hsp;
    inversion Hsp as [|? s ? specs' Hs Hsp']; subst; cbn; [constructor|].
  pose proof (policy_means ing v ifn q s Hws Hq Hs) as Hsays.
  destruct (policy_says v ifn (covered info q) s) eqn:E; [by apply first_decides|by apply first_decides|].
  apply first_next; [done|]. by apply IH.
Qed.
End says.

(** ** Properties *)

Section properties.
Context {K : Type} `{LawfulKernel K} `{Gob} `{NftVM} `{LabelApi} `{MapOrder}.

Definition anyView : view := mkView false [0; 0; 0; 0] 6 None.
Lemma anyView_ws : wellSized anyView.
Proof. split; [|done]. split; [|done]. by repeat constructor. Qed.

Lemma valid_specs ing deps info policies :
  Forall (validPolicy deps info ing) policies →
  ∃ specs, Forall2 (policy_specs ing info deps) policies specs.
Proof.
  induction 1 as [|q policies Hq _ [specs IH]]; [by exists []|].
  destruct (rules_mean deps info (nameOf ing q) (ip_policyNetworks q) anyView 0 _ anyView_ws Hq) as (s & Hs & _).
  exists (s :: specs). by constructor.
Qed.

(** The chains generated for well-formed policies of a direction decide
    every packet as the policies say. In an empty namespace the generation
    succeeds, and in a ruleset with what it wrote a packet of an interface,
    whose mark does not carry both bits already, is let through to the base
    chain when the first policy that decides it matches, and is dropped when
    one of its [except] blocks denies it first, when no rule matches, and when
    no policy covers its interface. *)
Lemma policies_decide_packets ing deps info policies (n : nftState K) chain :
  gob_total → fresh (kern (nft n)) →
  entryField ing n = Some chain → Chain_Name chain = entryName ing →
  policies ≠ [] → Forall (validPolicy deps info ing) policies →
  NoDup (entryName ing :: (policies ≫= chainNames ing)) →
  NoDup ((λ i, ifname (InterfaceName i)) <$> PI_Interfaces info) →
  Forall (λ q, Forall (λ y, Z.of_nat y.1 < 2 ^ 63) (rulesOf ing q)) policies →
  ∃ n' ms, applyDirection deps (entryField ing) info policies n = (Ok tt, n') ∧
    messages (nft n') = messages (nft n) ++ ms ∧
    ∀ rs p v ifn m, installed rs ms → arrives ing p v ifn → wellSized v → unmarked m →
      ∃ o, firstSays (policySays deps info ing v ifn) policies o ∧
        (o = Matched → ∃ m', vm_rules rs p (chainOf ms (entryName ing)) m (Falls m')) ∧
        (o ≠ Matched → vm_rules rs p (chainOf ms (entryName ing)) m Dropped).
Proof.
  intros Hg Hf Hfield HE Hne Hv Hnd Hndi Hidx. destruct (valid_specs _ _ _ _ Hv) as [specs Hsp].
  destruct (applyDirection_fate ing deps info policies specs n chain) as (n' & ms & Hr & Hms & Hfate); [done..|].
  exists n', ms. split_and!; [done|done|]. intros rs p v ifn m Hi Ha Hws Hm.
  exists (entry_outcome v ifn (zip (covered info <$> policies) specs)).
  split; [by apply policies_mean|]. destruct (Hfate rs p v ifn m Hi Ha Hm) as (o & Ho & _ & Hcase).
  destruct (entry_outcome _ _ _); (split; [|by intros; subst]); intros E; try done.
  destruct Hcase as [m' ->]. by exists m'.
Qed.

End properties.
