(* ===== verification/Crd.v ===== *)
(** * The NetworkPolicy semantics of the CRD

    What the fields of a MultiNetworkPolicy mean by the descriptions of the
    custom resource definition (testdata/crds/multi-networkpolicy.yaml), and
    how the generated chains differ: they also let in the pod's own addresses
    and, for a peer with a pod selector only, pods of other namespaces; and an
    [except] entry denies where it should only not admit. *)

From S2P Require Import Prelude GoStd Names Nft Netip Api Elements Conn RefKernel State Legacy Rules Cleanup Server VM Fresh Semantics Verdict Meaning.

(** ** Ports *)

(** TCP, UDP or SCTP; TCP when none is given. *)
Definition crdProtocol (port : MultiNetworkPolicyPort) : option Z :=
  match Port_Protocol port with
  | None => Some 6
  | Some q => if bool_decide (q = ProtocolTCP) then Some 6 else if bool_decide (q = ProtocolUDP) then Some 17
              else if bool_decide (q = ProtocolSCTP) then Some 132 else None
  end.
(** A port, a range of ports, or all ports. *)
Definition crdRange (port : MultiNetworkPolicyPort) : option (Z * Z) :=
  match Port_Port port with Some p => port_range p (Port_EndPort port) | None => Some (1, 65535) end.

Definition portMatches (v : view) (port : MultiNetworkPolicyPort) : Prop :=
  ∃ proto r d, crdProtocol port = Some proto ∧ crdRange port = Some r ∧ v_l4 v = proto ∧
    v_dport v = Some d ∧ in_range (be_val d) r.
(** No ports are all ports, of any protocol; items are combined with OR. *)
Definition portsMatch (v : view) (ports : list MultiNetworkPolicyPort) : Prop :=
  ports = [] ∨ ∃ port, port ∈ ports ∧ portMatches v port.

(** An entry that names a port or a protocol, and only protocols there are. *)
Definition plainEntry (port : MultiNetworkPolicyPort) : Prop :=
  (is_Some (Port_Port port) ∨ is_Some (Port_Protocol port)) ∧ is_Some (crdProtocol port).

Lemma crdProtocol_number port proto : crdProtocol port = Some proto → protoNumber port = proto.
Proof.
  unfold crdProtocol, protoNumber. destruct (Port_Protocol port) as [q|]; [|by intros [= <-]].
  destruct (decide (q = ProtocolTCP)) as [->|Hq]; [by intros [= <-]|]. rewrite (bool_decide_eq_false_2 (q = _)) by done.
  repeat case_bool_decide; by intros [= <-].
Qed.

Lemma portsAllow_match v ports :
  Forall validPort ports → Forall plainEntry ports → portsAllow v ports ↔ portsMatch v ports.
Proof.
  intros Hv Hp.
  assert (∀ port, port ∈ ports → ∃ proto, crdProtocol port = Some proto ∧ protoNumber port = proto ∧
    portRange port = crdRange port ∧ is_Some (portRange port)) as Hport.
  { intros port Hin. rewrite Forall_forall in Hv, Hp. specialize (Hv port Hin). destruct (Hp port Hin) as [Hsome [proto Hproto]].
    exists proto. split_and!; [done|by apply crdProtocol_number|..]; unfold validPort, portRange, crdRange in *;
      destruct (Port_Port port), (Port_Protocol port); try done; try (by apply Hv); try (by eexists); by destruct Hsome as [[]|[]]. }
  unfold portsAllow, portsMatch, portMatches. split.
  - intros [Hn|(port & r & d & Hin & Hr & Hl & Hd & Hi)].
    + destruct ports as [|port ports]; [by left|]. exfalso. destruct (Hport port) as (_ & _ & _ & _ & [? E]); [by left|].
      rewrite (Hn port) in E by (by left). done.
    + right. destruct (Hport port Hin) as (proto & Hproto & Hnum & Hrange & _). exists port. split; [done|].
      exists proto, r, d. split_and!; congruence || done.
  - intros [->|(port & Hin & proto & r & d & Hproto & Hr & Hl & Hd & Hi)]; [left; by intros ? ?%not_elem_of_nil|right].
    destruct (Hport port Hin) as (proto' & Hproto' & Hnum & Hrange & _). exists port, r, d.
    split_and!; congruence || done.
Qed.

(** ** Lists decided by their first element *)

Section nobody_denies.
Context {A : Type} (says : A → outcome → Prop) (allowed : A → Prop).

(** Where nothing is denied, the list matches when an element does. *)
Lemma firstSays_Matched l o :
  (∀ x, x ∈ l → ∀ o, says x o → o ≠ Denied ∧ (o = Matched ↔ allowed x)) →
  firstSays says l o → o ≠ Denied ∧ (o = Matched ↔ ∃ x, x ∈ l ∧ allowed x).
Proof.
  intros Hs Ho. induction Ho as [|x l o Hx Ho|x l o Hx Ho IH].
  - split; [done|]. split; [done|]. by intros (x & ?%not_elem_of_nil & _).
  - destruct (Hs x) with o as [Hd Hm]; [by left|done|]. split; [done|]. split.
    + intros E. exists x. split; [by left|]. by apply Hm.
    + intros _. by destruct o.
  - destruct (Hs x) with Unmatched as [_ Hm]; [by left|done|].
    destruct IH as [Hd IH]; [intros y Hy; apply Hs; by right|]. split; [done|]. rewrite IH.
    setoid_rewrite elem_of_cons. split; [naive_solver|]. intros (y & [->|Hy] & Ha); [by apply Hm in Ha|eauto].
Qed.
End nobody_denies.


Lemma firstSays_found {A} (says : A → outcome → Prop) l o :
  firstSays says l o → o ≠ Unmatched → ∃ x, x ∈ l ∧ says x o.
Proof.
  induction 1 as [|x l o Hx Ho|x l o Hx Ho IH]; intros Hne; [done|exists x; split; [by left|done]|].
  destruct (IH Hne) as (y & Hy & ?). exists y. split; [by right|done].
Qed.

(** ** Peers *)

Section crd.
Context `{LabelApi}.
Variables (deps : PolicyDeps) (info : PodInfo).

(** The text is the address of the packet's peer. *)
Definition denotes (a : gostring) (v : view) : Prop :=
  ∃ x, plainAddr a x ∧ Addr_is6 x = v_v6 v ∧ Addr_val x = be_val (v_addr v).

(** The pods a peer selects: in the namespaces selected, or in the policy's
    own when there is no namespace selector. *)
Definition selectedPod (ns : gostring) (peer : MultiNetworkPolicyPeer) (pod : Pod) : Prop :=
  ∃ pods, peerPods deps peer pods ∧ pod ∈ pods ∧ nsAccepts deps peer pod ∧
    (Peer_NamespaceSelector peer = None → Pod_Namespace pod = ns).

(** An address of a pod on one of the networks. *)
Definition podAddr (nets : list gostring) (pod : Pod) (a : gostring) : Prop :=
  ∃ pinfo j, GetPodInfo deps pod = Ok pinfo ∧ j ∈ PI_Interfaces pinfo ∧ CheckPolicyNetwork j nets = true ∧ a ∈ IPs j.

(** A peer is an address block without its exceptions, or pods. *)
Definition peerMatches (q : internalPolicy) (v : view) (peer : MultiNetworkPolicyPeer) : Prop :=
  match Peer_IPBlock peer with
  | Some b => blockIncludes v b ∧ ¬ blockExcludes v b
  | None => ∃ pod a, selectedPod (Policy_Namespace (ip_policy q)) peer pod ∧
      podAddr (ip_policyNetworks q) pod a ∧ denotes a v
  end.

(** A rule matches with both its ports and its peers; without peers it matches
    all of them. *)
Definition ruleMatches (q : internalPolicy) (v : view) (r : MultiNetworkPolicyRule) : Prop :=
  portsMatch v (PRule_Ports r) ∧ (PRule_Peers r = [] ∨ ∃ peer, peer ∈ PRule_Peers r ∧ peerMatches q v peer).

(** Traffic is admitted when it matches at least one rule across all policies
    of its interface. *)
Definition crdAdmits (ing : bool) (v : view) (ifn : bytes) (policies : list internalPolicy) : Prop :=
  ∃ q r, q ∈ policies ∧ coversIface info ifn q ∧ r ∈ directionRules ing q ∧ ruleMatches q v r.

(** ** Where the generated chains differ *)

(** Some [except] entry has the address. *)
Definition excepted (ing : bool) (v : view) (ifn : bytes) (policies : list internalPolicy) : Prop :=
  ∃ q r peer, q ∈ policies ∧ coversIface info ifn q ∧ r ∈ directionRules ing q ∧ peer ∈ PRule_Peers r ∧
    peerExcludes v peer.

(** The address is one of the pod's own on a network of the policy, or that of
    a pod of another namespace that a peer without a namespace selector finds. *)
Definition ownAddress (q : internalPolicy) (v : view) : Prop :=
  ∃ i a, i ∈ PI_Interfaces info ∧ CheckPolicyNetwork i (ip_policyNetworks q) = true ∧ a ∈ IPs i ∧ denotes a v.
Definition foreignPod (q : internalPolicy) (v : view) (peer : MultiNetworkPolicyPeer) : Prop :=
  Peer_NamespaceSelector peer = None ∧ ∃ pods pod a, peerPods deps peer pods ∧ pod ∈ pods ∧
    Pod_Namespace pod ≠ Policy_Namespace (ip_policy q) ∧ podAddr (ip_policyNetworks q) pod a ∧ denotes a v.
Definition leaked (ing : bool) (v : view) (ifn : bytes) (policies : list internalPolicy) : Prop :=
  ∃ q r peer, q ∈ policies ∧ coversIface info ifn q ∧ r ∈ directionRules ing q ∧ peer ∈ PRule_Peers r ∧
    Peer_IPBlock peer = None ∧ (ownAddress q v ∨ foreignPod q v peer).

Lemma verdict_det ing v ifn policies o o' :
  firstSays (policySays deps info ing v ifn) policies o → firstSays (policySays deps info ing v ifn) policies o' → o = o'.
Proof. apply firstSays_det. intros ???. apply policySays_det. Qed.

Lemma includes_matches q v peer :
  ¬ peerExcludes v peer → peerIncludes deps info (ip_policyNetworks q) v peer →
  peerMatches q v peer ∨ Peer_IPBlock peer = None ∧ (ownAddress q v ∨ foreignPod q v peer).
Proof.
  unfold peerExcludes, peerIncludes, peerMatches. destruct (Peer_IPBlock peer) as [b|]; [by left|]. intros _.
  intros (a & x & (pods & pod & pinfo & i & j & Hpods & Hpod & Hns & Hinfo & Hi & Hci & Hj & Hcj & Ha) & Hx).
  assert (denotes a v) as Hd by (by exists x). destruct Ha as [Ha|Ha].
  { right. split; [done|]. left. by exists i, a. }
  assert (podAddr (ip_policyNetworks q) pod a) as Hp by (by exists pinfo, j).
  destruct (decide (Pod_Namespace pod = Policy_Namespace (ip_policy q))) as [E|E].
  - left. exists pod, a. split; [|done]. by exists pods.
  - destruct (Peer_NamespaceSelector peer) eqn:Es.
    + left. exists pod, a. split; [|done]. exists pods. by rewrite Es.
    + right. split; [done|]. right. split; [done|]. by exists pods, pod, a.
Qed.

Lemma matches_includes q v ifn peer :
  coversIface info ifn q → peerMatches q v peer → peerIncludes deps info (ip_policyNetworks q) v peer.
Proof.
  intros (i & Hi & Hci%CheckPolicyNetwork_spec & _). unfold peerMatches, peerIncludes. destruct (Peer_IPBlock peer); [by intros []|].
  intros (pod & a & (pods & Hpods & Hpod & Hns & _) & (pinfo & j & Hinfo & Hj & Hcj & Ha) & x & Hx).
  exists a, x. split; [|done]. exists pods, pod, pinfo, i, j. split_and!; auto.
Qed.

(** Policies whose port entries the CRD and the code read alike. *)
Definition plainPolicy (ing : bool) (q : internalPolicy) : Prop :=
  ∀ r, r ∈ directionRules ing q → Forall plainEntry (PRule_Ports r).

Section policies.
Variables (ing : bool) (v : view) (ifn : bytes) (policies : list internalPolicy) (o : outcome).
Hypothesis valid : Forall (validPolicy deps info ing) policies.
Hypothesis plain : Forall (plainPolicy ing) policies.
Hypothesis says : firstSays (policySays deps info ing v ifn) policies o.

Lemma valid_ports q r : q ∈ policies → r ∈ directionRules ing q → portsAllow v (PRule_Ports r) ↔ portsMatch v (PRule_Ports r).
Proof.
  intros Hq Hr. apply portsAllow_match.
  - pose proof (proj1 (Forall_forall _ _) valid q Hq) as Hv. unfold validPolicy in Hv. rewrite Forall_forall in Hv. by apply (Hv r Hr).
  - by apply (proj1 (Forall_forall _ _) plain q Hq).
Qed.

(** What is admitted passes, if no exception denies it. *)
Lemma admitted_passes : crdAdmits ing v ifn policies → ¬ excepted ing v ifn policies → o = Matched.
Proof.
  intros (q & r & Hq & Hc & Hr & Hports & Hpeers) Hno.
  set (ruleAllows := λ q r, portsAllow v (PRule_Ports r) ∧
    (PRule_Peers r = [] ∨ ∃ peer, peer ∈ PRule_Peers r ∧ peerIncludes deps info (ip_policyNetworks q) v peer)).
  apply (firstSays_Matched _ (λ q, coversIface info ifn q ∧ ∃ r, r ∈ directionRules ing q ∧ ruleAllows q r)) in says as [_ Hm].
  { apply Hm. exists q. split; [done|]. split; [done|]. exists r. split; [done|]. split; [by apply (valid_ports q)|].
    destruct Hpeers as [?|(peer & Hp & Hpm)]; [by left|right]. exists peer. split; [done|]. by eapply matches_includes. }
  clear q r Hq Hc Hr Hports Hpeers. intros q Hq o' [[Hc Hf]|[Hc ->]]; [|naive_solver].
  apply (firstSays_Matched _ (ruleAllows q)) in Hf as [Hd Hm]; [split; [done|]; rewrite Hm; naive_solver|].
  intros r Hr o2 Hsays.
  assert (∀ o, peersSay deps info (ip_policyNetworks q) v (PRule_Peers r) o → o ≠ Denied ∧
    (o = Matched ↔ PRule_Peers r = [] ∨ ∃ peer, peer ∈ PRule_Peers r ∧ peerIncludes deps info (ip_policyNetworks q) v peer)) as Hp.
  { assert (∀ peer, peer ∈ PRule_Peers r → ¬ peerExcludes v peer) as Hx
      by (intros peer Hpeer Hx; apply Hno; by exists q, r, peer).
    intros o3. unfold peersSay. revert Hx. destruct (PRule_Peers r) as [|p0 peers0]; [intros _ ->; naive_solver|].
    set (peers := p0 :: peers0). intros Hx Hs.
    apply (firstSays_Matched _ (peerIncludes deps info (ip_policyNetworks q) v)) in Hs as [Hd Hm]; [split; [done|]; rewrite Hm; naive_solver|].
    intros peer Hpeer o4. specialize (Hx peer Hpeer). destruct o4; cbn; naive_solver. }
  unfold ruleAllows. destruct o2; cbn in Hsays.
  - split; [done|]. destruct Hsays as [Hs ?]. apply Hp in Hs. naive_solver.
  - apply Hp in Hsays. naive_solver.
  - split; [done|]. destruct Hsays as [Hs|[Hs ?]]; apply Hp in Hs; naive_solver.
Qed.

(** What passes is admitted or leaked. *)
Lemma passes_admitted : o = Matched → crdAdmits ing v ifn policies ∨ leaked ing v ifn policies.
Proof.
  intros ->. apply firstSays_found in says as (q & Hq & [[Hc Hf]|[_ ?]]); [|done..].
  apply firstSays_found in Hf as (r & Hr & Hpeers & Hports); [|done].
  apply (valid_ports q r Hq Hr) in Hports. unfold peersSay in Hpeers.
  destruct (PRule_Peers r) as [|p0 peers0] eqn:Ep; [left; exists q, r; unfold ruleMatches; split_and!; [done..|by left]|].
  apply firstSays_found in Hpeers as (peer & Hpeer & Hne & Hinc); [|done]. rewrite <-Ep in Hpeer.
  destruct (includes_matches q v peer Hne Hinc) as [Hm|[Hb Hl]].
  - left. exists q, r. unfold ruleMatches. split_and!; [done..|]. right. by exists peer.
  - right. exists q, r, peer. by split_and!.
Qed.

(** The fate of a packet whose policies are to decide: the CRD up to the two
    deviations, and exactly, the first policy that decides it. *)
Definition decided (passes dropped : Prop) : Prop :=
  (passes ∨ dropped) ∧
  (crdAdmits ing v ifn policies → ¬ excepted ing v ifn policies → passes) ∧
  (¬ crdAdmits ing v ifn policies → ¬ leaked ing v ifn policies → dropped) ∧
  (firstSays (policySays deps info ing v ifn) policies Matched → passes) ∧
  (¬ firstSays (policySays deps info ing v ifn) policies Matched → dropped).

Lemma outcome_decided (passes dropped : Prop) :
  (o = Matched → passes) → (o ≠ Matched → dropped) → decided passes dropped.
Proof.
  intros Hpass Hdrop. split_and!.
  - destruct o; [by left; apply Hpass|right; by apply Hdrop..].
  - intros Ha Hn. by apply Hpass, admitted_passes.
  - intros Hna Hnl. apply Hdrop. intros E. by destruct (passes_admitted E).
  - intros Hm'. apply Hpass. by eapply verdict_det.
  - intros Hm'. apply Hdrop. intros E. by rewrite E in says.
Qed.
End policies.
End crd.

(** ** The generated chains *)

Section properties.
Context {K : Type} `{LawfulKernel K} `{Gob} `{NftVM} `{LabelApi} `{MapOrder}.

(** C2: the chains generated for the policies of a direction implement the
    NetworkPolicy semantics of the CRD up to two deviations. A packet that one
    of the policies of its interface admits (a rule whose ports and whose peers
    match it) passes, unless an [except] entry of some peer has its address. A
    packet that none admits is dropped, unless its address is the pod's own or
    that of a pod of another namespace that a peer without a namespace selector
    finds. In all cases it passes exactly when the first policy, rule and peer
    that matches or excludes it matches. *)
Theorem networkpolicy_semantics ing deps info policies (n : nftState K) chain :
  gob_total → fresh (kern (nft n)) →
  entryField ing n = Some chain → Chain_Name chain = entryName ing →
  policies ≠ [] → Forall (validPolicy deps info ing) policies → Forall (plainPolicy ing) policies →
  NoDup (entryName ing :: (policies ≫= chainNames ing)) →
  NoDup ((λ i, ifname (InterfaceName i)) <$> PI_Interfaces info) →
  Forall (λ q, Forall (λ y, Z.of_nat y.1 < 2 ^ 63) (rulesOf ing q)) policies →
  ∃ n' ms, applyDirection deps (entryField ing) info policies n = (Ok tt, n') ∧
    messages (nft n') = messages (nft n) ++ ms ∧
    ∀ rs p v ifn m, installed rs ms → arrives ing p v ifn → wellSized v → unmarked m →
      decided deps info ing v ifn policies (∃ m', vm_rules rs p (chainOf ms (entryName ing)) m (Falls m'))
        (vm_rules rs p (chainOf ms (entryName ing)) m Dropped).
Proof.
  intros Hg Hf Hfield HE Hne Hv Hpl Hnd Hndi Hidx.
  destruct (policies_decide_packets ing deps info policies n chain) as (n' & ms & Hr & Hms & Hdec); [done..|].
  exists n', ms. split_and!; [done|done|]. intros rs p v ifn m Hi Ha Hws Hm.
  destruct (Hdec rs p v ifn m Hi Ha Hws Hm) as (o & Ho & Hpass & Hdrop). by eapply outcome_decided.
Qed.
End properties.
