(* ===== verification/Typing.v ===== *)
(** * The types of what is written

    nf_tables refuses a rule that reads a register nobody loaded, or reads it
    at another width than it was loaded with, and a set element whose key has
    not the width of the set's key type. Here: every message of a sync passes
    these checks, whatever the policies are, as long as the addresses of the
    pods are written plainly. *)

From S2P Require Import Prelude GoStd Names Nft Netip Api Elements Conn State Legacy Rules Cleanup Server Meaning.

(** The width of a set's keys, and of what a meta expression loads. *)
Definition key_width (t : SetDatatype) : option nat :=
  match t with
  | TypeIPAddr => Some 4%nat
  | TypeIP6Addr | TypeIFName => Some 16%nat
  | TypeInetService => Some 2%nat
  | TypeICMP6Type => Some 1%nat
  | TypeOther _ => None
  end.

Definition meta_width (k : expr.MetaKey) : option nat :=
  match k with
  | expr.MetaKeyMARK => Some 4%nat
  | expr.MetaKeyIIFNAME | expr.MetaKeyOIFNAME => Some 16%nat
  | expr.MetaKeyNFPROTO | expr.MetaKeyL4PROTO => Some 1%nat
  | expr.MetaKeyOther _ => None
  end.

(** The effect of an expression on the type of register 1: the number of bytes
    it holds, if anything was loaded. [None] is a type error. *)
Definition expr_type (reg : option nat) (e : expr.Any) : option (option nat) :=
  match e with
  | expr.Meta k false r => w ← meta_width k; guard (r = 1) ;; mret (Some w)
  | expr.Meta k true r => guard (r = 1 ∧ is_Some reg ∧ reg = meta_width k) ;; mret reg
  | expr.Cmp _ r d => guard (r = 1 ∧ reg = Some (length d)) ;; mret reg
  | expr.Payload op d s _ _ l _ _ _ =>
    guard (op = 0 ∧ d = 1 ∧ s = 0 ∧ 0 < l ≤ 16) ;; mret (Some (Z.to_nat l))
  | expr.Ct r false expr.CtKeySTATE _ _ => guard (r = 1) ;; mret (Some 4%nat)
  | expr.Ct _ _ _ _ _ => None
  | expr.Bitwise s d l mask xor =>
    guard (s = 1 ∧ d = 1 ∧ l = 4 ∧ reg = Some 4%nat ∧ length mask = 4%nat ∧ length xor = 4%nat) ;; mret reg
  | expr.Lookup s _ set _ _ _ => guard (s = 1 ∧ set = false ∧ is_Some reg) ;; mret reg
  | expr.Counter _ _ => mret reg
  | expr.Verdict _ _ => mret reg
  | expr.Other _ => None
  end.

(** A rule: its expressions in order, a verdict only at the end. *)
Fixpoint rule_typed (reg : option nat) (es : list expr.Any) : bool :=
  match es with
  | [] => true
  | e :: es =>
    match expr_type reg e with
    | None => false
    | Some reg' =>
      match e, es with
      | expr.Verdict _ _, _ :: _ => false
      | _, _ => rule_typed reg' es
      end
    end
  end.

(** Keys of one width. *)
Definition keys_of_width (w : nat) (els : list SetElement) : Prop := Forall (λ e, length (Key e) = w) els.

(** A set made in the sync carries a transaction id; one the kernel listed
    does not. *)
Definition typed_msg (m : msg) : Prop :=
  match m with
  | MNewRule r | MInsertRule r | MReplaceRule r => rule_typed None (Rule_Exprs r) = true
  | MNewSet s => is_Some (key_width (Set_KeyType s))
  | MNewSetElem s els => ∃ w, keys_of_width w els ∧ (Set_ID s ≠ 0 → key_width (Set_KeyType s) = Some w)
  | _ => True
  end.

(** ** Elements *)

Lemma keys_app w l k : keys_of_width w l → keys_of_width w k → keys_of_width w (l ++ k).
Proof. intros. by apply Forall_app. Qed.

Lemma keys_new w new existing : keys_of_width w new → keys_of_width w (processElements new existing).1.
Proof.
  intros Hn. apply Forall_forall. intros x [Hx _]%elem_of_findNonCommon.
  unfold keys_of_width in Hn. rewrite Forall_forall in Hn. by apply Hn.
Qed.

Lemma length_AsSlice a : length (AsSlice a) = if Addr_is6 a then 16%nat else 4%nat.
Proof. unfold AsSlice. rewrite length_be_bytes. by destruct (Addr_is6 a). Qed.

Definition addr_width (is6 : bool) : nat := if is6 then 16%nat else 4%nat.

Lemma convertPrefix_keys p : keys_of_width (addr_width (Addr_is6 (Prefix_addr p))) (convertPrefixToSet p).
Proof.
  unfold convertPrefixToSet, Is4. cbv zeta.
  assert (Addr_is6 (MaskedAddr p) = Addr_is6 (Prefix_addr p)) as E1 by done.
  assert (∀ x, Next (PrefixLastIP p) = Some x → Addr_is6 x = Addr_is6 (Prefix_addr p)) as E2.
  { intros x. unfold Next. case_match; [done|]. by intros [= <-]. }
  destruct (Next (PrefixLastIP p)) as [x|]; [specialize (E2 x eq_refl)|rewrite E1];
    destruct (Addr_is6 (Prefix_addr p)); cbn [negb app]; repeat constructor; simpl;
    rewrite ?length_AsSlice, ?E1, ?E2; done.
Qed.

Lemma family_keys (b : bool) ps : keys_of_width (addr_width b) (lead b ps ++ family_elems b ps).
Proof.
  apply keys_app.
  - unfold lead. destruct ps; [constructor|]. case_match; repeat constructor. by destruct b.
  - unfold family_elems. apply Forall_concat, Forall_fmap, Forall_forall. intros p [_ <-]%elem_of_family.
    apply convertPrefix_keys.
Qed.

Lemma prefixes_keys l p :
  getPrefixesAsSetInterval l = Ok p → keys_of_width 4 p.1 ∧ keys_of_width 16 p.2.
Proof.
  rewrite getPrefixes_eq. destruct (mapM ParsePrefix l) as [ps|]; [|done]. intros [= <-].
  split; [apply (family_keys false)|apply (family_keys true)].
Qed.

Lemma port_keys port els : validatePortSpec port = Ok els → keys_of_width 2 els.
Proof.
  unfold validatePortSpec. destruct (Port_Port port) as [p|]; [|intros [= <-]; constructor].
  destruct (numericPort p) as [n|]; cbn; [|done].
  repeat case_match; intros; simplify_eq; repeat constructor.
Qed.

Definition ports_keys (p : portSets) : Prop :=
  keys_of_width 2 (portsTCP p) ∧ keys_of_width 2 (portsUDP p) ∧ keys_of_width 2 (portsSCTP p).

Lemma collectPorts_keys ports acc p : ports_keys acc → collectPorts ports acc = Ok p → ports_keys p.
Proof.
  revert acc. induction ports as [|port ports IH]; intros [t u s] Ha; cbn [collectPorts]; [by intros [= <-]|].
  cbv zeta. destruct (validatePortSpec (defaultPort port)) as [els|] eqn:E; cbn [mbind result_bind]; [|done].
  apply port_keys in E. destruct Ha as (H1 & H2 & H3). apply IH.
  repeat case_match; split_and!; simpl in *; auto using keys_app.
Qed.

Lemma interface_keys ifs : keys_of_width 16 (interfaceElements ifs).
Proof. apply Forall_fmap, Forall_true. intros p. apply length_ifname. Qed.

(** ** Rules *)

Lemma typed_nil reg : rule_typed reg [] = true.
Proof. done. Qed.
Lemma typed_verdict reg k c : rule_typed reg [expr.Verdict k c] = true.
Proof. done. Qed.
Lemma typed_step reg reg' e es :
  expr_type reg e = Some reg' → (∀ k c, e ≠ expr.Verdict k c) → rule_typed reg' es = true →
  rule_typed reg (e :: es) = true.
Proof. intros He Hv Ht. cbn [rule_typed]. rewrite He. destruct e; try done. by edestruct Hv. Qed.

Section rule_types.
Context `{Arch}.

Lemma type_metaLoad reg k w : meta_width k = Some w → expr_type reg (metaLoad k) = Some (Some w).
Proof. intros Hw. cbn. by rewrite Hw. Qed.
Lemma type_markStore : expr_type (Some 4%nat) markStore = Some (Some 4%nat).
Proof. done. Qed.
Lemma type_cmp op w d : length d = w → expr_type (Some w) (expr.Cmp op 1 d) = Some (Some w).
Proof. intros <-. cbn. by rewrite option_guard_True. Qed.
Lemma type_payload reg b o l :
  0 < l ≤ 16 → expr_type reg (payload b o l) = Some (Some (Z.to_nat l)).
Proof. intros Hl. cbn. by rewrite option_guard_True. Qed.
Lemma type_lookup w s : expr_type (Some w) (lookup s) = Some (Some w).
Proof. cbn. rewrite option_guard_True; [done|]. split_and!; eauto. Qed.
Lemma type_bitwise mask xor : expr_type (Some 4%nat) (bitwise mask xor) = Some (Some 4%nat).
Proof. cbn. rewrite option_guard_True; [done|]. split_and!; auto using length_PutUint32. Qed.
Lemma type_counter reg b p : expr_type reg (expr.Counter b p) = Some reg.
Proof. done. Qed.
Lemma type_ct reg : expr_type reg (expr.Ct 1 false expr.CtKeySTATE 0 false) = Some (Some 4%nat).
Proof. done. Qed.

(** A counter copied from the kernel does not change a rule's type. *)
Lemma typed_copyCounter ex rule reg :
  rule_typed reg (Rule_Exprs (copyCounter ex rule)) = rule_typed reg (Rule_Exprs rule).
Proof.
  unfold copyCounter. destruct (List.find _ _) as [c|] eqn:E; [|done].
  apply find_some in E as [_ E]. destruct c as [| | | | | | |b p|]; try done. simpl. clear E.
  revert reg. induction (Rule_Exprs rule) as [|e es IH]; intros reg; [done|].
  cbn [replaceCounter]. destruct (expr.is_Counter e) eqn:Ee; [by destruct e|].
  cbn [rule_typed]. destruct (expr_type reg e) as [reg'|]; [|done]. rewrite IH.
  destruct e; try done. destruct es as [|e' es]; [done|]. cbn [replaceCounter]. by destruct (expr.is_Counter e').
Qed.
End rule_types.

(** Type a rule given by its expressions. *)
Ltac type_expr :=
  first [ apply type_bitwise | apply type_markStore | apply type_counter | apply type_ct | apply type_lookup
        | apply type_metaLoad; reflexivity
        | apply type_cmp; first [reflexivity | apply length_PutUint32 | apply length_ifname]
        | apply type_payload; done ].
Ltac type_rule :=
  cbn [Rule_Exprs newRule matchAddr setMark checkMark app acceptAllRule subChainJump interfaceRule
       podInterfaceRule];
  repeat first [ apply typed_nil | apply typed_verdict | eapply typed_step; [type_expr|done|] ].

(** ** The operations of the state *)

(** What was written is typed, and the interface sets hold names. *)
Definition iface_set (s : option NftSet) : Prop := ∀ s', s = Some s' → Set_KeyType s' = TypeIFName.
Definition typed_inv {K} (n : nftState K) : Prop :=
  all_msgs typed_msg (nft n) ∧ iface_set (interfaceFilterSet n) ∧ iface_set (interfaceNatSet n).

(** The kernel lists sets without transaction ids. *)
Definition listsNoIDs (K : Type) `{Kernel K} : Prop :=
  ∀ t name k (s : NftSet) (k' : K), k_GetSetByName t name k = (Ok s, k') → Set_ID s = 0.

Section typed.
Context {K : Type} `{Kernel K} `{Gob}.
Hypothesis noIDs : listsNoIDs K.
Abbreviation T := (typed_inv (K:=K)).

Lemma typed_onNft {A} (m : ST (Conn K) A) : preserves (all_msgs typed_msg) m → preserves T (onNft m).
Proof.
  intros Hm n [Hn Hf]. unfold onNft, zoom. pose proof (Hm (nft n) Hn) as Hi.
  destruct (m (nft n)) as [r c]. by split.
Qed.
Lemma typed_set_maps fr fs fc : preserves T (modify (λ n, set_maps (fr n) (fs n) (fc n) n)).
Proof. intros n [Hn Hf]. by split. Qed.
Lemma typed_deref {A} (f : nftState K → option A) : preserves T (deref f).
Proof. intros n Hn. unfold deref. by destruct (f n). Qed.
Lemma typed_discard m : preserves T m → preserves T (discard m).
Proof. intros Hm. apply preserves_bind; [done|]. intros. apply preserves_ret. Qed.
Lemma typed_getFilter : preserves T getFilter.
Proof. by intros n. Qed.
Lemma typed_getNat : preserves T getNat.
Proof. by intros n. Qed.

Lemma typed_addChain c : preserves T (addChain c).
Proof.
  unfold addChain. cbv zeta. apply preserves_bind; [apply typed_onNft; unfold ListChain; writes_auto|]. intros r.
  apply preserves_bind; [|intros; apply preserves_bind; [apply typed_set_maps|intros; apply preserves_ret]].
  destruct r as [ex|e]; [apply preserves_ret|]. apply typed_onNft. unfold AddChain. writes_auto; done.
Qed.

Lemma typed_updateRule rule mk force :
  (mk = MNewRule ∨ mk = MInsertRule) → rule_typed None (Rule_Exprs rule) = true →
  preserves T (updateRule rule (writeRule mk) force).
Proof.
  intros Hmk Ht.
  assert (∀ r, rule_typed None (Rule_Exprs r) = true → preserves T (onNft (writeRule mk r))) as Hw.
  { intros r Hr. apply typed_onNft. unfold writeRule. writes_auto; [done|]. by destruct Hmk as [-> | ->]. }
  unfold updateRule, findRule. apply preserves_bind.
  { apply preserves_wrapST, preserves_bind; [|intros; apply preserves_ret]. apply preserves_wrapST, typed_onNft.
    unfold GetRules. writes_auto; done. }
  intros o. apply preserves_bind.
  - destruct o as [ex|]; [destruct force; cbn [negb]; [|apply preserves_ret]|].
    + apply preserves_bind; [apply preserves_wrapST, typed_onNft; unfold DelRule; writes_auto; done|].
      intros _. apply preserves_bind; [apply Hw; by rewrite typed_copyCounter|]. intros. apply preserves_ret.
    + apply preserves_bind; [by apply Hw|]. intros. apply preserves_ret.
  - intros p. apply preserves_bind; [apply preserves_wrapST, preserves_lift_result|]. intros key.
    apply preserves_bind; [apply typed_set_maps|]. intros. apply preserves_ret.
Qed.
Lemma typed_AddRule rule force :
  rule_typed None (Rule_Exprs rule) = true → preserves T (updateRule rule AddRule force).
Proof. apply typed_updateRule. by left. Qed.
Lemma typed_InsertRule rule force :
  rule_typed None (Rule_Exprs rule) = true → preserves T (updateRule rule InsertRule force).
Proof. apply typed_updateRule. by right. Qed.

Lemma GetSetByName_noID t name c s c' : GetSetByName t name c = (Ok s, c') → Set_ID s = 0.
Proof.
  unfold GetSetByName, mbind, ST_bind, read, zoom.
  destruct (k_GetSetByName t name (kern c)) as [[s0|e] k'] eqn:E; [|done]. intros [= <- _]. exact (noIDs _ _ _ _ _ E).
Qed.

Lemma typed_AddSet s els w :
  key_width (Set_KeyType s) = Some w → keys_of_width w els →
  triple (all_msgs typed_msg) (AddSet (K:=K) s els) (λ s', ∃ id, s' = set_Set_ID id s).
Proof. intros Hs Hw. apply triple_AddSet. intros id. split; simpl; eauto. Qed.

Lemma typed_elems s els w :
  Set_ID s = 0 → keys_of_width w els →
  preserves T (onNft (SetAddElements s els)).
Proof.
  intros Hs Hw. apply typed_onNft. eapply preserves_triple. apply triple_updateElems. simpl. exists w. naive_solver.
Qed.

(** [updateSet] returns the set it was asked for. *)
Lemma typed_updateSet set els w :
  key_width (Set_KeyType set) = Some w → keys_of_width w els →
  triple T (updateSet set els) (λ s, Set_KeyType s = Set_KeyType set).
Proof.
  intros Hs Hw. unfold updateSet. cbv zeta.
  apply (triple_bind _ _ _ _ (λ r, ∀ s, r = Ok s → Set_ID s = 0)).
  { intros n Hn. split; [apply typed_onNft; [unfold GetSetByName; writes_auto|done]|].
    intros r. unfold onNft, zoom, try. destruct (GetSetByName _ _ (nft n)) as [r' c] eqn:E. simpl.
    intros [= <-] s ->. by eapply GetSetByName_noID. }
  intros [ex|e] Hex.
  - specialize (Hex ex eq_refl). eapply triple_bind.
    { apply triple_preserves, preserves_try, typed_onNft. unfold GetSetElements. writes_auto; done. }
    intros [exEls|e] _; [|apply triple_throw]. cbv zeta.
    eapply triple_bind; [apply triple_preserves|intros _ _; eapply triple_bind; [apply triple_preserves|]].
    + case_match; [|apply preserves_ret]. apply preserves_wrapST, typed_onNft.
      unfold SetDeleteElements, updateElems, appendElemList. writes_auto; done.
    + case_match; [|apply preserves_ret]. eapply preserves_wrapST, typed_elems; [done|]. by apply keys_new.
    + intros _ _. eapply triple_bind; [apply triple_preserves, typed_set_maps|]. intros _ _. by apply triple_ret.
  - case_match; [apply triple_throw|]. eapply triple_bind.
    { apply triple_wrapST. intros n [Hn Hf]. unfold onNft, zoom.
      destruct (typed_AddSet (set_Set_Name (kernelName (Set_Name set)) set) els w Hs Hw (nft n) Hn) as [Hi HQ].
      destruct (AddSet _ _ (nft n)) as [r c]. split; [by split|exact HQ]. }
    intros s [id ->]. eapply triple_bind; [apply triple_preserves, typed_set_maps|]. intros _ _.
    by apply triple_ret.
Qed.

Lemma typed_updateSet' set els w :
  key_width (Set_KeyType set) = Some w → keys_of_width w els → preserves T (updateSet set els).
Proof. intros. by eapply preserves_triple, typed_updateSet. Qed.
End typed.

(** ** Addresses of pods *)

Section addresses.
Context `{LabelApi} `{MapOrder}.

(** Every address of the pod that parses is written plainly. *)
Definition plainPod (info : PodInfo) : Prop :=
  ∀ i a, i ∈ PI_Interfaces info → a ∈ IPs i → is_Some (ParseAddr a) → ∃ x, plainAddr a x.

Lemma splitAddrs_mem addrs p (b : bool) a :
  splitAddrs addrs = Ok p → a ∈ (if b then p.2 else p.1) →
  a ∈ addrs ∧ ∃ x, ParseAddr a = Some x ∧ Addr_is6 x = b.
Proof.
  revert p. induction addrs as [|c addrs IH]; intros p; cbn [splitAddrs].
  { intros [= <-]. by destruct b; intros ?%not_elem_of_nil. }
  destruct (ParseAddr c) as [y|] eqn:E; [|done].
  destruct (splitAddrs addrs) as [q|]; cbn [mbind result_bind]; [|done]. intros [= <-] Ha.
  specialize (IH q eq_refl). unfold Is6 in Ha. rewrite elem_of_cons.
  destruct (Addr_is6 y) eqn:Ey, b; cbn [fst snd] in Ha; rewrite ?elem_of_cons in Ha; naive_solver.
Qed.

(** Where the collected addresses come from. *)
Definition addrOf (deps : PolicyDeps) (info : PodInfo) (a : gostring) : Prop :=
  ∃ i, a ∈ IPs i ∧ (i ∈ PI_Interfaces info ∨ ∃ pod pi, GetPodInfo deps pod = Ok pi ∧ i ∈ PI_Interfaces pi).
Definition collected (Q : gostring → Prop) (acc : list gostring * gset gostring * nat) : Prop :=
  (∀ a, a ∈ acc.1.1 → Q a) ∧ (∀ a, a ∈ acc.1.2 → Q a).

Lemma collectPair_collected (Q : gostring → Prop) site n acc i j :
  (∀ a, a ∈ IPs i → Q a) → (∀ a, a ∈ IPs j → Q a) → collected Q acc → collected Q (collectPair site n acc i j).
Proof.
  intros Hi Hj. destruct acc as [[ips seen] round]. intros [H1' H2']. unfold collectPair. cbn [fst snd] in *.
  assert (∀ a, a ∈ seen ∪ list_to_set (IPs i) ∪ list_to_set (IPs j) → Q a) as Hs.
  { intros a. rewrite !elem_of_union, !elem_of_list_to_set. naive_solver. }
  split; cbn [fst snd]; [|exact Hs]. intros a. rewrite elem_of_app, range_keys_perm, elem_of_elements. naive_solver.
Qed.

Lemma foldl_collected {A} (Q : gostring → Prop) (f : list gostring * gset gostring * nat → A → _) l acc :
  (∀ acc x, x ∈ l → collected Q acc → collected Q (f acc x)) → collected Q acc → collected Q (foldl f acc l).
Proof.
  revert acc. induction l as [|x l IH]; intros acc Hf Ha; cbn [foldl]; [done|].
  apply IH; [intros; apply Hf; set_solver|]. apply Hf; set_solver.
Qed.

Lemma collectPod_collected (Q : gostring → Prop) site n nets info pi acc :
  (∀ i a, i ∈ PI_Interfaces info ∨ i ∈ PI_Interfaces pi → a ∈ IPs i → Q a) → collected Q acc →
  collected Q (collectPod site n nets info pi acc).
Proof.
  intros HQ. apply foldl_collected. intros acc' i Hi Ha. case_match; [done|].
  apply foldl_collected; [|done]. intros acc2 j Hj Ha2. case_match; [done|].
  apply collectPair_collected; eauto.
Qed.

Lemma selectorAddrs_from deps site peer info nets n addrs a :
  selectorAddrs deps site peer info nets n = Ok addrs → a ∈ addrs → addrOf deps info a.
Proof.
  unfold selectorAddrs. destruct (match Peer_PodSelector peer with Some _ => _ | None => _ end) as [sel|]; [|done].
  cbn [mbind result_bind]. destruct (wrap _ (ListPods deps sel)) as [pods|]; [|done]. cbn [mbind result_bind].
  destruct (match Peer_NamespaceSelector peer with Some _ => _ | None => _ end) as [ns|]; [|done].
  cbn [mbind result_bind]. unfold collectPods.
  match goal with |- context [foldR pods ?b ?f] => set (g := f); set (acc0 := b) end.
  assert (collected (addrOf deps info) acc0) as Hacc by (split; set_solver).
  clearbody acc0. revert acc0 Hacc.
  induction pods as [|pod pods IH]; intros acc0 Hacc; cbn [foldR mbind result_bind].
  { intros [= <-]. apply Hacc. }
  destruct (g acc0 pod) as [acc1|] eqn:E; cbn [mbind result_bind]; [|done]. apply IH.
  subst g. cbn in E. destruct (GetNamespaceInfo _ _); [|by simplify_eq].
  destruct (match ns with Some _ => _ | None => _ end); [by simplify_eq|].
  destruct (GetPodInfo deps pod) as [pi|e] eqn:Ep; [|by case_match; simplify_eq].
  injection E as <-. apply collectPod_collected; [|done]. intros i b [Hi|Hi] Hb; exists i; eauto 6.
Qed.

(** The addresses of the selected pods split into the two families. *)
Lemma selector_plain deps site peer info nets n addrs p (b : bool) a :
  plainPod info → (∀ pod pi, GetPodInfo deps pod = Ok pi → plainPod pi) →
  selectorAddrs deps site peer info nets n = Ok addrs → splitAddrs addrs = Ok p →
  a ∈ (if b then p.2 else p.1) → ∃ x, plainAddr a x ∧ Addr_is6 x = b.
Proof.
  intros Hi Hd Ha Hp Hin. destruct (splitAddrs_mem _ _ _ _ Hp Hin) as [Hm (x & Hx & <-)].
  destruct (selectorAddrs_from _ _ _ _ _ _ _ _ Ha Hm) as (j & Hj & [?|(pod & pi & ? & ?)]).
  - destruct (Hi j a) as [y Hy]; eauto. exists y. split; [done|]. destruct Hy. congruence.
  - destruct (Hd pod pi ltac:(done) j a) as [y Hy]; eauto. exists y. split; [done|]. destruct Hy. congruence.
Qed.
End addresses.

(** ** The generators *)

Section typed_rules.
Context {K : Type} `{Kernel K} `{Gob} `{Arch} `{LabelApi} `{MapOrder}.
Hypothesis noIDs : listsNoIDs K.
Abbreviation T := (typed_inv (K:=K)).

(** A computed value keeps its equation for what follows. *)
Lemma typed_lift {A B} (r : result A) (f : A → ST (nftState K) B) :
  (∀ a, r = Ok a → preserves T (f a)) → preserves T (lift_result r ≫= f).
Proof. intros Hf n Hn. unfold mbind, ST_bind, lift_result. destruct r as [a|]; [by apply Hf|done]. Qed.
Lemma typed_wrap_lift {A B} ctx (r : result A) (f : A → ST (nftState K) B) :
  (∀ a, r = Ok a → preserves T (f a)) → preserves T (wrapST ctx (lift_result r) ≫= f).
Proof. intros Hf n Hn. unfold mbind, ST_bind, wrapST, lift_result. destruct r as [a|]; [by apply Hf|done]. Qed.

Ltac typed_step :=
  lazymatch goal with
  | |- preserves _ (mret _) => apply preserves_ret
  | |- preserves _ (throw _) => apply preserves_throw
  | |- preserves _ get => apply preserves_get
  | |- preserves _ (try _) => apply preserves_try
  | |- preserves _ (lift_result _) => apply preserves_lift_result
  | |- preserves _ (wrapST _ (lift_result _) ≫= _) => apply typed_wrap_lift; intros
  | |- preserves _ (lift_result _ ≫= _) => apply typed_lift; intros
  | |- preserves _ (_ ≫= _) => apply preserves_bind; [|intros]
  | |- preserves _ (wrapST _ _) => apply preserves_wrapST
  | |- preserves _ (discard _) => apply typed_discard
  | |- preserves _ getFilter => apply typed_getFilter
  | |- preserves _ getNat => apply typed_getNat
  | |- preserves _ (deref _) => apply typed_deref
  | |- preserves _ (addChain _) => apply typed_addChain
  | |- preserves _ (updateRule _ AddRule _) => apply typed_AddRule; type_rule
  | |- preserves _ (updateRule _ InsertRule _) => apply typed_InsertRule; type_rule
  | |- preserves _ (forM _ _) => apply preserves_forM; intros
  | |- preserves _ (foldM _ _ _) => apply preserves_foldM; intros
  | |- preserves _ (if ?b then _ else _) => destruct b eqn:?
  end.
Ltac typed_auto := repeat typed_step.

Lemma typed_allowICMP c b : preserves T (allowICMP c b).
Proof. unfold allowICMP. cbv zeta. destruct b; typed_auto. Qed.
Lemma typed_allowNeighborDiscovery c : preserves T (allowNeighborDiscovery c).
Proof.
  unfold allowNeighborDiscovery. cbv zeta. typed_auto.
  eapply typed_updateSet'; [done|reflexivity|]. repeat constructor.
Qed.
Lemma typed_applyCommonPrefixFamily c f prefix b els :
  keys_of_width (addr_width b) els →
  preserves T (applyCommonPrefixFamily c (commonPrefixSet f prefix (Chain_Name c) b) b els).
Proof.
  intros He. unfold applyCommonPrefixFamily. destruct b; typed_auto; by eapply typed_updateSet'.
Qed.
Lemma typed_applyCommonPrefixRules c ps prefix : preserves T (applyCommonPrefixRules c ps prefix).
Proof.
  unfold applyCommonPrefixRules. typed_auto;
    match goal with Hp : getPrefixesAsSetInterval _ = Ok _ |- _ => apply prefixes_keys in Hp as [] end;
    by apply typed_applyCommonPrefixFamily.
Qed.
Lemma typed_allowConntracked c : preserves T (allowConntracked c).
Proof. unfold allowConntracked. typed_auto. Qed.
Lemma typed_applyCommonChainRules cfg : preserves T (applyCommonChainRules cfg).
Proof.
  unfold applyCommonChainRules. typed_auto;
    auto using typed_allowICMP, typed_allowNeighborDiscovery, typed_applyCommonPrefixRules, typed_allowConntracked.
Qed.

Lemma typed_applyPodInterfaceRules c pc pol i : preserves T (applyPodInterfaceRules c pc pol i).
Proof.
  unfold applyPodInterfaceRules, podInterfaceRule, getMetaKeyInterface.
  destruct (isIngressChain (Chain_Name c)); typed_auto.
Qed.
Lemma typed_applyGeneralMarkCheck c pol : preserves T (applyGeneralMarkCheck c pol).
Proof. unfold applyGeneralMarkCheck. typed_auto. Qed.
Lemma typed_applyMarkReset nm c pn i : preserves T (applyMarkReset nm c pn i).
Proof. unfold applyMarkReset. typed_auto. Qed.
Lemma typed_applyMarkCheck nm c pn i : preserves T (applyMarkCheck nm c pn i).
Proof. unfold applyMarkCheck. typed_auto. Qed.
Lemma typed_applyDropRemaining c b : preserves T (applyDropRemaining c b).
Proof. unfold applyDropRemaining. typed_auto. Qed.

Lemma typed_applyPrefixes nm c pn cidr i ps es b :
  keys_of_width (addr_width b) ps → keys_of_width (addr_width b) es →
  preserves T (applyPrefixes nm c pn cidr i ps es b).
Proof.
  intros. unfold applyPrefixes. cbv zeta. destruct b; typed_auto; by eapply typed_updateSet'.
Qed.
Lemma typed_IPBlock nm c pn block i : preserves T (applyPolicyPeersRulesIPBlock nm c pn block i).
Proof.
  unfold applyPolicyPeersRulesIPBlock. typed_auto;
    repeat match goal with Hp : getPrefixesAsSetInterval _ = Ok _ |- _ => apply prefixes_keys in Hp as [] end;
    by apply typed_applyPrefixes.
Qed.

Lemma typed_addIPRule nm addrs c pn peer i b :
  (∀ a, a ∈ addrs → ∃ x, plainAddr a x ∧ Addr_is6 x = b) → preserves T (addIPRule nm addrs c pn peer i).
Proof.
  intros Hp. unfold addIPRule. destruct addrs as [|a0 addrs]; [apply preserves_ret|]. cbv zeta.
  destruct (Hp a0) as (x & [_ ->]%plainAddr_key & ->); [by left|].
  assert (keys_of_width (addr_width b) ((λ a, keyElem (addrKey a)) <$> a0 :: addrs)) as Hk.
  { apply Forall_fmap, Forall_forall. intros a Ha. destruct (Hp a Ha) as (y & [Hy _]%plainAddr_key & <-).
    simpl. by rewrite Hy, length_AsSlice. }
  destruct b; typed_auto; by eapply typed_updateSet'.
Qed.

Lemma typed_Selector deps nm c pn peer info nets i :
  plainPod info → (∀ pod pi, GetPodInfo deps pod = Ok pi → plainPod pi) →
  preserves T (applyPolicyPeersRulesSelector deps nm c pn peer info nets i).
Proof.
  intros Hi Hd. unfold applyPolicyPeersRulesSelector. apply typed_lift. intros addrs Ha.
  unfold addIPRules. typed_auto.
  - eapply (typed_addIPRule _ _ _ _ _ _ false). intros a' Ha'. by eapply (selector_plain _ _ _ _ _ _ _ _ false).
  - eapply (typed_addIPRule _ _ _ _ _ _ true). intros a' Ha'. by eapply (selector_plain _ _ _ _ _ _ _ _ true).
Qed.

Lemma typed_applyPolicyPeersRules deps nm c pn peers info nets i :
  plainPod info → (∀ pod pi, GetPodInfo deps pod = Ok pi → plainPod pi) →
  preserves T (applyPolicyPeersRules deps nm c pn peers info nets i).
Proof.
  intros. unfold applyPolicyPeersRules. cbv zeta. typed_auto.
  match goal with x : (nat * MultiNetworkPolicyPeer)%type |- _ => destruct x as [index peer] end.
  repeat case_match; typed_auto; first [apply typed_IPBlock | by apply typed_Selector].
Qed.

Lemma typed_applyProtocol c pc nm pn proto els :
  keys_of_width 2 els → preserves T (applyProtocol c pc nm pn proto els).
Proof.
  intros. unfold applyProtocol, applyProtoPortsRules, getProtocolInfo.
  repeat case_match; simplify_eq; typed_auto; by eapply typed_updateSet'.
Qed.
Lemma typed_applyPolicyPortsRules nm c pn ports i : preserves T (applyPolicyPortsRules nm c pn ports i).
Proof.
  unfold applyPolicyPortsRules. cbv zeta. typed_auto;
    match goal with Hp : collectPorts _ _ = Ok _ |- _ =>
      apply collectPorts_keys in Hp as (? & ? & ?); [by apply typed_applyProtocol|] end;
    repeat split; constructor.
Qed.

Lemma typed_applyPolicyRule deps nm c rn pn info nets i rule :
  plainPod info → (∀ pod pi, GetPodInfo deps pod = Ok pi → plainPod pi) →
  preserves T (applyPolicyRule deps nm c rn pn info nets i rule).
Proof.
  intros. unfold applyPolicyRule. typed_auto;
    auto using typed_applyMarkReset, typed_applyPolicyPortsRules, typed_applyPolicyPeersRules, typed_applyMarkCheck.
Qed.
Lemma typed_applyPodRules deps c info pol nets :
  plainPod info → (∀ pod pi, GetPodInfo deps pod = Ok pi → plainPod pi) →
  preserves T (applyPodRules deps c info pol nets).
Proof.
  intros. unfold applyPodRules. cbv zeta.
  typed_auto; auto using typed_applyPodInterfaceRules;
    match goal with x : (nat * _)%type |- _ => destruct x end; by apply typed_applyPolicyRule.
Qed.
Lemma typed_applyDirection deps f info ps :
  plainPod info → (∀ pod pi, GetPodInfo deps pod = Ok pi → plainPod pi) →
  preserves T (applyDirection deps f info ps).
Proof.
  intros. unfold applyDirection.
  typed_auto; auto using typed_applyPodRules, typed_applyGeneralMarkCheck, typed_applyDropRemaining.
Qed.

(** *** Bootstrap and cleanup *)

Lemma typed_chains (f : nftState K → nftState K) :
  (∀ n, nft (f n) = nft n ∧ interfaceFilterSet (f n) = interfaceFilterSet n ∧
        interfaceNatSet (f n) = interfaceNatSet n) → preserves T (modify f).
Proof. intros Hf n (? & ? & ?). destruct (Hf n) as (E1 & E2 & E3). unfold typed_inv. simpl. by rewrite E1, E2, E3. Qed.

Lemma typed_bootstrapNetfilterChains : preserves T bootstrapNetfilterChains.
Proof. unfold bootstrapNetfilterChains. typed_auto; by apply typed_chains. Qed.

Lemma typed_bootstrapBaseRules info : preserves T (bootstrapBaseRules info).
Proof.
  apply (preserves_triple _ _ (λ _, True)). unfold bootstrapBaseRules. cbv zeta.
  assert (∀ s : NftSet, Set_KeyType s = TypeIFName →
    triple T (updateSet s (interfaceElements (PI_Interfaces info))) (λ s', Set_KeyType s' = TypeIFName)) as Hup.
  { intros s Hs. eapply triple_weaken; [eapply typed_updateSet; [done|by rewrite Hs|apply interface_keys]|].
    by intros s' ->. }
  assert (∀ f : nftState K → option NftSet, (∀ n, T n → iface_set (f n)) →
    triple T (deref f) (λ s, Set_KeyType s = TypeIFName)) as Hderef.
  { intros f Hf n Hn. split; [by apply typed_deref|]. unfold deref. specialize (Hf n Hn).
    destruct (f n); [|done]. intros ? [= <-]. by apply Hf. }
  assert (∀ f g : nftState K → option NftSet, (∀ n, T n → iface_set (f n)) → (∀ n, T n → iface_set (g n)) →
    triple T (modify (λ n, set_interfaceSets (f n) (g n) n)) (λ _, True)) as Hset.
  { intros f g Hf Hg n Hn. split; [|done]. pose proof (Hf n Hn). pose proof (Hg n Hn). by destruct Hn as (? & _). }
  eapply triple_bind; [apply triple_preserves, typed_getFilter|]. intros f _.
  eapply triple_bind; [apply triple_preserves, typed_getNat|]. intros nt _.
  eapply triple_bind; [apply Hset; by intros ? ? ? [= <-]|]. intros _ _.
  eapply triple_bind; [apply Hderef; by intros n (?&?&?)|]. intros fs Hfs.
  eapply triple_bind; [by apply triple_wrapST, Hup|]. intros fs' Hfs'.
  eapply triple_bind; [apply Hset; [by intros ? ? ? [= <-]|by intros n (?&?&?)]|]. intros _ _.
  eapply triple_bind; [apply triple_preserves, typed_deref|]. intros i _.
  eapply triple_bind; [apply triple_preserves, typed_deref|]. intros ic _.
  eapply triple_bind; [apply triple_preserves; typed_auto|]. intros _ _.
  eapply triple_bind; [apply triple_preserves, typed_deref|]. intros o _.
  eapply triple_bind; [apply triple_preserves, typed_deref|]. intros ec _.
  eapply triple_bind; [apply triple_preserves; typed_auto|]. intros _ _.
  eapply triple_bind; [apply Hderef; by intros n (?&?&?)|]. intros ns Hns.
  eapply triple_bind; [by apply triple_wrapST, Hup|]. intros ns' Hns'.
  eapply triple_bind; [apply Hset; [by intros n (?&?&?)|by intros ? ? ? [= <-]]|]. intros _ _.
  apply triple_preserves. typed_auto.
Qed.

(** The cleanup reads, deletes and flushes. *)
Ltac typed_deletions :=
  typed_auto; try case_match; typed_auto; apply typed_onNft;
  unfold ListChainsOfTableFamily, GetRules, GetSets, DelRule, DelSet, DelChain; writes_auto; done.

Lemma typed_cleanupRules t : preserves T (cleanupRules t).
Proof. unfold cleanupRules, cleanupChainRules, cleanupRule, cleanupSet. typed_deletions. Qed.
Lemma typed_cleanupChains : preserves T cleanupChains.
Proof. unfold cleanupChains, cleanupChain. typed_deletions. Qed.
Lemma typed_cleanup : preserves T cleanup.
Proof.
  intros n Hn. unfold cleanup. cbv zeta.
  assert (preserves T (wrapST "failed to cleanup filter table" (cleanupRules (filterT n)) ≫= λ _,
    wrapST "failed to cleanup nat table" (cleanupRules (natT n)) ≫= λ _,
    wrapST "failed to cleanup chains" cleanupChains)) as Hb.
  { typed_auto; auto using typed_cleanupRules, typed_cleanupChains. }
  specialize (Hb n Hn). revert Hb. by match goal with |- context [let '(_, _) := ?x in _] => destruct x end.
Qed.
End typed_rules.

(** ** A whole sync *)

Section sync.
Context {K : Type} `{LawfulKernel K} `{Gob} `{Arch} `{LabelApi} `{MapOrder}.
Hypothesis noIDs : listsNoIDs K.
Abbreviation Typed := (λ n : nftState K, all_msgs typed_msg (nft n)).

Lemma legacy_typed m : legacy_delete m → typed_msg m.
Proof. intros [Hm _]. by destruct m. Qed.

Lemma typed_bootstrapTables (n : nftState K) :
  Typed n →
  match bootstrapTables n with
  | (Ok _, n') => typed_inv n'
  | (Err _, n') => Typed n'
  end.
Proof.
  assert (∀ t, preserves Typed (wrapST "failed to add table" (onNft (addTable (K:=K) t)))) as Hadd.
  { intros t. apply preserves_wrapST. intros n' Hn'. unfold onNft, zoom.
    assert (preserves (all_msgs typed_msg) (addTable (K:=K) t)) as Ha.
    { unfold addTable, ListTableOfFamily, AddTable. writes_auto; done. }
    specialize (Ha _ Hn'). by destruct (addTable t (nft n')). }
  intros Hn. unfold bootstrapTables, mbind, ST_bind.
  pose proof (Hadd (mkTable FilterTableName TableFamilyINet) n Hn) as Hn1.
  destruct (wrapST _ _ n) as [[f|e] n1]; [|done].
  pose proof (Hadd (mkTable NatTableName TableFamilyINet) n1 Hn1) as Hn2.
  destruct (wrapST _ _ n1) as [[nt|e] n2]; [|done]. by split.
Qed.

Lemma plainPod_sort info : plainPod info → plainPod (sortInterfaces info).
Proof. intros Hi i a. unfold sortInterfaces. cbn [PI_Interfaces]. rewrite (SortStable_perm InterfaceName). apply Hi. Qed.

Lemma typed_bootstrap info (n : nftState K) :
  messages (nft n) = [] → sent (nft n) = [] →
  match bootstrapNetfilterRules info n with
  | (Ok i, n') => i = sortInterfaces info ∧ typed_inv n'
  | (Err _, n') => Typed n'
  end.
Proof.
  intros Hm Hs. unfold bootstrapNetfilterRules. destruct (len (PI_Interfaces info) =? 0).
  { unfold throw. split; rewrite ?Hm, ?Hs; constructor. }
  pose proof (legacy_all_msgs typed_msg n legacy_typed Hm Hs) as Hl. unfold mbind at 1, ST_bind at 1.
  destruct (onNft CleanupLegacyTables n) as [[u|e] n1]; [|done]. simpl in Hl.
  pose proof (typed_bootstrapTables n1 Hl) as Ht. unfold mbind at 1, ST_bind at 1.
  destruct (bootstrapTables n1) as [[u'|e] n2]; [|done]. cbv zeta.
  unfold mbind at 1, ST_bind at 1. pose proof (typed_bootstrapNetfilterChains n2 Ht) as Hc.
  destruct (bootstrapNetfilterChains n2) as [[u''|e] n3]; [|apply Hc]. simpl in Hc.
  unfold mbind at 1, ST_bind at 1. pose proof (typed_bootstrapBaseRules noIDs (sortInterfaces info) n3 Hc) as Hb.
  destruct (bootstrapBaseRules _ n3) as [[u3|e] n4]; [done|apply Hb].
Qed.

(** C15: Every message of a sync, failing or not and whatever the policies and the
    namespace are, is well typed: a rule reads its register only after it was
    loaded and at the width it was loaded with, and ends in its verdict; a set
    has one of the key types in use, and the elements sent for a set have keys
    of one width, that of the key type when the sync made the set. The
    addresses of the pods must be written plainly: an IPv4 address in IPv6
    notation, or one with a zone, is a key of another width. *)
Theorem sync_messages_typed deps cfg policies pod podInfo (n : nftState K) :
  plainPod podInfo → (∀ pod pi, GetPodInfo deps pod = Ok pi → plainPod pi) →
  messages (nft n) = [] → sent (nft n) = [] →
  let n' := (ApplyPolicyRulesForPodAndFamily deps cfg policies pod podInfo n).2 in
  Forall typed_msg (concat (sent (nft n')) ++ messages (nft n')).
Proof.
  intros Hi Hd Hm Hs. cbv zeta.
  enough (Typed (ApplyPolicyRulesForPodAndFamily deps cfg policies pod podInfo n).2) as [Hb1 Hb2].
  { apply Forall_app. split; [by apply Forall_concat|done]. }
  unfold ApplyPolicyRulesForPodAndFamily. apply bind_final. unfold wrapST at 1.
  pose proof (typed_bootstrap podInfo n Hm Hs) as Hb.
  destruct (bootstrapNetfilterRules podInfo n) as [[info|e] n1]; simpl; [|done]. destruct Hb as [-> Hb].
  apply plainPod_sort in Hi. set (info := sortInterfaces podInfo) in *.
  enough (preserves typed_inv (wrapST (forPod "failed to apply common chain rules" pod) (applyCommonChainRules cfg) ≫= λ _,
    applyDirection deps ingressC info (selectedPolicies ingressEnabled pod info policies) ≫= λ _,
    applyDirection deps egressC info (selectedPolicies egressEnabled pod info policies) ≫= λ _,
    wrapST (forPod "nft flush failed" pod) (onNft Flush) ≫= λ _,
    wrapST "failed to cleanup nft" cleanup)) as Hp by (destruct (Hp n1 Hb); assumption).
  repeat (apply preserves_bind; [|intros _]); try apply preserves_wrapST;
    auto using typed_applyCommonChainRules, typed_applyDirection, typed_cleanup.
  apply typed_onNft. writes_auto.
Qed.
End sync.

(** Why the addresses must be plain: an IPv4 address in IPv6 notation goes to
    the IPv6 set with a key of four bytes. *)
Lemma mapped_address_key :
  splitAddrs [str "::ffff:10.0.0.1"; str "fd00::1"] = Ok ([], [str "::ffff:10.0.0.1"; str "fd00::1"]) ∧
  (λ a, length (addrKey a)) <$> [str "::ffff:10.0.0.1"; str "fd00::1"] = [4%nat; 16%nat].
Proof. split; vm_compute; reflexivity. Qed.
