(* ===== verification/Settled.v ===== *)
(** * A namespace that holds what is wanted

    A reconcile runs every few seconds and mostly finds its work done. Here:
    when the daemon's tables hold exactly what a list of messages asks for, and
    a check that decides it. *)

From S2P Require Import Prelude GoStd Names Nft Netip Api Elements Conn RefKernel NfTables State Legacy Rules Cleanup Server Fresh Meaning Typing.

(** ** Holding what was written *)

(** A rule as a dump shows it: a set is looked up by its name. *)
Definition dumpRule (r : Rule) : Rule := set_Rule_Exprs (dumpExpr <$> Rule_Exprs r) r.

Definition sameKeys (a b : list SetElement) : Prop := ∀ key, key ∈ Key <$> a ↔ key ∈ Key <$> b.

Section stored.
Context {K : Type} `{Kernel K}.
Implicit Types k : K.

(** The object a message makes is there. *)
Definition stored k (m : msg) : Prop :=
  match m with
  | MNewTable t => (k_ListTableOfFamily (Table_Name t) (Table_Family t) k).1 = Ok t
  | MNewChain c => (k_ListChain (Chain_Table c) (Chain_Name c) k).1 = Ok c
  | MNewRule r | MInsertRule r =>
    ∃ rs ex, rulesAt k (Rule_Table r) (Chain_Name (Rule_Chain r)) = Ok rs ∧
             List.find (ruleEqual (dumpRule r)) rs = Some ex
  | MNewSet s => is_ok (k_GetSetByName (Set_Table s) (Set_Name s) k).1 = true
  | MNewSetElem s els =>
    ∃ ex exEls, (k_GetSetByName (Set_Table s) (Set_Name s) k).1 = Ok ex ∧ Set_Anonymous ex = false ∧
      (k_GetSetElements (in_table (Set_Table s) ex) k).1 = Ok exEls ∧ sameKeys els exEls
  | _ => False
  end.

(** The messages [ms] wrote a chain, a set, a rule like this one. *)
Definition wroteChain (ms : list msg) (c : Chain) : Prop := ∃ c', MNewChain c' ∈ ms ∧ chainID c' = chainID c.
Definition wroteSet (ms : list msg) (t : Table) (s : NftSet) : Prop :=
  ∃ s', MNewSet s' ∈ ms ∧ Table_Name (Set_Table s') = Table_Name t ∧ Set_Name s' = Set_Name s.
Definition wroteRule (ms : list msg) (r : Rule) : Prop :=
  ∃ r', (MNewRule r' ∈ ms ∨ MInsertRule r' ∈ ms) ∧ Rule_Table r' = Rule_Table r ∧
        ruleEqual (dumpRule r') r = true.

Definition inetTable (name : gostring) : Table := mkTable name TableFamilyINet.
Definition ownTables : list Table := [inetTable FilterTableName; inetTable NatTableName].

(** The two tables hold what [ms] makes and nothing else, nobody changes them,
    and no older version left anything behind. *)
Record settled k (ms : list msg) : Prop := {
  settled_quiet : quiet k;
  settled_legacy : CleanupLegacyTables (newConn k) = (Ok tt, newConn k);
  settled_stored : Forall (stored k) ms;
  settled_chains : ∃ chs, (k_ListChainsOfTableFamily TableFamilyINet k).1 = Ok chs ∧
    ∀ c, c ∈ chs → own_chain c →
      Chain_Table c ∈ ownTables ∧ wroteChain ms c ∧
      ∃ rs, rulesAt k (Chain_Table c) (Chain_Name c) = Ok rs ∧ Forall (wroteRule ms) rs;
  settled_sets t : t ∈ ownTables → ∃ ss, (k_GetSets t k).1 = Ok ss ∧
    Forall (λ s, Set_Anonymous s = false → wroteSet ms t s) ss }.

(** *** Deciding it *)

Definition sameKeysb (a b : list SetElement) : bool :=
  forallb (λ e, bool_decide (Key e ∈ Key <$> b)) a && forallb (λ e, bool_decide (Key e ∈ Key <$> a)) b.

Definition storedb k (m : msg) : bool :=
  match m with
  | MNewTable t => match (k_ListTableOfFamily (Table_Name t) (Table_Family t) k).1 with
                   | Ok t' => bool_decide (t' = t) | Err _ => false end
  | MNewChain c => match (k_ListChain (Chain_Table c) (Chain_Name c) k).1 with
                   | Ok c' => bool_decide (c' = c) | Err _ => false end
  | MNewRule r | MInsertRule r =>
    match rulesAt k (Rule_Table r) (Chain_Name (Rule_Chain r)) with
    | Ok rs => existsb (ruleEqual (dumpRule r)) rs | Err _ => false end
  | MNewSet s => is_ok (k_GetSetByName (Set_Table s) (Set_Name s) k).1
  | MNewSetElem s els =>
    match (k_GetSetByName (Set_Table s) (Set_Name s) k).1 with
    | Ok ex => negb (Set_Anonymous ex) &&
      match (k_GetSetElements (in_table (Set_Table s) ex) k).1 with
      | Ok exEls => sameKeysb els exEls | Err _ => false end
    | Err _ => false end
  | _ => false
  end.

Definition wroteRuleb (ms : list msg) (r : Rule) : bool :=
  existsb (λ m, match m with
                | MNewRule r' | MInsertRule r' =>
                  bool_decide (Rule_Table r' = Rule_Table r) && ruleEqual (dumpRule r') r
                | _ => false end) ms.
Definition wroteChainb (ms : list msg) (c : Chain) : bool :=
  existsb (λ m, match m with MNewChain c' => bool_decide (chainID c' = chainID c) | _ => false end) ms.
Definition wroteSetb (ms : list msg) (t : Table) (s : NftSet) : bool :=
  existsb (λ m, match m with
                | MNewSet s' => bool_decide (Table_Name (Set_Table s') = Table_Name t ∧ Set_Name s' = Set_Name s)
                | _ => false end) ms.

Definition ownChainb (c : Chain) : bool :=
  bool_decide (Table_Name (Chain_Table c) = FilterTableName ∨ Table_Name (Chain_Table c) = NatTableName).
Definition settledb k (ms : list msg) : bool :=
  forallb (storedb k) ms &&
  match (k_ListChainsOfTableFamily TableFamilyINet k).1 with
  | Ok chs => forallb (λ c, negb (ownChainb c) ||
      bool_decide (Chain_Table c ∈ ownTables) && wroteChainb ms c &&
      match rulesAt k (Chain_Table c) (Chain_Name c) with
      | Ok rs => forallb (wroteRuleb ms) rs | Err _ => false end) chs
  | Err _ => false end &&
  forallb (λ t, match (k_GetSets t k).1 with
                | Ok ss => forallb (λ s, Set_Anonymous s || wroteSetb ms t s) ss
                | Err _ => false end) ownTables.

Lemma forallb_elem {A} (f : A → bool) l : forallb f l = true ↔ ∀ x, x ∈ l → f x = true.
Proof. rewrite forallb_forall. by setoid_rewrite list_elem_of_In. Qed.
Lemma existsb_elem {A} (f : A → bool) l : existsb f l = true ↔ ∃ x, x ∈ l ∧ f x = true.
Proof. rewrite existsb_exists. by setoid_rewrite list_elem_of_In. Qed.

Lemma sameKeysb_sound a b : sameKeysb a b = true → sameKeys a b.
Proof.
  unfold sameKeysb. rewrite andb_true_iff, !forallb_elem. intros [Ha Hb] key. rewrite !list_elem_of_fmap.
  split; intros (e & -> & He); [apply Ha in He|apply Hb in He];
    apply bool_decide_eq_true, list_elem_of_fmap in He; done.
Qed.

Lemma storedb_sound k m : storedb k m = true → stored k m.
Proof.
  assert (∀ r, match rulesAt k (Rule_Table r) (Chain_Name (Rule_Chain r)) with
               | Ok rs => existsb (ruleEqual (dumpRule r)) rs | Err _ => false end = true →
    ∃ rs ex, rulesAt k (Rule_Table r) (Chain_Name (Rule_Chain r)) = Ok rs ∧
             List.find (ruleEqual (dumpRule r)) rs = Some ex) as Hrule.
  { intros r. destruct (rulesAt _ _ _) as [rs|]; [|done]. intros (x & Hx & Hr)%existsb_exists.
    exists rs. destruct (List.find _ rs) as [ex|] eqn:E; [by exists ex|].
    apply (find_none _ _ E) in Hx. congruence. }
  destruct m as [t| |c| |r|r| | |s| |s els|]; cbn; try done; try apply Hrule.
  - destruct (_.1) as [t'|]; [|done]. by intros ->%bool_decide_eq_true.
  - destruct (_.1) as [c'|]; [|done]. by intros ->%bool_decide_eq_true.
  - destruct (k_GetSetByName _ _ k).1 as [ex|]; [|done]. intros [Ha Hel]%andb_true_iff.
    destruct (k_GetSetElements _ k).1 as [exEls|] eqn:E; [|done]. exists ex, exEls.
    split_and!; [done|by apply negb_true_iff|done|by apply sameKeysb_sound].
Qed.

Lemma wroteRuleb_sound ms r : wroteRuleb ms r = true → wroteRule ms r.
Proof.
  intros (m & Hm & Hr)%existsb_elem.
  destruct m; try done; apply andb_true_iff in Hr as [HT%bool_decide_eq_true He]; eexists; split; eauto.
Qed.

Lemma settledb_sound k ms :
  quiet k → CleanupLegacyTables (newConn k) = (Ok tt, newConn k) → settledb k ms = true → settled k ms.
Proof.
  intros Hq Hl. unfold settledb. rewrite !andb_true_iff, !forallb_elem. intros [[Hst Hch] Hset]. split; try done.
  - apply Forall_forall. intros m Hm. by apply storedb_sound, Hst.
  - destruct (_.1) as [chs|]; [|done]. exists chs. split; [done|]. intros c Hc Ho.
    rewrite forallb_elem in Hch. specialize (Hch c Hc). unfold ownChainb in Hch.
    rewrite (bool_decide_eq_true_2 _ Ho) in Hch. cbn in Hch.
    apply andb_true_iff in Hch as [[Ht%bool_decide_eq_true Hw]%andb_true_iff Hr]. split_and!; [done| |].
    + apply existsb_elem in Hw as (m & Hm & Hw). destruct m; try done. apply bool_decide_eq_true in Hw. by eexists.
    + destruct (rulesAt _ _ _) as [rs|]; [|done]. exists rs. split; [done|]. apply Forall_forall.
      intros r Hin. rewrite forallb_elem in Hr. by apply wroteRuleb_sound, Hr.
  - intros t Ht. specialize (Hset t Ht). destruct (k_GetSets t k).1 as [ss|]; [|done]. exists ss. split; [done|].
    apply Forall_forall. intros s Hs Ha. rewrite forallb_elem in Hset. specialize (Hset s Hs). rewrite Ha in Hset.
    apply existsb_elem in Hset as (m & Hm & Hw). destruct m; try done. apply bool_decide_eq_true in Hw as [? ?].
    by eexists.
Qed.
End stored.

(** ** Facts on names and elements *)

Lemma kernelName_idem x : kernelName (kernelName x) = kernelName x.
Proof.
  unfold kernelName at 2 3. destruct (31 <? len x) eqn:E; unfold kernelName; [|by rewrite E].
  pose proof (length_hash_string x). destruct (31 <? len (hash_string x)) eqn:E'; [|done].
  apply Z.ltb_lt in E'. unfold len in E'. lia.
Qed.

Lemma processElements_same new existing : sameKeys new existing → processElements new existing = ([], []).
Proof.
  intros Hs. unfold processElements. f_equal.
  all: apply elem_of_nil_inv; intros x [Hx Hn]%elem_of_findNonCommon; apply Hn, Hs, list_elem_of_fmap; eauto.
Qed.

Lemma filter_none {A} (p : A → bool) l : (∀ x, x ∈ l → p x = false) → List.filter p l = [].
Proof. induction l as [|x l IH]; intros Hp; cbn; [done|]. rewrite Hp by set_solver. apply IH. set_solver. Qed.

Lemma own_ownTable t : t ∈ ownTables → own_table t.
Proof. unfold ownTables. rewrite !elem_of_cons, elem_of_nil. intros [->|[->|[]]]; [by left|by right]. Qed.
Lemma own_ownTables c : own_chain c ↔ Table_Name (Chain_Table c) ∈ Table_Name <$> ownTables.
Proof. unfold own_chain, own_table. cbn. rewrite !elem_of_cons, elem_of_nil. naive_solver. Qed.

Lemma ownTables_name a b : a ∈ ownTables → b ∈ ownTables → Table_Name a = Table_Name b → a = b.
Proof. unfold ownTables. rewrite !elem_of_cons, !elem_of_nil. intros [->|[->|[]]] [->|[->|[]]]; try done; intros E; by vm_compute in E. Qed.
