(* ===== verification/Lockstep.v ===== *)
(** * Two runs in step

    A sync of an empty namespace writes everything that is wanted. What a sync
    of another namespace does is shown by running the generators in the two
    namespaces at once and relating each step of the two runs: a relational
    program logic with one rule for each construct of the generators. The
    logic and the proofs about the generators are stated against an
    interface, [RunRel], which says what a relation of the states of the two
    runs must be preserved by. *)

From S2P Require Import Prelude GoStd Names Nft Netip Api Elements Conn RefKernel NfTables State Legacy Rules Cleanup Server Fresh Semantics Meaning Typing Settled.

(** ** The interface *)

(** The first run only buffers messages. *)
Definition grows {A} (mA : ST (nftState RK) A) : Prop :=
  ∀ n a n', kern (nft n) = emptyRK → mA n = (Ok a, n') →
  kern (nft n') = emptyRK ∧ messages (nft n) `prefix_of` messages (nft n').

(** The two programs in step, for a relation [sim] of their states: when the
    first succeeds and wrote no more than [upto] allows, the second succeeds. *)
Definition steps {K A A'} (sim : nftState RK → nftState K → Prop) (upto : list msg → Prop)
    (mA : ST (nftState RK) A) (mB : ST (nftState K) A') (R : A → A' → Prop) : Prop :=
  grows mA ∧
  ∀ nA nB a nA', sim nA nB → mA nA = (Ok a, nA') → upto (messages (nft nA')) →
  ∃ b nB', mB nB = (Ok b, nB') ∧ R a b ∧ sim nA' nB'.

(** An assignment to chain and set fields only. *)
Definition keeps {K} (n n' : nftState K) : Prop :=
  nft n' = nft n ∧ filterT n' = filterT n ∧ natT n' = natT n ∧
  rules n' = rules n ∧ sets n' = sets n ∧ chains n' = chains n.

(** The same set, but for its transaction id. *)
Definition eqSet (id_ok : Z → Prop) (a b : NftSet) : Prop := ∃ i, id_ok i ∧ b = set_Set_ID i a.

(** The same elements, in any order. *)
Definition sameElems (a b : list SetElement) : Prop := ∀ e, e ∈ a ↔ e ∈ b.
Lemma sameElems_keys a b : sameElems a b → sameKeys a b.
Proof. intros Hab key. rewrite !list_elem_of_fmap. apply exist_proper. intros e. specialize (Hab e). naive_solver. Qed.

(** Rules that a dump shows alike, made of expressions [exprEqual] knows. *)
Definition exprOk (id_ok : Z → Prop) (e : expr.Any) : Prop :=
  match e with expr.Lookup _ _ _ i _ _ => id_ok i | expr.Other _ => False | _ => True end.
Definition eqRule (id_ok : Z → Prop) (a b : Rule) : Prop :=
  dumpRule a = dumpRule b ∧ Forall (exprOk id_ok) (Rule_Exprs b).

(** A rule that looks up a set. *)
Definition looksUp (r : Rule) : bool := existsb isLookup (Rule_Exprs r).
Definition lookMsg (m : msg) : bool := match m with MNewRule r | MInsertRule r => looksUp r | _ => false end.

Lemma dump_twice (l : list expr.Any) : dumpExpr <$> (dumpExpr <$> l) = dumpExpr <$> l.
Proof. induction l as [|e l IH]; cbn; [done|]. rewrite IH. by destruct e. Qed.
Lemma looksUp_dump r : looksUp (dumpRule r) = looksUp r.
Proof.
  unfold looksUp. cbn. induction (Rule_Exprs r) as [|e es IH]; [done|]. cbn. rewrite IH. by destruct e.
Qed.
Lemma looksUp_fixed r : looksUp r = false → dumpRule r = r.
Proof.
  unfold looksUp, dumpRule. destruct r as [t c h i es u]. cbn. intros He. unfold set_Rule_Exprs. cbn. f_equal.
  induction es as [|e es IH]; [done|]. cbn in *. apply orb_false_iff in He as [He1 He2]. rewrite IH by done.
  by destruct e.
Qed.

(** The states of the two runs, the first always in the empty namespace; how
    much the first may write; the transaction ids that sets may have in the
    second, and the values [updateRule] may return there for a rule that looks
    up no set; and what the relation must be preserved by. *)
Record RunRel (K : Type) `{Kernel K} `{Gob} := mkRunRel {
  sim : nftState RK → nftState K → Prop;
  upto : list msg → Prop;
  id_ok : Z → Prop;
  flag_ok : bool → Prop;
  sim_empty nA nB : sim nA nB → kern (nft nA) = emptyRK;
  sim_filter nA nB : sim nA nB → filterT nA = filterT nB;
  sim_nat nA nB : sim nA nB → natT nA = natT nB;
  sim_chains nA nB : sim nA nB → chainFields nA = chainFields nB;
  sim_fset nA nB : sim nA nB → option_Forall2 (eqSet id_ok) (interfaceFilterSet nA) (interfaceFilterSet nB);
  sim_nset nA nB : sim nA nB → option_Forall2 (eqSet id_ok) (interfaceNatSet nA) (interfaceNatSet nB);
  sim_fields nA nB nA' nB' :
    sim nA nB → keeps nA nA' → keeps nB nB' → chainFields nA' = chainFields nB' →
    option_Forall2 (eqSet id_ok) (interfaceFilterSet nA') (interfaceFilterSet nB') →
    option_Forall2 (eqSet id_ok) (interfaceNatSet nA') (interfaceNatSet nB') → sim nA' nB';
  upto_prefix ms ms' : ms `prefix_of` ms' → upto ms' → upto ms;
  id_zero : id_ok 0;
  flag_false : flag_ok false;
  steps_addChain c : steps sim upto (addChain c) (addChain c) eq;
  steps_updateRule rA rB mk fA fB :
    (mk = MNewRule ∨ mk = MInsertRule) → Rule_Handle rA = 0 → eqRule id_ok rA rB → flag_ok fB →
    steps sim upto (updateRule rA (writeRule mk) fA) (updateRule rB (writeRule mk) fB)
      (λ _ b, looksUp rB = false → flag_ok b);
  steps_updateSet sA sB elsA elsB :
    eqSet id_ok sA sB → elsA ≠ [] → sameElems elsA elsB →
    steps sim upto (updateSet sA elsA) (updateSet sB elsB) (eqSet id_ok) }.
Arguments sim {_ _ _} _.
Arguments upto {_ _ _} _.
Arguments id_ok {_ _ _} _.
Arguments flag_ok {_ _ _} _.

Arguments sim_empty {_ _ _} _.
Arguments sim_filter {_ _ _} _.
Arguments sim_nat {_ _ _} _.
Arguments sim_chains {_ _ _} _.
Arguments sim_fset {_ _ _} _.
Arguments sim_nset {_ _ _} _.
Arguments sim_fields {_ _ _} _.
Arguments upto_prefix {_ _ _} _.
Arguments id_zero {_ _ _} _.
Arguments flag_false {_ _ _} _.
Arguments steps_addChain {_ _ _} _.
Arguments steps_updateRule {_ _ _} _.
Arguments steps_updateSet {_ _ _} _.

Definition rel {K} `{Kernel K} `{Gob} (B : RunRel K) {A A'} := steps (A:=A) (A':=A') (sim B) (upto B).

(** ** The logic *)

Section logic.
Context {K : Type} `{Kernel K} `{Gob} (B : RunRel K).
Abbreviation any := (λ _ _, True).
Abbreviation rel := (rel B).

Lemma rel_ret {A C} (a : A) (b : C) (R : A → C → Prop) : R a b → rel (mret a) (mret b) R.
Proof. intros HR. split; [by intros n ? n' ? [= _ <-]|]. intros nA nB ? nA' Hs [= <- <-]. eauto. Qed.

Lemma rel_throw {A C} e (mB : ST (nftState K) C) (R : A → C → Prop) : rel (throw e) mB R.
Proof. by split. Qed.

(** Every result of the first run is related to some value. *)
Definition serial {A C} (R : A → C → Prop) : Prop := ∀ a, ∃ b, R a b.

Lemma serial_any {A} : serial (A:=A) (C:=unit) any.
Proof. intros a. by exists tt. Qed.
Lemma serial_eq {A} : serial (A:=A) eq.
Proof. intros a. by exists a. Qed.
Lemma serial_fun {A C} (g : A → C) : serial (λ a b, b = g a).
Proof. intros a. by exists (g a). Qed.
Lemma serial_flag {A} : serial (A:=A) (λ _ b, flag_ok B b).
Proof. intros a. exists false. apply (flag_false B). Qed.
Lemma serial_rule {A} (P : Prop) : serial (A:=A) (λ _ b, P → flag_ok B b).
Proof. intros a. exists false. intros _. apply (flag_false B). Qed.
Lemma serial_eqSet : serial (eqSet (id_ok B)).
Proof. intros a. exists (set_Set_ID 0 a), 0. split; [apply (id_zero B)|done]. Qed.

Lemma rel_bind {A C A' C'} mA (mB : ST (nftState K) C) (fA : A → ST (nftState RK) A')
    (fB : C → ST (nftState K) C') R Q :
  serial R → rel mA mB R → (∀ a b, R a b → rel (fA a) (fB b) Q) → rel (mA ≫= fA) (mB ≫= fB) Q.
Proof.
  intros HS [Hg Hm] Hf. assert (∀ a, grows (fA a)) as Hgf.
  { intros a. destruct (HS a) as [b Hb]. apply (Hf a b Hb). }
  split.
  - intros n c n' Hn. unfold mbind, ST_bind. destruct (mA n) as [[a|e] n1] eqn:E; [|done]. intros Hc.
    destruct (Hg _ _ _ Hn E) as [Hn1 H1']. destruct (Hgf _ _ _ _ Hn1 Hc) as [? ?]. split; [done|by etrans].
  - intros nA nB c nA' Hs. unfold mbind, ST_bind. destruct (mA nA) as [[a|e] n1] eqn:E; [|done]. intros Hc Hst.
    destruct (Hm _ _ _ _ Hs E) as (b & n2 & -> & HR & Hs1).
    { destruct (Hg _ _ _ (sim_empty B _ _ Hs) E) as [Hn1 _]. destruct (Hgf _ _ _ _ Hn1 Hc) as [_ Hms]. by eapply upto_prefix. }
    destruct (Hf a b HR) as [_ Hfab]. by eapply Hfab.
Qed.

Lemma rel_weaken {A C} mA (mB : ST (nftState K) C) (R Q : A → C → Prop) :
  rel mA mB R → (∀ a b, R a b → Q a b) → rel mA mB Q.
Proof.
  intros [Hg Hm] HQ. split; [done|]. intros nA nB a nA' Hs Ha Hst.
  destruct (Hm _ _ _ _ Hs Ha Hst) as (b & nB' & ? & ? & ?). exists b, nB'. auto.
Qed.

Lemma rel_wrapST {A C} c mA (mB : ST (nftState K) C) (R : A → C → Prop) :
  rel mA mB R → rel (wrapST c mA) (wrapST c mB) R.
Proof.
  intros [Hg Hm]. split.
  - intros n a n' Hn. unfold wrapST. destruct (mA n) as [[a'|e] n1] eqn:E; [|done]. intros [= <- <-]. by eapply Hg.
  - intros nA nB a nA' Hs. unfold wrapST. destruct (mA nA) as [[a'|e] n1] eqn:E; [|done]. intros [= <- <-] Hst.
    destruct (Hm _ _ _ _ Hs E Hst) as (b & nB' & -> & ? & ?). exists b, nB'. auto.
Qed.

Lemma rel_lift {A C} (rA : result A) (rB : result C) (R : A → C → Prop) :
  (∀ a, rA = Ok a → ∃ b, rB = Ok b ∧ R a b) → rel (lift_result rA) (lift_result rB) R.
Proof.
  intros HR. split; [by intros n a n' ? [= _ <-]|]. intros nA nB a nA' Hs [= HA <-] _.
  destruct (HR a HA) as (b & -> & ?). by exists b, nB.
Qed.

Lemma rel_lift_bind {A C A' C'} (rA : result A) (rB : result C) (fA : A → ST (nftState RK) A')
    (fB : C → ST (nftState K) C') Q :
  (∀ a, rA = Ok a → ∃ b, rB = Ok b ∧ rel (fA a) (fB b) Q) →
  rel (lift_result rA ≫= fA) (lift_result rB ≫= fB) Q.
Proof. intros Hf. destruct rA as [a|e]; [|by split]. by destruct (Hf a eq_refl) as (b & -> & ?). Qed.

Lemma rel_discard mA (mB : ST (nftState K) bool) R : rel mA mB R → serial R → rel (discard mA) (discard mB) any.
Proof. intros Hm HS. eapply rel_bind; [exact HS|exact Hm|]. intros. by apply rel_ret. Qed.

Lemma rel_forM {X} (l : list X) fA (fB : X → ST (nftState K) unit) :
  (∀ x, x ∈ l → rel (fA x) (fB x) any) → rel (forM l fA) (forM l fB) any.
Proof.
  induction l as [|x l IH]; intros Hf; cbn [forM]; [by apply rel_ret|].
  eapply rel_bind; [apply serial_any|apply Hf; set_solver|]. intros _ _ _. apply IH. set_solver.
Qed.

Lemma rel_foldM {X A C} (l : list X) a b fA (fB : C → X → ST (nftState K) C) (R : A → C → Prop) :
  serial R → R a b → (∀ a b x, R a b → x ∈ l → rel (fA a x) (fB b x) R) → rel (foldM l a fA) (foldM l b fB) R.
Proof.
  intros HS. revert a b. induction l as [|x l IH]; intros a b Hab Hf; cbn [foldM]; [by apply rel_ret|].
  eapply rel_bind; [exact HS|apply Hf; [done|set_solver]|]. intros a' b' Hab'. apply IH; [done|]. set_solver.
Qed.

(** *** The state *)

Lemma rel_read {A C} (fA : nftState RK → A) (fB : nftState K → C) (R : A → C → Prop) :
  (∀ nA nB, sim B nA nB → R (fA nA) (fB nB)) →
  rel (λ n, (Ok (fA n), n)) (λ n, (Ok (fB n), n)) R.
Proof. intros HR. split; [by intros n a n' ? [= _ <-]|]. intros nA nB a nA' Hs [= <- <-] _. exists (fB nB), nB. auto. Qed.
Lemma rel_getFilter : rel getFilter getFilter eq.
Proof. apply rel_read, (sim_filter B). Qed.
Lemma rel_getNat : rel getNat getNat eq.
Proof. apply rel_read, (sim_nat B). Qed.

Lemma rel_deref {A C} (fA : nftState RK → option A) (fB : nftState K → option C) (R : A → C → Prop) :
  (∀ nA nB, sim B nA nB → option_Forall2 R (fA nA) (fB nB)) → rel (deref fA) (deref fB) R.
Proof.
  intros HR. split.
  - intros n a n' Hn. unfold deref. destruct (fA n); [|done]. by intros [= _ <-].
  - intros nA nB a nA' Hs. unfold deref. destruct (HR _ _ Hs) as [x y Hxy|]; [|done].
    intros [= -> <-] _. by exists y, nB.
Qed.
Lemma rel_deref_chain (fA : nftState RK → option Chain) (fB : nftState K → option Chain) :
  (∀ nA nB, chainFields nA = chainFields nB → fA nA = fB nB) → rel (deref fA) (deref fB) eq.
Proof.
  intros Hf. apply rel_deref. intros nA nB Hs. rewrite (Hf nA nB) by (by apply (sim_chains B)).
  destruct (fB nB); by constructor.
Qed.

Lemma rel_deref_fset : rel (deref interfaceFilterSet) (deref interfaceFilterSet) (eqSet (id_ok B)).
Proof. apply rel_deref, (sim_fset B). Qed.
Lemma rel_deref_nset : rel (deref interfaceNatSet) (deref interfaceNatSet) (eqSet (id_ok B)).
Proof. apply rel_deref, (sim_nset B). Qed.

Lemma rel_modify (fA : nftState RK → nftState RK) (fB : nftState K → nftState K) :
  (∀ n, nft (fA n) = nft n) → (∀ nA nB, sim B nA nB → sim B (fA nA) (fB nB)) →
  rel (modify fA) (modify fB) any.
Proof.
  intros Hn Hs. split; [intros n a n' ? [= _ <-]; by rewrite Hn|]. intros nA nB a nA' HS [= _ <-] _.
  exists tt, (fB nB). auto.
Qed.

Lemma eqSet_refl s : Set_ID s = 0 → eqSet (id_ok B) s s.
Proof. intros Hi. exists 0. split; [apply (id_zero B)|]. destruct s; cbn in *; by subst. Qed.

Lemma rel_AddRule rA rB fA fB :
  Rule_Handle rA = 0 → eqRule (id_ok B) rA rB → flag_ok B fB →
  rel (updateRule rA AddRule fA) (updateRule rB AddRule fB) (λ _ b, looksUp rB = false → flag_ok B b).
Proof. intros. apply (steps_updateRule B); auto. Qed.
Lemma rel_InsertRule rA rB fA fB :
  Rule_Handle rA = 0 → eqRule (id_ok B) rA rB → flag_ok B fB →
  rel (updateRule rA InsertRule fA) (updateRule rB InsertRule fB) (λ _ b, looksUp rB = false → flag_ok B b).
Proof. intros. apply (steps_updateRule B); auto. Qed.
End logic.

(** ** What the second run remembers

    Facts the instances of the interface share. *)

Section remembered.
Context {K : Type} `{Gob}.

(** What the second run remembers of a message of the first. *)
Definition remembered (n : nftState K) (m : msg) : Prop :=
  match m with
  | MNewChain c => is_Some (chains n !! chainID c)
  | MNewSet s => is_Some (sets n !! setKey (Table_Name (Set_Table s)) (Set_Name s))
  | MNewRule r | MInsertRule r => ∃ key, hash_rule (dumpRule r) = Ok key ∧ is_Some (rules n !! key)
  | _ => True
  end.

Lemma remember_rule_mono n key r m : remembered n m → remembered (remember_rule key r n) m.
Proof.
  destruct m; cbn; try done; intros (key' & Hk & Hs); exists key'; (split; [done|]);
    destruct (decide (key = key')) as [->|]; by rewrite ?lookup_insert_eq, ?lookup_insert_ne.
Qed.
Lemma remember_set_mono n key s m : remembered n m → remembered (remember_set key s n) m.
Proof.
  destruct m; cbn; try done. destruct (decide (key = setKey (Table_Name (Set_Table s0)) (Set_Name s0))) as [->|];
    by rewrite ?lookup_insert_eq, ?lookup_insert_ne.
Qed.
Lemma remember_chain_mono n c m : remembered n m → remembered (remember_chain c n) m.
Proof.
  destruct m as [| |c'| | | | | | | | |]; cbn; try done.
  destruct (decide (chainID c = chainID c')) as [->|]; by rewrite ?lookup_insert_eq, ?lookup_insert_ne.
Qed.

Lemma emit_nil {K'} (n : nftState K') : emit [] (lastID (nft n)) n = n.
Proof. unfold emit. rewrite app_nil_r. by destruct n as [[]]. Qed.

(** *** What is remembered is not removed *)

Definition isRule (m : msg) : bool := match m with MNewRule _ | MInsertRule _ => true | _ => false end.

Lemma remembered_not_stale (n : nftState K) r r' :
  remembered n (MNewRule r') → Rule_Table r' = Rule_Table r → ruleEqual (dumpRule r') r = true → stale n r = false.
Proof.
  intros (key & Hk & [x Hx]) HT He.
  unfold stale. rewrite <-(ruleEqual_same_hash_lemma _ _ He) by (cbn; by rewrite HT). rewrite Hk.
  apply bool_decide_eq_false. by rewrite Hx.
Qed.

Lemma wroteRule_not_stale ms (n : nftState K) r :
  (∀ m, m ∈ ms → isRule m = true → remembered n m) → wroteRule ms r → stale n r = false.
Proof.
  intros Hrem (r' & Hr' & HT & He). apply (remembered_not_stale n r r'); [|done..].
  by destruct Hr' as [Hr'|Hr']; apply Hrem in Hr'.
Qed.

Lemma wroteSet_used ms (n : nftState K) tb s :
  (∀ m, m ∈ ms → isRule m = false → remembered n m) → (Set_Anonymous s = false → wroteSet ms tb s) →
  unused_set n (in_table tb s) = false.
Proof.
  intros Hrem Hw. unfold unused_set. cbn. destruct (Set_Anonymous s); [apply andb_false_r|].
  destruct (Hw eq_refl) as (s' & Hin & HT & HN). destruct (Hrem _ Hin eq_refl) as [x Hx]. rewrite HT, HN in Hx.
  by rewrite bool_decide_eq_false_2 by (by rewrite Hx).
Qed.

Lemma wroteChain_used ms (n : nftState K) c :
  (∀ m, m ∈ ms → isRule m = false → remembered n m) → wroteChain ms c → unused_chain n c = false.
Proof.
  intros Hrem (c' & Hin & Hid). destruct (Hrem _ Hin eq_refl) as [x Hx]. rewrite Hid in Hx.
  unfold unused_chain. by rewrite (bool_decide_eq_false_2 (_ = None)), andb_false_r by (by rewrite Hx).
Qed.
End remembered.

(** [AddSet] refuses an anonymous set that may change, and adds any other with
    its elements under the transaction id it has or gets. *)
Definition fickle (s : NftSet) : bool := Set_Anonymous s && negb (Set_Constant s).

Lemma AddSet_cases {K'} `{Kernel K'} s els (c : Conn K') :
  els ≠ [] →
  if fickle s then ∃ e c', AddSet s els c = (Err e, c')
  else ∃ id last, let s' := set_Set_ID id s in
    AddSet s els c = (Ok s', mkConn (kern c) (messages c ++ [MNewSet s'; MNewSetElem s' els])
                               last (conn_err c) (sent c)).
Proof.
  intros Hne. unfold AddSet. fold (fickle s). destruct (fickle s); [by eexists _, _|].
  destruct els as [|x els]; [done|]. unfold mbind, ST_bind.
  exists (if Set_ID s =? 0 then nextID (lastID c) else Set_ID s), (if Set_ID s =? 0 then nextID (lastID c) else lastID c).
  destruct (Set_ID s =? 0); cbn; unfold push; cbn; rewrite <-app_assoc; done || by destruct s.
Qed.

(** The same of [updateSet] for a set that is not there. *)
Lemma updateSet_cases {K'} `{Kernel K'} s els (n : nftState K') e :
  quiet (kern (nft n)) →
  (k_GetSetByName (Set_Table s) (kernelName (Set_Name s)) (kern (nft n))).1 = Err e → isNotExist e = true →
  els ≠ [] →
  if fickle s then is_ok (updateSet s els n).1 = false
  else ∃ id last, let s' := set_Set_ID id (set_Set_Name (kernelName (Set_Name s)) s) in
    updateSet s els n =
      (Ok s', remember_set (setKey (Table_Name (Set_Table s)) (kernelName (Set_Name s))) s'
                (emit [MNewSet s'; MNewSetElem s' els] last n)).
Proof.
  intros Hq HG He Hne.
  assert (onNft (try (GetSetByName (Set_Table s) (kernelName (Set_Name s)))) n = (Ok (Err e), n)) as Hget
    by (apply onNft_pure; unfold try; by rewrite GetSetByName_quiet, HG).
  pose proof (AddSet_cases (set_Set_Name (kernelName (Set_Name s)) s) els (nft n) Hne) as Hadd.
  change (fickle (set_Set_Name _ s)) with (fickle s) in Hadd.
  unfold updateSet, mbind, ST_bind. cbn [Set_Table Set_Name set_Set_Name]. rewrite Hget, He. cbn [negb].
  unfold wrapST, onNft, zoom. destruct (fickle s).
  - by destruct Hadd as (e' & c' & ->).
  - destruct Hadd as (id & last & ->). by exists id, last.
Qed.

(** ** A kernel that shows an empty namespace *)

Section empty_view.
Context {K : Type} `{NfTables K} `{Gob}.
Variable n : nftState K.
Hypothesis empty : shown (kern (nft n)) = emptyRK.

Lemma empty_addChain c :
  let c' := set_Chain_Name (kernelName (Chain_Name c)) c in
  addChain c n = (Ok c', remember_chain c' (emit [MNewChain c'] (lastID (nft n)) n)).
Proof. cbv zeta. by rewrite addChain_quiet, nft_ListChain, empty by apply nft_quiet. Qed.

Lemma empty_updateRule rule mk force key :
  hash_rule rule = Ok key → Rule_Handle rule = 0 →
  let id := nextID (lastID (nft n)) in
  updateRule rule (writeRule mk) force n =
    (Ok true, remember_rule key (set_Rule_ID id rule) (emit [mk (set_Rule_ID id rule)] id n)).
Proof. intros Hk Hh. by rewrite (updateRule_quiet _ _ _ _ _ key (nft_quiet _) (rulesAt_shown _ _ _) Hk Hh), empty. Qed.

Definition madeSet (s : NftSet) (els : list SetElement) (id last : Z) : result NftSet * nftState K :=
  let s' := set_Set_ID id (set_Set_Name (kernelName (Set_Name s)) s) in
  (Ok s', remember_set (setKey (Table_Name (Set_Table s)) (kernelName (Set_Name s))) s'
            (emit [MNewSet s'; MNewSetElem s' els] last n)).
Lemma empty_updateSet s els :
  els ≠ [] →
  if fickle s then is_ok (updateSet s els n).1 = false else ∃ id last, updateSet s els n = madeSet s els id last.
Proof.
  intros Hne. pose proof (updateSet_cases s els n ErrNotExist) as Hc.
  rewrite nft_GetSetByName, empty in Hc. apply Hc; [apply nft_quiet|done..].
Qed.
Lemma empty_updateSet_ok s els a n' :
  els ≠ [] → updateSet s els n = (Ok a, n') → fickle s = false ∧ ∃ id last, (Ok a, n') = madeSet s els id last.
Proof.
  intros Hne Ha. pose proof (empty_updateSet s els Hne) as Hc. rewrite Ha in Hc. by destruct (fickle s).
Qed.
End empty_view.

(** The first run, in the empty namespace, only buffers messages. *)
Section first_run.
Context `{Gob}.
Hypothesis total : gob_total.
Implicit Types n : nftState RK.

Lemma first_addChain n c (Hn : kern (nft n) = emptyRK) :
  let c' := set_Chain_Name (kernelName (Chain_Name c)) c in
  addChain c n = (Ok c', remember_chain c' (emit [MNewChain c'] (lastID (nft n)) n)).
Proof. exact (empty_addChain (K:=RK) n Hn c). Qed.
Lemma first_updateRule n rule mk force key (Hn : kern (nft n) = emptyRK) :
  hash_rule rule = Ok key → Rule_Handle rule = 0 →
  let id := nextID (lastID (nft n)) in
  updateRule rule (writeRule mk) force n =
    (Ok true, remember_rule key (set_Rule_ID id rule) (emit [mk (set_Rule_ID id rule)] id n)).
Proof. exact (empty_updateRule (K:=RK) n Hn rule mk force key). Qed.
Lemma first_updateSet n s els a n' (Hn : kern (nft n) = emptyRK) :
  els ≠ [] → updateSet s els n = (Ok a, n') → fickle s = false ∧ ∃ id last, (Ok a, n') = madeSet n s els id last.
Proof. exact (empty_updateSet_ok (K:=RK) n Hn s els a n'). Qed.

Lemma grows_addChain c : grows (addChain c).
Proof. intros n a n' Hn. rewrite first_addChain by done. intros [= <- <-]. split; [done|by eexists]. Qed.
Lemma grows_updateRule rule mk force : Rule_Handle rule = 0 → grows (updateRule rule (writeRule mk) force).
Proof.
  intros Hh n a n' Hn. pose proof (total rule) as Ht. destruct (hash_rule rule) as [key|] eqn:Ek; [|done].
  rewrite (first_updateRule n _ _ _ key) by done. intros [= <- <-]. split; [done|by eexists].
Qed.
Lemma grows_updateSet s els : els ≠ [] → grows (updateSet s els).
Proof.
  intros Hne n a n' Hn Ha. destruct (first_updateSet n s els a n' Hn Hne Ha) as (_ & id & last & [= -> ->]).
  split; [done|by eexists].
Qed.
End first_run.

(** ** The generators, run with themselves *)

(** Two rules, or two sets, that differ in transaction ids. *)
Ltac rel_eqRule :=
  split; [reflexivity|]; cbn; repeat first [apply Forall_nil_2 | apply Forall_cons_2; [cbn; first [exact I|assumption]|]].
Ltac rel_eqSet := first [apply eqSet_refl; first [done|assumption] | eexists; split; [eassumption|reflexivity]].
Ltac rel_flag := first [apply flag_false | assumption].

(** What the results of a step say: the same value, the same set but for its
    id, or something about a flag. *)
Ltac rel_result HR :=
  lazymatch type of HR with
  | _ = _ => subst
  | eqSet _ _ _ => destruct HR as [? [? ->]]
  | _ => idtac
  end.

(** Step through two copies of a generator. *)
Ltac rel_serial := first [apply serial_any | apply serial_eq | eapply serial_rule | eapply serial_flag | eapply serial_eqSet].
Ltac rel_rule := first [apply rel_AddRule | apply rel_InsertRule]; [done|rel_eqRule|rel_flag].
Ltac rel_val :=
  lazymatch goal with
  | |- rel _ (wrapST _ _) _ _ => apply rel_wrapST; rel_val
  | |- rel _ getFilter _ _ => apply rel_getFilter
  | |- rel _ getNat _ _ => apply rel_getNat
  | |- rel _ (addChain _) _ _ => apply (steps_addChain _)
  | |- rel _ (deref interfaceFilterSet) _ _ => apply rel_deref_fset
  | |- rel _ (deref interfaceNatSet) _ _ => apply rel_deref_nset
  | |- rel _ (deref _) _ _ => apply rel_deref_chain; intros ? ? [= ???????]; assumption
  | |- rel _ (updateRule _ _ _) _ _ => rel_rule
  | |- rel _ (updateSet _ _) _ _ => apply (steps_updateSet _); [rel_eqSet|first [assumption|done|idtac]|done]
  | |- rel _ (lift_result _) _ _ => apply (rel_lift _ _ _ eq); intros ? ?; eexists; split; [eassumption|reflexivity]
  end.
Ltac rel_step :=
  lazymatch goal with
  | |- rel _ (mret _) (mret _) _ => apply rel_ret; done
  | |- rel _ (throw _) _ _ => apply rel_throw
  | |- rel _ (@mbind _ _ unit _ _ _) _ _ => eapply (rel_bind _ _ _ _ _ (λ _ _, True)); [apply serial_any| |intros _ _ _]
  | |- rel _ (_ ≫= _) _ _ =>
    let HR := fresh in eapply rel_bind; [|rel_val|intros ? ? HR; rel_result HR]; [rel_serial|..]
  | |- rel _ (wrapST _ _) _ _ => apply rel_wrapST
  | |- rel _ (discard _) _ _ => eapply rel_discard; [rel_val|eapply serial_rule]
  | |- rel _ (forM _ _) _ _ => apply rel_forM; intros
  | |- rel _ (if ?b then _ else _) _ _ => destruct b eqn:?
  end.
Ltac rel_auto := repeat rel_step.

Section common.
Context {K : Type} `{Kernel K} `{Gob} `{Arch} `{LabelApi} (B : RunRel K).
Abbreviation rel := (rel B).
Abbreviation any := (λ _ _, True).

Lemma len_pos_ne {X} (l : list X) : (0 <? len l) = true → l ≠ [].
Proof. by destruct l. Qed.

Lemma rel_allowICMP c b : rel (allowICMP c b) (allowICMP c b) any.
Proof. unfold allowICMP. cbv zeta. destruct b; rel_auto. Qed.
Lemma rel_allowNeighborDiscovery c : rel (allowNeighborDiscovery c) (allowNeighborDiscovery c) any.
Proof. unfold allowNeighborDiscovery. cbv zeta. rel_auto; done. Qed.
Lemma rel_applyCommonPrefixFamily c s b els :
  Set_ID s = 0 →
  rel (applyCommonPrefixFamily c s b els) (applyCommonPrefixFamily c s b els) any.
Proof.
  intros Hid. unfold applyCommonPrefixFamily. destruct (0 <? len els) eqn:E; [|by rel_auto].
  apply len_pos_ne in E. rel_auto.
Qed.
Lemma rel_applyCommonPrefixRules c ps p : rel (applyCommonPrefixRules c ps p) (applyCommonPrefixRules c ps p) any.
Proof. unfold applyCommonPrefixRules. rel_auto; by apply rel_applyCommonPrefixFamily. Qed.
Lemma rel_allowConntracked c : rel (allowConntracked c) (allowConntracked c) any.
Proof. unfold allowConntracked. rel_auto. Qed.
Lemma rel_applyCommonChainRules cfg : rel (applyCommonChainRules cfg) (applyCommonChainRules cfg) any.
Proof.
  unfold applyCommonChainRules. rel_auto;
    first [ simple apply rel_allowICMP | simple apply rel_allowNeighborDiscovery
          | simple apply rel_applyCommonPrefixRules | simple apply rel_allowConntracked ].
Qed.
Lemma rel_applyPodInterfaceRules c pc pol i :
  rel (applyPodInterfaceRules c pc pol i) (applyPodInterfaceRules c pc pol i) (λ _ b, flag_ok B b).
Proof.
  unfold applyPodInterfaceRules. rel_step. eapply rel_weaken; [rel_rule|]. intros ? ? Hb. by apply Hb.
Qed.
Lemma rel_applyGeneralMarkCheck c pol : rel (applyGeneralMarkCheck c pol) (applyGeneralMarkCheck c pol) any.
Proof. unfold applyGeneralMarkCheck. rel_auto. Qed.
Lemma rel_applyMarkReset nm c pn i : rel (applyMarkReset nm c pn i) (applyMarkReset nm c pn i) any.
Proof. unfold applyMarkReset. rel_auto. Qed.
Lemma rel_applyMarkCheck nm c pn i : rel (applyMarkCheck nm c pn i) (applyMarkCheck nm c pn i) any.
Proof. unfold applyMarkCheck. rel_auto. Qed.
Lemma rel_applyDropRemaining c b b' : flag_ok B b' → rel (applyDropRemaining c b) (applyDropRemaining c b') any.
Proof. intros. unfold applyDropRemaining. rel_auto. Qed.
End common.

(** ** The generators of policies *)

Section generators.
Context {K : Type} `{Kernel K} `{Gob} `{Arch} `{LabelApi} (B : RunRel K).
Abbreviation rel := (rel B).
Abbreviation any := (λ _ _, True).
Variables oA oB : MapOrder.

Lemma rel_applyPrefixes nm c pn cidr i ps es b :
  rel (applyPrefixes nm c pn cidr i ps es b) (applyPrefixes nm c pn cidr i ps es b) any.
Proof.
  unfold applyPrefixes. destruct (0 <? len ps) eqn:E; [|rel_auto]. apply len_pos_ne in E. cbv zeta.
  rel_step; [|rel_auto]. destruct (0 <? len es) eqn:E'; [|rel_auto]. apply len_pos_ne in E'. rel_auto.
Qed.
Lemma rel_IPBlock nm c pn block i :
  rel (applyPolicyPeersRulesIPBlock nm c pn block i) (applyPolicyPeersRulesIPBlock nm c pn block i) any.
Proof. unfold applyPolicyPeersRulesIPBlock. rel_auto; apply rel_applyPrefixes. Qed.

(** *** Addresses in another order *)

Lemma splitAddrs_perm la lb p :
  la ≡ₚ lb → splitAddrs la = Ok p → ∃ q, splitAddrs lb = Ok q ∧ p.1 ≡ₚ q.1 ∧ p.2 ≡ₚ q.2.
Proof.
  intros Hl. revert p. induction Hl as [|a la lb _ IH|a b l|l1 l2 l3 _ IH1 _ IH2]; intros p; cbn [splitAddrs].
  - intros [= <-]. by eexists.
  - destruct (ParseAddr a) as [x|]; [|done]. destruct (splitAddrs la) as [q|]; [|done].
    destruct (IH q eq_refl) as (q' & -> & H1' & H2'). intros [= <-]. eexists. split; [done|].
    by destruct (Is6 x); cbn; rewrite ?H1', ?H2'.
  - destruct (ParseAddr a) as [x|], (ParseAddr b) as [y|]; try done.
    destruct (splitAddrs l) as [q|]; [|done]. intros [= <-]. eexists. split; [done|].
    destruct (Is6 x), (Is6 y); cbn; split; done || apply perm_swap.
  - intros (q & Hq & ? & ?)%IH1. destruct (IH2 q Hq) as (r & Hr & ? & ?). exists r.
    split_and!; [done|by etrans..].
Qed.

(** What the two runs have collected: the same addresses. *)
Definition sameAcc (a b : list gostring * gset gostring * nat) : Prop :=
  a.1.1 ≡ₚ b.1.1 ∧ a.1.2 = b.1.2 ∧ a.2 = b.2.

Lemma sameAcc_foldl {A} (f g : list gostring * gset gostring * nat → A → _) l a b :
  (∀ a b x, sameAcc a b → sameAcc (f a x) (g b x)) → sameAcc a b → sameAcc (foldl f a l) (foldl g b l).
Proof. intros Hf. revert a b. induction l as [|x l IH]; intros a b Hab; cbn; [done|]. by apply IH, Hf. Qed.

Lemma sameAcc_collectPod site i nets info pi a b :
  sameAcc a b → sameAcc (@collectPod oA site i nets info pi a) (@collectPod oB site i nets info pi b).
Proof.
  unfold collectPod. apply sameAcc_foldl. intros a1 b1 x Hab. case_match; [done|].
  revert Hab. apply sameAcc_foldl. intros [[? ?] ?] [[? ?] ?] y (? & ? & ?). case_match; [done|].
  simpl in *; subst. split_and!; [|done|done]. cbn. apply Permutation_app; [done|]. by rewrite !range_keys_perm.
Qed.

Lemma selectorAddrs_perm deps nm peer info nets i la :
  @selectorAddrs _ oA deps nm peer info nets i = Ok la →
  ∃ lb, @selectorAddrs _ oB deps nm peer info nets i = Ok lb ∧ la ≡ₚ lb.
Proof.
  unfold selectorAddrs. destruct (match Peer_PodSelector peer with Some _ => _ | None => _ end); [|done].
  cbn [mbind result_bind]. destruct (wrap _ (ListPods _ _)) as [pods|]; [|done]. cbn [mbind result_bind].
  destruct (match Peer_NamespaceSelector peer with Some _ => _ | None => _ end) as [ns|]; [|done].
  cbn [mbind result_bind]. unfold collectPods.
  assert (sameAcc ([], ∅, 0%nat) ([], ∅, 0%nat)) as Hacc by done. revert Hacc.
  generalize ([] : list gostring, ∅ : gset gostring, 0%nat) at 1 3 as accA.
  generalize ([] : list gostring, ∅ : gset gostring, 0%nat) as accB.
  induction pods as [|pod pods IH]; intros accB accA Hab; cbn [foldR mbind result_bind].
  { intros [= <-]. exists accB.1.1. split; [done|]. apply Hab. }
  destruct (GetNamespaceInfo _ _) as [nsl|]; [|by apply IH].
  destruct (match ns with Some _ => _ | None => _ end); [by apply IH|].
  destruct (GetPodInfo deps pod) as [pi|e]; [|destruct (isPanic e); [done|by apply IH]].
  by apply IH, sameAcc_collectPod.
Qed.

Lemma rel_addIPRule nm la lb c pn peer i b :
  la ≡ₚ lb → (∀ a, a ∈ la → ∃ x, plainAddr a x ∧ Addr_is6 x = b) →
  rel (addIPRule nm la c pn peer i) (addIPRule nm lb c pn peer i) any.
Proof.
  intros Hl Hp. unfold addIPRule. destruct la as [|a la], lb as [|a' lb];
    [rel_auto|by apply Permutation_nil_cons in Hl|by symmetry in Hl; apply Permutation_nil_cons in Hl|].
  destruct (Hp a) as (x & [_ ->]%plainAddr_key & ->); [by left|].
  destruct (Hp a') as (y & [_ ->]%plainAddr_key & ->); [rewrite Hl; by left|]. cbv zeta.
  eapply rel_bind; [eapply serial_eqSet|apply (steps_updateSet B); [by apply eqSet_refl|done|]|].
  { intros e. by rewrite Hl. }
  intros s' ? (i' & ? & ->). rel_auto.
Qed.

Lemma rel_Selector deps nm c pn peer info nets i :
  plainPod info → (∀ pod pi, GetPodInfo deps pod = Ok pi → plainPod pi) →
  rel (@applyPolicyPeersRulesSelector RK _ _ _ _ oA deps nm c pn peer info nets i)
      (@applyPolicyPeersRulesSelector K _ _ _ _ oB deps nm c pn peer info nets i) any.
Proof.
  intros Hi Hd. unfold applyPolicyPeersRulesSelector.
  apply rel_lift_bind. intros la Ha. destruct (selectorAddrs_perm _ _ _ _ _ _ _ Ha) as (lb & Hb & Hl).
  exists lb. split; [done|]. rel_step. unfold addIPRules. apply rel_lift_bind. intros p Hp.
  destruct (splitAddrs_perm _ _ _ Hl Hp) as (q & Hq & Hq1 & Hq2). exists q. split; [done|].
  rel_auto.
  - apply (rel_addIPRule _ _ _ _ _ _ _ false); [done|]. intros a. by apply (selector_plain _ _ _ _ _ _ _ p false a Hi Hd Ha).
  - apply (rel_addIPRule _ _ _ _ _ _ _ true); [done|]. intros a. by apply (selector_plain _ _ _ _ _ _ _ p true a Hi Hd Ha).
Qed.

Section policies.
Variables (deps : PolicyDeps) (info : PodInfo).
Hypothesis plain_info : plainPod info.
Hypothesis plain_deps : ∀ pod pi, GetPodInfo deps pod = Ok pi → plainPod pi.

Lemma rel_applyPolicyPeersRules nm c pn peers nets i :
  rel (@applyPolicyPeersRules RK _ _ _ _ oA deps nm c pn peers info nets i)
      (@applyPolicyPeersRules K _ _ _ _ oB deps nm c pn peers info nets i) any.
Proof.
  unfold applyPolicyPeersRules. cbv zeta. rel_auto; try done.
  destruct x as [index peer]. repeat case_match; rel_auto; first [simple apply rel_IPBlock|by simple apply rel_Selector].
Qed.
Lemma rel_applyProtocol c pc nm pn proto els :
  rel (applyProtocol c pc nm pn proto els) (applyProtocol c pc nm pn proto els) any.
Proof.
  unfold applyProtocol, applyProtoPortsRules. destruct (0 <? len els) eqn:E; [|rel_auto]. apply len_pos_ne in E.
  destruct (getProtocolInfo proto). rel_auto.
Qed.
Lemma rel_applyPolicyPortsRules nm c pn ports i :
  rel (applyPolicyPortsRules nm c pn ports i) (applyPolicyPortsRules nm c pn ports i) any.
Proof. unfold applyPolicyPortsRules. cbv zeta. rel_auto; apply rel_applyProtocol. Qed.
Lemma rel_applyPolicyRule nm c rn pn nets i rule :
  rel (@applyPolicyRule RK _ _ _ _ oA deps nm c rn pn info nets i rule)
      (@applyPolicyRule K _ _ _ _ oB deps nm c rn pn info nets i rule) any.
Proof.
  unfold applyPolicyRule. rel_auto;
    first [ simple apply rel_applyMarkReset | simple apply rel_applyPolicyPortsRules
          | simple apply rel_applyPolicyPeersRules | simple apply rel_applyMarkCheck ]; assumption.
Qed.

Lemma rel_applyPodRules c pol nets :
  rel (@applyPodRules RK _ _ _ _ oA deps c info pol nets)
      (@applyPodRules K _ _ _ _ oB deps c info pol nets) (λ _ b, flag_ok B b).
Proof.
  unfold applyPodRules. cbv zeta. rel_step. rel_step.
  eapply (rel_bind _ _ _ _ _ (λ _ b, flag_ok B b)); [eapply serial_flag| |].
  { apply rel_foldM; [eapply serial_flag|apply flag_false|]. intros a a' i Ha _. case_match; [|by apply rel_ret].
    eapply rel_bind; [eapply serial_flag|apply rel_wrapST, rel_applyPodInterfaceRules|].
    intros v v' Hv. apply rel_ret. by destruct v'. }
  intros v v' Hv. rel_auto; destruct x; apply rel_applyPolicyRule.
Qed.

(** The policies of a direction. *)
Lemma rel_applyDirection (f : ∀ L, nftState L → option Chain) ps :
  (∀ nA nB, chainFields nA = chainFields nB → f RK nA = f K nB) →
  rel (@applyDirection RK _ _ _ _ oA deps (f RK) info ps)
      (@applyDirection K _ _ _ _ oB deps (f K) info ps) any.
Proof.
  intros Hf. unfold applyDirection. case_match; [|by apply rel_ret].
  eapply (rel_bind _ _ _ _ _ (λ _ b, flag_ok B b)); [eapply serial_flag| |].
  - apply rel_foldM; [eapply serial_flag|apply flag_false|]. intros a a' p Ha _.
    eapply rel_bind; [apply serial_eq|by apply rel_deref_chain|]. intros c ? ->.
    eapply rel_bind; [eapply serial_flag|apply rel_wrapST, rel_applyPodRules|]. intros v v' Hv.
    rel_step; [apply rel_wrapST, rel_applyGeneralMarkCheck|]. apply rel_ret. by destruct v'.
  - intros a a' Ha. eapply rel_bind; [apply serial_eq|by apply rel_deref_chain|]. intros c ? ->.
    by apply rel_wrapST, rel_applyDropRemaining.
Qed.
End policies.
End generators.

(** ** The bootstrap *)

(** An assignment to the fields of both states. *)
Ltac rel_assign :=
  let Hs := fresh in
  apply rel_modify; [done|]; intros nA nB Hs;
  pose proof (sim_chains _ _ _ Hs); pose proof (sim_fset _ _ _ Hs); pose proof (sim_nset _ _ _ Hs);
  apply (sim_fields _ _ _ _ _ Hs);
  [done|done|unfold chainFields in *; simpl in *; congruence|simpl..];
  first [assumption | constructor; first [by apply eqSet_refl | eexists; split; [eassumption|reflexivity]]].

Section bootstrap.
Context {K : Type} `{Kernel K} `{Gob} `{Arch} (B : RunRel K).
Abbreviation rel := (rel B).
Abbreviation any := (λ _ _, True).

Lemma rel_bootstrapNetfilterChains : rel bootstrapNetfilterChains bootstrapNetfilterChains any.
Proof. unfold bootstrapNetfilterChains. rel_auto; rel_assign. Qed.

Lemma interfaceElements_ne ifs : ifs ≠ [] → interfaceElements ifs ≠ [].
Proof. by destruct ifs. Qed.

Lemma rel_bootstrapBaseRules info :
  PI_Interfaces info ≠ [] → rel (bootstrapBaseRules info) (bootstrapBaseRules info) any.
Proof.
  intros Hne%interfaceElements_ne. unfold bootstrapBaseRules. cbv zeta. rel_auto; rel_assign.
Qed.
End bootstrap.

(** ** The sync *)

Section generate.
Context {K : Type} `{Kernel K} `{Gob} `{Arch} `{LabelApi} `{MapOrder}.
Abbreviation M := (ST (nftState K)).

(** The sync up to its flush: the bootstrap, then the common rules and the
    policies of both directions. *)
Definition generateRules (deps : PolicyDeps) (cfg : CommonRuleConfig) (policies : list MultiNetworkPolicy)
    (pod : Pod) (podInfo : PodInfo) : M unit :=
  wrapST (forPod "failed to apply common chain rules" pod) (applyCommonChainRules cfg) ≫= λ _,
  applyDirection deps ingressC podInfo (selectedPolicies ingressEnabled pod podInfo policies) ≫= λ _,
  applyDirection deps egressC podInfo (selectedPolicies egressEnabled pod podInfo policies).
Definition generate (deps : PolicyDeps) (cfg : CommonRuleConfig) (policies : list MultiNetworkPolicy)
    (pod : Pod) (podInfo : PodInfo) : M unit :=
  podInfo ← wrapST (forPod "bootstrap netfilter rules failed" pod) (bootstrapNetfilterRules podInfo);
  generateRules deps cfg policies pod podInfo.

Lemma apply_generate deps cfg policies pod podInfo n :
  ApplyPolicyRulesForPodAndFamily deps cfg policies pod podInfo n =
  (generate deps cfg policies pod podInfo ≫= λ _,
   wrapST (forPod "nft flush failed" pod) (onNft Flush) ≫= λ _,
   wrapST "failed to cleanup nft" cleanup) n.
Proof.
  unfold ApplyPolicyRulesForPodAndFamily, generate, generateRules, mbind, ST_bind.
  repeat match goal with |- context [match ?x with (_, _) => _ end] => destruct x as [[?|?] ?]; try done end.
Qed.

(** The rest of a bootstrap once the tables exist. *)
Definition afterTables (podInfo : PodInfo) : M unit :=
  bootstrapNetfilterChains ≫= λ _, bootstrapBaseRules (sortInterfaces podInfo).
Definition generateRest (deps : PolicyDeps) (cfg : CommonRuleConfig) (policies : list MultiNetworkPolicy)
    (pod : Pod) (podInfo : PodInfo) : M unit :=
  wrapST (forPod "bootstrap netfilter rules failed" pod) (afterTables podInfo) ≫= λ _,
  generateRules deps cfg policies pod (sortInterfaces podInfo).

Lemma generate_run deps cfg policies pod podInfo n n' :
  PI_Interfaces podInfo ≠ [] → (onNft CleanupLegacyTables ≫= λ _, bootstrapTables) n = (Ok tt, n') →
  generate deps cfg policies pod podInfo n = generateRest deps cfg policies pod podInfo n'.
Proof.
  intros Hne Hb.
  assert (bootstrapNetfilterRules podInfo n = (afterTables podInfo ≫= λ _, mret (sortInterfaces podInfo)) n') as HB.
  { unfold bootstrapNetfilterRules. destruct (len (PI_Interfaces podInfo) =? 0) eqn:E.
    { destruct (PI_Interfaces podInfo); [done|]. apply Z.eqb_eq in E. unfold len in E. simpl in E. lia. }
    revert Hb. unfold afterTables, mbind, ST_bind. destruct (onNft CleanupLegacyTables n) as [[u|e] n1]; [|done].
    intros ->. by destruct (bootstrapNetfilterChains n') as [[?|?] ?]. }
  unfold generate, generateRest. unfold mbind at 1, ST_bind at 1, wrapST at 1. rewrite HB.
  unfold mbind, ST_bind, wrapST at 1. by destruct (afterTables podInfo n') as [[?|?] ?].
Qed.
End generate.

Section sync.
Context {K : Type} `{Kernel K} `{Gob} `{Arch} `{LabelApi} (B : RunRel K).
Variables oA oB : MapOrder.
Variables (deps : PolicyDeps) (cfg : CommonRuleConfig) (pod : Pod) (podInfo : PodInfo).
Hypothesis plain_info : plainPod podInfo.
Hypothesis plain_deps : ∀ pod pi, GetPodInfo deps pod = Ok pi → plainPod pi.

Lemma rel_generateRest ps1 ps2 :
  PI_Interfaces podInfo ≠ [] →
  NoDup (policyNamespacedName <$> ps1) → ps1 ≡ₚ ps2 →
  rel B (@generateRest RK _ _ _ _ oA deps cfg ps1 pod podInfo)
        (@generateRest K _ _ _ _ oB deps cfg ps2 pod podInfo) (λ _ _, True).
Proof.
  intros Hne Hnd Hp. unfold generateRest, afterTables, generateRules.
  assert (PI_Interfaces (sortInterfaces podInfo) ≠ []) as Hne'.
  { intros E. apply Hne. apply Permutation_nil. rewrite <-E. apply SortStable_perm. }
  assert (plainPod (sortInterfaces podInfo)) as Hpl by (by apply plainPod_sort).
  rel_step.
  { apply rel_wrapST. rel_step; [apply rel_bootstrapNetfilterChains|by apply rel_bootstrapBaseRules]. }
  rel_step; [apply rel_wrapST, rel_applyCommonChainRules|].
  rewrite <-!(selectedPolicies_perm _ _ _ ps1 ps2) by done. rel_step.
  - apply (rel_applyDirection B oA oB deps _ Hpl plain_deps (λ L, ingressC (K:=L))). by intros ?? [=].
  - apply (rel_applyDirection B oA oB deps _ Hpl plain_deps (λ L, egressC (K:=L))). by intros ?? [=].
Qed.

(** *** The sync of an empty namespace *)

Lemma tables_empty :
  (onNft CleanupLegacyTables ≫= λ _, bootstrapTables) (startState (newConn emptyRK)) =
  (Ok tt, newState (mkConn emptyRK (MNewTable <$> ownTables) 0 None [])
            (inetTable FilterTableName) (inetTable NatTableName)).
Proof. vm_compute. reflexivity. Qed.

(** What a sync writes to an empty namespace. *)
Definition wanted (ps : list MultiNetworkPolicy) : list msg :=
  messages (nft (@generate RK _ _ _ _ oA deps cfg ps pod podInfo (startState (newConn emptyRK))).2).
End sync.
