(* ===== verification/Idle.v ===== *)
(** * A sync with nothing to do

    A sync of a namespace that holds exactly what the sync would write to an
    empty one sends nothing: the generators read that everything is there, and
    the cleanup finds nothing to remove. The comparison also covers a namespace
    in which the rules that look up a set are missing: the generators then
    send exactly these rules again. *)

From S2P Require Import Prelude GoStd Names Nft Netip Api Elements Conn RefKernel NfTables State Legacy Rules Cleanup Server Fresh Meaning Typing Settled Lockstep.

(** ** The relation *)

Section sim.
Context {K : Type} `{LawfulKernel K} `{Gob}.
Variable k : K.
Hypothesis quiet_k : quiet k.
Hypothesis total : gob_total.

(** Whether the rules that look up a set are missing in [k], as after a first
    sync of an empty namespace, whose cleanup removes them. *)
Variable late : bool.
Definition lateMsg (m : msg) : bool := late && lookMsg m.

Definition absent (r : Rule) : Prop :=
  ∃ rs, rulesAt k (Rule_Table r) (Chain_Name (Rule_Chain r)) = Ok rs ∧ List.find (ruleEqual (dumpRule r)) rs = None.
(** What a message makes is there, unless it is late. *)
Definition present (m : msg) : Prop :=
  if lateMsg m then match m with MNewRule r | MInsertRule r => absent r | _ => False end else stored k m.

(** A rule message as the kernel takes it, without transaction ids. *)
Definition dumpMsg (m : msg) : msg :=
  match m with
  | MNewRule r => MNewRule (set_Rule_ID 0 (dumpRule r))
  | MInsertRule r => MInsertRule (set_Rule_ID 0 (dumpRule r))
  | m => m
  end.

(** The first run in the empty namespace, the second in [k], where it wrote
    the late rules and nothing else; the same tables and chains, the same sets
    up to the transaction ids, which are zero in the second. *)
Record idle_sim (nA : nftState RK) (nB : nftState K) : Prop := {
  idle_empty : kern (nft nA) = emptyRK;
  idle_kern : kern (nft nB) = k;
  idle_err : conn_err (nft nB) = None;
  idle_sent : sent (nft nB) = [];
  idle_messages : dumpMsg <$> messages (nft nB) = dumpMsg <$> List.filter lateMsg (messages (nft nA));
  idle_unused : messages (nft nB) = [] → lastID (nft nB) = 0;
  idle_filter : filterT nA = filterT nB;
  idle_nat : natT nA = natT nB;
  idle_own : filterT nB = inetTable FilterTableName ∧ natT nB = inetTable NatTableName;
  idle_chains : chainFields nA = chainFields nB;
  idle_fset : option_Forall2 (eqSet (eq 0)) (interfaceFilterSet nA) (interfaceFilterSet nB);
  idle_nset : option_Forall2 (eqSet (eq 0)) (interfaceNatSet nA) (interfaceNatSet nB);
  idle_remembered : Forall (remembered nB) (messages (nft nA)) }.

Lemma idle_conn nA nB : idle_sim nA nB → messages (nft nB) = [] → nft nB = newConn k.
Proof.
  intros Hs Hm. pose proof (idle_unused _ _ Hs Hm). destruct Hs as [_ Hk He Hse _ _ _ _ _ _ _ _ _].
  destruct (nft nB); cbn in *. by subst.
Qed.

Abbreviation sameEnv n n' := (
  nft n' = nft n ∧ filterT n' = filterT n ∧ natT n' = natT n ∧ chainFields n' = chainFields n ∧
  interfaceFilterSet n' = interfaceFilterSet n ∧ interfaceNatSet n' = interfaceNatSet n).

(** The first run adds messages and remembers something itself, the second
    adds those that are late and remembers. *)
Lemma idle_step nA nB msA idA mA msB idB mB :
  idle_sim nA nB →
  dumpMsg <$> msB = dumpMsg <$> List.filter lateMsg msA → (msB = [] → idB = lastID (nft nB)) →
  (∀ n m, remembered n m → remembered (mB n) m) → Forall (remembered (mB (emit msB idB nB))) msA →
  (∀ n : nftState K, sameEnv n (mB n)) → (∀ n : nftState RK, sameEnv n (mA n)) →
  idle_sim (mA (emit msA idA nA)) (mB (emit msB idB nB)).
Proof.
  intros [] Hmsg Hid Hmono Hms HB HA. destruct (HB (emit msB idB nB)) as (B1 & B2 & B3 & B4 & B5 & B6).
  destruct (HA (emit msA idA nA)) as (A1 & A2 & A3 & A4 & A5 & A6).
  split; rewrite ?A1, ?A2, ?A3, ?A4, ?A5, ?A6, ?B1, ?B2, ?B3, ?B4, ?B5, ?B6; try done; cbn.
  - by rewrite List.filter_app, !fmap_app, Hmsg, idle_messages0.
  - intros [Hn ->]%app_eq_nil. rewrite Hid by done. by apply idle_unused0.
  - apply Forall_app. split; [|done]. eapply Forall_impl; [exact idle_remembered0|]. intros m Hm. by apply Hmono.
Qed.

(** The same when the second run finds everything. *)
Lemma idle_found nA nB msA idA mA mB :
  idle_sim nA nB → List.filter lateMsg msA = [] →
  (∀ n m, remembered n m → remembered (mB n) m) → Forall (remembered (mB nB)) msA →
  (∀ n : nftState K, sameEnv n (mB n)) → (∀ n : nftState RK, sameEnv n (mA n)) →
  idle_sim (mA (emit msA idA nA)) (mB nB).
Proof.
  intros Hs Hl ? ? ? ?. rewrite <-(emit_nil nB). apply idle_step; try done; [by rewrite Hl|by rewrite emit_nil].
Qed.

Lemma present_stored m : lateMsg m = false → present m → stored k m.
Proof. unfold present. by intros ->. Qed.

Abbreviation upto := (Forall present).

Lemma idle_addChain c : steps idle_sim upto (addChain c) (addChain c) eq.
Proof.
  split; [apply grows_addChain|].
  intros nA nB a nA' Hs. rewrite (first_addChain nA c (idle_empty _ _ Hs)). cbn.
    intros [= <- <-] [_ [Hst%present_stored _]%Forall_cons]%Forall_app; [|by apply andb_false_r]. cbn in Hst.
    rewrite addChain_quiet by (by rewrite (idle_kern _ _ Hs)). cbv zeta. rewrite (idle_kern _ _ Hs).
    rewrite Hst. eexists _, _. split; [done|]. split; [done|].
    apply (idle_found _ _ _ _ (remember_chain _) (remember_chain _)); try done.
    + cbn. unfold lateMsg. by rewrite andb_false_r.
    + intros n m. apply remember_chain_mono.
    + constructor; [|constructor]. cbn. by rewrite lookup_insert_eq.
Qed.

Lemma dumpRule_id r : Forall (exprOk (eq 0)) (Rule_Exprs r) → dumpRule r = r.
Proof.
  intros Hr. unfold dumpRule. destruct r; cbn in *. unfold set_Rule_Exprs. cbn. f_equal.
  induction Hr as [|e es He _ IH]; [done|]. cbn. rewrite IH. f_equal. destruct e; cbn in *; by subst.
Qed.

Lemma idle_updateRule rA rB mk fA fB :
  (mk = MNewRule ∨ mk = MInsertRule) → Rule_Handle rA = 0 → eqRule (eq 0) rA rB → fB = false →
  steps idle_sim upto (updateRule rA (writeRule mk) fA) (updateRule rB (writeRule mk) fB)
    (λ _ b, looksUp rB = false → b = false).
Proof.
  intros Hmk Hh [Hd <-%dumpRule_id] ->. rewrite <-Hd, looksUp_dump. clear Hd rB.
  pose proof (total rA) as HtA. destruct (hash_rule rA) as [keyA|] eqn:EkA; [|done].
  split; [by apply grows_updateRule|].
  intros nA nB a nA' Hs. rewrite (first_updateRule nA _ _ _ keyA (idle_empty _ _ Hs) EkA Hh). cbn.
    intros [= <- <-] [_ [Hst _]%Forall_cons]%Forall_app.
    set (rA' := set_Rule_ID _ rA) in *.
    pose proof (total (dumpRule rA)) as HtB. destruct (hash_rule (dumpRule rA)) as [keyB|] eqn:EkB; [|done].
    assert (∀ x (n : nftState K), Forall (remembered (remember_rule keyB x n)) [mk rA']) as Hrem.
    { intros x n. constructor; [|constructor].
      assert (∃ key, hash_rule (dumpRule rA') = Ok key ∧ is_Some (rules (remember_rule keyB x n) !! key)) as Hr.
      { exists keyB. split; [exact EkB|]. cbn. by rewrite lookup_insert_eq. }
      by destruct Hmk as [-> | ->]. }
    assert (lateMsg (mk rA') = late && looksUp rA) as Hlate by (by destruct Hmk as [-> | ->]).
    unfold present in Hst. rewrite Hlate in Hst. destruct (late && looksUp rA) eqn:El.
    + assert (absent rA) as (rs & Hrs & Hno) by (by destruct Hmk as [-> | ->]).
      rewrite (updateRule_quiet _ _ _ _ rs keyB) by (rewrite ?(idle_kern _ _ Hs); done).
      cbv zeta. rewrite Hno. eexists _, _. split; [done|]. split; [by apply andb_true_iff in El as [_ ->]|].
      apply (idle_step _ _ _ _ (remember_rule keyA rA') _ _ (remember_rule keyB _)); try done.
      * cbn. rewrite Hlate. by destruct Hmk as [-> | ->]; cbn; unfold dumpRule; cbn; rewrite dump_twice.
      * intros n m. apply remember_rule_mono.
    + assert (∃ rs ex, rulesAt k (Rule_Table rA) (Chain_Name (Rule_Chain rA)) = Ok rs ∧
               List.find (ruleEqual (dumpRule rA)) rs = Some ex) as (rs & ex & Hrs & Hex)
        by (by destruct Hmk as [-> | ->]).
      rewrite (updateRule_quiet _ _ _ _ rs keyB) by (rewrite ?(idle_kern _ _ Hs); done).
      cbv zeta. rewrite Hex. eexists _, _. split; [done|]. split; [done|].
      apply (idle_found _ _ _ _ (remember_rule keyA rA') (remember_rule keyB ex)); try done.
      * cbn. by rewrite Hlate.
      * intros n m. apply remember_rule_mono.
Qed.

Lemma idle_updateSet sA sB elsA elsB :
  eqSet (eq 0) sA sB → elsA ≠ [] → sameKeys elsA elsB →
  steps idle_sim upto (updateSet sA elsA) (updateSet sB elsB) (eqSet (eq 0)).
Proof.
  intros (i & <- & ->) Hne Hsame.
  split; [by apply grows_updateSet|].
  intros nA nB a nA' Hs Ha. destruct (first_updateSet nA sA elsA a nA' (idle_empty _ _ Hs) Hne Ha) as (_ & id & last & [= -> ->]). cbn.
    intros [_ [Hset [Hel%present_stored _]%Forall_cons]%Forall_cons]%Forall_app; [|by apply andb_false_r].
    destruct Hel as (ex & exEls & Hex & Hanon & Hels & Hk).
    rewrite (updateSet_quiet_existing _ _ _ ex exEls) by (rewrite ?(idle_kern _ _ Hs); done).
    rewrite processElements_same by (intros key; by rewrite <-(Hsame key), (Hk key)). cbn.
    eexists _, _. split; [done|]. split; [by exists 0|].
    rewrite emit_nil.
    apply (idle_found _ _ _ _ (remember_set _ _) (remember_set _ _)); try done.
    + cbn. unfold lateMsg. by rewrite !andb_false_r.
    + intros n m. apply remember_set_mono.
    + constructor; [|constructor; [done|constructor]]. cbn. by rewrite lookup_insert_eq.
Qed.

Lemma idle_fields nA nB nA' nB' :
  idle_sim nA nB → keeps nA nA' → keeps nB nB' → chainFields nA' = chainFields nB' →
  option_Forall2 (eqSet (eq 0)) (interfaceFilterSet nA') (interfaceFilterSet nB') →
  option_Forall2 (eqSet (eq 0)) (interfaceNatSet nA') (interfaceNatSet nB') → idle_sim nA' nB'.
Proof.
  intros [] (A1 & A2 & A3 & _) (B1 & B2 & B3 & B4 & B5 & B6) ? ? ?.
  split; rewrite ?A1, ?A2, ?A3, ?B1, ?B2, ?B3; try done.
  eapply Forall_impl; [done|]. intros m. unfold remembered. by rewrite B4, B5, B6.
Qed.

Lemma stored_prefix ms ms' : ms `prefix_of` ms' → upto ms' → upto ms.
Proof. intros [l ->] Hms. by apply Forall_app in Hms as []. Qed.

Definition idleRel : RunRel K := {|
  sim := idle_sim; Lockstep.upto := upto; id_ok := eq 0; flag_ok := λ b, b = false;
  sim_empty := idle_empty; sim_filter := idle_filter; sim_nat := idle_nat; sim_chains := idle_chains;
  sim_fset := idle_fset; sim_nset := idle_nset; sim_fields := idle_fields;
  upto_prefix := stored_prefix;
  id_zero := eq_refl; flag_false := eq_refl;
  steps_addChain := idle_addChain; steps_updateRule := idle_updateRule; 
  steps_updateSet sA sB elsA elsB Hs Hne He := idle_updateSet sA sB elsA elsB Hs Hne (sameElems_keys _ _ He) |}.
End sim.

(** ** The sync *)

Section idle.
Context {K : Type} `{LawfulKernel K} `{Gob} `{Arch} `{LabelApi}.
Variable k : K.
Hypothesis total : gob_total.
Variables oA oB : MapOrder.
Variables (deps : PolicyDeps) (cfg : CommonRuleConfig) (pod : Pod) (podInfo : PodInfo).
Hypothesis plain_info : plainPod podInfo.
Hypothesis plain_deps : ∀ pod pi, GetPodInfo deps pod = Ok pi → plainPod pi.
Abbreviation n0 k := (startState (newConn k)).

(** *** The cleanup *)

Definition rulesOf (c : Chain) : list Rule :=
  match rulesAt k (Chain_Table c) (Chain_Name c) with Ok rs => rs | Err _ => [] end.

Section cleanup.
Variables (nA : nftState RK) (nB : nftState K).
Hypothesis Hs : idle_sim k false nA nB.
Hypothesis Hset : settled k (messages (nft nA)).
Abbreviation ms := (messages (nft nA)).

Lemma idle_rem m : m ∈ ms → remembered nB m.
Proof. apply (proj1 (Forall_forall _ _) (idle_remembered _ _ _ _ Hs)). Qed.

Lemma idle_still : nft nB = newConn k.
Proof.
  apply (idle_conn _ _ _ _ Hs). pose proof (idle_messages _ _ _ _ Hs) as Hm.
  rewrite filter_none in Hm by done. by apply fmap_nil_inv in Hm.
Qed.

Lemma settled_own : ∃ chs, (k_ListChainsOfTableFamily TableFamilyINet k).1 = Ok chs ∧
  ∀ c, c ∈ chs → own_chain c →
    Chain_Table c ∈ ownTables ∧ unused_chain nB c = false ∧
    rulesAt k (Chain_Table c) (Chain_Name c) = Ok (rulesOf c) ∧ List.filter (stale nB) (rulesOf c) = [].
Proof.
  destruct (settled_chains _ _ Hset) as (chs & Hchs & Hc). exists chs. split; [done|]. intros c Hin Ho.
  destruct (Hc c Hin Ho) as (Ht & Hw & rs & Hrs & Hall). unfold rulesOf. rewrite Hrs.
  split_and!; [done|by apply (wroteChain_used ms); [intros; apply idle_rem|]|done|]. apply filter_none. intros r Hr.
  apply (wroteRule_not_stale ms); [intros; by apply idle_rem|]. rewrite Forall_forall in Hall. by apply Hall.
Qed.

Lemma idle_cleanupRules tb : tb ∈ ownTables → cleanupRules tb nB = (Ok tt, nB).
Proof.
  intros Htb. destruct settled_own as (chs & Hchs & Hc).
  destruct (settled_sets _ _ Hset tb Htb) as (ss & Hss & Hsets).
  assert (Table_Family tb = TableFamilyINet) as HF.
  { revert Htb. unfold ownTables. rewrite !elem_of_cons, elem_of_nil. by intros [->|[->|[]]]. }
  assert (∀ c, c ∈ chs → of_table tb c = true →
    rulesAt k tb (Chain_Name c) = Ok (rulesOf (regularChain (Chain_Name c) tb)) ∧
    List.filter (stale nB) (rulesOf (regularChain (Chain_Name c) tb)) = []) as Hof.
  { intros c Hin Ho%bool_decide_eq_true. destruct (Hc c Hin) as (Ht & _ & Hrs & Hfil).
    { apply own_ownTables. rewrite Ho. by apply list_elem_of_fmap; exists tb. }
    assert (Chain_Table c = tb) as E by (by apply ownTables_name).
    unfold rulesOf in *. cbn. rewrite E in *. done. }
  pose proof idle_still as Hn.
  rewrite (cleanupRules_quiet nB tb chs (λ name, rulesOf (regularChain name tb)) ss);
    rewrite ?Hn; cbn [kern newConn messages conn_err]; rewrite ?HF; try done; [|apply Hset|].
  - rewrite decide_True; [done|]. assert (stale_rules nB tb (λ name, rulesOf (regularChain name tb)) chs = []) as ->.
    { clear -Hof. unfold stale_rules. induction chs as [|c chs IH]; [done|]. cbn.
      rewrite IH by (intros; apply Hof; [by right|done]). destruct (of_table tb c) eqn:E; [|done].
      destruct (Hof c) as [_ ->]; [by left|done|done]. }
    unfold unused_sets. rewrite filter_none; [done|]. intros x (s & -> & Hx)%list_elem_of_fmap.
    rewrite Forall_forall in Hsets. apply (wroteSet_used ms); [intros; by apply idle_rem|by apply Hsets].
  - intros c Hin Ho. by apply Hof.
Qed.

Lemma idle_cleanupChains : cleanupChains nB = (Ok tt, nB).
Proof.
  destruct settled_own as (chs & Hchs & Hc). pose proof idle_still as Hn.
  assert (∀ c, managed nB c = true → own_chain c) as Hm.
  { intros c Hc'%bool_decide_eq_true. destruct (idle_own _ _ _ _ Hs) as [Hf Hnat]. rewrite Hf, Hnat in Hc'. exact Hc'. }
  rewrite (cleanupChains_quiet nB chs rulesOf);
    rewrite ?Hn; cbn [kern newConn messages conn_err]; try done; [|apply Hset|].
  - rewrite decide_True; [done|]. rewrite filter_none; [done|]. intros c Hin. unfold dead_chain.
    destruct (unused_chain nB c) eqn:E; [|done]. destruct (Hc c Hin) as (_ & E' & _); [|congruence].
    apply Hm. by apply andb_true_iff in E as [].
  - intros c Hin Hc'. by apply Hc; [|apply Hm].
Qed.

Lemma idle_cleanup : cleanup nB = (Ok tt, set_maps ∅ ∅ ∅ nB).
Proof.
  destruct (idle_own _ _ _ _ Hs) as [Hf Hnat]. unfold cleanup, mbind, ST_bind, wrapST. rewrite Hf.
  rewrite idle_cleanupRules by set_solver. rewrite Hnat, idle_cleanupRules by set_solver.
  by rewrite idle_cleanupChains.
Qed.
End cleanup.

(** *** The whole sync *)

Lemma addTable_stored tb (n : nftState K) :
  quiet k → nft n = newConn k → stored k (MNewTable tb) → onNft (addTable tb) n = (Ok tb, n).
Proof.
  intros Hq Hn Hst. apply onNft_pure. unfold addTable, mbind, ST_bind, try, ListTableOfFamily.
  rewrite read_quiet by (rewrite Hn; by apply quiet_ListTableOfFamily). rewrite Hn. cbn in *. by rewrite Hst.
Qed.

Lemma tables_settled :
  quiet k → CleanupLegacyTables (newConn k) = (Ok tt, newConn k) → Forall (stored k) (MNewTable <$> ownTables) →
  (onNft CleanupLegacyTables ≫= λ _, bootstrapTables) (n0 k) =
  (Ok tt, newState (newConn k) (inetTable FilterTableName) (inetTable NatTableName)).
Proof.
  intros Hq Hl [Hf [Hnat _]%Forall_cons]%Forall_cons. unfold mbind at 1, ST_bind at 1.
  rewrite (onNft_pure _ _ (Ok tt)) by (cbn; by rewrite Hl). unfold bootstrapTables, mbind, ST_bind, wrapST.
  by rewrite !addTable_stored.
Qed.

(** The two runs up to the flush. *)
Lemma idle_generate (late : bool) ps1 ps2 nA' :
  PI_Interfaces podInfo ≠ [] → NoDup (policyNamespacedName <$> ps1) → ps1 ≡ₚ ps2 →
  quiet k → CleanupLegacyTables (newConn k) = (Ok tt, newConn k) →
  @generate RK _ _ _ _ oA deps cfg ps1 pod podInfo (n0 emptyRK) = (Ok tt, nA') →
  Forall (present k late) (messages (nft nA')) →
  ∃ nB, @generate K _ _ _ _ oB deps cfg ps2 pod podInfo (n0 k) = (Ok tt, nB) ∧ idle_sim k late nA' nB.
Proof.
  intros Hne Hnd Hp Hq Hl. pose proof tables_empty as HtA.
  rewrite (generate_run (H3:=oA) deps cfg ps1 pod podInfo _ _ Hne HtA).
  match goal with |- context [generateRest _ _ _ _ _ ?n] => set (nA := n) end.
  intros EA Hst.
  destruct (rel_generateRest (idleRel k Hq total late) oA oB deps cfg pod podInfo plain_info plain_deps ps1 ps2 Hne Hnd Hp) as [Hgrows Hrun].
  destruct (Hgrows nA _ _ eq_refl EA) as [_ [ms Hms]].
  pose proof Hst as Htb. rewrite Hms in Htb. apply Forall_app in Htb as [Htb _].
  assert (Forall (stored k) (MNewTable <$> ownTables)) as Htb'.
  { apply Forall_cons in Htb as [Ht1 [Ht2 _]%Forall_cons].
    repeat constructor; (eapply (present_stored k late); [by apply andb_false_r|eassumption]). }
  assert (idle_sim k late nA (newState (newConn k) (inetTable FilterTableName) (inetTable NatTableName))) as Hs0.
  { split; try reflexivity; [|by split|by constructor..|].
    - cbn. unfold lateMsg. by rewrite !andb_false_r.
    - unfold nA. by repeat constructor. }
  destruct (Hrun _ _ _ _ Hs0 EA Hst) as ([] & nB & EB & _ & Hs). exists nB. split; [|done].
  by rewrite (generate_run (H3:=oB) deps cfg ps2 pod podInfo _ _ Hne (tables_settled Hq Hl Htb')).
Qed.

Lemma idle_sync ps1 ps2 :
  PI_Interfaces podInfo ≠ [] →
  NoDup (policyNamespacedName <$> ps1) → ps1 ≡ₚ ps2 →
  (@generate RK _ _ _ _ oA deps cfg ps1 pod podInfo (n0 emptyRK)).1 = Ok tt →
  settled k (wanted oA deps cfg pod podInfo ps1) →
  ∃ n', @ApplyPolicyRulesForPodAndFamily K _ _ _ _ oB deps cfg ps2 pod podInfo (n0 k) = (Ok tt, n') ∧
        nft n' = newConn k.
Proof.
  unfold wanted. intros Hne Hnd Hp.
  destruct (@generate RK _ _ _ _ oA deps cfg ps1 pod podInfo (n0 emptyRK)) as [r nA'] eqn:EA. cbn [fst snd]. intros -> Hset.
  destruct (idle_generate false ps1 ps2 nA' Hne Hnd Hp (settled_quiet _ _ Hset) (settled_legacy _ _ Hset) EA) as (nB & EB & Hs);
    [apply Hset|].
  rewrite apply_generate. unfold mbind at 1, ST_bind at 1. rewrite EB.
  unfold mbind, ST_bind, wrapST. rewrite (onNft_pure _ _ (Ok tt)) by (rewrite (idle_still _ _ Hs); done). cbn [wrap].
  rewrite (idle_cleanup _ _ Hs Hset). eexists. split; [done|]. by apply (idle_still _ _ Hs).
Qed.

(** C3: a sync of a namespace that holds what a sync of an empty namespace
    writes, and nothing more in the daemon's two tables, succeeds and sends
    nothing at all: no rule is rewritten, no set element touched, nothing
    removed. That holds however Go happens to order the policies and the
    addresses of the selected pods in the two syncs. *)
Theorem settled_sync_idle ps1 ps2 :
  PI_Interfaces podInfo ≠ [] →
  NoDup (policyNamespacedName <$> ps1) → ps1 ≡ₚ ps2 →
  (@generate RK _ _ _ _ oA deps cfg ps1 pod podInfo (n0 emptyRK)).1 = Ok tt →
  settled k (wanted oA deps cfg pod podInfo ps1) →
  ∃ n', @ApplyPolicyRulesForPodAndFamily K _ _ _ _ oB deps cfg ps2 pod podInfo (n0 k) = (Ok tt, n') ∧
        nft n' = newConn k.
Proof. apply idle_sync. Qed.
End idle.
