(* ===== verification/Written.v ===== *)
(** * What the messages of a sync make of chains and sets

    The rules of a chain and the elements of a set of a new namespace as
    functions of the messages sent, and that a sync of a kernel that shows an
    empty namespace sends messages that make the same of them as the first run
    of the logic of [Lockstep] does, whatever the order of its maps. *)

From S2P Require Import Prelude GoStd Names Nft Netip Api Elements Conn RefKernel NfTables State Legacy Rules Cleanup Server VM Fresh Semantics Verdict Meaning Typing Settled Lockstep Idle.

(** ** The rules of a chain *)

(** What the kernel shows of a chain. *)
Definition chainRules (k : RK) (t : Table) (z : gostring) : list (list expr.Any) :=
  Rule_Exprs <$> List.filter (in_chain t z) (rk_rules k).

(** What a message that adds a rule makes of the rules of a chain. *)
Definition inPlace (t : Table) (z : gostring) (r : Rule) : bool :=
  bool_decide (Rule_Table r = t ∧ Chain_Name (Rule_Chain r) = z).
Definition place (t : Table) (z : gostring) (l : list (list expr.Any)) (m : msg) : list (list expr.Any) :=
  match m with
  | MNewRule r => if inPlace t z r then l ++ [dumpExpr <$> Rule_Exprs r] else l
  | MInsertRule r => if inPlace t z r then (dumpExpr <$> Rule_Exprs r) :: l else l
  | _ => l
  end.
Definition placed (t : Table) (z : gostring) : list (list expr.Any) → list msg → list (list expr.Any) :=
  foldl (place t z).

Lemma placed_app t z l ms ms' : placed t z l (ms ++ ms') = placed t z (placed t z l ms) ms'.
Proof. apply foldl_app. Qed.

(** Messages that remove and replace nothing. *)
Definition adds (m : msg) : bool :=
  match m with
  | MNewTable _ | MNewChain _ | MNewRule _ | MInsertRule _ | MNewSet _ | MNewSetElem _ _ => true
  | _ => false
  end.

Lemma stored_adds {K} `{Kernel K} k m : stored k m → adds m = true.
Proof. by destruct m. Qed.

Lemma in_chain_store t z h r : 0 < h → in_chain t z (storeRule h r) = inPlace t z r.
Proof. intros Hh. unfold in_chain, inPlace. cbn. apply bool_decide_ext. split; [by intros (? & ? & _)|]. intros []. split_and!; [done..|lia]. Qed.

Lemma chainRules_place k m t z :
  adds m = true → 0 < rk_next k →
  chainRules (rk_step k m) t z = place t z (chainRules k t z) m ∧ 0 < rk_next (rk_step k m).
Proof.
  intros Ha Hn. destruct k as [ts cs rs ss h]. unfold chainRules. cbn in *.
  destruct m; try done; cbn; (split; [|lia]).
  - rewrite List.filter_app, fmap_app. cbn. rewrite in_chain_store by done. destruct (inPlace t z r); cbn; [done|].
    by rewrite app_nil_r.
  - rewrite in_chain_store by done. by destruct (inPlace t z r).
Qed.

Lemma chainRules_foldl ms k t z :
  Forall (λ m, adds m = true) ms → 0 < rk_next k →
  chainRules (foldl rk_step k ms) t z = placed t z (chainRules k t z) ms.
Proof.
  intros Ha. revert k. induction Ha as [|m ms Hm _ IH]; intros k Hn; cbn; [done|].
  destruct (chainRules_place k m t z Hm Hn) as [E Hn']. by rewrite IH, E.
Qed.

Lemma place_dump t z l m : place t z l (dumpMsg m) = place t z l m.
Proof. destruct m; cbn; try done; by rewrite dump_twice. Qed.
Lemma placed_dump t z l ms : placed t z l (dumpMsg <$> ms) = placed t z l ms.
Proof. revert l. induction ms as [|m ms IH]; intros l; cbn; [done|]. by rewrite place_dump, IH. Qed.

(** Rules of a chain that look up no set. *)
Definition steady (es : list expr.Any) : bool := negb (existsb isLookup es).
Definition steadyMsg (m : msg) : bool := negb (lookMsg m).

Lemma isLookup_dump es : existsb isLookup (dumpExpr <$> es) = existsb isLookup es.
Proof. exact (looksUp_dump (mkRule (mkTable [] 0) (regularChain [] (mkTable [] 0)) 0 0 es [])). Qed.

Lemma steady_dump es : steady (dumpExpr <$> es) = negb (existsb isLookup es).
Proof. unfold steady. by rewrite isLookup_dump. Qed.

Lemma placed_steady t z l ms :
  List.filter steady (placed t z l ms) = placed t z (List.filter steady l) (List.filter steadyMsg ms).
Proof.
  revert l. induction ms as [|m ms IH]; intros l; cbn; [done|]. rewrite IH. clear IH.
  assert (List.filter steady (place t z l m) =
    if steadyMsg m then place t z (List.filter steady l) m else List.filter steady l) as ->;
    [|by destruct (steadyMsg m)].
  unfold steadyMsg. destruct m as [| | | |r|r| | | | | |]; cbn; try done; change (looksUp r) with (existsb isLookup (Rule_Exprs r));
    (destruct (inPlace t z r); [|by destruct (existsb _ _)]);
    rewrite ?List.filter_app; cbn; rewrite steady_dump; destruct (existsb _ _); cbn; rewrite ?app_nil_r; done.
Qed.

Lemma elem_of_both m ms : m ∈ List.filter steadyMsg ms ++ List.filter lookMsg ms ↔ m ∈ ms.
Proof.
  rewrite elem_of_app, !list_elem_of_In, !filter_In. unfold steadyMsg. destruct (lookMsg m); cbn; naive_solver.
Qed.

(** A chain whose rules are of one kind is not reordered. *)
Definition uniform (t : Table) (z : gostring) (ms : list msg) (b : bool) : Prop :=
  ∀ r, MNewRule r ∈ ms ∨ MInsertRule r ∈ ms → inPlace t z r = true → looksUp r = b.

Lemma placed_skip t z l ms (p : msg → bool) :
  (∀ m, m ∈ ms → p m = false → place t z [] m = []) →
  placed t z l (List.filter p ms) = placed t z l ms.
Proof.
  revert l. induction ms as [|m ms IH]; intros l Hp; cbn; [done|].
  assert (∀ l, placed t z l (List.filter p ms) = placed t z l ms) as IH' by (intros; apply IH; set_solver).
  destruct (p m) eqn:E; [apply IH'|]. rewrite IH'. f_equal.
  specialize (Hp m ltac:(by left) E). destruct m; cbn in *; try done; by destruct (inPlace t z r).
Qed.

Lemma placed_none t z l ms : (∀ m, m ∈ ms → place t z [] m = []) → placed t z l ms = l.
Proof.
  intros Hm. rewrite <-(placed_skip t z l ms (λ _, false)) by auto. by rewrite filter_none.
Qed.

Lemma elem_placed t z l ms es : es ∈ l → es ∈ placed t z l ms.
Proof.
  revert l. induction ms as [|m ms IH]; intros l Hl; cbn; [done|]. apply IH.
  destruct m; cbn; try done; destruct (inPlace t z r); set_solver.
Qed.
Lemma placed_complete t z l ms r :
  MNewRule r ∈ ms ∨ MInsertRule r ∈ ms → inPlace t z r = true → dumpExpr <$> Rule_Exprs r ∈ placed t z l ms.
Proof.
  intros Hr Hp. revert l. induction ms as [|m ms IH]; intros l; [by destruct Hr as [?%not_elem_of_nil|?%not_elem_of_nil]|].
  cbn. rewrite !elem_of_cons in Hr. destruct Hr as [[<-|Hr]|[<-|Hr]]; [|by apply IH; left| |by apply IH; right];
    apply elem_placed; cbn; rewrite Hp; set_solver.
Qed.

Lemma placed_uniform t z ms b :
  uniform t z ms b →
  placed t z [] (List.filter steadyMsg ms ++ List.filter lookMsg ms) = placed t z [] ms.
Proof.
  intros Hu. unfold placed. rewrite foldl_app. fold (placed t z). fold (placed t z [] (List.filter steadyMsg ms)).
  change (placed t z (placed t z [] (List.filter steadyMsg ms)) (List.filter lookMsg ms) = placed t z [] ms).
  assert (∀ m, m ∈ ms → lookMsg m = negb b → place t z [] m = []) as Hno.
  { intros m Hm Hl. destruct m; cbn in *; try done; destruct (inPlace t z r) eqn:E; try done;
      rewrite (Hu r) in Hl by auto; by destruct b. }
  destruct b.
  - rewrite (placed_none t z [] (List.filter steadyMsg ms)).
    + apply placed_skip. intros m Hm Hl. by apply Hno.
    + intros m Hm. apply list_elem_of_In, filter_In in Hm as [Hm Hs]. apply negb_true_iff in Hs.
      apply Hno; [by apply list_elem_of_In|done].
  - rewrite (placed_none t z _ (List.filter lookMsg ms)).
    + apply placed_skip. intros m Hm Hs. apply negb_false_iff in Hs. by apply Hno.
    + intros m Hm. apply list_elem_of_In, filter_In in Hm as [Hm Hs]. apply Hno; [by apply list_elem_of_In|done].
Qed.

(** ** Sets *)

(** What a message makes of a set. *)
Definition setStep (t : Table) (z : gostring) (o : option (NftSet * list SetElement)) (m : msg) :=
  match m with
  | MNewSet s => if bool_decide (Set_Table s = t ∧ Set_Name s = z)
                 then match o with Some x => Some x | None => Some (storeSet s, []) end else o
  | MNewSetElem s els => if bool_decide (Set_Table s = t ∧ Set_Name s = z)
                         then (λ x : NftSet * list SetElement, (x.1, x.2 ++ els)) <$> o else o
  | _ => o
  end.

Lemma find_set_step k m t z : adds m = true → find_set (rk_step k m) t z = setStep t z (find_set k t z) m.
Proof.
  destruct k as [ts cs rs ss h]. destruct m as [| | | | | | | |s| |s els|]; try done; intros _; unfold find_set; cbn [rk_step rk_sets setStep].
  - destruct (existsb _ ss) eqn:Ex.
    + case_bool_decide as Hs; [|done]. destruct Hs as [<- <-].
      apply existsb_elem in Ex as (x & Hx & Hsame). destruct (List.find _ ss) eqn:E; [done|].
      exfalso. apply list_elem_of_In in Hx. by rewrite (find_none _ _ E x Hx) in Hsame.
    + rewrite find_app. cbn. unfold same_set at 2. cbn. case_bool_decide as Hs; [done|]. by destruct (List.find _ ss).
  - induction ss as [|x ss IH]; cbn [fmap list_fmap List.find]; [by case_bool_decide|].
    assert (same_set t z (if same_set (Set_Table s) (Set_Name s) x then (x.1, x.2 ++ els) else x) = same_set t z x) as ->
      by (by destruct (same_set (Set_Table s) _ x)).
    destruct (same_set t z x) eqn:Ez; [|exact IH]. apply same_set_spec in Ez as [<- <-].
    unfold same_set. case_bool_decide as Hs; case_bool_decide as Hs'; naive_solver.
Qed.

Lemma find_set_foldl ms k t z :
  Forall (λ m, adds m = true) ms → find_set (foldl rk_step k ms) t z = foldl (setStep t z) (find_set k t z) ms.
Proof.
  intros Hms. revert k. induction Hms as [|m ms Hm _ IH]; intros k; cbn; [done|]. by rewrite IH, find_set_step.
Qed.

(** ** A kernel that shows an empty namespace *)

(** The sets of the second run are those of the first, with the same elements
    in any order. *)
Definition sameSet (x y : NftSet * list SetElement) : Prop := x.1 = y.1 ∧ sameElems x.2 y.2.

Lemma setStep_sameSet t z o o' s s' els els' i :
  option_Forall2 sameSet o o' → s' = set_Set_ID i s → sameElems els els' →
  option_Forall2 sameSet (foldl (setStep t z) o [MNewSet s; MNewSetElem s els])
    (foldl (setStep t z) o' [MNewSet s'; MNewSetElem s' els']).
Proof.
  intros Ho -> Hels. cbn. case_bool_decide; [|done]. destruct Ho as [x y [Hx Hy]|]; cbn; constructor; (split; [done|]).
  - intros e. cbn. rewrite !elem_of_app. specialize (Hy e). specialize (Hels e). naive_solver.
  - done.
Qed.
Section mirror.
Context {K : Type} `{NfTables K} `{Gob}.
Variable k0 : K.
Hypothesis empty : shown k0 = emptyRK.
Hypothesis total : gob_total.

Definition anyId (i : Z) : Prop := True.

(** The first run in the empty namespace, the second in [k0]: both messages
    make the same chains and sets. *)
Record mirror_sim (nA : nftState RK) (nB : nftState K) : Prop := {
  mir_empty : kern (nft nA) = emptyRK;
  mir_kern : kern (nft nB) = k0;
  mir_filter : filterT nA = filterT nB;
  mir_nat : natT nA = natT nB;
  mir_chains : chainFields nA = chainFields nB;
  mir_fset : option_Forall2 (eqSet anyId) (interfaceFilterSet nA) (interfaceFilterSet nB);
  mir_nset : option_Forall2 (eqSet anyId) (interfaceNatSet nA) (interfaceNatSet nB);
  mir_adds : Forall (λ m, adds m = true) (messages (nft nB));
  mir_placed t z : placed t z [] (messages (nft nB)) = placed t z [] (messages (nft nA));
  mir_sets t z : option_Forall2 sameSet (foldl (setStep t z) None (messages (nft nA)))
                   (foldl (setStep t z) None (messages (nft nB))) }.

Local Abbreviation sameEnv n n' := (
  nft n' = nft n ∧ filterT n' = filterT n ∧ natT n' = natT n ∧ chainFields n' = chainFields n ∧
  interfaceFilterSet n' = interfaceFilterSet n ∧ interfaceNatSet n' = interfaceNatSet n).

(** A step of both runs that sends messages that make the same. *)
Lemma mirror_step nA nB msA idA msB idB (fA : nftState RK → nftState RK) (fB : nftState K → nftState K) :
  mirror_sim nA nB → (∀ n, sameEnv n (fA n)) → (∀ n, sameEnv n (fB n)) →
  Forall (λ m, adds m = true) msB → (∀ t z l, placed t z l msB = placed t z l msA) →
  (∀ t z o o', option_Forall2 sameSet o o' → option_Forall2 sameSet (foldl (setStep t z) o msA) (foldl (setStep t z) o' msB)) →
  mirror_sim (fA (emit msA idA nA)) (fB (emit msB idB nB)).
Proof.
  intros [] HA HB Hadd Hpl Hset. destruct (HA (emit msA idA nA)) as (A1 & A2 & A3 & A4 & A5 & A6).
  destruct (HB (emit msB idB nB)) as (B1 & B2 & B3 & B4 & B5 & B6).
  split; rewrite ?A1, ?A2, ?A3, ?A4, ?A5, ?A6, ?B1, ?B2, ?B3, ?B4, ?B5, ?B6; try done; cbn.
  - by apply Forall_app.
  - intros t z. rewrite !placed_app. by rewrite mir_placed0, Hpl.
  - intros t z. rewrite !foldl_app. by apply Hset.
Qed.

Abbreviation upto := (λ _ : list msg, True).

Lemma mirror_addChain c : steps mirror_sim upto (addChain c) (addChain c) eq.
Proof.
  split; [apply grows_addChain|]. intros nA nB a nA' Hs. rewrite (first_addChain nA c (mir_empty _ _ Hs)).
  intros [= <- <-] _. rewrite empty_addChain by (by rewrite (mir_kern _ _ Hs)). eexists _, _. split; [done|].
  split; [done|]. apply (mirror_step _ _ _ _ _ _ (remember_chain _) (remember_chain _)); try done. by constructor.
Qed.

Lemma mirror_updateRule rA rB mk fA fB :
  (mk = MNewRule ∨ mk = MInsertRule) → Rule_Handle rA = 0 → eqRule anyId rA rB → True →
  steps mirror_sim upto (updateRule rA (writeRule mk) fA) (updateRule rB (writeRule mk) fB) (λ _ _, looksUp rB = false → True).
Proof.
  intros Hmk Hh [Hd _] _. split; [by apply grows_updateRule|]. intros nA nB a nA' Hs.
  pose proof (total rA) as HtA. destruct (hash_rule rA) as [keyA|] eqn:EkA; [|done].
  pose proof (total rB) as HtB. destruct (hash_rule rB) as [keyB|] eqn:EkB; [|done].
  injection Hd as HT HC HH HI HE HU.
  rewrite (first_updateRule nA _ _ _ keyA (mir_empty _ _ Hs) EkA Hh). intros [= <- <-] _.
  rewrite (empty_updateRule nB) with (key := keyB) by (rewrite ?(mir_kern _ _ Hs); congruence).
  eexists _, _. split; [done|]. split; [done|].
  apply (mirror_step _ _ _ _ _ _ (remember_rule _ _) (remember_rule _ _)); try done.
  - constructor; [|done]. by destruct Hmk as [-> | ->].
  - intros t z l. unfold placed. destruct Hmk as [-> | ->]; cbn; unfold inPlace; cbn; by rewrite HT, HC, HE.
  - intros t z o o'. by destruct Hmk as [-> | ->].
Qed.

Lemma mirror_updateSet sA sB elsA elsB :
  eqSet anyId sA sB → elsA ≠ [] → sameElems elsA elsB →
  steps mirror_sim upto (updateSet sA elsA) (updateSet sB elsB) (eqSet anyId).
Proof.
  intros (i & _ & ->) Hne Hels. split; [by apply grows_updateSet|]. intros nA nB a nA' Hs Ha _.
  assert (elsB ≠ []) as HneB.
  { intros ->. destruct elsA as [|e elsA]; [done|]. assert (e ∈ ([] : list SetElement)) as ?%not_elem_of_nil by (apply Hels; by left). done. }
  destruct (first_updateSet nA sA elsA a nA' (mir_empty _ _ Hs) Hne Ha) as (Hf & id & last & [= -> ->]).
  pose proof (empty_updateSet nB) as HB. rewrite (mir_kern _ _ Hs) in HB.
  specialize (HB empty (set_Set_ID i sA) elsB HneB). change (fickle (set_Set_ID i sA)) with (fickle sA) in HB.
  rewrite Hf in HB. destruct HB as (id' & last' & ->). eexists _, _. split; [done|]. split; [by exists id'|].
  apply (mirror_step _ _ _ _ _ _ (remember_set _ _) (remember_set _ _)); try done; [by repeat constructor|].
  intros t z o o' Ho. by apply (setStep_sameSet t z o o' _ _ _ _ id').
Qed.

Lemma mirror_fields nA nB nA' nB' :
  mirror_sim nA nB → Lockstep.keeps nA nA' → Lockstep.keeps nB nB' → chainFields nA' = chainFields nB' →
  option_Forall2 (eqSet anyId) (interfaceFilterSet nA') (interfaceFilterSet nB') →
  option_Forall2 (eqSet anyId) (interfaceNatSet nA') (interfaceNatSet nB') → mirror_sim nA' nB'.
Proof.
  intros [] (A1 & A2 & A3 & _) (B1 & B2 & B3 & _) ? ? ?. by split; rewrite ?A1, ?A2, ?A3, ?B1, ?B2, ?B3.
Qed.

Definition mirrorRel : RunRel K := {|
  sim := mirror_sim; Lockstep.upto := upto; id_ok := anyId; flag_ok := λ _, True;
  sim_empty := mir_empty; sim_filter := mir_filter; sim_nat := mir_nat; sim_chains := mir_chains;
  sim_fset := mir_fset; sim_nset := mir_nset; sim_fields := mirror_fields;
  upto_prefix _ _ _ _ := I; id_zero := I; flag_false := I;
  steps_addChain := mirror_addChain; steps_updateRule := mirror_updateRule; steps_updateSet := mirror_updateSet |}.
End mirror.
