(* ===== verification/Placement.v ===== *)
(** * Where the generators write

    In an empty namespace each part of a sync writes to chains of its own: the
    bootstrap inserts one rule into each of its chains, the common rules go to
    the two common chains, and the policies of a direction append to the entry
    chain and to the chains made for them. [writes] describes the messages of
    a successful run by the places its rules may go to. *)

From S2P Require Import Prelude GoStd Names Nft Netip Api Elements Conn RefKernel State Legacy Rules Cleanup Server VM Fresh Semantics Verdict Settled Lockstep Written.

(** Every set is made before it is filled. *)
Definition fed (l : list msg) : Prop :=
  ∀ l1 s els l2, l = l1 ++ MNewSetElem s els :: l2 → MNewSet s ∈ l1.

Lemma fed_nil : fed [].
Proof. by intros [|] ? ? ?. Qed.
Lemma fed_app l l' : fed l → fed l' → fed (l ++ l').
Proof.
  intros Hl Hl' l1 s els l2 E. apply app_eq_inv in E as [(k & -> & E)|(k & -> & E)].
  - destruct k as [|m k]; cbn in E.
    + subst l'. specialize (Hl' [] s els l2 eq_refl). by apply not_elem_of_nil in Hl'.
    + injection E as <- ->. by eapply Hl.
  - rewrite elem_of_app. right. by eapply Hl'.
Qed.
Lemma fed_single m : (∀ s els, m ≠ MNewSetElem s els) → fed [m].
Proof. intros Hm [|m' l1] s els l2 E; [injection E as -> _; by destruct (Hm s els)|]. by destruct l1. Qed.
Lemma fed_set s els : fed [MNewSet s; MNewSetElem s els].
Proof.
  intros [|m1 [|m2 l1]] s' els' l2 E; [done| |by destruct l1]. injection E as <- -> -> _. by left.
Qed.

Section writes.
Context `{Gob}.
Hypothesis total : gob_total.
(** Where rules may go: appended or inserted, the table and the chain. *)
Variable P : bool → Table → gostring → Prop.
Variables (tf : Table) (cf : list (option Chain)).

Definition okMsg (m : msg) : Prop :=
  match m with
  | MNewRule r => P false (Rule_Table r) (Chain_Name (Rule_Chain r))
  | MInsertRule r => P true (Rule_Table r) (Chain_Name (Rule_Chain r))
  | MNewSet s | MNewSetElem s _ => Set_Table s = tf
  | _ => True
  end.

Definition env (n : nftState RK) : Prop := kern (nft n) = emptyRK ∧ filterT n = tf ∧ chainFields n = cf.
Definition wrote (n n' : nftState RK) : Prop :=
  ∃ l, messages (nft n') = messages (nft n) ++ l ∧ Forall okMsg l ∧ fed l.

Definition writes {A} (m : ST (nftState RK) A) (R : A → Prop) : Prop :=
  ∀ n a n', env n → m n = (Ok a, n') → env n' ∧ wrote n n' ∧ R a.

#[export] Instance wrote_refl : Reflexive wrote.
Proof. intros n. exists []. rewrite app_nil_r. split_and!; [done|constructor|apply fed_nil]. Qed.
#[export] Instance wrote_trans : Transitive wrote.
Proof.
  intros n1 n2 n3 (l & E & Hl & Hf) (l' & E' & Hl' & Hf'). exists (l ++ l').
  split_and!; [by rewrite E', E, app_assoc|by apply Forall_app|by apply fed_app].
Qed.

Abbreviation any := (λ _, True).

Lemma writes_ret {A} (a : A) (R : A → Prop) : R a → writes (mret a) R.
Proof. by intros HR n a' n' He [= <- <-]. Qed.
Lemma writes_throw {A} e (R : A → Prop) : writes (throw e) R.
Proof. by intros n a n' He. Qed.
Lemma writes_bind {A B} (m : ST (nftState RK) A) (f : A → ST (nftState RK) B) R Q :
  writes m R → (∀ a, R a → writes (f a) Q) → writes (m ≫= f) Q.
Proof.
  intros Hm Hf n b n'' He. unfold mbind, ST_bind. destruct (m n) as [[a|e] n'] eqn:E; [|done]. intros Hb.
  destruct (Hm _ _ _ He E) as (He' & Hw & HR). destruct (Hf a HR _ _ _ He' Hb) as (? & ? & ?).
  split_and!; [done|by etrans|done].
Qed.
Lemma writes_wrapST {A} c (m : ST (nftState RK) A) R : writes m R → writes (wrapST c m) R.
Proof.
  intros Hm n a n' He. unfold wrapST. destruct (m n) as [[a'|e] n1] eqn:E; [|done]. intros [= <- <-]. by apply Hm.
Qed.
Lemma writes_lift {A} (r : result A) : writes (lift_result r) any.
Proof. by intros n a n' He [= _ <-]. Qed.
Lemma writes_forM {X} (l : list X) (f : X → ST (nftState RK) unit) :
  (∀ x, x ∈ l → writes (f x) any) → writes (forM l f) any.
Proof.
  induction l as [|x l IH]; intros Hf; cbn [forM]; [by apply writes_ret|].
  eapply writes_bind; [apply Hf; by left|]. intros _ _. apply IH. intros. apply Hf. by right.
Qed.
Lemma writes_foldM {X A} (l : list X) (a : A) (f : A → X → ST (nftState RK) A) :
  (∀ a x, x ∈ l → writes (f a x) any) → writes (foldM l a f) any.
Proof.
  revert a. induction l as [|x l IH]; intros a Hf; cbn [foldM]; [by apply writes_ret|].
  eapply writes_bind; [apply Hf; by left|]. intros a' _. apply IH. intros. apply Hf. by right.
Qed.

Lemma writes_getFilter : writes getFilter (eq tf).
Proof. intros n a n' (Hk & Hf & Hc) [= <- <-]. by split_and!. Qed.
Lemma writes_deref (f : nftState RK → option Chain) (c : Chain) :
  (∀ n, chainFields n = cf → f n = Some c) → writes (deref f) (eq c).
Proof.
  intros Hf n a n' He. unfold deref. rewrite (Hf n) by apply He. by intros [= <- <-].
Qed.
Lemma writes_discard m : writes m any → writes (discard m) any.
Proof. intros Hm. eapply writes_bind; [exact Hm|]. intros. by apply writes_ret. Qed.

(** One message is pushed and something is remembered. *)
Lemma wrote_emit n l id : Forall okMsg l → fed l → env n → env (emit l id n) ∧ wrote n (emit l id n).
Proof. intros Hl Hf He. split; [done|]. by exists l. Qed.

Lemma writes_rule r mk (b : bool) force :
  mk = (if b then MInsertRule else MNewRule) → Rule_Handle r = 0 →
  P b (Rule_Table r) (Chain_Name (Rule_Chain r)) → writes (updateRule r (writeRule mk) force) any.
Proof.
  intros Hmk Hh HP n a n' He. pose proof (total r) as Ht. destruct (hash_rule r) as [key|] eqn:Ek; [|done].
  rewrite (updateRule_quiet _ _ _ _ [] key (RK_quiet _)); [|by destruct He as [-> _]|done|done]. cbn.
  intros [= <- <-]. set (r' := set_Rule_ID _ r).
  destruct (wrote_emit n [mk r'] (nextID (lastID (nft n)))) as [H1 H2]; [|by apply fed_single; subst mk; destruct b|done|].
  - constructor; [|constructor]. subst mk. by destruct b.
  - by split_and!.
Qed.
Lemma writes_AddRule r force :
  Rule_Handle r = 0 → P false (Rule_Table r) (Chain_Name (Rule_Chain r)) → writes (updateRule r AddRule force) any.
Proof. intros. by apply (writes_rule _ _ false). Qed.
Lemma writes_InsertRule r force :
  Rule_Handle r = 0 → P true (Rule_Table r) (Chain_Name (Rule_Chain r)) → writes (updateRule r InsertRule force) any.
Proof. intros. by apply (writes_rule _ _ true). Qed.

Lemma writes_addChain c : writes (addChain c) (eq (set_Chain_Name (kernelName (Chain_Name c)) c)).
Proof.
  intros n a n' He. rewrite (addChain_quiet _ _ (RK_quiet _)). destruct He as (Hk & Hf & Hc). rewrite Hk. cbn.
  intros [= <- <-]. destruct (wrote_emit n [MNewChain (set_Chain_Name (kernelName (Chain_Name c)) c)] (lastID (nft n)))
    as [H1 H2]; [by repeat constructor|by apply fed_single|done|]. by split_and!.
Qed.

Lemma writes_updateSet s els :
  Set_Table s = tf → els ≠ [] → writes (updateSet s els) any.
Proof.
  intros Hs Hne n a n' He Ha. destruct (first_updateSet n s els a n' (proj1 He) Hne Ha) as (_ & id & last & [= -> ->]).
  set (s' := set_Set_ID _ _). destruct (wrote_emit n [MNewSet s'; MNewSetElem s' els] last) as [H1 H2];
    [by repeat constructor|apply fed_set|done|]. by split_and!.
Qed.
End writes.

(** ** The generators *)

(** Step through a generator; what is left are the places of rules in chains
    that were handed to it. *)
Ltac writes_side := cbn; first [assumption | congruence | reflexivity].
Ltac writes_step :=
  lazymatch goal with
  | |- writes _ _ _ (mret _) _ => apply writes_ret; exact Logic.I
  | |- writes _ _ _ (throw _) _ => apply writes_throw
  | |- writes _ _ _ (if ?b then _ else _) _ => destruct b eqn:?
  | |- writes _ _ _ (wrapST _ _) _ => apply writes_wrapST
  | |- writes _ _ _ (lift_result _) _ => apply writes_lift
  | |- writes _ _ _ (forM _ _) _ => apply writes_forM; intros
  | |- writes _ _ _ (discard _) _ => apply writes_discard
  | |- writes _ _ _ getFilter _ => apply writes_getFilter
  | |- writes _ _ _ (updateRule _ AddRule _) _ => apply writes_AddRule; [assumption|reflexivity|writes_side]
  | |- writes _ _ _ (updateRule _ InsertRule _) _ => apply writes_InsertRule; [assumption|reflexivity|writes_side]
  | |- writes _ _ _ (updateSet _ _) _ => apply writes_updateSet; [writes_side|first [assumption|by apply len_pos_ne|done]]
  | |- writes _ _ _ (addChain _) _ => apply writes_addChain
  | |- writes _ _ _ (@mbind _ _ unit _ _ _) _ => eapply (writes_bind _ _ _ _ _ (λ _, True)); [|intros _ _]
  | |- writes _ _ _ (_ ≫= _) _ => eapply writes_bind; [|let HR := fresh in intros ? HR; lazymatch type of HR with _ = _ => subst | _ => idtac end]
  end.
Ltac writes_auto := repeat writes_step.

Section generators.
Context `{Gob} `{Arch} `{LabelApi} `{MapOrder}.
Hypothesis total : gob_total.
Variable P : bool → Table → gostring → Prop.
Variables (tf : Table) (cf : list (option Chain)).
Abbreviation writes := (writes P tf cf).
Abbreviation any := (λ _, True).

Lemma writes_allowICMP c b : P false tf (Chain_Name c) → writes (allowICMP c b) any.
Proof. intros. unfold allowICMP. cbv zeta. writes_auto. Qed.
Lemma writes_allowNeighborDiscovery c : P true tf (Chain_Name c) → writes (allowNeighborDiscovery c) any.
Proof. intros. unfold allowNeighborDiscovery. cbv zeta. writes_auto. Qed.
Lemma writes_applyCommonPrefixFamily c s b els :
  P false tf (Chain_Name c) → Set_Table s = tf → writes (applyCommonPrefixFamily c s b els) any.
Proof. intros. unfold applyCommonPrefixFamily. writes_auto. Qed.
Lemma writes_applyCommonPrefixRules c ps p : P false tf (Chain_Name c) → writes (applyCommonPrefixRules c ps p) any.
Proof. intros. unfold applyCommonPrefixRules. writes_auto; by apply writes_applyCommonPrefixFamily. Qed.
Lemma writes_allowConntracked c : P false tf (Chain_Name c) → writes (allowConntracked c) any.
Proof. intros. unfold allowConntracked. writes_auto. Qed.
Lemma writes_applyCommonChainRules cfg ci ce :
  (∀ n : nftState RK, chainFields n = cf → commonIngressC n = Some ci ∧ commonEgressC n = Some ce) →
  (∀ b c, c ∈ [ci; ce] → P b tf (Chain_Name c)) → writes (applyCommonChainRules cfg) any.
Proof.
  intros Hf Hc. unfold applyCommonChainRules.
  eapply writes_bind; [apply (writes_deref _ _ _ _ ci); intros n Hn; by apply Hf|]. intros ? <-.
  eapply writes_bind; [apply (writes_deref _ _ _ _ ce); intros n Hn; by apply Hf|]. intros ? <-.
  writes_auto; first [ simple apply writes_allowICMP | simple apply writes_allowNeighborDiscovery
                     | simple apply writes_applyCommonPrefixRules | simple apply writes_allowConntracked ];
    apply Hc; set_solver.
Qed.

Section chain.
Variable c : Chain.
Hypothesis Hc : P false tf (Chain_Name c).

Lemma writes_applyPodInterfaceRules pc pol i : writes (applyPodInterfaceRules c pc pol i) any.
Proof. unfold applyPodInterfaceRules. writes_auto. Qed.
Lemma writes_applyGeneralMarkCheck pol : writes (applyGeneralMarkCheck c pol) any.
Proof. unfold applyGeneralMarkCheck. writes_auto. Qed.
Lemma writes_applyMarkReset nm pn i : writes (applyMarkReset nm c pn i) any.
Proof. unfold applyMarkReset. writes_auto. Qed.

Hypothesis Ht : Chain_Table c = tf.
Lemma Hc' : P false (Chain_Table c) (Chain_Name c).
Proof. by rewrite Ht. Qed.
Local Hint Resolve Hc' : core.

Lemma writes_applyMarkCheck nm pn i : writes (applyMarkCheck nm c pn i) any.
Proof. pose proof Hc'. unfold applyMarkCheck. writes_auto. Qed.
Lemma writes_applyDropRemaining b : writes (applyDropRemaining c b) any.
Proof. pose proof Hc'. unfold applyDropRemaining. writes_auto. Qed.
Lemma writes_applyPrefixes nm pn cidr i ps es b : writes (applyPrefixes nm c pn cidr i ps es b) any.
Proof. pose proof Hc'. unfold applyPrefixes. cbv zeta. writes_auto. Qed.
Lemma writes_IPBlock nm pn block i : writes (applyPolicyPeersRulesIPBlock nm c pn block i) any.
Proof. unfold applyPolicyPeersRulesIPBlock. writes_auto; apply writes_applyPrefixes. Qed.
Lemma writes_addIPRule nm addrs pn peer i : writes (addIPRule nm addrs c pn peer i) any.
Proof. pose proof Hc'. unfold addIPRule. cbv zeta. destruct addrs; writes_auto. Qed.
Lemma writes_Selector deps nm pn peer info nets i :
  writes (applyPolicyPeersRulesSelector deps nm c pn peer info nets i) any.
Proof. unfold applyPolicyPeersRulesSelector, addIPRules. writes_auto; apply writes_addIPRule. Qed.
Lemma writes_applyProtocol d nm pn proto els : Chain_Table d = tf → writes (applyProtocol d c nm pn proto els) any.
Proof.
  intros. pose proof Hc'. unfold applyProtocol, applyProtoPortsRules. destruct (getProtocolInfo proto). writes_auto.
Qed.
End chain.

(** *** A policy *)

Section policy.
Variables (c : Chain) (nm : gostring).
Hypothesis Ht : Chain_Table c = tf.
Hypothesis Hc : P false tf (Chain_Name c).

Lemma writes_applyPolicyPeersRules deps pn peers info nets i :
  P false tf (kernelName (peersNameOf nm i)) →
  writes (applyPolicyPeersRules deps nm c pn peers info nets i) any.
Proof.
  intros Hp. unfold applyPolicyPeersRules. cbv zeta. fold (peersNameOf nm i).
  eapply writes_bind; [apply writes_wrapST, writes_addChain|]. intros ? <-. cbn [Chain_Name Chain_Table set_Chain_Name regularChain].
  rewrite Ht. writes_auto. destruct x as [index peer].
  repeat case_match; writes_auto; first [simple apply writes_IPBlock|simple apply writes_Selector]; done.
Qed.
Lemma writes_applyPolicyPortsRules pn ports i :
  P false tf (kernelName (portsNameOf nm i)) → writes (applyPolicyPortsRules nm c pn ports i) any.
Proof.
  intros Hp. unfold applyPolicyPortsRules. cbv zeta. fold (portsNameOf nm i).
  eapply writes_bind; [apply writes_wrapST, writes_addChain|]. intros ? <-. cbn [Chain_Name Chain_Table set_Chain_Name regularChain].
  rewrite Ht. writes_auto; by apply writes_applyProtocol.
Qed.
Lemma writes_applyPolicyRule deps rn pn info nets i rule :
  P false tf (kernelName (portsNameOf nm i)) → P false tf (kernelName (peersNameOf nm i)) →
  writes (applyPolicyRule deps nm c rn pn info nets i rule) any.
Proof.
  intros. unfold applyPolicyRule. writes_auto.
  - by apply writes_applyMarkReset.
  - by apply writes_applyPolicyPortsRules.
  - by apply writes_applyPolicyPeersRules.
  - by apply writes_applyMarkCheck.
Qed.
End policy.

Lemma writes_applyPodRules ing deps c info p :
  Chain_Table c = tf → Chain_Name c = entryName ing → P false tf (entryName ing) →
  (∀ z, z ∈ chainNames ing p → P false tf z) →
  writes (applyPodRules deps c info (ip_policy p) (ip_policyNetworks p)) any.
Proof.
  intros Ht HE HPE HPz. unfold applyPodRules. cbv zeta. rewrite HE. fold (nameOf ing p).
  eapply writes_bind; [apply writes_getFilter|]. intros ? <-.
  eapply writes_bind; [apply writes_wrapST, writes_addChain|]. intros ? <-.
  eapply writes_bind.
  { apply writes_foldM. intros b i _. destruct (CheckPolicyNetwork i _); [|by apply writes_ret].
    eapply writes_bind; [apply writes_wrapST, writes_applyPodInterfaceRules; by rewrite HE|]. intros. by apply writes_ret. }
  intros b _. replace (isIngressChain (nameOf ing p)) with ing by (symmetry; apply policyChainName_ingress).
  assert (∀ rn pn (y : nat * MultiNetworkPolicyRule), y ∈ rulesOf ing p →
    writes (applyPolicyRule deps (nameOf ing p) (set_Chain_Name (kernelName (nameOf ing p)) (regularChain (nameOf ing p) tf))
      rn pn info (ip_policyNetworks p) y.1 y.2) any) as Hrule.
  { intros rn pn y Hy. destruct (elem_of_sub_names (nameOf ing p) _ y Hy).
    apply writes_applyPolicyRule; [done|apply HPz; by left|apply HPz; by right|apply HPz; by right]. }
  eapply (writes_bind _ _ _ _ _ (λ _, True)); [|intros; by apply writes_ret].
  unfold rulesOf in Hrule. destruct ing; apply writes_forM; intros [i r] Hx; apply (Hrule _ _ (i, r)), Hx.
Qed.

(** The policies of a direction write to the entry chain and their own. *)
Lemma writes_applyDirection ing deps info l chain :
  (∀ n : nftState RK, chainFields n = cf → entryField ing n = Some chain) →
  Chain_Table chain = tf → Chain_Name chain = entryName ing → P false tf (entryName ing) →
  (∀ z, z ∈ (l ≫= chainNames ing) → P false tf z) →
  writes (applyDirection deps (entryField ing) info l) any.
Proof.
  intros Hf Ht HE HPE HPz. unfold applyDirection. destruct (0 <? len l); [|by apply writes_ret].
  eapply writes_bind.
  - apply writes_foldM. intros b p Hp.
    eapply writes_bind; [by apply (writes_deref _ _ _ _ chain)|]. intros ? <-.
    eapply writes_bind.
    { eapply writes_wrapST, writes_applyPodRules; [done|done|done|]. intros z Hz. apply HPz, list_elem_of_bind. eauto. }
    intros r _. eapply (writes_bind _ _ _ _ _ (λ _, True)).
    { apply writes_wrapST, writes_applyGeneralMarkCheck. by rewrite HE. }
    intros. by apply writes_ret.
  - intros b _. eapply writes_bind; [by apply (writes_deref _ _ _ _ chain)|]. intros ? <-.
    apply writes_wrapST, writes_applyDropRemaining; [by rewrite HE|done].
Qed.
End generators.

(** ** The bootstrap *)

Definition filterTable : Table := inetTable FilterTableName.
Definition natTable : Table := inetTable NatTableName.
Definition commonName (ing : bool) : gostring := entryName ing ++ str "-" ++ common.
Definition entryChain (ing : bool) : Chain := regularChain (entryName ing) filterTable.
Definition commonChain (ing : bool) : Chain := regularChain (commonName ing) filterTable.
Definition baseFields : list (option Chain) :=
  [Some (mkChain "input" filterTable (Some hookInput) (Some 0) ChainTypeFilter);
   Some (mkChain "output" filterTable (Some hookOutput) (Some 0) ChainTypeFilter);
   Some (mkChain "prerouting" natTable (Some hookPrerouting) (Some (-100)) ChainTypeNAT);
   Some (entryChain true); Some (entryChain false); Some (commonChain true); Some (commonChain false)].
(** The chains of the bootstrap; packets enter through the first three. *)
Definition bootNames : list gostring :=
  [str "input"; str "output"; str "prerouting"; entryName true; entryName false; commonName true; commonName false].

(** The state after the tables: the chains are made and kept in it. *)
Definition tablesState : nftState RK :=
  newState (mkConn emptyRK (MNewTable <$> ownTables) 0 None []) filterTable natTable.

Lemma run_ok {S A} (m : ST S A) n a (Q : S → Prop) : (m n).1 = Ok a → Q (m n).2 → ∃ n', m n = (Ok a, n') ∧ Q n'.
Proof. destruct (m n) as [r n']. cbn. intros -> HQ. by exists n'. Qed.

Lemma chains_made :
  ∃ n', bootstrapNetfilterChains tablesState = (Ok tt, n') ∧
    (env filterTable baseFields n' ∧ messages (nft n') = (MNewTable <$> ownTables) ++ (MNewChain <$> omap id baseFields)).
Proof.
  apply (run_ok _ _ _ (λ n', env filterTable baseFields n' ∧
    messages (nft n') = (MNewTable <$> ownTables) ++ (MNewChain <$> omap id baseFields))).
  - vm_compute. exact eq_refl.
  - split; [split_and!|]; vm_compute; exact eq_refl.
Qed.

Section base_rules.
Context `{Gob} `{Arch}.
Hypothesis total : gob_total.
Variables (tf : Table) (cf : list (option Chain)).
Abbreviation env := (env tf cf).

(** A successful run and the messages it adds. *)
Definition runs {A} (m : ST (nftState RK) A) (R : A → list msg → Prop) : Prop :=
  ∀ n a n', env n → m n = (Ok a, n') → env n' ∧ ∃ l, messages (nft n') = messages (nft n) ++ l ∧ R a l.

Lemma runs_bind {A B} (m : ST (nftState RK) A) (f : A → ST (nftState RK) B) R Q :
  runs m R → (∀ a l, R a l → runs (f a) (λ b l', Q b (l ++ l'))) → runs (m ≫= f) Q.
Proof.
  intros Hm Hf n b n'' He. unfold mbind, ST_bind. destruct (m n) as [[a|e] n'] eqn:E; [|done]. intros Hb.
  destruct (Hm _ _ _ He E) as (He' & l & El & HR). destruct (Hf a l HR _ _ _ He' Hb) as (? & l' & El' & HQ).
  split; [done|]. exists (l ++ l'). split; [by rewrite El', El, app_assoc|done].
Qed.
Lemma runs_ret {A} (a : A) (R : A → list msg → Prop) : R a [] → runs (mret a) R.
Proof. intros HR n a' n' He [= <- <-]. split; [done|]. exists []. by rewrite app_nil_r. Qed.
Lemma runs_read {A} (m : ST (nftState RK) A) (R : A → Prop) :
  (∀ n a n', env n → m n = (Ok a, n') → n' = n ∧ R a) → runs m (λ a l, R a ∧ l = []).
Proof.
  intros Hm n a n' He E. destruct (Hm _ _ _ He E) as [-> HR]. split; [done|]. exists []. by rewrite app_nil_r.
Qed.
Lemma runs_deref {X} (f : nftState RK → option X) (R : X → Prop) :
  (∀ n x, env n → f n = Some x → R x) → runs (deref f) (λ x l, R x ∧ l = []).
Proof.
  intros Hf. apply runs_read. intros n x n' He. unfold deref. destruct (f n) eqn:E; [|done].
  intros [= -> <-]. split; [done|by eapply Hf].
Qed.
Lemma runs_modify (f : nftState RK → nftState RK) :
  (∀ n, nft (f n) = nft n ∧ filterT (f n) = filterT n ∧ chainFields (f n) = chainFields n) →
  runs (modify f) (λ _ l, l = []).
Proof.
  intros Hf n a n' (Hk & Ht & Hc) [= _ <-]. destruct (Hf n) as (H1 & H2 & H3). split.
  - split_and!; congruence.
  - exists []. by rewrite app_nil_r, H1.
Qed.
Lemma runs_wrapST {A} c (m : ST (nftState RK) A) R : runs m R → runs (wrapST c m) R.
Proof.
  intros Hm n a n' He. unfold wrapST. destruct (m n) as [[a'|e] n1] eqn:E; [|done]. intros [= <- <-]. by apply Hm.
Qed.
Lemma runs_rule mk r force :
  Rule_Handle r = 0 → runs (updateRule r (writeRule mk) force) (λ _ l, ∃ i, l = [mk (set_Rule_ID i r)]).
Proof.
  intros Hh n a n' He. pose proof (total r) as Ht. destruct (hash_rule r) as [key|] eqn:Ek; [|done].
  rewrite (updateRule_quiet _ _ _ _ [] key (RK_quiet _)); [|by destruct He as [-> _]|done|done]. cbn.
  intros [= <- <-]. split; [done|]. eexists. split; [done|]. by eexists.
Qed.
Lemma runs_InsertRule r force :
  Rule_Handle r = 0 → runs (updateRule r InsertRule force) (λ _ l, ∃ i, l = [MInsertRule (set_Rule_ID i r)]).
Proof. exact (runs_rule MInsertRule r force). Qed.
Lemma runs_AddRule r force :
  Rule_Handle r = 0 → runs (updateRule r AddRule force) (λ _ l, ∃ i, l = [MNewRule (set_Rule_ID i r)]).
Proof. exact (runs_rule MNewRule r force). Qed.
Lemma runs_updateSet s els :
  els ≠ [] → runs (updateSet s els) (λ s' l, l = [MNewSet s'; MNewSetElem s' els] ∧ Set_Table s' = Set_Table s ∧
    Set_Interval s' = Set_Interval s).
Proof.
  intros Hne n a n' He Ha. destruct (first_updateSet n s els a n' (proj1 He) Hne Ha) as (_ & id & last & [= -> ->]).
  split; [done|]. eexists. split; [done|]. done.
Qed.
Lemma runs_modify_deref {X A} (g : nftState RK → nftState RK) (f : nftState RK → option X) x (k : X → ST (nftState RK) A) R :
  (∀ n, nft (g n) = nft n ∧ filterT (g n) = filterT n ∧ chainFields (g n) = chainFields n) →
  (∀ n, f (g n) = Some x) → runs (k x) R → runs (modify g ≫= λ _, deref f ≫= k) R.
Proof.
  intros Hg Hf Hk n a n' (He1 & He2 & He3). unfold mbind, ST_bind, modify, deref. rewrite Hf. intros Hr.
  destruct (Hg n) as (H1 & H2 & H3). apply Hk in Hr as [? (l & Hl & ?)].
  - split; [done|]. exists l. by rewrite Hl, H1.
  - split_and!; congruence.
Qed.
End base_rules.

(** No rule goes to the chain [z] of the filter table. *)
Definition untouched (z : gostring) (l : list msg) : Prop := ∀ m, m ∈ l → place filterTable z [] m = [].

Lemma untouched_placed z l rs : untouched z l → placed filterTable z rs l = rs.
Proof. apply placed_none. Qed.

Definition baseName (ing : bool) : gostring := if ing then "input" else "output".
(** The rule that takes the packets of the pod's interfaces to the entry chain. *)
Definition baseRule (ing : bool) (s : NftSet) : list expr.Any :=
  [metaLoad (ifaceKey ing); lookup s; counter; jump (entryName ing)].

(** One rule is inserted into each of the first five chains: the base chains
    get the jump to the entry chains, and these the jump to the common rules. *)
Record bootRules (info : PodInfo) (l : list msg) : Prop := {
  boot_fed : fed l;
  boot_base : ∃ s, MNewSetElem s (interfaceElements (PI_Interfaces info)) ∈ l ∧ Set_Table s = filterTable ∧
    Set_Interval s = false ∧ ∀ ing rs, placed filterTable (baseName ing) rs l = (dumpExpr <$> baseRule ing s) :: rs;
  boot_entry ing rs : placed filterTable (entryName ing) rs l = [counter; jump (commonName ing)] :: rs;
  boot_common ing : untouched (commonName ing) l;
  boot_others z : z ∉ bootNames → untouched z l }.

Section boot.
Context `{Gob} `{Arch}.
Hypothesis total : gob_total.
Abbreviation runs := (runs filterTable baseFields).

Lemma runs_deref_base (f : nftState RK → option Chain) c :
  (∀ n, chainFields n = baseFields → f n = Some c) → runs (deref f) (λ x l, x = c ∧ l = []).
Proof. intros Hf. apply runs_deref. intros n x (_ & _ & Hc) E. rewrite (Hf n Hc) in E. by injection E. Qed.

Lemma base_fields (n : nftState RK) :
  chainFields n = baseFields →
  inputC n = Some (mkChain "input" filterTable (Some hookInput) (Some 0) ChainTypeFilter) ∧
  outputC n = Some (mkChain "output" filterTable (Some hookOutput) (Some 0) ChainTypeFilter) ∧
  preroutingC n = Some (mkChain "prerouting" natTable (Some hookPrerouting) (Some (-100)) ChainTypeNAT) ∧
  ingressC n = Some (entryChain true) ∧ egressC n = Some (entryChain false) ∧
  commonIngressC n = Some (commonChain true) ∧ commonEgressC n = Some (commonChain false).
Proof. unfold chainFields, baseFields. intros [= -> -> -> -> -> -> ->]. done. Qed.

Ltac runs_chain := eapply runs_bind; [apply runs_deref_base; intros n Hn; apply base_fields in Hn; apply Hn|]; intros ? ? [-> ->].
Ltac runs_rule i := eapply runs_bind; [first [apply runs_wrapST, runs_InsertRule|apply runs_InsertRule]; done|]; intros ? ? (i & ->).
Ltac runs_field := eapply runs_bind; [by apply runs_modify|]; intros _ ? ->.

(** A rule inserted into a base chain, and one of the filter table. *)
Definition inserted (name : gostring) (m : msg) : Prop :=
  ∃ r, m = MInsertRule r ∧ Chain_Name (Rule_Chain r) = name.
Definition insertedRule (name : gostring) (es : list expr.Any) (m : msg) : Prop :=
  ∃ r, m = MInsertRule r ∧ Rule_Table r = filterTable ∧ Chain_Name (Rule_Chain r) = name ∧ Rule_Exprs r = es.

Lemma insertedRule_inserted name es m : insertedRule name es m → inserted name m.
Proof. intros (r & -> & _ & Hn & _). by exists r. Qed.
Lemma inserted_elsewhere name z m : inserted name m → z ≠ name → place filterTable z [] m = [].
Proof.
  intros (r & -> & Hn) Hz. cbn. unfold inPlace. rewrite bool_decide_eq_false_2; [done|]. intros [_ E]. congruence.
Qed.
Lemma placed_inserted z es l1 m l2 rs :
  untouched z l1 → insertedRule z es m → untouched z l2 → placed filterTable z rs (l1 ++ m :: l2) = (dumpExpr <$> es) :: rs.
Proof.
  intros H1 (r & -> & HT & HN & <-) H2. rewrite placed_app, (untouched_placed z l1) by done.
  change (placed filterTable z (place filterTable z rs (MInsertRule r)) l2 = (dumpExpr <$> Rule_Exprs r) :: rs).
  rewrite (untouched_placed z l2) by done. cbn. unfold inPlace. by rewrite bool_decide_eq_true_2.
Qed.

(** The messages of the bootstrap in order. *)
Section order.
Variables (info : PodInfo) (s1 s2 : NftSet) (m1 m2 m3 m4 m5 : msg).
Abbreviation els := (interfaceElements (PI_Interfaces info)).
Definition bootOrder : list msg := [MNewSet s1; MNewSetElem s1 els; m1; m2; MNewSet s2; MNewSetElem s2 els; m3; m4; m5].

Lemma order_placed z es l1 m l2 rs :
  bootOrder = l1 ++ m :: l2 → insertedRule z es m → (∀ m', m' ∈ l1 ++ l2 → place filterTable z [] m' = []) →
  placed filterTable z rs bootOrder = (dumpExpr <$> es) :: rs.
Proof. intros -> Hm Hz. apply placed_inserted; [|done|]; intros m' Hm'; apply Hz; set_solver. Qed.
End order.

(** No listed message puts a rule in the chain. *)
Ltac elsewhere :=
  let m := fresh in let Hm := fresh in
  intros m; unfold bootOrder; cbn [app]; rewrite !elem_of_cons, elem_of_nil;
  intros Hm; repeat destruct Hm as [->|Hm]; try done; by eapply inserted_elsewhere.

Lemma bootOrder_rules info s1 s2 m1 m2 m3 m4 m5 :
  Set_Table s1 = filterTable → Set_Interval s1 = false →
  insertedRule "input" (baseRule true s1) m1 → insertedRule "output" (baseRule false s1) m2 →
  inserted "prerouting" m3 → insertedRule (entryName true) [counter; jump (commonName true)] m4 →
  insertedRule (entryName false) [counter; jump (commonName false)] m5 →
  bootRules info (bootOrder info s1 s2 m1 m2 m3 m4 m5).
Proof.
  intros HT HI H1 H2 H3 H4 H5.
  pose proof (insertedRule_inserted _ _ _ H1) as I1. pose proof (insertedRule_inserted _ _ _ H2) as I2.
  pose proof (insertedRule_inserted _ _ _ H4) as I4. pose proof (insertedRule_inserted _ _ _ H5) as I5.
  assert (∀ name m, inserted name m → fed [m]) as Hfed by (intros name m (r & -> & _); by apply fed_single).
  split.
  - change (fed ([MNewSet s1; MNewSetElem s1 (interfaceElements (PI_Interfaces info))] ++ [m1] ++ [m2] ++
      [MNewSet s2; MNewSetElem s2 (interfaceElements (PI_Interfaces info))] ++ [m3] ++ [m4] ++ [m5])).
    repeat first [apply fed_app | apply fed_set | by eapply Hfed].
  - exists s1. split_and!; [by right; left|done|done|]. intros [] rs.
    + apply (order_placed _ _ _ _ _ _ _ _ _ _ [_; _] _ _ _ eq_refl H1). elsewhere.
    + apply (order_placed _ _ _ _ _ _ _ _ _ _ [_; _; _] _ _ _ eq_refl H2). elsewhere.
  - intros [] rs.
    + apply (order_placed _ _ _ _ _ _ _ _ _ _ [_; _; _; _; _; _; _] _ _ _ eq_refl H4). elsewhere.
    + apply (order_placed _ _ _ _ _ _ _ _ _ _ [_; _; _; _; _; _; _; _] _ _ _ eq_refl H5). elsewhere.
  - intros []; elsewhere.
  - intros z Hz. unfold bootNames in Hz. rewrite !not_elem_of_cons in Hz. destruct Hz as (Z1 & Z2 & Z3 & Z4 & Z5 & _).
    elsewhere.
Qed.

Lemma runs_bootstrapBaseRules info :
  PI_Interfaces info ≠ [] → runs (bootstrapBaseRules info) (λ _ l, bootRules info l).
Proof.
  intros Hne%interfaceElements_ne. unfold bootstrapBaseRules. cbv zeta.
  eapply runs_bind; [apply (runs_read _ _ _ (eq filterTable)); by intros n a n' (_ & Hf & _) [= <- <-]|].
  intros ? ? [<- ->]. eapply runs_bind; [apply (runs_read _ _ _ (λ _, True)); by intros n a n' _ [= _ <-]|].
  intros nt ? [_ ->]. eapply runs_modify_deref; [done|done|].
  eapply runs_bind; [by apply runs_wrapST, runs_updateSet|]. intros s1 ? (-> & HT & HI). runs_field.
  runs_chain. runs_chain. runs_rule i1. runs_chain. runs_chain. runs_rule i2.
  eapply runs_bind; [apply (runs_deref _ _ _ (λ _, True)); done|]. intros ns ? [_ ->].
  eapply runs_bind; [by apply runs_wrapST, runs_updateSet|]. intros s2 ? (-> & _). runs_field.
  runs_chain. runs_rule i3. runs_chain. runs_rule i4. runs_chain. runs_rule i5. apply runs_ret. cbn [app].
  apply bootOrder_rules; [done|done|by eexists..].
Qed.
End boot.
