(* ===== verification/Common.v ===== *)
(** * The common rules

    The two common chains hold rules that accept and nothing else, so their
    order does not matter: a packet is accepted when one of them applies and
    goes on to the policies otherwise. [commonOf] lists the rules a
    configuration asks for, [commonAccepts] says in terms of the configuration
    what they accept. *)

From S2P Require Import Prelude GoStd Names Nft Netip Api Elements Conn RefKernel State Legacy Rules Cleanup Server VM Fresh Semantics Verdict Meaning Settled Lockstep Written Placement.

Inductive commonRule :=
  | ICMPRule (icmpv6 : bool)
  | NDPRule
  | PrefixRule (v6 : bool) (els : list SetElement)
  | ConntrackRule.

(** ** What they do *)

Lemma bool_decide_single (x y : Z) : bool_decide ([x] = [y]) = bool_decide (x = y).
Proof. apply bool_decide_ext. split; [by intros [=]|by intros ->]. Qed.

Section semantics.
Context `{NftVM}.
Implicit Types (rs : ruleset) (p : packet) (v : view).

(** The expressions of a rule of the common chain of a direction. *)
Definition is_common rs (ing : bool) (c : commonRule) (es : list expr.Any) : Prop :=
  match c with
  | ICMPRule b => es = [metaLoad expr.MetaKeyL4PROTO; cmpEq [if b then IPPROTO_ICMPV6 else IPPROTO_ICMP];
                        counter; verdict expr.VerdictAccept]
  | NDPRule => ∃ s, Set_Interval s = false ∧ set_is rs s ndpElements ∧
      es = [metaLoad expr.MetaKeyNFPROTO; cmpEq [NFPROTO_IPV6]; metaLoad expr.MetaKeyL4PROTO; cmpEq [IPPROTO_ICMPV6];
            payload expr.PayloadBaseTransportHeader 0 1; lookup s; counter; verdict expr.VerdictAccept]
  | PrefixRule v6 els => ∃ s, Set_Interval s = true ∧ set_is rs s els ∧
      es = matchAddr (addrNfProto v6) (addrOffset (commonName ing) v6) (addrLen v6) s ++ [counter; verdict expr.VerdictAccept]
  | ConntrackRule => es = [expr.Ct 1 false expr.CtKeySTATE 0 false;
      bitwise (Z.lor CtStateBitESTABLISHED CtStateBitRELATED) zeroRuleMark;
      expr.Cmp expr.CmpOpNeq 1 [0; 0; 0; 0]; counter; verdict expr.VerdictAccept]
  end.

(** When a rule applies to a packet of a connection in the state [st]. *)
Definition applies p v (st : Z) (c : commonRule) : bool :=
  match c with
  | ICMPRule b => bool_decide (v_l4 v = if b then IPPROTO_ICMPV6 else IPPROTO_ICMP)
  | NDPRule => v_v6 v && bool_decide (v_l4 v = IPPROTO_ICMPV6) &&
      match pkt_payload p expr.PayloadBaseTransportHeader 0 1 with Some d => memb false ndpElements d | None => false end
  | PrefixRule v6 els => bool_decide (v_v6 v = v6) && memb true els (v_addr v)
  | ConntrackRule => negb (Z.land st (Z.lor CtStateBitESTABLISHED CtStateBitRELATED) =? 0)
  end.

(** The packet belongs to a connection in this state. *)
Definition tracked p (st : Z) : Prop := pkt_ct p = NativeEndian.PutUint32 st ∧ is_u32 st.

Lemma is_common_dump rs ing c es : is_common rs ing c es → is_common rs ing c (dumpExpr <$> es).
Proof.
  destruct c as [b| |v6 els|]; cbn; [by intros ->| | |by intros ->]; intros (s & Hi & Hs & ->);
    exists (set_Set_ID 0 s); split_and!; done.
Qed.

Lemma run_common_rule rs ing p v st c es m :
  views ing p v → tracked p st → is_common rs ing c es →
  vm_rule rs p es [] m = if applies p v st c then Decided expr.VerdictAccept [] m else Next m.
Proof.
  intros Hv [Hct Hst]. pose proof Hv as (Hn & _ & Hl4 & _).
  destruct c as [b| |v6 els|]; cbn [is_common applies]; unfold metaLoad, cmpEq, payload, lookup, counter, verdict.
  - intros ->. rewrite vm_meta_load, Hl4, vm_cmp_eq, vm_counter, vm_verdict by done.
    by rewrite bool_decide_single.
  - intros (s & Hi & Hs & ->). rewrite vm_meta_load, Hn, vm_cmp_eq by done.
    change [NFPROTO_IPV6] with [addrNfProto true].
    assert (bool_decide ([ipFamily (v_v6 v)] = [addrNfProto true]) = v_v6 v) as -> by (by destruct (v_v6 v)).
    destruct (v_v6 v); [|done]. rewrite vm_meta_load, Hl4, vm_cmp_eq by done. cbn [andb].
    rewrite bool_decide_single. destruct (bool_decide (v_l4 v = IPPROTO_ICMPV6)); [|done]. rewrite vm_payload. cbn [andb].
    destruct (pkt_payload _ _ _ _) as [d|]; [|done]. rewrite vm_lookup, (Hs d), Hi.
    destruct (memb _ _ _); [|done]. by rewrite vm_counter, vm_verdict.
  - intros (s & Hi & Hs & ->). rewrite (vm_matchAddr_view _ _ v) by (by destruct ing). rewrite (Hs (v_addr v)), Hi.
    destruct (_ && _); [|done]. by rewrite vm_counter, vm_verdict.
  - intros ->. rewrite vm_ct, Hct, vm_native_bitwise. change zeroRuleMark with 0. rewrite Z.lxor_0_r.
    assert ([0; 0; 0; 0] = NativeEndian.PutUint32 0) as -> by (unfold NativeEndian.PutUint32; by case_match).
    rewrite vm_cmp_neq by (by rewrite !length_native). rewrite native_inj; [|by apply land_u32|done].
    rewrite vm_counter, vm_verdict. case_bool_decide as E; [by rewrite E|]. by apply Z.eqb_neq in E as ->.
Qed.

(** A chain of rules that accept or do nothing. *)
Lemma run_acceptors rs p rules m :
  (∀ es, es ∈ rules → vm_rule rs p es [] m = Decided expr.VerdictAccept [] m ∨ vm_rule rs p es [] m = Next m) →
  (∃ es, es ∈ rules ∧ vm_rule rs p es [] m = Decided expr.VerdictAccept [] m) ∧ vm_rules rs p rules m Accepted ∨
  (∀ es, es ∈ rules → vm_rule rs p es [] m = Next m) ∧ vm_rules rs p rules m (Falls m).
Proof.
  induction rules as [|es rules IH]; intros Hall.
  { right. split; [by intros ? ?%not_elem_of_nil|apply vm_chain_end]. }
  destruct (Hall es) as [E|E]; [by left| |].
  - left. split; [exists es; split; [by left|done]|by eapply vm_accept].
  - destruct IH as [[(es' & Hin & E') Hr]|[Hn Hr]]; [intros; apply Hall; by right| |].
    + left. split; [exists es'; split; [by right|done]|by eapply vm_next].
    + right. split; [|by eapply vm_next]. intros es' [->|Hin]%elem_of_cons; auto.
Qed.

Lemma run_common rs ing p v st cs rules m :
  views ing p v → tracked p st →
  (∀ es, es ∈ rules → ∃ c, c ∈ cs ∧ is_common rs ing c es) → (∀ c, c ∈ cs → ∃ es, es ∈ rules ∧ is_common rs ing c es) →
  vm_rules rs p rules m (if existsb (applies p v st) cs then Accepted else Falls m).
Proof.
  intros Hv Ht H1 H2.
  destruct (run_acceptors rs p rules m) as [[(es & Hes & E) Hr]|[Hn Hr]].
  - intros es Hes. destruct (H1 es Hes) as (c & _ & Hc). rewrite (run_common_rule rs ing p v st c) by done.
    destruct (applies p v st c); auto.
  - destruct (H1 es Hes) as (c & Hin & Hc). rewrite (run_common_rule rs ing p v st c) in E by done.
    assert (existsb (applies p v st) cs = true) as ->; [|done]. apply existsb_elem. exists c. split; [done|].
    by destruct (applies p v st c).
  - destruct (existsb (applies p v st) cs) eqn:E; [|done]. exfalso. apply existsb_elem in E as (c & Hin & Ha).
    destruct (H2 c Hin) as (es & Hes & Hc). specialize (Hn es Hes).
    by rewrite (run_common_rule rs ing p v st c), Ha in Hn by done.
Qed.
End semantics.

(** ** What the configuration asks for *)

Definition prefixesOf (cfg : CommonRuleConfig) (ing : bool) : list gostring :=
  if ing then AllowSrcPrefix cfg else AllowDstPrefix cfg.
Definition prefixRules (p : list SetElement * list SetElement) : list commonRule :=
  (if 0 <? len p.1 then [PrefixRule false p.1] else []) ++ (if 0 <? len p.2 then [PrefixRule true p.2] else []).
Definition commonOf (cfg : CommonRuleConfig) (ing : bool) : list commonRule :=
  (if AcceptICMPv6 cfg then [ICMPRule true] else [NDPRule]) ++ (if AcceptICMP cfg then [ICMPRule false] else []) ++
  match getPrefixesAsSetInterval (prefixesOf cfg ing) with Ok p => prefixRules p | Err _ => [] end ++ [ConntrackRule].

(** The packet comes from, or goes to, an address the configuration allows, is
    ICMP it allows (of ICMPv6 always router and neighbour discovery), or
    belongs to an established or related connection. *)
Definition commonAccepts (cfg : CommonRuleConfig) (ing : bool) (p : packet) (v : view) (st : Z) : Prop :=
  v_l4 v = 58 ∧ (AcceptICMPv6 cfg = true ∨ AcceptICMPv6 cfg = false ∧ v_v6 v = true ∧
    ∃ t, pkt_payload p expr.PayloadBaseTransportHeader 0 1 = Some [t] ∧ 133 ≤ t ≤ 136) ∨
  v_l4 v = 1 ∧ AcceptICMP cfg = true ∨
  (∃ c q, c ∈ prefixesOf cfg ing ∧ ParsePrefix c = Some q ∧ Addr_is6 (Prefix_addr q) = v_v6 v ∧
    in_prefix q (be_val (v_addr v))) ∨
  Z.land st 6 ≠ 0.

(** The prefixes parse, and those of a family do not overlap. *)
Definition validPrefixes (l : list gostring) : Prop :=
  ∃ ps, mapM ParsePrefix l = Some ps ∧ ∀ is6, disjoint_ranges (prefix_range <$> family is6 ps).

Lemma ndp_member d : memb false ndpElements d = true ↔ ∃ t, d = [t] ∧ 133 ≤ t ≤ 136.
Proof.
  unfold memb. rewrite bool_decide_eq_true. change (Key <$> ndpElements) with [[133]; [134]; [135]; [136]].
  rewrite !elem_of_cons, elem_of_nil. split.
  - intros [->|[->|[->|[->|[]]]]]; eexists; (split; [reflexivity|lia]).
  - intros (t & -> & Ht). assert (t = 133 ∨ t = 134 ∨ t = 135 ∨ t = 136) as [->|[->|[->| ->]]] by lia; auto.
Qed.

Lemma prefix_rules_mean l ps p v st :
  mapM ParsePrefix l = Some ps → (∀ is6, disjoint_ranges (prefix_range <$> family is6 ps)) → wellSized v →
  existsb (applies p v st) (prefixRules (lead false ps ++ family_elems false ps, lead true ps ++ family_elems true ps)) = true ↔
  ∃ c q, c ∈ l ∧ ParsePrefix c = Some q ∧ Addr_is6 (Prefix_addr q) = v_v6 v ∧ in_prefix q (be_val (v_addr v)).
Proof.
  intros Hps Hd Hws. pose proof (mapM_ParsePrefix_wf _ _ Hps) as Hwf.
  assert (∀ els b, existsb (applies p v st) (if 0 <? len els then [PrefixRule b els] else []) =
    bool_decide (v_v6 v = b) && memb true els (v_addr v)) as Hone.
  { intros els b. destruct els as [|e els].
    - assert (memb true [] (v_addr v) = false) as ->; [|by rewrite andb_false_r].
      apply bool_decide_eq_false. by intros (s & ?%not_elem_of_nil & _).
    - rewrite len_pos. cbn. by rewrite orb_false_r. }
  unfold prefixRules. cbn [fst snd]. rewrite existsb_app, !Hone, orb_true_iff, !andb_true_iff, !bool_decide_eq_true.
  assert (∀ b, v_v6 v = b ∧ memb true (lead b ps ++ family_elems b ps) (v_addr v) = true ↔
    v_v6 v = b ∧ ∃ q, q ∈ ps ∧ Addr_is6 (Prefix_addr q) = v_v6 v ∧ in_prefix q (be_val (v_addr v))) as Hb.
  { intros b. split; intros [<- Hm]; (split; [done|]); by apply (getPrefixes_mem ps v). }
  rewrite !Hb. apply mapM_Some in Hps. split.
  - intros [[_ (q & Hq & H6 & Hin)]|[_ (q & Hq & H6 & Hin)]];
      apply list_elem_of_lookup in Hq as [i Hi]; destruct (Forall2_lookup_r _ _ _ _ _ Hps Hi) as (c & Hc & E);
      exists c, q; split_and!; try done; by eapply list_elem_of_lookup_2.
  - intros (c & q & Hc & E & H6 & Hin). destruct (Forall2_elem_l _ _ _ _ Hps Hc) as (q' & Hq' & E'). rewrite E in E'.
    injection E' as <-. destruct (v_v6 v); [right|left]; split; eauto.
Qed.

Lemma common_means cfg ing p v st :
  validPrefixes (prefixesOf cfg ing) → wellSized v →
  existsb (applies p v st) (commonOf cfg ing) = true ↔ commonAccepts cfg ing p v st.
Proof.
  intros (ps & Hps & Hd) Hws. unfold commonOf. rewrite getPrefixes_eq, Hps, !existsb_app, !orb_true_iff.
  rewrite (prefix_rules_mean _ _ _ _ _ Hps Hd Hws). unfold commonAccepts.
  assert (existsb (applies p v st) [ConntrackRule] = true ↔ Z.land st 6 ≠ 0) as ->.
  { cbn. rewrite orb_false_r, negb_true_iff. apply Z.eqb_neq. }
  assert (existsb (applies p v st) (if AcceptICMP cfg then [ICMPRule false] else []) = true ↔ v_l4 v = 1 ∧ AcceptICMP cfg = true) as ->.
  { destruct (AcceptICMP cfg); cbn; [|naive_solver]. rewrite orb_false_r, bool_decide_eq_true. naive_solver. }
  assert (existsb (applies p v st) (if AcceptICMPv6 cfg then [ICMPRule true] else [NDPRule]) = true ↔
    v_l4 v = 58 ∧ (AcceptICMPv6 cfg = true ∨ AcceptICMPv6 cfg = false ∧ v_v6 v = true ∧
    ∃ t, pkt_payload p expr.PayloadBaseTransportHeader 0 1 = Some [t] ∧ 133 ≤ t ≤ 136)) as ->; [|done].
  destruct (AcceptICMPv6 cfg); cbn [existsb applies]; rewrite orb_false_r.
  - rewrite bool_decide_eq_true. naive_solver.
  - rewrite !andb_true_iff, bool_decide_eq_true. destruct (pkt_payload _ _ _ _) as [d|]; [|naive_solver].
    rewrite ndp_member. change IPPROTO_ICMPV6 with 58. naive_solver.
Qed.

(** ** What the generators write *)

Definition ruleIn (l : list msg) (r : Rule) : Prop := MNewRule r ∈ l ∨ MInsertRule r ∈ l.

Lemma ruleIn_app l l' r : ruleIn (l ++ l') r ↔ ruleIn l r ∨ ruleIn l' r.
Proof. unfold ruleIn. rewrite !elem_of_app. tauto. Qed.
Lemma elem_of_place t z acc m es :
  es ∈ place t z acc m ↔ es ∈ acc ∨ ∃ r, ruleIn [m] r ∧ inPlace t z r = true ∧ es = dumpExpr <$> Rule_Exprs r.
Proof.
  unfold ruleIn. setoid_rewrite list_elem_of_singleton. split.
  - destruct m as [| | | |r|r| | | | | |]; cbn; auto; destruct (inPlace t z r) eqn:E; auto.
    + intros [?|?%list_elem_of_singleton]%elem_of_app; eauto 6.
    + intros [?|?]%elem_of_cons; eauto 6.
  - intros [Hes|(r & [<-|<-] & Hr & ->)]; cbn.
    + destruct m; cbn; try done; destruct (inPlace t z r); rewrite ?elem_of_app, ?elem_of_cons; auto.
    + rewrite Hr, elem_of_app, list_elem_of_singleton. auto.
    + rewrite Hr, elem_of_cons. auto.
Qed.
Lemma elem_of_placed t z l es :
  es ∈ placed t z [] l ↔ ∃ r, ruleIn l r ∧ inPlace t z r = true ∧ es = dumpExpr <$> Rule_Exprs r.
Proof.
  enough (∀ acc, es ∈ placed t z acc l ↔ es ∈ acc ∨ ∃ r, ruleIn l r ∧ inPlace t z r = true ∧ es = dumpExpr <$> Rule_Exprs r) as Hacc.
  { rewrite Hacc, elem_of_nil. tauto. }
  induction l as [|m l IH]; intros acc.
  { split; [by left|]. intros [?|(r & [?%not_elem_of_nil|?%not_elem_of_nil] & _)]; done. }
  change (placed t z acc (m :: l)) with (placed t z (place t z acc m) l). rewrite IH, elem_of_place.
  setoid_rewrite (ruleIn_app [m] l). split.
  - intros [[?|(r & ? & ?)]|(r & ? & ?)]; eauto.
  - intros [?|(r & [?|?] & ?)]; eauto.
Qed.

Section emission.
Context `{Gob} `{NftVM}.
Hypothesis total : gob_total.
Abbreviation runs := (runs filterTable baseFields).

(** The rules of the common chain of a direction are these. *)
Definition holdsCommon (ing : bool) (cs : list commonRule) (l : list msg) : Prop :=
  ∀ rs, holds rs l →
    (∀ r, ruleIn l r → inPlace filterTable (commonName ing) r = true → ∃ c, c ∈ cs ∧ is_common rs ing c (Rule_Exprs r)) ∧
    (∀ c, c ∈ cs → ∃ r, ruleIn l r ∧ inPlace filterTable (commonName ing) r = true ∧ is_common rs ing c (Rule_Exprs r)).

Lemma holdsCommon_nil ing : holdsCommon ing [] [].
Proof. intros rs _. split; [by intros r [?%not_elem_of_nil|?%not_elem_of_nil]|by intros c ?%not_elem_of_nil]. Qed.
Lemma holdsCommon_app ing cs cs' l l' :
  holdsCommon ing cs l → holdsCommon ing cs' l' → holdsCommon ing (cs ++ cs') (l ++ l').
Proof.
  intros Hcs Hcs' rs [Hh1 Hh2]%holds_app. destruct (Hcs rs Hh1) as [A1 B1], (Hcs' rs Hh2) as [A2 B2].
  setoid_rewrite ruleIn_app. setoid_rewrite elem_of_app. split.
  - intros r [Hr|Hr] Hp; [destruct (A1 r Hr Hp) as (c & ? & ?)|destruct (A2 r Hr Hp) as (c & ? & ?)]; eauto.
  - intros c [Hc|Hc]; [destruct (B1 c Hc) as (r & ? & ?)|destruct (B2 c Hc) as (r & ? & ?)]; eauto.
Qed.

(** Rules of the chain of the direction [d] only. *)
Definition only (d : bool) (cs : list commonRule) (ing : bool) : list commonRule := if Bool.eqb d ing then cs else [].

Lemma holdsCommon_single d c l r :
  (∀ r', ruleIn l r' ↔ r' = r) → Rule_Table r = filterTable → Chain_Name (Rule_Chain r) = commonName d →
  (∀ rs, holds rs l → is_common rs d c (Rule_Exprs r)) → ∀ ing, holdsCommon ing (only d [c] ing) l.
Proof.
  intros Hr HT HN Hc ing rs Hh. unfold only, inPlace. setoid_rewrite Hr. destruct (Bool.eqb d ing) eqn:E.
  - apply eqb_prop in E as <-. specialize (Hc rs Hh). split.
    + intros r' -> _. exists c. split; [by left|done].
    + intros c' ->%list_elem_of_singleton. exists r. split_and!; [done|by apply bool_decide_eq_true|done].
  - split; [|by intros ? ?%not_elem_of_nil]. intros r' -> [_ Hn]%bool_decide_eq_true. rewrite HN in Hn. by destruct d, ing.
Qed.

(** A successful run puts these rules in the two common chains. *)
Definition puts {A} (m : ST (nftState RK) A) (cs : bool → list commonRule) : Prop :=
  runs m (λ _ l, ∀ ing, holdsCommon ing (cs ing) l).

Lemma puts_ret {A} (a : A) : puts (mret a) (λ _, []).
Proof. apply runs_ret. intros. apply holdsCommon_nil. Qed.
Lemma puts_bind {A B} (m : ST (nftState RK) A) (f : A → ST (nftState RK) B) cs cs' :
  puts m cs → (∀ a, puts (f a) cs') → puts (m ≫= f) (λ ing, cs ing ++ cs' ing).
Proof.
  intros Hm Hf. eapply runs_bind; [exact Hm|]. intros a l Hl n b n' He E. destruct (Hf a n b n' He E) as (? & l' & ? & Hl').
  split; [done|]. exists l'. split; [done|]. intros ing. by apply holdsCommon_app.
Qed.
Lemma puts_read {A B} (m : ST (nftState RK) A) (f : A → ST (nftState RK) B) (R : A → Prop) cs :
  (∀ n a n', env filterTable baseFields n → m n = (Ok a, n') → n' = n ∧ R a) → (∀ a, R a → puts (f a) cs) → puts (m ≫= f) cs.
Proof. intros Hm Hf. eapply runs_bind; [by apply runs_read|]. intros a l [HR ->]. by apply Hf. Qed.
Lemma puts_filter {B} (f : Table → ST (nftState RK) B) cs : puts (f filterTable) cs → puts (getFilter ≫= f) cs.
Proof. intros Hf. eapply (puts_read _ _ (eq filterTable)); [by intros n a n' (_ & HT & _) [= <- <-]|]. by intros ? <-. Qed.
Lemma puts_wrapST {A} c (m : ST (nftState RK) A) cs : puts m cs → puts (wrapST c m) cs.
Proof. apply runs_wrapST. Qed.
Lemma puts_ext {A} (m : ST (nftState RK) A) cs cs' : puts m cs → (∀ ing, cs ing = cs' ing) → puts m cs'.
Proof.
  intros Hm E n a n' He Hr. destruct (Hm n a n' He Hr) as (? & l & ? & Hl). split; [done|]. exists l.
  split; [done|]. intros ing. rewrite <-E. apply Hl.
Qed.
Lemma puts_discard (m : ST (nftState RK) bool) cs : puts m cs → puts (discard m) cs.
Proof.
  intros Hm. eapply puts_ext; [eapply puts_bind; [exact Hm|intros; apply puts_ret]|]. intros. apply app_nil_r.
Qed.

Lemma deref_base {X} (f : nftState RK → option X) x :
  (∀ n, chainFields n = baseFields → f n = Some x) →
  ∀ n a n', env filterTable baseFields n → deref f n = (Ok a, n') → n' = n ∧ x = a.
Proof. intros Hf n a n' (_ & _ & Hc). unfold deref. rewrite (Hf n Hc). by intros [= -> <-]. Qed.

(** One accept rule without a set. *)
Lemma puts_AddRule d ud c es force :
  (∀ rs, is_common rs d c es) → puts (updateRule (newRule filterTable (commonChain d) ud es) AddRule force) (only d [c]).
Proof.
  intros Hc n a n' He Hr. apply (runs_AddRule total filterTable baseFields) in Hr as (? & l & ? & (i & ->)); [|done..]. split; [done|].
  set (r := set_Rule_ID i (newRule filterTable (commonChain d) ud es)). exists [MNewRule r]. split; [done|].
  apply (holdsCommon_single d c _ r); [|done|done|intros; apply Hc].
  intros r'. unfold ruleIn. rewrite !list_elem_of_singleton. naive_solver.
Qed.

(** A set and the rule that looks it up. *)
Lemma puts_set_rule d s els mk (w : ST (nftState RK) bool → ST (nftState RK) bool) (ud : NftSet → bytes) c
    (es : NftSet → list expr.Any) force :
  els ≠ [] → mk = MNewRule ∨ mk = MInsertRule → (∀ m R, runs m R → runs (w m) R) →
  (∀ rs s', Set_Interval s' = Set_Interval s → set_is rs s' els → is_common rs d c (es s')) →
  ∀ ctx, puts (wrapST ctx (updateSet s els) ≫= λ s,
    discard (w (updateRule (newRule filterTable (commonChain d) (ud s) (es s)) (writeRule mk) force))) (only d [c]).
Proof.
  intros Hne Hmk Hw Hc ctx. unfold puts. eapply runs_bind; [by apply runs_wrapST, runs_updateSet|]. intros s' ? (-> & _ & Hi).
  eapply runs_bind; [by apply Hw, (runs_rule total)|]. intros _ ? (i & ->). apply runs_ret.
  set (r := set_Rule_ID i _). apply (holdsCommon_single d c _ r).
  - intros r'. unfold ruleIn. cbn [app]. rewrite !elem_of_cons, !elem_of_nil. destruct Hmk as [-> | ->]; naive_solver.
  - done.
  - done.
  - intros rs Hh. apply Hc; [done|]. apply Hh. right. by left.
Qed.

Lemma puts_allowICMP d b : puts (allowICMP (commonChain d) b) (only d [ICMPRule b]).
Proof. unfold allowICMP. apply puts_filter, puts_discard, puts_AddRule. intros rs. by destruct b. Qed.
Lemma puts_allowNeighborDiscovery d : puts (allowNeighborDiscovery (commonChain d)) (only d [NDPRule]).
Proof.
  unfold allowNeighborDiscovery. apply puts_filter. cbv zeta. change InsertRule with (writeRule (K:=RK) MInsertRule).
  apply (puts_set_rule d _ ndpElements MInsertRule (wrapST _) (λ _, _)); [done|by right|intros; by apply runs_wrapST|].
  intros rs s Hi Hs. exists s. by split_and!.
Qed.
Lemma puts_allowConntracked d : puts (allowConntracked (commonChain d)) (only d [ConntrackRule]).
Proof. unfold allowConntracked. by apply puts_filter, puts_discard, puts_AddRule. Qed.

Lemma puts_applyCommonPrefixFamily d s v6 els :
  Set_Interval s = true →
  puts (applyCommonPrefixFamily (commonChain d) s v6 els) (only d (if 0 <? len els then [PrefixRule v6 els] else [])).
Proof.
  intros Hs. unfold applyCommonPrefixFamily. destruct (0 <? len els) eqn:E.
  - apply puts_filter. change AddRule with (writeRule (K:=RK) MNewRule).
    apply (puts_set_rule d s els MNewRule (λ m, m) (λ s, userDataComment (str "common rule:" ++ Set_Name s)) _ (λ s, _ ++ _));
      [by apply len_pos_ne|by left|done|]. intros rs s' Hi Hs'. exists s'. split_and!; [congruence|done|done].
  - eapply puts_ext; [apply puts_ret|]. intros ing. unfold only. by destruct (Bool.eqb d ing).
Qed.
Lemma only_app d cs cs' ing : only d cs ing ++ only d cs' ing = only d (cs ++ cs') ing.
Proof. unfold only. by destruct (Bool.eqb d ing). Qed.

Lemma puts_applyCommonPrefixRules d prefixes prefix :
  puts (applyCommonPrefixRules (commonChain d) prefixes prefix)
    (only d (match getPrefixesAsSetInterval prefixes with Ok p => prefixRules p | Err _ => [] end)).
Proof.
  unfold applyCommonPrefixRules. apply puts_filter.
  eapply (puts_read _ _ (λ p, getPrefixesAsSetInterval prefixes = Ok p)).
  { intros n a n' _. unfold wrapST, lift_result. destruct (getPrefixesAsSetInterval prefixes); [|done]. intros [= -> <-]. done. }
  intros p ->. eapply puts_ext; [eapply puts_bind; [by apply puts_applyCommonPrefixFamily|]; intros _; by apply puts_applyCommonPrefixFamily|].
  intros ing. apply only_app.
Qed.

Lemma puts_prefixes d prefixes prefix ctx :
  puts (if negb (len prefixes =? 0) then wrapST ctx (applyCommonPrefixRules (commonChain d) prefixes prefix) else mret tt)
    (only d (match getPrefixesAsSetInterval prefixes with Ok p => prefixRules p | Err _ => [] end)).
Proof.
  destruct prefixes as [|c l].
  - eapply puts_ext; [apply puts_ret|]. intros ing. unfold only. by destruct (Bool.eqb d ing).
  - rewrite len_zero. cbn [negb]. apply puts_wrapST, puts_applyCommonPrefixRules.
Qed.

(** Both common chains have exactly the rules the configuration asks for. *)
Lemma puts_applyCommonChainRules cfg : puts (applyCommonChainRules cfg) (commonOf cfg).
Proof.
  assert (∀ A (m1 m2 : ST (nftState RK) A) cs, puts m1 (only true cs) → puts m2 (only false cs) → puts (m1 ≫= λ _, m2) (λ _, cs)) as Hboth.
  { intros A m1 m2 cs Hm1 Hm2. eapply puts_ext; [eapply puts_bind; [exact Hm1|intros _; exact Hm2]|].
    intros []; cbn; [apply app_nil_r|done]. }
  unfold applyCommonChainRules.
  eapply (puts_read _ _ (eq (commonChain true))); [by apply deref_base; intros n (_ & _ & _ & _ & _ & -> & _)%base_fields|]. intros ? <-.
  eapply (puts_read _ _ (eq (commonChain false))); [by apply deref_base; intros n (_ & _ & _ & _ & _ & _ & ->)%base_fields|]. intros ? <-.
  eapply puts_ext.
  - eapply puts_bind; [|intros _; eapply puts_bind; [|intros _; eapply puts_bind; [apply puts_prefixes|intros _;
      eapply puts_bind; [apply puts_prefixes|intros _; apply Hboth; apply puts_wrapST, puts_allowConntracked]]]].
    + instantiate (1 := λ _, if AcceptICMPv6 cfg then [ICMPRule true] else [NDPRule]). destruct (AcceptICMPv6 cfg); apply Hboth;
        apply puts_wrapST; first [apply puts_allowICMP|apply puts_allowNeighborDiscovery].
    + instantiate (1 := λ _, if AcceptICMP cfg then [ICMPRule false] else []). destruct (AcceptICMP cfg); [|apply puts_ret].
      apply Hboth; apply puts_wrapST, puts_allowICMP.
  - intros []; unfold commonOf, only, prefixesOf; cbn; by rewrite <-?app_assoc.
Qed.
End emission.
