(* ===== verification/Repair.v ===== *)
(** * A sync repairs what is missing

    The namespace may hold any part of what is wanted: after a sync that was
    interrupted or cut short by its own cleanup, after a restart of the pod, or
    after rules were deleted by hand. On any kernel with the laws of
    [NfTables], the generators run in step with those of an empty namespace,
    and the messages they buffer complete what is there: carried out, they
    leave every table, chain and set, and every rule too if no set was
    missing. *)

From S2P Require Import Prelude GoStd Names Nft Netip Api Elements Conn RefKernel NfTables State Legacy Rules Cleanup Server Fresh Meaning Typing Settled Lockstep.

(** ** Rulesets *)



Lemma rulesAt_RK (k : RK) t n : rulesAt k t n = Ok (List.filter (in_chain t n) (rk_rules k)).
Proof. exact (rulesAt_shown k t n). Qed.

Lemma elem_of_rules k t n r :
  r ∈ List.filter (in_chain t n) (rk_rules k) ↔
  r ∈ rk_rules k ∧ Rule_Table r = t ∧ Chain_Name (Rule_Chain r) = n ∧ Rule_Handle r ≠ 0.
Proof. rewrite list_elem_of_In, filter_In, <-list_elem_of_In. unfold in_chain. by rewrite bool_decide_eq_true. Qed.

(** Two rules that compare the same. *)
Definition alike (r r' : Rule) : Prop :=
  Rule_Table r = Rule_Table r' ∧ Chain_Name (Rule_Chain r) = Chain_Name (Rule_Chain r') ∧
  ∀ x, ruleEqual x r = true → ruleEqual x r' = true.

#[export] Instance alike_refl : Reflexive alike.
Proof. by intros r. Qed.
#[export] Instance alike_trans : Transitive alike.
Proof.
  intros r1 r2 r3 (T1 & C1 & H12) (T2 & C2 & H23). unfold alike. rewrite T1, C1. split_and!; [done..|].
  intros x Hx. by apply H23, H12.
Qed.
#[export] Instance sameKeys_refl : Reflexive sameKeys.
Proof. by intros l key. Qed.
#[export] Instance sameKeys_sym : Symmetric sameKeys.
Proof. intros l m Hlm key. by rewrite (Hlm key). Qed.
#[export] Instance sameKeys_trans : Transitive sameKeys.
Proof. intros l m p Hlm Hmp key. by rewrite (Hlm key). Qed.

(** [k'] holds all that [k] holds; rules that are older than [k] were in [k]. *)
Record grown (k k' : RK) : Prop := {
  grown_tables t : t ∈ rk_tables k → t ∈ rk_tables k';
  grown_chain t n c : find_chain k t n = Some c → find_chain k' t n = Some c;
  grown_set t n s : find_set k t n = Some s → ∃ els, find_set k' t n = Some (s.1, els) ∧ sameKeys s.2 els;
  grown_rule r : r ∈ rk_rules k → ∃ r', r' ∈ rk_rules k' ∧ alike r r';
  grown_old r : r ∈ rk_rules k' → Rule_Handle r < rk_next k → r ∈ rk_rules k;
  grown_next : rk_next k ≤ rk_next k' }.

#[export] Instance grown_refl : Reflexive grown.
Proof. intros k. split; try done; [by intros t n [s els] Hs; exists els|by intros r; exists r]. Qed.
#[export] Instance grown_trans : Transitive grown.
Proof.
  intros k1 k2 k3 [] []. split; [by eauto..| | | |lia].
  - intros t n s Hs. destruct (grown_set0 t n s Hs) as (els & H1 & H2).
    destruct (grown_set1 _ _ _ H1) as (els' & H3 & H4). exists els'. split; [done|by etrans].
  - intros r Hr. destruct (grown_rule0 r Hr) as (r' & H1 & H2). destruct (grown_rule1 r' H1) as (r'' & H3 & H4).
    exists r''. split; [done|by etrans].
  - intros r Hr Hl. apply grown_old0; [|done]. apply grown_old1; [done|lia].
Qed.

Lemma stored_grown k k' m : grown k k' → handles_ok k' → stored k m → stored k' m.
Proof.
  intros [] Hok.
  assert (∀ r, (∃ rs ex, rulesAt k (Rule_Table r) (Chain_Name (Rule_Chain r)) = Ok rs ∧
      List.find (ruleEqual (dumpRule r)) rs = Some ex) →
    ∃ rs ex, rulesAt k' (Rule_Table r) (Chain_Name (Rule_Chain r)) = Ok rs ∧
      List.find (ruleEqual (dumpRule r)) rs = Some ex) as Hrule.
  { intros r (rs & ex & Hrs & Hex). rewrite rulesAt_RK in Hrs |- *. injection Hrs as <-.
    apply find_elem in Hex as [(Hin & HT & HC & Hh)%elem_of_rules He].
    destruct (grown_rule0 ex Hin) as (ex' & Hin' & HT' & HC' & He').
    destruct (find_is_Some (ruleEqual (dumpRule r)) (List.filter (in_chain (Rule_Table r) (Chain_Name (Rule_Chain r))) (rk_rules k')) ex') as [x Hx].
    - apply elem_of_rules. split_and!; [done|congruence..|]. apply (handles_bound _ Hok) in Hin'. lia.
    - by apply He'.
    - by eexists _, x. }
  destruct m as [t| |c| |r|r| | |s| |s els|]; cbn; try done; try apply Hrule.
  - case_bool_decide as Ht; [|done]. intros [= <-]. rewrite bool_decide_eq_true_2; [done|]. by apply grown_tables0.
  - fold (find_chain k (Chain_Table c) (Chain_Name c)). fold (find_chain k' (Chain_Table c) (Chain_Name c)).
    destruct (find_chain k _ _) as [c'|] eqn:E; [|done]. intros [= <-]. by rewrite (grown_chain0 _ _ _ E).
  - fold (find_set k (Set_Table s) (Set_Name s)). fold (find_set k' (Set_Table s) (Set_Name s)).
    destruct (find_set k _ _) as [s'|] eqn:E; [|done]. by destruct (grown_set0 _ _ _ E) as (els & -> & _).
  - fold (find_set k (Set_Table s) (Set_Name s)). fold (find_set k' (Set_Table s) (Set_Name s)).
    destruct (find_set k _ _) as [s'|] eqn:E; [|by intros (? & ? & ? & _)].
    intros (ex & exEls & [= <-] & Ha & Hel & Hk). destruct (grown_set0 _ _ _ E) as (els' & E' & Hk'). rewrite E'.
    pose proof (find_set_spec _ _ _ _ E) as (_ & _ & HN). cbn in Hel, Ha |- *. rewrite HN in Hel.
    fold (find_set k (Set_Table s) (Set_Name s)) in Hel. rewrite E in Hel. injection Hel as <-.
    exists (storeSet s'.1), els'. split_and!; [done|done| |by etrans].
    cbn. rewrite HN. fold (find_set k' (Set_Table s) (Set_Name s)). by rewrite E'.
Qed.

(** ** A part of what is wanted *)

Section partial.
Variable ms : list msg.

(** The wanted messages name every object once, in the daemon's tables. *)
Record tidy : Prop := {
  tidy_chain c : MNewChain c ∈ ms → Chain_Table c ∈ ownTables;
  tidy_chains c c' : MNewChain c ∈ ms → MNewChain c' ∈ ms →
    Chain_Table c = Chain_Table c' → Chain_Name c = Chain_Name c' → c = c';
  tidy_set s : MNewSet s ∈ ms → Set_Table s ∈ ownTables ∧ Set_Anonymous s = false;
  tidy_rule r : MNewRule r ∈ ms ∨ MInsertRule r ∈ ms → own_table (Rule_Table r);
  tidy_elems s els s' els' : MNewSetElem s els ∈ ms → MNewSetElem s' els' ∈ ms →
    Set_Table s = Set_Table s' → Set_Name s = Set_Name s' → sameKeys els els' }.

(** A set as [ms] makes and fills it. *)
Definition wantedSet (s : NftSet * list SetElement) : Prop :=
  Set_Anonymous s.1 = false ∧
  ∃ s' els, MNewSet s' ∈ ms ∧ MNewSetElem s' els ∈ ms ∧ Set_Table s' = Set_Table s.1 ∧
            Set_Name s' = Set_Name s.1 ∧ sameKeys els s.2.

(** The daemon's tables hold nothing but wanted objects. *)
Record partial (k : RK) : Prop := {
  part_legacy t : t ∈ rk_tables k → Table_Family t = TableFamilyINet → Table_Name t ∉ legacyNames;
  part_chains c : c ∈ rk_chains k → own_chain c → MNewChain c ∈ ms;
  part_sets s : s ∈ rk_sets k → own_table (Set_Table s.1) → wantedSet s;
  part_rules r : r ∈ rk_rules k → own_table (Rule_Table r) → wroteRule ms r;
  part_handles : handles_ok k }.

(** No set is missing. *)
Definition allSets (k : RK) : Prop := ∀ s, MNewSet s ∈ ms → is_Some (find_set k (Set_Table s) (Set_Name s)).

Hypothesis Htidy : tidy.

(** *** One message more *)

(** What a step from one such kernel to the next must show. *)
Definition extends (k k' : RK) : Prop := partial k → partial k' ∧ grown k k'.

#[export] Instance extends_refl : Reflexive extends.
Proof. by intros k. Qed.
#[export] Instance extends_trans : Transitive extends.
Proof. intros k1 k2 k3 H12 H23 [H2 ?]%H12. destruct (H23 H2). split; [done|by etrans]. Qed.

Lemma extends_table k t :
  t ∈ ownTables → extends k (rk_step k (MNewTable t)) ∧ stored (rk_step k (MNewTable t)) (MNewTable t).
Proof.
  intros Ht. destruct k as [ts cs rs ss h]. unfold rk_step.
  assert (∀ x, x ∈ (if bool_decide (t ∈ ts) then ts else ts ++ [t]) ↔ x ∈ ts ∨ x = t) as Hin.
  { intros x. case_bool_decide; set_solver. }
  split.
  - intros [Hl Hc Hs Hr [? ? ?]]. split; [split; try done|].
    + intros x [Hx | ->]%Hin HF; [by apply Hl|]. revert Ht. unfold ownTables. rewrite !elem_of_cons, elem_of_nil.
      intros [->|[->|[]]]; vm_compute; set_solver.
    + split; try done; [intros; apply Hin; by left|by intros ? ? [? els] ?; exists els|by intros r; exists r].
  - cbn. rewrite bool_decide_eq_true_2; [by destruct t|]. apply Hin. right. by destruct t.
Qed.

Lemma extends_chain k c :
  partial k → MNewChain c ∈ ms →
  extends k (rk_step k (MNewChain c)) ∧ stored (rk_step k (MNewChain c)) (MNewChain c).
Proof.
  intros Hk Hc. pose proof (tidy_chain Htidy _ Hc) as Ht.
  assert (find_chain (rk_step k (MNewChain c)) (Chain_Table c) (Chain_Name c) = Some c) as Hf.
  { destruct k as [ts cs rs ss h]. unfold find_chain. cbn.
    destruct (existsb _ cs) eqn:E.
    - apply existsb_elem in E as (c' & Hin & Hp). destruct (find_is_Some _ _ _ Hin Hp) as [c'' Hf]. rewrite Hf.
      apply (find_chain_spec (mkRK ts cs rs ss h)) in Hf as (Hin'' & HT & HN). f_equal.
      apply (tidy_chains Htidy); [|done..]. apply (part_chains _ Hk); [done|]. unfold own_chain. rewrite HT. by apply own_ownTable.
    - rewrite find_app. destruct (List.find _ cs) as [c'|] eqn:E'.
      + apply find_elem in E' as [Hin Hp]. exfalso.
        assert (existsb (same_chain (Chain_Table c) (Chain_Name c)) cs = true) by (apply existsb_elem; by exists c').
        congruence.
      + cbn. by rewrite (proj2 (same_chain_spec _ _ _)). }
  split; [|cbn; fold (find_chain (rk_step k (MNewChain c)) (Chain_Table c) (Chain_Name c)); by rewrite Hf].
  intros _. destruct k as [ts cs rs ss h]. cbn. destruct Hk as [Hl Hcs Hs Hr [? ? ?]]. split; [split; try done|].
  - cbn. intros c' Hin Ho. case_match; [by apply Hcs|]. apply elem_of_app in Hin as [Hin| ->%list_elem_of_singleton]; [by apply Hcs|done].
  - split; try done; [|by intros ? ? [? els] ?; exists els|by intros r; exists r].
    intros t n c'. unfold find_chain. cbn. case_match; [done|]. rewrite find_app. by intros ->.
Qed.

(** A set of a wanted name holds what is wanted. *)
Lemma stored_set k s els x :
  partial k → MNewSet s ∈ ms → MNewSetElem s els ∈ ms → find_set k (Set_Table s) (Set_Name s) = Some x →
  Set_Anonymous x.1 = false ∧ sameKeys els x.2 ∧ stored k (MNewSet s) ∧ stored k (MNewSetElem s els).
Proof.
  intros Hk Hs He Hf. destruct (find_set_spec _ _ _ _ Hf) as (Hin & HT & HN).
  destruct (part_sets _ Hk x Hin) as (Ha & s' & els' & _ & He' & HT' & HN' & Hkeys).
  { rewrite HT. by apply own_ownTable, (tidy_set Htidy). }
  assert (sameKeys els x.2) as Hk'.
  { etrans; [|exact Hkeys]. apply (tidy_elems Htidy _ _ _ _ He He'); congruence. }
  cbn. fold (find_set k (Set_Table s) (Set_Name s)). rewrite Hf. split_and!; [done..|].
  exists (storeSet x.1), x.2. split_and!; [done|done| |done].
  cbn. rewrite HN. fold (find_set k (Set_Table s) (Set_Name s)). by rewrite Hf.
Qed.

Lemma find_set_fmap t n (g : NftSet * list SetElement → _) l :
  (∀ s, (g s).1 = s.1) → List.find (same_set t n) (g <$> l) = g <$> List.find (same_set t n) l.
Proof.
  intros Hg. induction l as [|s l IH]; cbn; [done|]. unfold same_set in *. rewrite Hg. by case_bool_decide.
Qed.

Lemma sameKeys_twice a b : sameKeys a b → sameKeys a (a ++ b).
Proof. intros Hab key. rewrite fmap_app, elem_of_app, <-(Hab key). naive_solver. Qed.

Lemma extends_set k s els s' els' :
  partial k → MNewSet s ∈ ms → MNewSetElem s els ∈ ms →
  Set_Table s' = Set_Table s → Set_Name s' = Set_Name s → Set_Anonymous s' = Set_Anonymous s → sameKeys els els' →
  let k' := foldl rk_step k [MNewSet s'; MNewSetElem s' els'] in
  partial k' ∧ grown k k' ∧ is_Some (find_set k' (Set_Table s) (Set_Name s)).
Proof.
  intros Hk Hs He HT HN HA Hels. destruct (tidy_set Htidy _ Hs) as [Ho%own_ownTable Han].
  destruct k as [ts cs rs ss h]. cbn. rewrite HT, HN.
  set (p := same_set (Set_Table s) (Set_Name s)).
  set (base := if existsb p ss then ss else ss ++ [(storeSet s', [])]).
  set (add := λ x : NftSet * list SetElement, if p x then (x.1, x.2 ++ els') else x).
  change (partial (mkRK ts cs rs (add <$> base) h) ∧ grown (mkRK ts cs rs ss h) (mkRK ts cs rs (add <$> base) h) ∧
    is_Some (find_set (mkRK ts cs rs (add <$> base) h) (Set_Table s) (Set_Name s))).
  assert (∀ x, (add x).1 = x.1) as Hadd by (intros x; unfold add; by destruct (p x)).
  assert (∀ x, x ∈ ss → own_table (Set_Table x.1) → wantedSet (add x) ∧ sameKeys x.2 (add x).2) as Hold.
  { intros x Hin Hx. destruct (part_sets _ Hk x Hin Hx) as (Ha & s1 & els1 & H1 & H2 & H3 & H4 & H5).
    unfold add. destruct (p x) eqn:Hp; [|by split; [split; [done|by exists s1, els1]|]].
    apply same_set_spec in Hp as [E1 E2].
    assert (sameKeys x.2 (x.2 ++ els')) as Hx2.
    { apply sameKeys_twice. etrans; [symmetry; exact H5|]. etrans; [|exact Hels].
      apply (tidy_elems Htidy _ _ _ _ H2 He); congruence. }
    split; [|done]. split; [done|]. exists s1, els1. split_and!; try done. by etrans. }
  assert (p (storeSet s', []) = true) as Hnew by (apply same_set_spec; cbn; by rewrite HT, HN).
  split_and!.
  - destruct Hk as [Hl Hc Hss Hr [? ? ?]]. split; try done. cbn. intros x (y & -> & Hy)%list_elem_of_fmap Hx.
    rewrite Hadd in Hx.
    assert (y ∈ ss ∨ y = (storeSet s', [])) as [Hin| ->].
    { unfold base in Hy. destruct (existsb p ss); set_solver. }
    + by apply Hold.
    + unfold add. rewrite Hnew. split; [cbn; congruence|]. exists s, els. by cbn.
  - split; try done; [|by intros r; exists r]. intros t n x Hf. exists (add x).2.
    unfold find_set in *. cbn in *. rewrite (find_set_fmap _ _ add) by done.
    assert (List.find (same_set t n) base = Some x) as ->.
    { unfold base. destruct (existsb p ss); [done|]. by rewrite find_app, Hf. }
    cbn. split; [by rewrite <-Hadd; destruct (add x)|].
    destruct (p x) eqn:Hp; [|unfold add; by rewrite Hp].
    apply find_elem in Hf as [Hin _]. apply Hold; [done|].
    by apply same_set_spec in Hp as [-> _].
  - unfold find_set. cbn. rewrite (find_set_fmap _ _ add) by done. apply fmap_is_Some.
    assert (∃ x, x ∈ base ∧ p x = true) as (x & Hx & Hp); [|by apply (find_is_Some _ _ x)].
    unfold base. destruct (existsb p ss) eqn:E.
    + by apply existsb_elem in E.
    + exists (storeSet s', []). split; [set_solver|done].
Qed.

(** *** Rules *)

Lemma wroteRule_mk mk r r' :
  mk = MNewRule ∨ mk = MInsertRule → mk r ∈ ms → Rule_Table r = Rule_Table r' → ruleEqual (dumpRule r) r' = true →
  wroteRule ms r'.
Proof. intros [-> | ->] Hr HT He; exists r; auto. Qed.

Lemma stored_rule k mk r r' :
  mk = MNewRule ∨ mk = MInsertRule → handles_ok k → r' ∈ rk_rules k → Rule_Table r = Rule_Table r' →
  ruleEqual (dumpRule r) r' = true → stored k (mk r).
Proof.
  intros Hmk Hok Hr' HT He.
  destruct (find_is_Some (ruleEqual (dumpRule r))
    (List.filter (in_chain (Rule_Table r) (Chain_Name (Rule_Chain r))) (rk_rules k)) r') as [x Hx]; [|done|].
  { apply ruleEqual_spec in He as He'. destruct He' as (HC & _). apply elem_of_rules. split_and!; [done|done|done|].
    apply (handles_bound _ Hok) in Hr'. lia. }
  assert (∃ rs ex, rulesAt k (Rule_Table r) (Chain_Name (Rule_Chain r)) = Ok rs ∧
    List.find (ruleEqual (dumpRule r)) rs = Some ex) as Hst by (rewrite rulesAt_RK; by eexists _, x).
  by destruct Hmk as [-> | ->].
Qed.

(** A rule is written, in the place of another or not. *)
Lemma extends_rule k mk r r' (old : option Rule) :
  partial k → mk = MNewRule ∨ mk = MInsertRule → mk r ∈ ms → Rule_Table r = Rule_Table r' →
  (∀ h, ruleEqual (dumpRule r) (storeRule h r') = true) →
  (∀ o x h, old = Some o → x ∈ rk_rules k → same_rule o x = true → alike x (storeRule h r')) →
  let k' := foldl rk_step k ((MDelRule <$> option_list old) ++ [mk r']) in
  partial k' ∧ grown k k' ∧ stored k' (mk r).
Proof.
  intros Hk Hmk Hr HT He Hold. cbv zeta.
  set (keep := λ x, match old with Some o => negb (same_rule o x) | None => true end).
  set (msgs := (MDelRule <$> option_list old) ++ [mk r']).
  pose proof (handles_foldl k msgs (part_handles _ Hk)) as Hok'. revert Hok'.
  destruct k as [ts cs rs ss h].
  assert (∃ rs', foldl rk_step (mkRK ts cs rs ss h) msgs = mkRK ts cs rs' ss (h + 1) ∧
      rs' ≡ₚ storeRule h r' :: List.filter keep rs) as (rs' & -> & Hrs').
  { assert (List.filter (λ _ : Rule, true) rs = rs) as Hall.
    { clear. induction rs as [|x rs IH]; cbn; [done|by rewrite IH]. }
    unfold msgs. destruct old as [o|], Hmk as [-> | ->]; cbn; eexists; (split; [reflexivity|]); unfold keep; rewrite ?Hall; [|done| |done].
    all: by rewrite <-Permutation_cons_append. }
  assert (∀ x, x ∈ rs' ↔ x = storeRule h r' ∨ (x ∈ rs ∧ keep x = true)) as Hin.
  { intros x. by rewrite Hrs', elem_of_cons, elem_of_filterb. }
  intros Hok'. destruct Hk as [Hl Hc Hs Hrules Hh]. cbn in *.
  split_and!.
  - split; try done. cbn. intros x [-> | [Hx _]]%Hin Ho; [|by apply Hrules].
    by apply (wroteRule_mk mk r).
  - split; cbn; try done; [by intros ? ? [? els] ?; exists els| | |lia].
    + intros x Hx. destruct (keep x) eqn:Hkeep; [exists x; split; [by apply Hin; right|done]|].
      unfold keep in Hkeep. destruct old as [o|]; [|done]. apply negb_false_iff in Hkeep.
      exists (storeRule h r'). split; [by apply Hin; left|by apply (Hold o)].
    + intros x [-> | [Hx _]]%Hin Hlt; [cbn in Hlt; lia|done].
  - apply (stored_rule _ _ _ (storeRule h r')); try done. cbn. apply Hin. by left.
Qed.
End partial.

(** *** Rulesets that differ in the handles of new rules *)

Lemma ruleEqual_set_handle x h r : ruleEqual x (set_handle h r) = ruleEqual x r.
Proof. done. Qed.

Lemma partial_renumbered ms k k1 k2 : renumbered k k1 k2 → partial ms k1 → partial ms k2.
Proof.
  intros Hrn [Hl Hc Hs Hr _]. pose proof Hrn as [HT HC HS _ Hok].
  split; rewrite ?HT, ?HC, ?HS; try done.
  intros r Hin Ho. destruct (renumbered_r Hrn r Hin) as (h & Hin'). exact (Hr _ Hin' Ho).
Qed.
Lemma allSets_renumbered ms k k1 k2 : renumbered k k1 k2 → allSets ms k1 → allSets ms k2.
Proof. intros Hrn Ha s Hs. rewrite (renumbered_find_set Hrn). by apply Ha. Qed.

(** What is stored does not depend on handles. *)
Lemma stored_renumbered k k1 k2 m : renumbered k k1 k2 → stored k1 m → stored k2 m.
Proof.
  intros Hrn. pose proof Hrn as [HT HC HS _ Hok].
  assert (∀ r, (∃ rs ex, rulesAt k1 (Rule_Table r) (Chain_Name (Rule_Chain r)) = Ok rs ∧
      List.find (ruleEqual (dumpRule r)) rs = Some ex) →
    ∃ rs ex, rulesAt k2 (Rule_Table r) (Chain_Name (Rule_Chain r)) = Ok rs ∧
      List.find (ruleEqual (dumpRule r)) rs = Some ex) as Hrule.
  { intros r (rs & ex & Hrs & Hex). rewrite rulesAt_RK in Hrs |- *. injection Hrs as <-.
    apply find_elem in Hex as [(Hin & HTx & HCx & _)%elem_of_rules He].
    destruct (renumbered_l Hrn ex Hin) as (h & Hin').
    destruct (find_is_Some (ruleEqual (dumpRule r)) (List.filter (in_chain (Rule_Table r) (Chain_Name (Rule_Chain r))) (rk_rules k2))
      (set_handle h ex)) as [x Hx]; [|by rewrite ruleEqual_set_handle|by eexists _, x].
    apply elem_of_rules. split_and!; [done..|]. apply (handles_bound _ Hok) in Hin'. lia. }
  destruct m; cbn; rewrite ?HT, ?HC, ?HS; try done; apply Hrule.
Qed.

(** *** What a kernel shows is what it holds *)

Section shown.
Context {K : Type} `{NfTables K}.
Implicit Types k : K.

Lemma stored_shown k m : stored (shown k) m → stored k m.
Proof.
  assert (∀ r, (∃ rs ex, rulesAt (shown k) (Rule_Table r) (Chain_Name (Rule_Chain r)) = Ok rs ∧
      List.find (ruleEqual (dumpRule r)) rs = Some ex) →
    ∃ rs ex, rulesAt k (Rule_Table r) (Chain_Name (Rule_Chain r)) = Ok rs ∧
      List.find (ruleEqual (dumpRule r)) rs = Some ex) as Hrule by (intros r; by rewrite rulesAt_RK, rulesAt_shown).
  destruct m as [t| |c| |r|r| | |s| |s els|]; try done; try apply Hrule; cbn.
  - by rewrite nft_ListTableOfFamily.
  - rewrite nft_ListChain. by unfold find_chain.
  - rewrite nft_GetSetByName. by unfold find_set.
  - rewrite nft_GetSetByName. unfold find_set. destruct (List.find _ _) as [x|] eqn:E; [|by intros (? & ? & ? & _)].
    intros (ex & exEls & [= <-] & Ha & Hel & Hk). exists (storeSet x.1).
    pose proof (nft_GetSetElements (in_table (Set_Table s) (storeSet x.1)) k) as HE. unfold find_set in HE. cbn in Hel, HE.
    destruct (List.find _ (rk_sets (shown k))) as [y|] in Hel, HE; [|done]. injection Hel as <-.
    destruct HE as (els' & HE & Hin). exists els'. split_and!; [done|done|exact HE|].
    intros key. rewrite (Hk key), !list_elem_of_fmap. by setoid_rewrite Hin.
Qed.
End shown.

(** ** Expressions *)

Lemma sameExpr_sym a b : sameExpr a b → sameExpr b a.
Proof. by intros []; constructor. Qed.
Lemma sameExpr_trans a b c : sameExpr a b → sameExpr b c → sameExpr a c.
Proof. intros Hab Hbc. destruct Hab; inversion Hbc; subst; by constructor. Qed.
Lemma sameExpr_dump a b : sameExpr a b → sameExpr (dumpExpr a) (dumpExpr b).
Proof. intros []; [constructor|]. apply same_expr. by destruct e. Qed.
Lemma sameExpr_dumped a b : sameExpr a b → dumpExpr b = b → dumpExpr a = a.
Proof. by intros []. Qed.
Lemma sameExpr_ok ok e : exprOk ok e → sameExpr e e.
Proof. destruct e; cbn; intros; try done; by constructor. Qed.

Abbreviation sameExprs := (Forall2 sameExpr).

#[export] Instance sameExprs_sym : Symmetric sameExprs.
Proof. intros l m. induction 1; constructor; [by apply sameExpr_sym|done]. Qed.
#[export] Instance sameExprs_trans : Transitive sameExprs.
Proof.
  intros l m p Hlm. revert p. induction Hlm as [|a b l m Hab _ IH]; intros p Hmp; inversion Hmp; subst; [done|].
  constructor; [by eapply sameExpr_trans|by apply IH].
Qed.
Lemma sameExprs_dump l m : sameExprs l m → sameExprs (dumpExpr <$> l) (dumpExpr <$> m).
Proof. induction 1; constructor; [by apply sameExpr_dump|done]. Qed.
Lemma sameExprs_dumped l m : sameExprs l m → dumpExpr <$> m = m → dumpExpr <$> l = l.
Proof.
  induction 1 as [|a b l m Hab _ IH]; cbn; [done|]. intros [= Hb Hm]. rewrite IH by done. f_equal.
  by apply (sameExpr_dumped a b).
Qed.
Lemma sameExprs_ok ok l : Forall (exprOk ok) l → sameExprs l l.
Proof. induction 1; constructor; [by eapply sameExpr_ok|done]. Qed.
Lemma sameExprs_replaceCounter ok c l :
  expr.is_Counter c = true → Forall (exprOk ok) l → sameExprs l (replaceCounter c l).
Proof.
  intros Hc. induction 1 as [|e l He Hl IH]; cbn; [done|]. destruct (expr.is_Counter e) eqn:E.
  - constructor; [by destruct e, c; try done; constructor|by eapply sameExprs_ok].
  - constructor; [by eapply sameExpr_ok|done].
Qed.
Lemma copyCounter_same ok ex r :
  Forall (exprOk ok) (Rule_Exprs r) → sameExprs (Rule_Exprs r) (Rule_Exprs (copyCounter ex r)).
Proof.
  intros Hr. unfold copyCounter. destruct (List.find _ _) as [c|] eqn:E; [|by eapply sameExprs_ok].
  apply find_some in E as [_ E]. by eapply sameExprs_replaceCounter.
Qed.
Lemma copyCounter_fields ex r :
  Rule_Table (copyCounter ex r) = Rule_Table r ∧ Rule_Chain (copyCounter ex r) = Rule_Chain r ∧
  Rule_UserData (copyCounter ex r) = Rule_UserData r.
Proof. unfold copyCounter. by case_match. Qed.

(** ** The relation *)

Section sim.
Context {K : Type} `{NfTables K} `{Gob}.
Variables (ms : list msg) (k0 : K).
Abbreviation v0 := (shown k0).
Hypothesis Htidy : tidy ms.
Hypothesis Hpart : partial ms v0.
Hypothesis total : gob_total.

(** What the kernel holds once the buffered messages are carried out. *)
Definition pending (n : nftState K) : RK := foldl rk_step (shown (kern (nft n))) (messages (nft n)).

Abbreviation full := (allSets ms v0).
(** When no set was missing, no transaction id is part of a rule. *)
Definition idOk (i : Z) : Prop := full → i = 0.

(** The first run in the empty namespace, the second in [k0]: once flushed,
    the second holds what the first wrote. *)
Record repair_sim (nA : nftState RK) (nB : nftState K) : Prop := {
  rp_empty : kern (nft nA) = emptyRK;
  rp_kern : kern (nft nB) = k0;
  rp_err : conn_err (nft nB) = None;
  rp_filter : filterT nA = filterT nB;
  rp_nat : natT nA = natT nB;
  rp_own : filterT nB = inetTable FilterTableName ∧ natT nB = inetTable NatTableName;
  rp_chains : chainFields nA = chainFields nB;
  rp_fset : option_Forall2 (eqSet idOk) (interfaceFilterSet nA) (interfaceFilterSet nB);
  rp_nset : option_Forall2 (eqSet idOk) (interfaceNatSet nA) (interfaceNatSet nB);
  rp_remembered m : m ∈ messages (nft nA) → (lookMsg m = true → full) → remembered nB m;
  rp_partial : partial ms (pending nB);
  rp_grown : grown v0 (pending nB);
  rp_stored : Forall (stored (pending nB)) (messages (nft nA)) }.

Local Abbreviation sameEnv n n' := (
  nft n' = nft n ∧ filterT n' = filterT n ∧ natT n' = natT n ∧ chainFields n' = chainFields n ∧
  interfaceFilterSet n' = interfaceFilterSet n ∧ interfaceNatSet n' = interfaceNatSet n).

(** Both runs add messages and remember something. *)
Lemma repair_step nA nB msA idA mA msB idB (mB : nftState K → nftState K) :
  repair_sim nA nB → (∀ n : nftState RK, sameEnv n (mA n)) → (∀ n, sameEnv n (mB n)) →
  (∀ n m, remembered n m → remembered (mB n) m) →
  (∀ m, m ∈ msA → (lookMsg m = true → full) → remembered (mB (emit msB idB nB)) m) →
  let k' := foldl rk_step (pending nB) msB in
  partial ms k' → grown (pending nB) k' → Forall (stored k') msA →
  repair_sim (mA (emit msA idA nA)) (mB (emit msB idB nB)).
Proof.
  intros [] HA HB Hmono Hms k' Hp Hg Hst. destruct (HA (emit msA idA nA)) as (A1 & A2 & A3 & A4 & A5 & A6).
  destruct (HB (emit msB idB nB)) as (B1 & B2 & B3 & B4 & B5 & B6).
  assert (pending (mB (emit msB idB nB)) = k') as Hk.
  { unfold pending. rewrite B1. cbn. by rewrite foldl_app. }
  split; rewrite ?Hk, ?A1, ?A2, ?A3, ?A4, ?A5, ?A6, ?B1, ?B2, ?B3, ?B4, ?B5, ?B6; try done.
  - cbn. intros m [Hm|Hm]%elem_of_app Hr; [|by apply Hms]. apply Hmono. exact (rp_remembered0 m Hm Hr).
  - by etrans.
  - cbn. apply Forall_app. split; [|done]. eapply Forall_impl; [exact rp_stored0|]. intros m.
    apply stored_grown; [done|by apply (part_handles _ _ Hp)].
Qed.

(** The same when the second run finds what it needs in [k0]. *)
Lemma repair_found nA nB msA idA mA (mB : nftState K → nftState K) :
  repair_sim nA nB → (∀ n : nftState RK, sameEnv n (mA n)) → (∀ n, sameEnv n (mB n)) →
  (∀ n m, remembered n m → remembered (mB n) m) →
  (∀ m, m ∈ msA → (lookMsg m = true → full) → remembered (mB nB) m) →
  Forall (stored v0) msA → repair_sim (mA (emit msA idA nA)) (mB nB).
Proof.
  intros Hs HA HB Hmono Hms Hst. rewrite <-(emit_nil nB). pose proof (rp_partial _ _ Hs) as Hp.
  apply repair_step; try done; [by rewrite emit_nil|].
  eapply Forall_impl; [exact Hst|]. intros m. apply stored_grown; [apply (rp_grown _ _ Hs)|by apply (part_handles _ _ Hp)].
Qed.

Abbreviation upto := (λ msA : list msg, ∀ m, m ∈ msA → m ∈ ms).

Lemma repair_addChain c : steps repair_sim upto (addChain c) (addChain c) eq.
Proof.
  split; [apply grows_addChain|].
  intros nA nB a nA' Hs. rewrite (first_addChain nA c (rp_empty _ _ Hs)). cbn.
    set (c' := set_Chain_Name _ c). intros [= <- <-] Hup.
    assert (MNewChain c' ∈ ms) as Hc by (apply Hup; cbn; set_solver).
    rewrite (addChain_quiet _ _ (nft_quiet _)), (rp_kern _ _ Hs), nft_ListChain. cbn. fold c'.
    destruct (find_chain v0 _ _) as [ex|] eqn:E.
    + assert (ex = c') as ->.
      { apply find_chain_spec in E as (Hin & HT & HN). apply (tidy_chains _ Htidy); [|done..].
        apply (part_chains _ _ Hpart); [done|]. unfold own_chain. rewrite HT. by apply own_ownTable, (tidy_chain _ Htidy c'). }
      eexists _, _. split; [done|]. split; [done|].
      apply (repair_found _ _ _ _ (remember_chain c') (remember_chain c')); try done; [intros ? ?; apply remember_chain_mono|..].
      * intros m ->%list_elem_of_singleton _. cbn. by rewrite lookup_insert_eq.
      * constructor; [|done]. cbn. fold (find_chain v0 (Chain_Table c) (kernelName (Chain_Name c))). by rewrite E.
    + eexists _, _. split; [done|]. split; [done|]. pose proof (rp_partial _ _ Hs) as Hp.
      destruct (extends_chain ms Htidy _ _ Hp Hc) as [He Hst]. destruct (He Hp).
      apply (repair_step _ _ _ _ (remember_chain c') _ _ (remember_chain c')); try done; [intros ? ?; apply remember_chain_mono|..].
      * intros m ->%list_elem_of_singleton _. cbn. by rewrite lookup_insert_eq.
      * by constructor.
Qed.

Lemma repair_updateSet sA sB elsA elsB :
  eqSet idOk sA sB → elsA ≠ [] → sameKeys elsA elsB →
  steps repair_sim upto (updateSet sA elsA) (updateSet sB elsB) (eqSet idOk).
Proof.
  intros (i & Hi & ->) Hne Hsame.
  split; [by apply grows_updateSet|].
  intros nA nB a nA' Hs Ha Hup. destruct (first_updateSet nA sA elsA a nA' (rp_empty _ _ Hs) Hne Ha) as (_ & id & last & [= Ea ->]).
  rewrite <-Ea in Hup |- *.
    assert (MNewSet a ∈ ms) as Hset by (apply Hup; cbn; set_solver).
    assert (MNewSetElem a elsA ∈ ms) as Hel by (apply Hup; cbn; set_solver).
    assert (Set_Table a = Set_Table sA ∧ Set_Name a = kernelName (Set_Name sA) ∧ Set_Anonymous a = Set_Anonymous sA)
      as (HT & HN & HAn) by (by subst a).
    pose proof (tidy_set _ Htidy _ Hset) as [_ Hanon].
    assert (∀ m (n : nftState K) x, m ∈ [MNewSet a; MNewSetElem a elsA] →
      remembered (remember_set (setKey (Table_Name (Set_Table sA)) (kernelName (Set_Name sA))) x n) m) as Hrem.
    { intros m n x. rewrite !elem_of_cons, elem_of_nil. intros [->|[->|[]]]; [|done].
      cbn. by rewrite HT, HN, lookup_insert_eq. }
    assert (find_set v0 (Set_Table a) (Set_Name a) = find_set v0 (Set_Table sA) (kernelName (Set_Name sA))) as Hfa
      by (by rewrite HT, HN).
    destruct (find_set v0 (Set_Table sA) (kernelName (Set_Name sA))) as [x|] eqn:E.
    + destruct (stored_set ms Htidy v0 a elsA x Hpart Hset Hel Hfa) as (Hxa & Hkeys & Hst1 & Hst2).
      pose proof (find_set_spec _ _ _ _ E) as (_ & _ & HxN).
      pose proof (nft_GetSetElements (in_table (Set_Table sA) (storeSet x.1)) k0) as HE. cbn in HE. rewrite HxN, E in HE.
      destruct HE as (els & HE & Hels).
      rewrite (updateSet_quiet_existing _ _ _ (storeSet x.1) els); rewrite ?(rp_kern _ _ Hs); try done; [|apply nft_quiet|].
      2:{ cbn. by rewrite nft_GetSetByName, E. }
      rewrite processElements_same.
      2:{ etrans; [symmetry; exact Hsame|]. etrans; [exact Hkeys|]. intros key. rewrite !list_elem_of_fmap. by setoid_rewrite Hels. }
      cbn.
      eexists _, _. split; [done|]. split; [exists i; by subst a|].
      rewrite emit_nil.
      apply (repair_found _ _ _ _ (remember_set _ _) (remember_set _ _)); try done; [intros ? ?; apply remember_set_mono| |].
      * intros m Hm _. by apply Hrem.
      * by repeat constructor.
    + pose proof (updateSet_cases (set_Set_ID i sA) elsB nB ErrNotExist) as Hcase.
      assert (Set_Anonymous sA = false) as HanA by congruence. change (fickle (set_Set_ID i sA)) with (fickle sA) in Hcase.
      unfold fickle in Hcase. rewrite HanA in Hcase. cbn [andb] in Hcase.
      destruct Hcase as (id' & last' & He).
      * apply nft_quiet.
      * rewrite (rp_kern _ _ Hs). cbn. by rewrite nft_GetSetByName, E.
      * done.
      * intros ->. destruct elsA as [|e elsA]; [done|]. assert (Key e ∈ Key <$> ([] : list SetElement)) as Hin by (apply Hsame; by left).
        by apply elem_of_nil in Hin.
      * cbv zeta in He. rewrite He. eexists _, _. split; [done|]. split.
        { exists id'. split; [|by subst a]. intros Hfull. destruct (Hfull a Hset) as [y Hy]. congruence. }
        set (b := set_Set_ID id' _).
        destruct (extends_set ms Htidy (pending nB) a elsA b elsB (rp_partial _ _ Hs) Hset Hel) as (Hp & Hg & [y Hy]);
          [by rewrite HT|by rewrite HN|by rewrite HAn|done|].
        destruct (stored_set ms Htidy _ a elsA y Hp Hset Hel Hy) as (_ & _ & Hst1 & Hst2).
        apply (repair_step _ _ _ _ (remember_set _ _) _ _ (remember_set _ _)); try done; [intros ? ?; apply remember_set_mono| |].
        { intros m Hm _. by apply Hrem. }
        by repeat constructor.
Qed.

(** A rule the kernel has under a wanted name shows no transaction id. *)
Lemma wroteRule_dumped r : wroteRule ms r → dumpExpr <$> Rule_Exprs r = Rule_Exprs r.
Proof.
  intros (r' & _ & _ & (_ & _ & _ & He)%ruleEqual_spec). cbn in He. symmetry in He.
  eapply sameExprs_dumped; [exact He|]. apply dump_twice.
Qed.

Lemma idOk_dump es : full → Forall (exprOk idOk) es → dumpExpr <$> es = es.
Proof.
  intros Hf. induction 1 as [|e es He _ IH]; cbn; [done|]. rewrite IH. f_equal.
  destruct e; cbn in *; try done. by rewrite (He Hf).
Qed.

Lemma dumpRule_fixed r : dumpExpr <$> Rule_Exprs r = Rule_Exprs r → dumpRule r = r.
Proof. intros E. unfold dumpRule. rewrite E. by destruct r. Qed.

(** What two rules that a dump shows alike have in common. *)
Lemma eqRule_fields rA rB :
  dumpRule rA = dumpRule rB →
  Rule_Table rA = Rule_Table rB ∧ Rule_Chain rA = Rule_Chain rB ∧ Rule_Handle rA = Rule_Handle rB ∧
  Rule_UserData rA = Rule_UserData rB ∧ dumpExpr <$> Rule_Exprs rA = dumpExpr <$> Rule_Exprs rB.
Proof. by intros [=]. Qed.

(** The rule the second run writes compares equal to the wanted one. *)
Lemma written_equal rA rB i h es id :
  dumpRule rA = dumpRule rB → Forall (exprOk idOk) (Rule_Exprs rB) → sameExprs (Rule_Exprs rB) es →
  ruleEqual (dumpRule (set_Rule_ID i rA)) (storeRule h (set_Rule_ID id (set_Rule_Exprs es rB))) = true.
Proof.
  intros (HT & HC & _ & HU & HE)%eqRule_fields Hok Hes. apply ruleEqual_spec. cbn.
  rewrite HT, HC, HU, HE. split_and!; try done. by apply sameExprs_dump.
Qed.

Lemma copyCounter_exprs ex r : copyCounter ex r = set_Rule_Exprs (Rule_Exprs (copyCounter ex r)) r.
Proof. unfold copyCounter. case_match; by destruct r. Qed.

(** A rule found in [k0] is the wanted one. *)
Lemma found_rule rA rB i ex mk :
  (mk = MNewRule ∨ mk = MInsertRule) → mk (set_Rule_ID i rA) ∈ ms → dumpRule rA = dumpRule rB →
  List.find (ruleEqual rB) (List.filter (in_chain (Rule_Table rB) (Chain_Name (Rule_Chain rB))) (rk_rules v0)) = Some ex →
  ex ∈ rk_rules v0 ∧ Rule_Table ex = Rule_Table rB ∧ ruleEqual rB ex = true ∧ dumpRule rB = rB ∧
  stored v0 (mk (set_Rule_ID i rA)).
Proof.
  intros Hmk Hin Hd [(Hex & HT & HC & Hh)%elem_of_rules He]%find_elem.
  pose proof (eqRule_fields _ _ Hd) as (HTA & HCA & _ & HUA & HEA).
  assert (own_table (Rule_Table ex)) as Hown.
  { rewrite HT, <-HTA. apply (tidy_rule _ Htidy (set_Rule_ID i rA)). by destruct Hmk as [-> | ->]; auto. }
  assert (dumpRule rB = rB) as Hfix.
  { apply dumpRule_fixed. apply ruleEqual_spec in He as (_ & _ & _ & HE).
    by eapply sameExprs_dumped, wroteRule_dumped, (part_rules _ _ Hpart). }
  split_and!; try done. apply (stored_rule _ _ _ ex); try done; [apply (part_handles _ _ Hpart)|by cbn; rewrite HT|].
  rewrite <-Hfix, <-Hd in He. exact He.
Qed.

Lemma remembered_rule rA rB i mk key x m (n : nftState K) :
  (mk = MNewRule ∨ mk = MInsertRule) → dumpRule rA = dumpRule rB → hash_rule rB = Ok key →
  (looksUp rB = false ∨ full → dumpRule rB = rB) → m ∈ [mk (set_Rule_ID i rA)] → (lookMsg m = true → full) →
  remembered (remember_rule key x n) m.
Proof.
  intros Hmk Hd Hkey Hfix ->%list_elem_of_singleton Hfull.
  assert (∃ key', hash_rule (dumpRule (set_Rule_ID i rA)) = Ok key' ∧
            is_Some (rules (remember_rule key x n) !! key')) as Hr.
  { exists key. split; [|by cbn; rewrite lookup_insert_eq].
    change (hash_rule (dumpRule rA) = Ok key). rewrite Hd, Hfix; [done|].
    assert (lookMsg (mk (set_Rule_ID i rA)) = looksUp rB) as Hl.
    { rewrite <-(looksUp_dump rB), <-Hd, looksUp_dump. by destruct Hmk as [-> | ->]. }
    rewrite Hl in Hfull. destruct (looksUp rB); [right; by apply Hfull|by left]. }
  by destruct Hmk as [-> | ->].
Qed.

(** What a forced update writes in the place of [ex]. *)
Lemma replaced_alike rB ex x h id n :
  grown v0 n → x ∈ rk_rules n → same_rule ex x = true → ex ∈ rk_rules v0 →
  Rule_Table ex = Rule_Table rB → ruleEqual rB ex = true → dumpRule rB = rB → Forall (exprOk idOk) (Rule_Exprs rB) →
  alike x (storeRule h (set_Rule_ID id (copyCounter ex rB))).
Proof.
  intros Hg Hx Hh Hex HT He Hfix Hok.
  assert (x = ex) as ->.
  { pose proof (part_handles _ _ Hpart) as Hk. apply same_rule_spec in Hh. apply (handles_unique v0); [done| |done|done].
    apply (grown_old _ _ Hg); [done|]. injection Hh as _ ->. by apply (handles_bound _ Hk). }
  apply ruleEqual_spec in He as (HC & _ & HU & HE). destruct (copyCounter_fields ex rB) as (CT & CC & CU).
  unfold alike. cbn. rewrite CT, CC. split_and!; [done|done|].
  intros y (YC & YT & YU & YE)%ruleEqual_spec. apply ruleEqual_spec. cbn. rewrite CT, CC, CU.
  split_and!; [congruence|congruence|congruence|].
  pose proof (copyCounter_same _ ex _ Hok) as Hcopy.
  rewrite (sameExprs_dumped _ (Rule_Exprs rB)).
  - etrans; [exact YE|]. etrans; [symmetry; exact HE|done].
  - by symmetry.
  - apply (f_equal Rule_Exprs) in Hfix. exact Hfix.
Qed.

Lemma repair_updateRule rA rB mk fA fB :
  (mk = MNewRule ∨ mk = MInsertRule) → Rule_Handle rA = 0 → eqRule idOk rA rB → True →
  steps repair_sim upto (updateRule rA (writeRule mk) fA) (updateRule rB (writeRule mk) fB) (λ _ _, looksUp rB = false → True).
Proof.
  intros Hmk Hh [Hd Hok] _. pose proof (total rA) as HtA. destruct (hash_rule rA) as [keyA|] eqn:EkA; [|done].
  pose proof (eqRule_fields _ _ Hd) as (HT & HC & HH & _).
  split; [by apply grows_updateRule|].
  intros nA nB a nA' Hs. rewrite (first_updateRule nA _ _ _ keyA (rp_empty _ _ Hs) EkA Hh). cbn.
    set (i := nextID _). intros [= <- <-] Hup.
    assert (mk (set_Rule_ID i rA) ∈ ms) as Hin by (apply Hup; cbn; set_solver).
    pose proof (total rB) as HtB. destruct (hash_rule rB) as [keyB|] eqn:EkB; [|done].
    pose proof (rp_partial _ _ Hs) as Hp. pose proof (rp_grown _ _ Hs) as Hg.
    rewrite (updateRule_quiet rB _ _ _ _ keyB (nft_quiet _) (rulesAt_shown _ _ _) EkB) by congruence. cbv zeta.
    rewrite (rp_kern _ _ Hs). destruct (List.find _ _) as [ex|] eqn:E.
    + destruct (found_rule _ _ i _ _ Hmk Hin Hd E) as (Hex & HTx & He & Hfix & Hst). destruct fB.
      * eexists _, _. split; [done|]. split; [done|].
        destruct (extends_rule ms (pending nB) mk (set_Rule_ID i rA) (set_Rule_ID (nextID (lastID (nft nB))) (copyCounter ex rB))
          (Some ex) Hp Hmk Hin) as (Hp' & Hg' & Hst').
        { cbn. destruct (copyCounter_fields ex rB) as (-> & _). exact HT. }
        { intros h. rewrite (copyCounter_exprs ex rB). apply written_equal; [done|done|].
          by eapply copyCounter_same. }
        { intros o x h [= <-] Hx Hhx. by eapply replaced_alike. }
        apply (repair_step _ _ _ _ (remember_rule _ _) _ _ (remember_rule _ _)); try done;
          [intros ? ?; apply remember_rule_mono| |by constructor].
        intros m Hm Hfull. by eapply remembered_rule.
      * eexists _, _. split; [done|]. split; [done|].
        apply (repair_found _ _ _ _ (remember_rule _ _) (remember_rule _ _)); try done;
          [intros ? ?; apply remember_rule_mono| |by constructor].
        intros m Hm Hfull. by eapply remembered_rule.
    + eexists _, _. split; [done|]. split; [done|].
      destruct (extends_rule ms (pending nB) mk (set_Rule_ID i rA) (set_Rule_ID (nextID (lastID (nft nB))) rB) None Hp Hmk Hin)
        as (Hp' & Hg' & Hst'); [done| |done|].
      { intros h. pose proof (written_equal rA rB i h (Rule_Exprs rB) (nextID (lastID (nft nB))) Hd Hok) as Hw.
        assert (set_Rule_Exprs (Rule_Exprs rB) rB = rB) as Er by (by destruct rB). rewrite Er in Hw.
        by eapply Hw, sameExprs_ok. }
      apply (repair_step _ _ _ _ (remember_rule _ _) _ _ (remember_rule _ _)); try done;
        [intros ? ?; apply remember_rule_mono| |by constructor].
      intros m Hm Hfull. eapply remembered_rule; try done.
      intros [Hf|Hf]; [by apply looksUp_fixed|by apply dumpRule_fixed, idOk_dump].
Qed.

Lemma repair_fields nA nB nA' nB' :
  repair_sim nA nB → keeps nA nA' → keeps nB nB' → chainFields nA' = chainFields nB' →
  option_Forall2 (eqSet idOk) (interfaceFilterSet nA') (interfaceFilterSet nB') →
  option_Forall2 (eqSet idOk) (interfaceNatSet nA') (interfaceNatSet nB') → repair_sim nA' nB'.
Proof.
  intros [] (A1 & A2 & A3 & _) (B1 & B2 & B3 & B4 & B5 & B6) ? ? ?.
  split; unfold pending in *; rewrite ?A1, ?A2, ?A3, ?B1, ?B2, ?B3; try done.
  intros m Hm Hr. specialize (rp_remembered0 m Hm Hr). revert rp_remembered0. unfold remembered. by rewrite B4, B5, B6.
Qed.

Lemma upto_subset (l l' : list msg) : l `prefix_of` l' → upto l' → upto l.
Proof. intros [x ->] Hl m Hm. apply Hl, elem_of_app. by left. Qed.

Definition repairRel : RunRel K := {|
  sim := repair_sim; Lockstep.upto := upto; id_ok := idOk; flag_ok := λ _, True;
  sim_empty := rp_empty; sim_filter := rp_filter; sim_nat := rp_nat; sim_chains := rp_chains;
  sim_fset := rp_fset; sim_nset := rp_nset; sim_fields := repair_fields;
  upto_prefix := upto_subset; id_zero := λ _, eq_refl; flag_false := I;
  steps_addChain := repair_addChain; steps_updateRule := repair_updateRule; 
  steps_updateSet sA sB elsA elsB Hs Hne He := repair_updateSet sA sB elsA elsB Hs Hne (sameElems_keys _ _ He) |}.
End sim.
