(* ===== verification/Converge.v ===== *)
(** * Syncs converge

    The whole sync of a namespace that holds a part of what is wanted: the
    tables, the generators run as [Repair] relates them, the flush and the
    cleanup, any batch of which the kernel may refuse; then the runs of several
    syncs. *)

From S2P Require Import Prelude GoStd Names Nft Netip Api Elements Conn RefKernel NfTables State Legacy Rules Cleanup Server Fresh Meaning Typing Settled Lockstep Idle Repair.

(** ** Flushes *)

Section flush.
Context {K : Type} `{NfTables K}.

(** The last batch sent was refused. *)
Definition refused (c : Conn K) : Prop :=
  ∃ bs b k e, sent c = bs ++ [b] ∧ k_commit b k = (Err e, kern c).

(** A batch is carried out, or refused. *)
Lemma Flush_outcome (c : Conn K) :
  conn_err c = None → handles_ok (shown (kern c)) →
  ∃ r c', Flush c = (r, c') ∧ messages c' = [] ∧ conn_err c' = None ∧
    (r = Ok tt ∧ renumbered (shown (kern c)) (foldl rk_step (shown (kern c)) (messages c)) (shown (kern c')) ∨
     is_ok r = false ∧ shown (kern c') = shown (kern c) ∧ refused c').
Proof.
  intros He Hok. unfold Flush. rewrite He. destruct (messages c) as [|m ms].
  { eexists _, _. split_and!; [done..|]. left. split; [done|]. by apply renumbered_refl. }
  destruct (k_commit (m :: ms) (kern c)) as [[[]|e] k] eqn:E; (eexists _, _; split_and!; [done..|]).
  - left. split; [done|]. by eapply nft_commit.
  - right. split_and!; [done|by eapply nft_refuse|]. by eexists _, _, _, e.
Qed.

Lemma legacy_nothing (c : Conn K) :
  (∀ t, t ∈ rk_tables (shown (kern c)) → Table_Family t = TableFamilyINet → Table_Name t ∉ legacyNames) →
  CleanupLegacyTables c = (Ok tt, c).
Proof.
  intros Hl. destruct (nft_ListTablesOfFamily TableFamilyINet (kern c)) as (l & El & Hin).
  unfold CleanupLegacyTables, mbind, ST_bind, wrapST, ListTablesOfFamily.
  rewrite read_quiet by apply quiet_ListTablesOfFamily, nft_quiet. rewrite El. cbn [wrap].
  assert (∀ t, t ∈ l → Table_Name t ∉ legacyNames) as Hall by (intros t [Ht HF]%Hin; by apply Hl).
  clear El Hin. induction l as [|t l IH]; [done|]. cbn [forM]. unfold mbind, ST_bind, cleanupLegacyTable at 1, has.
  rewrite bool_decide_eq_false_2 by (apply Hall; by left). cbn. apply IH. intros t' Ht'. apply Hall. by right.
Qed.
End flush.

(** ** Removing rules *)

(** Only rules were removed. *)
Record fewerRules (k k' : RK) : Prop := {
  fewer_tables : rk_tables k' = rk_tables k;
  fewer_chains : rk_chains k' = rk_chains k;
  fewer_sets : rk_sets k' = rk_sets k;
  fewer_rules : ∃ p, rk_rules k' = List.filter p (rk_rules k);
  fewer_handles : handles_ok k' }.

(** Those satisfying [p] were. *)
Record swept (p : Rule → bool) (k k' : RK) : Prop := {
  swept_tables : rk_tables k' = rk_tables k;
  swept_chains : rk_chains k' = rk_chains k;
  swept_sets : rk_sets k' = rk_sets k;
  swept_rules : rk_rules k' = List.filter (λ r, negb (p r)) (rk_rules k);
  swept_handles : handles_ok k' }.

Lemma filter_filter {A} (p q : A → bool) l : List.filter p (List.filter q l) = List.filter (λ x, q x && p x) l.
Proof. induction l as [|x l IH]; cbn; [done|]. destruct (q x); cbn; by rewrite IH. Qed.
Lemma filter_all {A} (p : A → bool) l : (∀ x, x ∈ l → p x = true) → List.filter p l = l.
Proof.
  induction l as [|x l IH]; intros Hp; cbn; [done|]. rewrite Hp by (by left). f_equal. apply IH. intros. apply Hp. by right.
Qed.

Lemma swept_fewer p k k' : swept p k k' → fewerRules k k'.
Proof. intros []. split; try done. by eexists. Qed.

Lemma swept_trans p q k1 k2 k3 : swept p k1 k2 → swept q k2 k3 → swept (λ r, p r || q r) k1 k3.
Proof.
  intros [? ? ? HR1 _] [? ? ? HR2 ?]. split; [congruence..| |done].
  rewrite HR2, HR1, filter_filter. apply List.filter_ext. intros r. by rewrite negb_orb.
Qed.
Lemma swept_ext p q k k' : (∀ r, p r = q r) → swept p k k' → swept q k k'.
Proof. intros Hpq [? ? ? HR ?]. split; try done. rewrite HR. apply List.filter_ext. intros r. by rewrite Hpq. Qed.
Lemma swept_none p k k' : handles_ok k' → (∀ r, r ∈ rk_rules k → p r = false) →
  rk_tables k' = rk_tables k → rk_chains k' = rk_chains k → rk_sets k' = rk_sets k → rk_rules k' = rk_rules k →
  swept p k k'.
Proof. intros ? Hp ? ? ? HR. split; try done. rewrite HR, filter_all; [done|]. intros r Hr. by rewrite Hp. Qed.
Lemma swept_id p k k' : swept p k k' → (∀ r, r ∈ rk_rules k → p r = false) → rk_rules k' = rk_rules k.
Proof. intros [_ _ _ HR _] Hp. rewrite HR. apply filter_all. intros r Hr. by rewrite Hp. Qed.
Lemma swept_elem p k k' r : swept p k k' → r ∈ rk_rules k' ↔ r ∈ rk_rules k ∧ p r = false.
Proof. intros [_ _ _ HR _]. by rewrite HR, elem_of_filterb, negb_true_iff. Qed.

Lemma fewerRules_elem k k' r : fewerRules k k' → r ∈ rk_rules k' → r ∈ rk_rules k.
Proof. intros [_ _ _ [p HR] _]. rewrite HR, elem_of_filterb. by intros []. Qed.
Lemma fewerRules_partial ms k k' : fewerRules k k' → partial ms k → partial ms k'.
Proof.
  intros Hf [Hl Hc Hs Hr _]. pose proof Hf as [HT HC HS _ Hok].
  split; rewrite ?HT, ?HC, ?HS; try done. intros r Hin. apply Hr. by eapply fewerRules_elem.
Qed.
Lemma fewerRules_allSets ms k k' : fewerRules k k' → allSets ms k → allSets ms k'.
Proof. intros [_ _ HS _ _] Ha s Hs. unfold find_set. rewrite HS. by apply Ha. Qed.

(** What is stored is stored in a ruleset with the same objects. *)
Lemma stored_same (k k' : RK) m :
  rk_tables k' = rk_tables k → rk_chains k' = rk_chains k → rk_sets k' = rk_sets k → rk_rules k' = rk_rules k →
  stored k m → stored k' m.
Proof. destruct k, k'. cbn. intros -> -> -> ->. by destruct m. Qed.

(** What the cleanup of rules removes: what is stale in a chain of its table
    that exists. *)
Definition listed (k : RK) (r : Rule) : bool :=
  existsb (same_chain (Rule_Table r) (Chain_Name (Rule_Chain r))) (rk_chains k).
Definition doomed (st : Rule → bool) (k : RK) (t : Table) (r : Rule) : bool :=
  bool_decide (Rule_Table r = t) && listed k r && st r.

(** Deleting the rules that satisfy [p]. *)
Lemma foldl_delete (l : list Rule) ts cs rs ss h :
  foldl rk_step (mkRK ts cs rs ss h) (MDelRule <$> l) =
  mkRK ts cs (List.filter (λ x, forallb (λ r, negb (same_rule r x)) l) rs) ss h.
Proof.
  revert rs. induction l as [|r l IH]; intros rs; cbn; [by rewrite filter_all|]. by rewrite IH, filter_filter.
Qed.
Lemma delete_rules p k l :
  handles_ok k → (∀ r, r ∈ l ↔ r ∈ rk_rules k ∧ p r = true) →
  rk_rules (foldl rk_step k (MDelRule <$> l)) = List.filter (λ r, negb (p r)) (rk_rules k).
Proof.
  intros Hok Hl. destruct k as [ts cs rs ss h] eqn:Ek. rewrite foldl_delete. cbn. apply List.filter_ext_in.
  intros x Hx%list_elem_of_In. cbn in Hl. destruct (p x) eqn:E; cbn.
  - apply not_true_iff_false. rewrite forallb_elem. intros Hall. specialize (Hall x).
    rewrite (proj2 (same_rule_spec x x)) in Hall by done. by discriminate Hall; apply Hl.
  - apply forallb_elem. intros r Hr. apply negb_true_iff, not_true_iff_false. intros Hs%same_rule_spec.
    apply Hl in Hr as [Hr Hpr]. assert (x = r) as ->; [|congruence]. by eapply (handles_unique _ _ _ Hok).
Qed.

Lemma delete_swept p k k' l :
  handles_ok k → (∀ r, r ∈ l ↔ r ∈ rk_rules k ∧ p r = true) →
  renumbered k (foldl rk_step k (MDelRule <$> l)) k' → swept p k k'.
Proof.
  intros Hok Hl Hrn. pose proof (delete_rules p k l Hok Hl) as HR.
  assert (rk_tables (foldl rk_step k (MDelRule <$> l)) = rk_tables k ∧
    rk_chains (foldl rk_step k (MDelRule <$> l)) = rk_chains k ∧
    rk_sets (foldl rk_step k (MDelRule <$> l)) = rk_sets k) as (HT & HC & HS) by (destruct k; by rewrite foldl_delete).
  pose proof Hrn as [RT RC RS _ Hok']. split; [congruence..| |done].
  rewrite (renumbered_old _ _ _ Hrn); [done|]. intros r. rewrite HR, elem_of_filterb. by intros [].
Qed.

(** ** The tables *)

Section sync.
Context {K : Type} `{NfTables K} `{Gob} `{Arch} `{LabelApi}.
Variable ms : list msg.
Hypothesis Htidy : tidy ms.

(** The messages [l] repair [k], or a part of it. *)
Definition good (k : K) (l : list msg) : Prop :=
  partial ms (foldl rk_step (shown k) l) ∧ grown (shown k) (foldl rk_step (shown k) l).

(** The table is there, or will be after the flush. *)
Lemma addTable_repairs t k l :
  t ∈ ownTables → good k l →
  ∃ l', addTable t (mkConn k l 0 None []) = (Ok t, mkConn k l' 0 None []) ∧
    good k l' ∧ grown (foldl rk_step (shown k) l) (foldl rk_step (shown k) l') ∧
    stored (foldl rk_step (shown k) l') (MNewTable t).
Proof.
  intros Ht [Hp Hg]. unfold addTable, mbind, ST_bind, try, ListTableOfFamily.
  rewrite read_quiet by apply quiet_ListTableOfFamily, nft_quiet. rewrite nft_ListTableOfFamily. cbn [fst kern].
  assert (mkTable (Table_Name t) (Table_Family t) = t) as Et by (by destruct t). rewrite Et.
  case_bool_decide as Hin.
  - exists l. split_and!; try done. apply (stored_grown (shown k)); [done|by apply (part_handles ms)|].
    cbn. rewrite Et. by rewrite bool_decide_eq_true_2.
  - exists (l ++ [MNewTable t]). unfold good. rewrite foldl_app. cbn [foldl].
    destruct (extends_table ms Htidy (foldl rk_step (shown k) l) t Ht) as [He Hst]. destruct (He Hp) as [Hp' Hg'].
    split_and!; [done|done|by etrans|done|done].
Qed.

Lemma tables_repaired k :
  partial ms (shown k) → ∃ l,
  (onNft CleanupLegacyTables ≫= λ _, bootstrapTables) (startState (newConn k)) =
    (Ok tt, newState (mkConn k l 0 None []) (inetTable FilterTableName) (inetTable NatTableName)) ∧
  good k l ∧ Forall (stored (foldl rk_step (shown k) l)) (MNewTable <$> ownTables).
Proof.
  intros Hp. unfold mbind at 1, ST_bind at 1.
  rewrite (onNft_pure _ _ (Ok tt)) by (apply legacy_nothing; apply (part_legacy _ _ Hp)).
  destruct (addTable_repairs (inetTable FilterTableName) k []) as (l1 & E1 & G1 & _ & S1); [set_solver|done|].
  destruct (addTable_repairs (inetTable NatTableName) k l1) as (l2 & E2 & G2 & H12 & S2); [set_solver|done|].
  exists l2. unfold bootstrapTables, mbind, ST_bind, wrapST, onNft, zoom.
  unfold inetTable in *. cbn [nft startState newState]. unfold newConn. rewrite E1. cbn. rewrite E2.
  split_and!; [done|done|]. repeat constructor; [|done].
  apply (stored_grown (foldl rk_step (shown k) l1)); [done|apply (part_handles ms), G2|done].
Qed.

(** ** The cleanup *)

(** A state after the flush, all of whose sets and chains are remembered. *)
Record flushed (full : Prop) (n : nftState K) : Prop := {
  fl_partial : partial ms (shown (kern (nft n)));
  fl_messages : messages (nft n) = [];
  fl_err : conn_err (nft n) = None;
  fl_own : filterT n = inetTable FilterTableName ∧ natT n = inetTable NatTableName;
  fl_remembered m : m ∈ ms → (lookMsg m = true → full) → remembered n m }.

(** What a batch of rule deletions ends in. *)
Definition sweeps (p : Rule → bool) (v : RK) (r : result unit) (c : Conn K) : Prop :=
  messages c = [] ∧ conn_err c = None ∧
  (r = Ok tt ∧ swept p v (shown (kern c)) ∨ is_ok r = false ∧ shown (kern c) = v ∧ refused c).

Section cleanup.
Variable full : Prop.

Lemma fl_others n : flushed full n → ∀ m, m ∈ ms → isRule m = false → remembered n m.
Proof. intros Hf m Hm Hr. apply (fl_remembered _ _ Hf m Hm). by destruct m. Qed.

Lemma own_inet_table t : t ∈ ownTables → Table_Family t = TableFamilyINet.
Proof. unfold ownTables. rewrite !elem_of_cons, elem_of_nil. by intros [->|[->|[]]]. Qed.

(** What a state that only lost rules in the kernel keeps. *)
Lemma flushed_fewer n c :
  flushed full n → fewerRules (shown (kern (nft n))) (shown (kern c)) → messages c = [] → conn_err c = None →
  flushed full (set_nft c n).
Proof. intros [] Hk ? ?. split; try done. by apply (fewerRules_partial _ (shown (kern (nft n)))). Qed.

Lemma stale_rules_dels (n : nftState K) t rs chs : ∃ l, stale_rules n t rs chs = MDelRule <$> l ∧
  ∀ r, r ∈ l ↔ ∃ c, c ∈ chs ∧ of_table t c = true ∧ r ∈ rs (Chain_Name c) ∧ stale n r = true.
Proof.
  exists (chs ≫= λ c, if of_table t c then List.filter (stale n) (rs (Chain_Name c)) else []). split.
  - unfold stale_rules. induction chs as [|c chs IH]; cbn; [done|]. rewrite fmap_app, <-IH. by destruct (of_table t c).
  - intros r. rewrite list_elem_of_bind.
    assert (∀ c, r ∈ (if of_table t c then List.filter (stale n) (rs (Chain_Name c)) else []) ↔
      of_table t c = true ∧ r ∈ rs (Chain_Name c) ∧ stale n r = true) as Hc; [|setoid_rewrite Hc; naive_solver].
    intros c. destruct (of_table t c); [|set_solver]. rewrite elem_of_filterb. naive_solver.
Qed.

Lemma of_table_inet t c : t ∈ ownTables → Table_Family (Chain_Table c) = TableFamilyINet → of_table t c = true → Chain_Table c = t.
Proof.
  intros Ht%own_inet_table HF HN%bool_decide_eq_true. destruct (Chain_Table c), t; cbn in *; congruence.
Qed.

(** The rules found stale in the chains listed are the doomed ones. *)
Lemma doomed_listed (n : nftState K) t (chs : list Chain) (k : RK) (r : Rule) :
  t ∈ ownTables → handles_ok k →
  (∀ c, c ∈ chs ↔ c ∈ rk_chains k ∧ Table_Family (Chain_Table c) = Table_Family t) →
  (∃ c, c ∈ chs ∧ of_table t c = true ∧ r ∈ List.filter (in_chain t (Chain_Name c)) (rk_rules k) ∧ stale n r = true) ↔
  r ∈ rk_rules k ∧ doomed (stale n) k t r = true.
Proof.
  intros Ht Hok Hchs. unfold doomed, listed. rewrite !andb_true_iff, bool_decide_eq_true, existsb_elem. split.
  - intros (c & [Hc HF]%Hchs & Ho & (Hr & HT & HN & _)%elem_of_rules & Hst). split_and!; try done.
    exists c. split; [done|]. apply same_chain_spec. split; [|done]. rewrite HT.
    apply of_table_inet; [done| |done]. by rewrite HF, own_inet_table.
  - intros (Hr & (HT & c & Hc & [HCT HN]%same_chain_spec) & Hst). exists c. rewrite HT in HCT. split_and!; try done.
    + apply Hchs. by rewrite HCT.
    + apply bool_decide_eq_true. by rewrite HCT.
    + apply elem_of_rules. split_and!; try done. apply (handles_bound _ Hok) in Hr. lia.
Qed.

Lemma converge_cleanupRules n t :
  t ∈ ownTables → flushed full n →
  ∃ r c, cleanupRules t n = (r, set_nft c n) ∧
    sweeps (doomed (stale n) (shown (kern (nft n))) t) (shown (kern (nft n))) r c.
Proof.
  intros Ht Hf. pose proof (fl_partial _ _ Hf) as Hp. pose proof (part_handles _ _ Hp) as Hok. set (k := shown (kern (nft n))) in *.
  destruct (nft_ListChainsOfTableFamily (Table_Family t) (kern (nft n))) as (chs & Echs & Hchs).
  destruct (nft_GetSets t (kern (nft n))) as (ss & Ess & Hss).
  rewrite (cleanupRules_quiet n t chs (λ name, List.filter (in_chain t name) (rk_rules k)) ss);
    [|apply nft_quiet|by apply Hf|by apply Hf|done|intros; apply rulesAt_shown|done].
  assert (unused_sets n (in_table t <$> ss) = []) as ->.
  { unfold unused_sets. rewrite filter_none; [done|]. intros x (s & -> & Hs)%list_elem_of_fmap.
    apply Hss in Hs as (y & Hy & HT & ->).
    apply (wroteSet_used ms); [by apply fl_others|]. intros _.
    destruct (part_sets _ _ Hp y Hy) as (_ & s' & els & Hs' & _ & HT' & HN & _); [rewrite HT; by apply own_ownTable|].
    exists s'. by rewrite HT', HT. }
  rewrite app_nil_r. destruct (stale_rules_dels n t (λ name, List.filter (in_chain t name) (rk_rules k)) chs) as (l & -> & Hl).
  assert (∀ r, r ∈ l ↔ r ∈ rk_rules k ∧ doomed (stale n) k t r = true) as Hdoomed
    by (intros r; rewrite Hl; by apply doomed_listed).
  destruct (decide (MDelRule <$> l = [])) as [E|E].
  - exists (Ok tt), (nft n). rewrite set_nft_id. split; [done|]. split_and!; [by apply Hf..|]. left. split; [done|].
    eapply (delete_swept _ _ _ l); [done..|]. rewrite E. by apply renumbered_refl.
  - destruct (k_commit (MDelRule <$> l) (kern (nft n))) as [[[]|e] k'] eqn:Ec; cbn [fst snd wrap]; (eexists _, _; split; [done|]);
      (split_and!; [done..|]); cbn [kern]; [left|right].
    + split; [done|]. eapply (delete_swept _ _ _ l); [done..|]. by eapply nft_commit.
    + split_and!; [done|by eapply nft_refuse|]. by eexists _, _, _, e.
Qed.

Lemma converge_cleanupChains n : flushed full n → cleanupChains n = (Ok tt, n).
Proof.
  intros Hf. pose proof (fl_partial _ _ Hf) as Hp.
  destruct (nft_ListChainsOfTableFamily TableFamilyINet (kern (nft n))) as (chs & Echs & Hchs).
  rewrite (cleanupChains_quiet n chs
    (λ c, List.filter (in_chain (Chain_Table c) (Chain_Name c)) (rk_rules (shown (kern (nft n))))));
    [|apply nft_quiet|by apply Hf|by apply Hf|done|intros; apply rulesAt_shown].
  rewrite decide_True; [done|]. rewrite filter_none; [done|]. intros c [Hc _]%Hchs. unfold dead_chain.
  destruct (unused_chain n c) eqn:E; [|done].
  assert (own_chain c) as Ho.
  { unfold unused_chain in E. apply andb_true_iff in E as [E%bool_decide_eq_true _].
    destruct (fl_own _ _ Hf) as [E1 E2]. rewrite E1, E2 in E. exact E. }
  rewrite (wroteChain_used ms) in E; [done|by apply fl_others|]. exists c. split; [|done].
  by apply (part_chains _ _ Hp).
Qed.

(** What the whole cleanup of both tables removes. *)
Definition stale_rule (n : nftState K) (k : RK) (r : Rule) : bool :=
  bool_decide (Rule_Table r ∈ ownTables) && listed k r && stale n r.

Lemma doomed_stale (n : nftState K) (k k' : RK) r : rk_chains k' = rk_chains k →
  doomed (stale n) k (inetTable FilterTableName) r || doomed (stale n) k' (inetTable NatTableName) r =
  stale_rule n k r.
Proof.
  intros HC. unfold doomed, stale_rule, listed. rewrite HC. destruct (existsb _ _), (stale n r); rewrite ?andb_false_r, ?andb_true_r; try done.
  unfold ownTables. repeat case_bool_decide; set_solver.
Qed.
Lemma doomed_is_stale (n : nftState K) k t r : t ∈ ownTables → doomed (stale n) k t r = true → stale_rule n k r = true.
Proof.
  intros Ht. unfold doomed, stale_rule. rewrite !andb_true_iff, !bool_decide_eq_true. by intros [[-> ?] ?].
Qed.

(** It removes what is stale, or a part of it when the kernel refuses. *)
Lemma converge_cleanup n :
  flushed full n →
  ∃ r n' p, cleanup n = (r, n') ∧ swept p (shown (kern (nft n))) (shown (kern (nft n'))) ∧
    (∀ x, p x = true → stale_rule n (shown (kern (nft n))) x = true) ∧
    (r = Ok tt ∧ (∀ x, p x = stale_rule n (shown (kern (nft n))) x) ∨ is_ok r = false ∧ refused (nft n')).
Proof.
  intros Hf. destruct (fl_own _ _ Hf) as [Hfi Hna]. unfold cleanup, mbind, ST_bind, wrapST. rewrite Hfi.
  pose proof (part_handles _ _ (fl_partial _ _ Hf)) as Hok. set (k := shown (kern (nft n))) in *.
  destruct (converge_cleanupRules n (inetTable FilterTableName)) as (r1 & c1 & -> & M1 & E1 & Hs1); [set_solver|done|].
  destruct Hs1 as [[-> K1]|(Hr1 & K1 & Hc1)].
  2:{ destruct r1; [done|]. eexists _, _, (λ _, false). cbn. split; [done|]. split_and!; [|done|by right].
      cbn. rewrite K1. by apply swept_none. }
  cbn [wrap]. assert (flushed full (set_nft c1 n)) as Hf1 by (apply flushed_fewer; [done|by eapply swept_fewer|done|done]).
  change (natT (set_nft c1 n)) with (natT n). rewrite Hna.
  destruct (converge_cleanupRules (set_nft c1 n) (inetTable NatTableName)) as (r2 & c2 & -> & M2 & E2 & Hs2); [set_solver|done|].
  cbn [nft set_nft] in Hs2. change (stale (set_nft c1 n)) with (stale n) in Hs2. destruct Hs2 as [[-> K2]|(Hr2 & K2 & Hc2)].
  2:{ destruct r2; [done|]. eexists _, _, _. cbn. split; [done|]. cbn. rewrite K2. split_and!; [exact K1| |by right].
      intros x. apply doomed_is_stale. set_solver. }
  cbn [wrap]. rewrite converge_cleanupChains by (apply flushed_fewer; [done|by eapply swept_fewer|done|done]).
  assert (swept (stale_rule n k) k (shown (kern c2))) as Hsw.
  { eapply swept_ext; [|exact (swept_trans _ _ _ _ _ K1 K2)]. intros x. apply doomed_stale. apply K1. }
  eexists _, _, _. cbn. split; [done|]. split_and!; [exact Hsw|done|by left].
Qed.

(** With nothing forgotten nothing is stale. *)
Lemma nothing_stale n x :
  flushed full n → full → x ∈ rk_rules (shown (kern (nft n))) → stale_rule n (shown (kern (nft n))) x = false.
Proof.
  intros Hf Hfull Hx. unfold stale_rule. destruct (bool_decide (Rule_Table x ∈ ownTables)) eqn:Ht; [|done].
  apply bool_decide_eq_true in Ht. rewrite (wroteRule_not_stale ms), andb_false_r; [done| |].
  - intros m Hm _. by apply (fl_remembered _ _ Hf m Hm).
  - apply (part_rules _ _ (fl_partial _ _ Hf)); [done|]. by apply own_ownTable.
Qed.
End cleanup.
End sync.

(** ** Whole syncs *)

Section syncs.
Context {K : Type} `{NfTables K} `{Gob} `{Arch} `{LabelApi}.
Hypothesis total : gob_total.
Variables (deps : PolicyDeps) (cfg : CommonRuleConfig) (pod : Pod) (podInfo : PodInfo).
Hypothesis plain_info : plainPod podInfo.
Hypothesis plain_deps : ∀ pod pi, GetPodInfo deps pod = Ok pi → plainPod pi.
Hypothesis has_interfaces : PI_Interfaces podInfo ≠ [].

(** The wanted policies, in some order, and the order in which Go iterated
    when what is wanted was computed. *)
Variables (ps : list MultiNetworkPolicy) (oA : MapOrder).
Hypothesis distinct : NoDup (policyNamespacedName <$> ps).
Hypothesis generated :
  (@generate RK _ _ _ _ oA deps cfg ps pod podInfo (startState (newConn emptyRK))).1 = Ok tt.
Abbreviation ms := (wanted oA deps cfg pod podInfo ps).
Hypothesis Htidy : tidy ms.

Abbreviation sync o ps k :=
  (@ApplyPolicyRulesForPodAndFamily K _ _ _ _ o deps cfg ps pod podInfo (startState (newConn k))).

(** A kernel with every wanted object and no other. *)
Lemma settled_all (k : K) : partial ms (shown k) → Forall (stored (shown k)) ms → settled k ms.
Proof.
  intros Hp Hst. split; [apply nft_quiet|by apply legacy_nothing, (part_legacy _ _ Hp)| | |].
  - eapply Forall_impl; [exact Hst|]. intros m. apply stored_shown.
  - destruct (nft_ListChainsOfTableFamily TableFamilyINet k) as (chs & Echs & Hchs). exists chs. split; [done|].
    intros c [Hc _]%Hchs Ho.
    pose proof (part_chains _ _ Hp c Hc Ho) as Hm. split_and!; [by apply (tidy_chain _ Htidy)|by exists c|].
    eexists. split; [apply rulesAt_shown|]. apply Forall_forall. intros r (Hr & HT & _)%elem_of_rules.
    apply (part_rules _ _ Hp); [done|]. by rewrite HT.
  - intros t Ht. destruct (nft_GetSets t k) as (ss & Ess & Hss). exists ss. split; [done|].
    apply Forall_forall. intros s (y & Hy & HTy & ->)%Hss _.
    destruct (part_sets _ _ Hp y Hy) as (_ & s' & els & Hs' & _ & HT & HN & _); [rewrite HTy; by apply own_ownTable|].
    exists s'. by rewrite HT, HTy.
Qed.

Lemma allSets_stored (k : RK) : Forall (stored k) ms → allSets ms k.
Proof.
  intros Hst s Hs. rewrite Forall_forall in Hst. specialize (Hst _ Hs). cbn in Hst.
  unfold find_set. by destruct (List.find _ _).
Qed.
Lemma allSets_grown (k k' : RK) : grown k k' → allSets ms k → allSets ms k'.
Proof. intros Hg Ha s [x Hx]%Ha. destruct (grown_set _ _ Hg _ _ _ Hx) as (els & -> & _). by eexists. Qed.

(** The generators of a sync run in step with those of an empty namespace. *)
Lemma generate_runs o ps' k :
  ps ≡ₚ ps' → partial ms (shown k) →
  ∃ nA nB, messages (nft nA) = ms ∧ repair_sim ms k nA nB ∧
    @generate K _ _ _ _ o deps cfg ps' pod podInfo (startState (newConn k)) = (Ok tt, nB).
Proof.
  intros Hperm Hp. pose proof tables_empty as HtA.
  match type of HtA with _ = (_, ?n) => set (nA := n) in * end.
  pose proof (generate_run (H3:=oA) deps cfg ps pod podInfo _ _ has_interfaces HtA) as Hgen.
  destruct (generateRest deps cfg ps pod podInfo nA) as [r nA'] eqn:EA.
  assert (messages (nft nA') = ms) as Hms by (unfold wanted; by rewrite Hgen).
  assert (r = Ok tt) as -> by (rewrite <-generated; by rewrite Hgen).
  clear HtA Hgen generated.
  destruct (tables_repaired ms Htidy k Hp) as (l & EB & [Hpl Hgl] & Hst).
  destruct (rel_generateRest (repairRel ms k Htidy Hp total) oA o deps cfg pod podInfo plain_info
    plain_deps ps ps' has_interfaces distinct Hperm) as [_ Hrun].
  set (nB := newState (mkConn k l 0 None []) (inetTable FilterTableName) (inetTable NatTableName)) in *.
  destruct (Hrun nA nB tt nA') as ([] & nB' & EB' & _ & Hs); [|done|by cbn; rewrite Hms|].
  { split; [reflexivity..|by split|reflexivity|constructor|constructor| |exact Hpl|exact Hgl|exact Hst].
    intros m Hm _. change (m ∈ MNewTable <$> ownTables) in Hm. by apply list_elem_of_fmap in Hm as (t & -> & _). }
  pose proof (generate_run (H3:=o) deps cfg ps' pod podInfo _ _ has_interfaces EB) as Hgen. rewrite EB' in Hgen.
  exists nA', nB'. split; [exact Hms|]. split; [exact Hs|exact Hgen].
Qed.

(** What a sync whose generators ended in [nB] leaves of [k]: what was there,
    when its flush was refused; what was pending without what is stale, or,
    when the cleanup was refused, without a part of it. *)
Definition outcome (k : K) (nB : nftState K) (r : result unit) (n : nftState K) : Prop :=
  is_ok r = false ∧ shown (kern (nft n)) = shown k ∧ refused (nft n) ∨
  ∃ v p, renumbered (shown k) (pending nB) v ∧ swept p v (shown (kern (nft n))) ∧
    (∀ x, p x = true → stale_rule nB v x = true) ∧
    (allSets ms (shown k) → ∀ x, x ∈ rk_rules v → stale_rule nB v x = false) ∧
    (r = Ok tt ∧ (∀ x, p x = stale_rule nB v x) ∨ is_ok r = false ∧ refused (nft n)).

Lemma sync_runs o ps' k :
  ps ≡ₚ ps' → partial ms (shown k) →
  ∃ nA nB r n, messages (nft nA) = ms ∧ repair_sim ms k nA nB ∧
    @generate K _ _ _ _ o deps cfg ps' pod podInfo (startState (newConn k)) = (Ok tt, nB) ∧
    sync o ps' k = (r, n) ∧ outcome k nB r n.
Proof.
  intros Hperm Hp. destruct (generate_runs o ps' k Hperm Hp) as (nA & nB & Hms & Hs & Hgen).
  exists nA, nB. rewrite apply_generate. unfold mbind at 1, ST_bind at 1. rewrite Hgen.
  destruct (Flush_outcome (nft nB) (rp_err _ _ _ _ Hs)) as (r & c & Hfl & Hm & He & Hout).
  { rewrite (rp_kern _ _ _ _ Hs). apply (part_handles _ _ Hp). }
  unfold mbind, ST_bind, wrapST. rewrite (onNft_run _ _ _ _ Hfl). cbn [wrap].
  rewrite (rp_kern _ _ _ _ Hs) in Hout. destruct Hout as [[-> Hrn]|(Hr & Hv & Hc)].
  2:{ destruct r; [done|]. eexists _, _. do 4 (split; [done|]). by left. }
  assert (foldl rk_step (shown k) (messages (nft nB)) = pending nB) as Hpend by (unfold pending; by rewrite (rp_kern _ _ _ _ Hs)).
  rewrite Hpend in Hrn. cbn [wrap].
  assert (flushed ms (allSets ms (shown k)) (set_nft c nB)) as Hf.
  { split; cbn [nft set_nft filterT natT]; [|exact Hm|exact He|apply (rp_own _ _ _ _ Hs)|].
    - eapply partial_renumbered; [exact Hrn|apply Hs].
    - intros m Hin Hr. apply (rp_remembered _ _ _ _ Hs m); [by rewrite Hms|done]. }
  destruct (converge_cleanup ms Htidy (allSets ms (shown k)) (set_nft c nB) Hf) as (r & n & p & -> & Hsw & Hst & Hr).
  exists (wrap "failed to cleanup nft" r), n. do 4 (split; [by destruct r|]). right. exists (shown (kern c)), p.
  split_and!; [exact Hrn|exact Hsw|exact Hst| |].
  - intros Hall x Hx. by apply (nothing_stale ms (allSets ms (shown k)) (set_nft c nB)).
  - destruct Hr as [[-> Hp']|[Hr Hc]]; [by left|right]. by destruct r.
Qed.

(** A sync leaves a part of what is wanted, and loses no set. It fails only
    when the kernel refused its last batch; otherwise it leaves all sets, and
    everything if it found all sets. *)
Lemma sync_repairs o ps' k :
  ps ≡ₚ ps' → partial ms (shown k) →
  ∃ r n, sync o ps' k = (r, n) ∧ partial ms (shown (kern (nft n))) ∧
    (allSets ms (shown k) → allSets ms (shown (kern (nft n)))) ∧
    (r = Ok tt ∧ allSets ms (shown (kern (nft n))) ∧ (allSets ms (shown k) → settled (kern (nft n)) ms) ∨
     is_ok r = false ∧ refused (nft n)).
Proof.
  intros Hperm Hp. destruct (sync_runs o ps' k Hperm Hp) as (nA & nB & r & n & Hms & Hs & _ & Hn & Hout).
  pose proof (rp_stored _ _ _ _ Hs) as Hstored. rewrite Hms in Hstored. exists r, n. split; [done|].
  destruct Hout as [(Hr & -> & Hc)|(v & p & Hrn & Hsw & Hst & Hnone & Hr)]; [split_and!; auto|].
  pose proof (partial_renumbered _ _ _ _ Hrn (rp_partial _ _ _ _ Hs)) as Hpv.
  pose proof (swept_fewer _ _ _ Hsw) as Hfew.
  pose proof (allSets_renumbered ms _ _ _ Hrn) as Hsets.
  assert (Forall (stored v) ms) as Hsv by (eapply Forall_impl; [exact Hstored|]; intros m; by eapply stored_renumbered).
  assert (partial ms (shown (kern (nft n)))) as Hpn by (by eapply fewerRules_partial).
  split_and!; [done| |].
  - intros Ha. eapply fewerRules_allSets; [exact Hfew|]. apply Hsets. eapply allSets_grown; [apply Hs|done].
  - destruct Hr as [[-> Hpx]|Hr]; [left|by right]. split_and!; [done| |].
    + eapply fewerRules_allSets; [exact Hfew|]. by apply allSets_stored.
    + intros Ha. apply settled_all; [done|]. eapply Forall_impl; [exact Hsv|]. intros m.
      apply stored_same; try apply Hsw. eapply swept_id; [exact Hsw|]. intros x Hx. rewrite Hpx. by apply Hnone.
Qed.

(** One sync, whether it succeeds or not. *)
Definition one_sync (k k' : K) : Prop := ∃ o ps', ps ≡ₚ ps' ∧ k' = kern (nft (sync o ps' k).2).

Lemma syncs_partial k k' :
  rtc one_sync k k' → partial ms (shown k) →
  partial ms (shown k') ∧ (allSets ms (shown k) → allSets ms (shown k')).
Proof.
  induction 1 as [k|k1 k2 k3 (o & ps' & Hperm & ->) _ IH]; intros Hp; [done|].
  destruct (sync_repairs o ps' k1 Hperm Hp) as (r & n & E & Hpn & Hsets & _). rewrite E in IH. cbn [snd] in IH.
  destruct (IH Hpn) as [Hp3 Hs3]. auto.
Qed.

(** C13: when rules of a namespace were lost, any of them and whoever removed
    them, but no set was, one sync restores exactly what is wanted: it succeeds
    and leaves every wanted object in place and no other. It fails only when
    the kernel refuses its last batch, and then the namespace can be restored
    by the next. *)
Theorem lost_rules_restored o ps' k :
  ps ≡ₚ ps' → partial ms (shown k) → allSets ms (shown k) →
  ∃ r n, sync o ps' k = (r, n) ∧
    (r = Ok tt ∧ settled (kern (nft n)) ms ∨
     is_ok r = false ∧ refused (nft n) ∧ partial ms (shown (kern (nft n))) ∧ allSets ms (shown (kern (nft n)))).
Proof.
  intros Hperm Hp Hall. destruct (sync_repairs o ps' k Hperm Hp) as (r & n & E & Hpn & Hsets & Hr). exists r, n.
  split; [done|]. destruct Hr as [(-> & _ & Hset)|[Hr Hc]]; [left; auto|right; auto].
Qed.

(** C4: syncs converge from any part of what is wanted, from nothing too,
    whatever batches the kernel refuses on the way. However many syncs have
    run, the next one succeeds unless its last batch is refused. After two
    successful ones, with any number of failed or successful syncs between
    them, the namespace holds exactly what is wanted, and any further sync
    succeeds and sends nothing. Go may iterate over its maps in another order
    each time. *)
Theorem syncs_converge k0 k1 :
  partial ms (shown k0) → rtc one_sync k0 k1 →
  (∀ o ps', ps ≡ₚ ps' → (sync o ps' k1).1 = Ok tt ∨ refused (nft (sync o ps' k1).2)) ∧
  (∀ o1 o2 ps1 ps2 n1 n2 k2, ps ≡ₚ ps1 → ps ≡ₚ ps2 →
     sync o1 ps1 k1 = (Ok tt, n1) → rtc one_sync (kern (nft n1)) k2 → sync o2 ps2 k2 = (Ok tt, n2) →
     settled (kern (nft n2)) ms ∧
     ∀ o3 ps3, ps ≡ₚ ps3 → ∃ n3, sync o3 ps3 (kern (nft n2)) = (Ok tt, n3) ∧ nft n3 = newConn (kern (nft n2))).
Proof.
  intros Hp0 H01. destruct (syncs_partial _ _ H01 Hp0) as [Hp1 _]. split.
  - intros o ps' Hperm. destruct (sync_repairs o ps' k1 Hperm Hp1) as (r & n & -> & _ & _ & Hr). cbn. naive_solver.
  - intros o1 o2 ps1 ps2 n1 n2 k2 P1 P2 E1 H12 E2.
    destruct (sync_repairs o1 ps1 k1 P1 Hp1) as (r1 & n1' & E1' & Hpn1 & _ & Hr1). rewrite E1 in E1'. injection E1' as <- <-.
    destruct Hr1 as [(_ & Ha1 & _)|[Hr1 _]]; [|done].
    destruct (syncs_partial _ _ H12 Hpn1) as [Hp2 Ha2]. specialize (Ha2 Ha1).
    destruct (sync_repairs o2 ps2 k2 P2 Hp2) as (r2 & n2' & E2' & _ & _ & Hr2). rewrite E2 in E2'. injection E2' as <- <-.
    destruct Hr2 as [(_ & _ & Hset)|[Hr2 _]]; [|done]. specialize (Hset Ha2). split; [done|]. intros o3 ps3 P3.
    exact (idle_sync (kern (nft n2)) total oA o3 deps cfg pod podInfo plain_info plain_deps ps ps3
      has_interfaces distinct P3 generated Hset).
Qed.
End syncs.

(** ** Deciding the hypotheses *)

Definition ownTableb (t : Table) : bool := bool_decide (Table_Name t = FilterTableName ∨ Table_Name t = NatTableName).

Definition tidyb (ms : list msg) : bool :=
  forallb (λ m, match m with
    | MNewChain c => bool_decide (Chain_Table c ∈ ownTables) &&
        forallb (λ m', match m' with
          | MNewChain c' => negb (same_chain (Chain_Table c) (Chain_Name c) c') || bool_decide (c = c')
          | _ => true end) ms
    | MNewSet s => bool_decide (Set_Table s ∈ ownTables) && negb (Set_Anonymous s)
    | MNewRule r | MInsertRule r => ownTableb (Rule_Table r)
    | MNewSetElem s els =>
        forallb (λ m', match m' with
          | MNewSetElem s' els' => negb (same_set (Set_Table s) (Set_Name s) (s', els')) || sameKeysb els els'
          | _ => true end) ms
    | _ => true end) ms.

Lemma tidyb_sound ms : tidyb ms = true → tidy ms.
Proof.
  unfold tidyb. rewrite forallb_elem. intros Hall. split.
  - intros c Hc. apply Hall, andb_true_iff in Hc as [Hc _]. by apply bool_decide_eq_true in Hc.
  - intros c c' Hc Hc' HT HN. apply Hall, andb_true_iff in Hc as [_ Hc]. rewrite forallb_elem in Hc.
    apply Hc in Hc'. rewrite (proj2 (same_chain_spec _ _ _)) in Hc' by done. by apply bool_decide_eq_true in Hc'.
  - intros s Hs. apply Hall, andb_true_iff in Hs as [Ht Ha]. split; [by apply bool_decide_eq_true in Ht|by apply negb_true_iff].
  - intros r [Hr|Hr]; apply Hall in Hr; by apply bool_decide_eq_true in Hr.
  - intros s els s' els' Hs Hs' HT HN. apply Hall in Hs. rewrite forallb_elem in Hs. apply Hs in Hs'.
    rewrite (proj2 (same_set_spec _ _ _)) in Hs' by done. by apply sameKeysb_sound.
Qed.

Definition wantedSetb (ms : list msg) (s : NftSet * list SetElement) : bool :=
  negb (Set_Anonymous s.1) &&
  existsb (λ m, match m with
    | MNewSet s' => same_set (Set_Table s.1) (Set_Name s.1) (s', []) &&
        existsb (λ m', match m' with
          | MNewSetElem s'' els => bool_decide (s'' = s') && sameKeysb els s.2 | _ => false end) ms
    | _ => false end) ms.

Lemma wantedSetb_sound ms s : wantedSetb ms s = true → wantedSet ms s.
Proof.
  intros [Ha%negb_true_iff (m & Hm & Hw)%existsb_elem]%andb_true_iff. split; [done|]. destruct m as [| | | | | | | |s'| | |]; try done.
  apply andb_true_iff in Hw as [[HT HN]%same_set_spec (m' & Hm' & Hw)%existsb_elem].
  destruct m' as [| | | | | | | | | |s'' els|]; try done. apply andb_true_iff in Hw as [->%bool_decide_eq_true Hk%sameKeysb_sound].
  by exists s', els.
Qed.

Definition partialb (ms : list msg) (k : RK) : bool :=
  forallb (λ t, negb (bool_decide (Table_Family t = TableFamilyINet) && has legacyNames (Table_Name t))) (rk_tables k) &&
  forallb (λ c, negb (ownChainb c) || bool_decide (MNewChain c ∈ ms)) (rk_chains k) &&
  forallb (λ s, negb (ownTableb (Set_Table s.1)) || wantedSetb ms s) (rk_sets k) &&
  forallb (λ r, negb (ownTableb (Rule_Table r)) || wroteRuleb ms r) (rk_rules k) &&
  bool_decide (NoDup (ruleKey <$> rk_rules k)) &&
  forallb (λ r, (0 <? Rule_Handle r) && (Rule_Handle r <? rk_next k)) (rk_rules k) && (0 <? rk_next k).

Lemma partialb_sound ms k : partialb ms k = true → partial ms k.
Proof.
  unfold partialb. rewrite !andb_true_iff, !forallb_elem. intros [[[[[[HT HC] HS] HR] HN] HB] HX].
  split; [..|split].
  - intros t Ht HF Hl. apply HT in Ht. rewrite (bool_decide_eq_true_2 _ HF) in Ht. cbn in Ht.
    unfold has in Ht. by rewrite (bool_decide_eq_true_2 _ Hl) in Ht.
  - intros c Hc Ho. apply HC in Hc. unfold ownChainb in Hc. rewrite (bool_decide_eq_true_2 _ Ho) in Hc.
    by apply bool_decide_eq_true in Hc.
  - intros s Hs Ho. apply HS in Hs. unfold ownTableb in Hs. rewrite (bool_decide_eq_true_2 _ Ho) in Hs.
    by apply wantedSetb_sound.
  - intros r Hr Ho. apply HR in Hr. unfold ownTableb in Hr. rewrite (bool_decide_eq_true_2 _ Ho) in Hr.
    by apply wroteRuleb_sound.
  - by apply bool_decide_eq_true in HN.
  - intros r Hr. apply HB, andb_true_iff in Hr as [?%Z.ltb_lt ?%Z.ltb_lt]. lia.
  - by apply Z.ltb_lt.
Qed.

Definition allSetsb (ms : list msg) (k : RK) : bool :=
  forallb (λ m, match m with
    | MNewSet s => bool_decide (is_Some (find_set k (Set_Table s) (Set_Name s))) | _ => true end) ms.

Lemma allSetsb_sound ms k : allSetsb ms k = true → allSets ms k.
Proof. unfold allSetsb. rewrite forallb_elem. intros Hall s Hs. apply Hall in Hs. by apply bool_decide_eq_true in Hs. Qed.
