(* ===== verification/Twice.v ===== *)
(** * The rules after two syncs

    What exactly an empty namespace holds after the first two successful syncs
    of a pod, on any kernel with the laws of [NfTables]. The first writes
    everything, and its cleanup removes the rules that look up a set (their
    keys contain transaction ids); the second writes those again, behind the
    others. So the order of the rules of a chain is the order they were
    generated in, unless the chain mixes both kinds. *)

From S2P Require Import Prelude GoStd Names Nft Netip Api Elements Conn RefKernel NfTables State Legacy Rules Cleanup Server VM Fresh Semantics Verdict Meaning Typing Settled Lockstep Idle Written Placement Common Repair Converge.

(** ** Two syncs *)

Lemma rulesOnly_rest k ms :
  Forall (λ m, isRule m = true) ms →
  rk_tables (foldl rk_step k ms) = rk_tables k ∧ rk_chains (foldl rk_step k ms) = rk_chains k ∧
  rk_sets (foldl rk_step k ms) = rk_sets k.
Proof.
  intros Hms. revert k. induction Hms as [|m ms Hm _ IH]; intros k; cbn; [done|].
  destruct (IH (rk_step k m)) as (-> & -> & ->). destruct k, m; by cbn in *.
Qed.

Lemma dumpMsg_isRule m : isRule (dumpMsg m) = isRule m.
Proof. by destruct m. Qed.
Lemma dumpMsg_adds m : adds (dumpMsg m) = adds m.
Proof. by destruct m. Qed.
Lemma lookMsg_isRule m : lookMsg m = true → isRule m = true.
Proof. by destruct m. Qed.

Lemma dumpMsg_Forall (P : msg → Prop) l1 l2 :
  (∀ m, P (dumpMsg m) ↔ P m) → dumpMsg <$> l1 = dumpMsg <$> l2 → Forall P l2 → Forall P l1.
Proof.
  intros HP E Hl. assert (Forall P (dumpMsg <$> l2)) as Hd.
  { apply Forall_fmap. eapply Forall_impl; [exact Hl|]. intros m. by apply HP. }
  rewrite <-E, Forall_fmap in Hd. eapply Forall_impl; [exact Hd|]. intros m. by apply HP.
Qed.

Lemma Forall_filter_bool {A} (P : A → Prop) p l : Forall P l → Forall P (List.filter p l).
Proof. induction 1 as [|x l Hx _ IH]; cbn; [done|]. destruct (p x); [by constructor|done]. Qed.

(** What is not a rule is stored as before when only rules were removed. *)
Lemma stored_fewer k k' m : fewerRules k k' → isRule m = false → stored k m → stored k' m.
Proof. intros [HT HC HS _ _] Hm. destruct m; cbn in *; rewrite ?HT, ?HC, ?HS; done. Qed.

Lemma looksUp_same r r' : ruleEqual (dumpRule r) r' = true → looksUp r' = looksUp r.
Proof.
  rewrite <-(looksUp_dump r). intros (_ & _ & _ & He)%ruleEqual_spec. unfold looksUp.
  revert He. generalize (Rule_Exprs (dumpRule r)), (Rule_Exprs r'). intros l l' He.
  induction He as [|a b l l' Hab _ IH]; cbn; [done|]. rewrite IH. by destruct Hab.
Qed.

(** The chains of the two tables after renumbering and after a cleanup. *)
Lemma chainRules_renumbered k k1 k2 t z :
  handles_ok k1 → renumbered k k1 k2 → chainRules k2 t z = chainRules k1 t z.
Proof.
  intros Hok1 Hrn. unfold chainRules.
  assert (∀ l1 l2, Forall2 (same_but_handle k) l1 l2 → (∀ r, r ∈ l1 → 0 < Rule_Handle r) → (∀ r, r ∈ l2 → 0 < Rule_Handle r) →
    Rule_Exprs <$> List.filter (in_chain t z) l2 = Rule_Exprs <$> List.filter (in_chain t z) l1) as Hl.
  { induction 1 as [|r r' l1 l2 [E _] _ IH]; intros P1 P2; [done|]. cbn.
    assert (in_chain t z r' = in_chain t z r) as ->.
    { pose proof (P1 r ltac:(by left)). pose proof (P2 r' ltac:(by left)).
      assert (Rule_Table r' = Rule_Table r ∧ Rule_Chain r' = Rule_Chain r) as [ET Ec] by (by rewrite E).
      unfold in_chain. rewrite ET, Ec. apply bool_decide_ext. split; intros (? & ? & _); (split_and!; [done..|lia]). }
    assert (Rule_Exprs r' = Rule_Exprs r) as Ee by (by rewrite E).
    destruct (in_chain t z r); cbn; rewrite ?Ee, <-IH; try done; intros x Hx;
      first [apply P1; by right|apply P2; by right]. }
  apply Hl; [apply Hrn|..]; intros r Hr.
  - by apply (handles_bound _ Hok1).
  - by apply (handles_bound _ (rn_handles _ _ _ Hrn)).
Qed.

Lemma chainRules_swept p k k' t z :
  t ∈ ownTables → swept p k k' → (∀ r, r ∈ rk_rules k → own_table (Rule_Table r) → p r = looksUp r) →
  chainRules k' t z = List.filter steady (chainRules k t z).
Proof.
  intros Ht Hsw. unfold chainRules. rewrite (swept_rules _ _ _ Hsw). generalize (rk_rules k) as rs. intros rs.
  induction rs as [|r rs IH]; intros Hpr; cbn; [done|].
  assert (Rule_Exprs <$> List.filter (in_chain t z) (List.filter (λ r, negb (p r)) rs) =
    List.filter steady (Rule_Exprs <$> List.filter (in_chain t z) rs)) as E' by (apply IH; intros; apply Hpr; [by right|done]).
  destruct (in_chain t z r) eqn:E.
  - assert (negb (p r) = steady (Rule_Exprs r)) as ->.
    { rewrite Hpr; [done|by left|]. apply bool_decide_eq_true in E as (-> & _). by apply own_ownTable. }
    cbn. destruct (steady (Rule_Exprs r)); cbn; rewrite ?E; cbn; by rewrite E'.
  - destruct (p r); cbn; by rewrite ?E.
Qed.

Section twice.
Context {K : Type} `{NfTables K} `{Gob} `{Arch} `{LabelApi}.
Hypothesis total : gob_total.
Variables (deps : PolicyDeps) (cfg : CommonRuleConfig) (pod : Pod) (podInfo : PodInfo).
Hypothesis plain_info : plainPod podInfo.
Hypothesis plain_deps : ∀ pod pi, GetPodInfo deps pod = Ok pi → plainPod pi.
Hypothesis has_interfaces : PI_Interfaces podInfo ≠ [].
Variables (ps : list MultiNetworkPolicy) (oA : MapOrder).
Hypothesis distinct : NoDup (policyNamespacedName <$> ps).
Hypothesis generated :
  (@generate RK _ _ _ _ oA deps cfg ps pod podInfo (startState (newConn emptyRK))).1 = Ok tt.
Abbreviation ms := (wanted oA deps cfg pod podInfo ps).
Hypothesis Htidy : tidy ms.

Abbreviation sync o ps k :=
  (@ApplyPolicyRulesForPodAndFamily K _ _ _ _ o deps cfg ps pod podInfo (startState (newConn k))).

(** The namespace is empty, and the first sync may take the policies and Go's
    maps in another order. *)
Variables (k0 : K) (o1 : MapOrder) (ps1 : list MultiNetworkPolicy).
Hypothesis empty : shown k0 = emptyRK.
Hypothesis same_policies : ps ≡ₚ ps1.

(** The state of the first sync when it flushes. *)
Definition firstState : nftState K :=
  (@generate K _ _ _ _ o1 deps cfg ps1 pod podInfo (startState (newConn k0))).2.

(** Every rule is in a chain the sync makes, and no rule that looks up a set
    has, once dumped, the key of a remembered rule: its own key contained a
    transaction id, and keys are 32-bit hashes. *)
Record rulesApart : Prop := {
  apart_chain r : MNewRule r ∈ ms ∨ MInsertRule r ∈ ms →
    ∃ c, MNewChain c ∈ ms ∧ Chain_Table c = Rule_Table r ∧ Chain_Name c = Chain_Name (Rule_Chain r);
  apart_key r : MNewRule r ∈ ms ∨ MInsertRule r ∈ ms → looksUp r = true → stale firstState (dumpRule r) = true }.
Definition rulesApartb : bool :=
  forallb (λ m, match m with
    | MNewRule r | MInsertRule r =>
        existsb (λ m', match m' with
          | MNewChain c => bool_decide (Chain_Table c = Rule_Table r ∧ Chain_Name c = Chain_Name (Rule_Chain r))
          | _ => false end) ms && (negb (looksUp r) || stale firstState (dumpRule r))
    | _ => true end) ms.
Lemma rulesApartb_sound : rulesApartb = true → rulesApart.
Proof.
  unfold rulesApartb. rewrite forallb_elem. intros Hall.
  assert (∀ r, MNewRule r ∈ ms ∨ MInsertRule r ∈ ms → existsb (λ m', match m' with
      | MNewChain c => bool_decide (Chain_Table c = Rule_Table r ∧ Chain_Name c = Chain_Name (Rule_Chain r))
      | _ => false end) ms && (negb (looksUp r) || stale firstState (dumpRule r)) = true) as Hr
    by (intros r [Hr|Hr]; by apply Hall in Hr).
  split; intros r Hin; apply Hr, andb_true_iff in Hin as [Hc Hs].
  - apply existsb_elem in Hc as (m & Hm & Hc). destruct m; try done. apply bool_decide_eq_true in Hc. eauto.
  - intros Hl. by rewrite Hl in Hs.
Qed.
Hypothesis Hapart : rulesApart.

Lemma partial_empty l : partial l emptyRK.
Proof. split; [by intros ? ?%not_elem_of_nil..|]. apply handles_empty. Qed.

(** *** The first sync *)

Lemma tables_mirror :
  (onNft CleanupLegacyTables ≫= λ _, bootstrapTables) (startState (newConn k0)) =
    (Ok tt, newState (mkConn k0 (MNewTable <$> ownTables) 0 None []) (inetTable FilterTableName) (inetTable NatTableName)).
Proof.
  unfold mbind at 1, ST_bind at 1.
  rewrite (onNft_pure _ _ (Ok tt)) by (apply legacy_nothing; cbn; rewrite empty; by intros ? ?%not_elem_of_nil).
  assert (∀ t l, addTable t (mkConn k0 l 0 None []) = (Ok t, mkConn k0 (l ++ [MNewTable t]) 0 None [])) as Hadd.
  { intros t l. unfold addTable, mbind, ST_bind, try, ListTableOfFamily.
    rewrite read_quiet by apply quiet_ListTableOfFamily, nft_quiet. rewrite nft_ListTableOfFamily. cbn [fst kern].
    rewrite empty. by rewrite bool_decide_eq_false_2 by apply not_elem_of_nil. }
  unfold bootstrapTables, mbind, ST_bind, wrapST, onNft, zoom. unfold inetTable in *. cbn [nft startState newState].
  unfold newConn. rewrite Hadd. cbn. by rewrite Hadd.
Qed.

(** What the first sync writes makes the chains and sets of [ms]. *)
Lemma first_mirrors :
  ∃ nA, messages (nft nA) = ms ∧ mirror_sim k0 nA firstState ∧
    @generate K _ _ _ _ o1 deps cfg ps1 pod podInfo (startState (newConn k0)) = (Ok tt, firstState).
Proof.
  pose proof tables_empty as HtA.
  match type of HtA with _ = (_, ?n) => set (nA := n) in * end.
  pose proof (generate_run (H3:=oA) deps cfg ps pod podInfo _ _ has_interfaces HtA) as Hgen.
  destruct (generateRest deps cfg ps pod podInfo nA) as [r nA'] eqn:EA.
  assert (messages (nft nA') = ms) as Hms by (unfold wanted; by rewrite Hgen).
  assert (r = Ok tt) as -> by (rewrite <-generated; by rewrite Hgen).
  clear HtA Hgen generated Hapart.
  destruct (rel_generateRest (mirrorRel k0 empty total) oA o1 deps cfg pod podInfo plain_info
    plain_deps ps ps1 has_interfaces distinct same_policies) as [_ Hrun].
  set (nB := newState (mkConn k0 (MNewTable <$> ownTables) 0 None []) (inetTable FilterTableName) (inetTable NatTableName)) in *.
  destruct (Hrun nA nB tt nA') as ([] & nB' & EB' & _ & Hs); [|exact EA|exact I|].
  { split; [reflexivity..|constructor|constructor|by repeat constructor|reflexivity|constructor]. }
  pose proof (generate_run (H3:=o1) deps cfg ps1 pod podInfo _ _ has_interfaces tables_mirror) as Hgen. fold nB in Hgen.
  rewrite EB' in Hgen. unfold firstState. rewrite Hgen. exists nA'. split; [exact Hms|]. split; [exact Hs|reflexivity].
Qed.

(** A kept rule is stale exactly when it looks up a set. *)
Lemma first_stale nA v r :
  messages (nft nA) = ms → repair_sim ms k0 nA firstState → partial ms v → Forall (stored v) ms →
  r ∈ rk_rules v → own_table (Rule_Table r) → stale_rule firstState v r = looksUp r.
Proof.
  intros Hms Hs Hp Hst Hr Ho. destruct (part_rules _ _ Hp r Hr Ho) as (r' & Hr' & HT & He).
  pose proof (looksUp_same _ _ He) as Hl. unfold stale_rule.
  assert (bool_decide (Rule_Table r ∈ ownTables) && listed v r = true) as ->.
  { apply andb_true_iff. destruct (apart_chain Hapart r' Hr') as (c & Hc & HcT & HcN). split.
    - apply bool_decide_eq_true. rewrite <-HT, <-HcT. by apply (tidy_chain _ Htidy).
    - rewrite Forall_forall in Hst. apply Hst in Hc. cbn in Hc. unfold listed.
      apply existsb_elem. destruct (List.find _ _) as [c'|] eqn:E; [|done]. injection Hc as ->.
      apply find_elem in E as [Hin _]. exists c. split; [done|]. apply same_chain_spec.
      apply ruleEqual_spec in He as (HC & _). cbn in HC. split; congruence. }
  cbn [andb]. rewrite Hl. destruct (looksUp r') eqn:El.
  - assert (stale firstState r = stale firstState (dumpRule r')) as ->; [|by apply (apart_key Hapart)].
    unfold stale. by rewrite <-(ruleEqual_same_hash_lemma _ _ He) by (cbn; by rewrite HT).
  - apply (remembered_not_stale _ r r'); [|done|done].
    assert (∃ m, m ∈ messages (nft nA) ∧ lookMsg m = false ∧ (remembered firstState m → remembered firstState (MNewRule r')))
      as (m & Hm & Hlm & Hrem).
    { rewrite Hms. destruct Hr'; [exists (MNewRule r')|exists (MInsertRule r')]; (split_and!; [done|by cbn|done]). }
    apply Hrem, (rp_remembered _ _ _ _ Hs m Hm). by rewrite Hlm.
Qed.

(** What a successful first sync leaves: everything but the rules that look up
    a set. *)
Record afterFirst (k1 : K) : Prop := {
  af_partial : partial ms (shown k1);
  af_sets : allSets ms (shown k1);
  af_chain t z : t ∈ ownTables → chainRules (shown k1) t z = placed t z [] (List.filter steadyMsg ms);
  af_rules r : r ∈ rk_rules (shown k1) → own_table (Rule_Table r) → looksUp r = false;
  af_stored m : m ∈ ms → lookMsg m = false → stored (shown k1) m;
  af_elems t z : option_Forall2 sameSet (foldl (setStep t z) None ms) (find_set (shown k1) t z);
  af_adds : Forall (λ m, adds m = true) ms }.

Lemma first_sync n1 : sync o1 ps1 k0 = (Ok tt, n1) → afterFirst (kern (nft n1)).
Proof.
  intros E1. destruct first_mirrors as (nA' & HmsA & Hmir & HB').
  destruct (sync_runs total deps cfg pod podInfo plain_info plain_deps has_interfaces ps oA distinct generated Htidy
    o1 ps1 k0 same_policies) as (nA & nB & r & n & Hms & Hs & HB & E & Hout); [rewrite empty; apply partial_empty|].
  rewrite E1 in E. injection E as <- <-. rewrite HB' in HB. injection HB as <-.
  destruct Hout as [[? _]|(v & p & Hrn & Hsw & _ & _ & [[_ Hp]|[? _]])]; [done| |done].
  set (k1 := shown (kern (nft n1))) in *. clear generated E1 HB'.
  pose proof (partial_renumbered _ _ _ _ Hrn (rp_partial _ _ _ _ Hs)) as Hpv.
  pose proof (rp_stored _ _ _ _ Hs) as Hstored. rewrite Hms in Hstored.
  assert (Forall (stored v) ms) as Hsv by (eapply Forall_impl; [exact Hstored|]; intros m; by eapply stored_renumbered).
  assert (∀ r, r ∈ rk_rules v → own_table (Rule_Table r) → p r = looksUp r) as Hpl.
  { intros r Hr Ho. rewrite Hp. by eapply first_stale. }
  pose proof (swept_fewer _ _ _ Hsw) as Hfew.
  assert (partial ms k1) as Hp1 by (by eapply fewerRules_partial).
  assert (Forall (λ m, adds m = true) ms) as Hadds by (eapply Forall_impl; [exact Hsv|]; intros m; apply stored_adds).
  assert (pending firstState = foldl rk_step emptyRK (messages (nft firstState))) as Hpend.
  { unfold pending. by rewrite (mir_kern _ _ _ Hmir), empty. }
  split; [exact Hp1| | | | | |exact Hadds]; fold k1.
  - eapply fewerRules_allSets; [exact Hfew|]. by apply allSets_stored.
  - intros t z Ht. rewrite (chainRules_swept p v k1) by done.
    rewrite (chainRules_renumbered _ _ _ t z (part_handles _ _ (rp_partial _ _ _ _ Hs)) Hrn).
    rewrite Hpend, chainRules_foldl by (done || apply Hmir). rewrite (mir_placed _ _ _ Hmir), HmsA. apply placed_steady.
  - intros r [Hr Hpr]%(swept_elem _ _ _ _ Hsw) Ho. by rewrite <-Hpl.
  - intros m Hm Hl. rewrite Forall_forall in Hsv. specialize (Hsv m Hm).
    assert (∀ r, (∃ rs ex, rulesAt v (Rule_Table r) (Chain_Name (Rule_Chain r)) = Ok rs ∧
        List.find (ruleEqual (dumpRule r)) rs = Some ex) →
      (MNewRule r ∈ ms ∨ MInsertRule r ∈ ms) → looksUp r = false → ∀ mk, mk = MNewRule ∨ mk = MInsertRule → stored k1 (mk r)) as Hrule.
    { intros r (rs & ex & Hrs & Hex) Hin El mk Hmk. rewrite rulesAt_RK in Hrs. injection Hrs as <-.
      apply find_elem in Hex as [(Hx & HT & _ & _)%elem_of_rules He].
      apply (stored_rule _ _ _ ex); try done; [apply (part_handles _ _ Hp1)|].
      apply (swept_elem _ _ _ _ Hsw). split; [done|]. rewrite Hpl, (looksUp_same _ _ He); [done|done|].
      rewrite HT. by apply (tidy_rule _ Htidy). }
    destruct (isRule m) eqn:Er; [|by apply (stored_fewer v)].
    destruct m; try done; [apply (Hrule r Hsv)|apply (Hrule r Hsv)]; auto.
  - intros t z. pose proof (mir_sets _ _ _ Hmir t z) as Hsets. rewrite HmsA in Hsets.
    assert (find_set k1 t z = foldl (setStep t z) None (messages (nft firstState))) as ->; [|exact Hsets].
    unfold find_set. rewrite (swept_sets _ _ _ Hsw), (rn_sets _ _ _ Hrn). fold (find_set (pending firstState) t z).
    rewrite Hpend, find_set_foldl by apply Hmir. done.
Qed.

(** *** The second sync *)

(** It finds everything but the rules that look up a set. *)
Lemma second_present k1 : afterFirst k1 → Forall (present k1 true) ms.
Proof.
  intros Haf. apply Forall_forall. intros m Hm. unfold present, lateMsg. cbn [andb].
  destruct (lookMsg m) eqn:El; [|apply stored_shown; by apply Haf].
  assert (∃ r, (MNewRule r ∈ ms ∨ MInsertRule r ∈ ms) ∧ looksUp r = true ∧ (m = MNewRule r ∨ m = MInsertRule r)) as (r & Hin & Hl & Hmr).
  { destruct m as [| | | |r|r| | | | | |]; try done; exists r; auto. }
  assert (absent k1 r) as Ha; [|by destruct Hmr as [-> | ->]].
  eexists. split; [apply rulesAt_shown|]. destruct (List.find _ _) as [x|] eqn:E; [|done]. exfalso.
  apply find_elem in E as [(Hx & HT & _ & _)%elem_of_rules He].
  apply (af_rules _ Haf) in Hx; [|rewrite HT; by apply (tidy_rule _ Htidy)].
  rewrite (looksUp_same _ _ He) in Hx. congruence.
Qed.

(** The chains and sets after a successful second sync. *)
Record afterSecond (k2 : K) : Prop := {
  as_chain t z : t ∈ ownTables →
    chainRules (shown k2) t z = placed t z [] (List.filter steadyMsg ms ++ List.filter lookMsg ms);
  as_elems t z : option_Forall2 sameSet (foldl (setStep t z) None ms) (find_set (shown k2) t z) }.

Lemma second_sync k1 o ps' n2 :
  afterFirst k1 → ps ≡ₚ ps' → sync o ps' k1 = (Ok tt, n2) → afterSecond (kern (nft n2)).
Proof.
  intros Haf Hperm E2.
  destruct (sync_runs total deps cfg pod podInfo plain_info plain_deps has_interfaces ps oA distinct generated Htidy
    o ps' k1 Hperm (af_partial _ Haf)) as (nA & nB & r & n & Hms & Hs & HB & E & Hout).
  rewrite E2 in E. injection E as <- <-.
  destruct Hout as [[? _]|(v & p & Hrn & Hsw & _ & Hnone & [[_ Hp]|[? _]])]; [done| |done].
  specialize (Hnone (af_sets _ Haf)).
  destruct (@generate RK _ _ _ _ oA deps cfg ps pod podInfo (startState (newConn emptyRK))) as [rA refState] eqn:HA.
  assert (rA = Ok tt) as -> by exact generated.
  assert (messages (nft refState) = ms) as Href by (unfold wanted; by rewrite HA).
  destruct (idle_generate k1 total oA o deps cfg pod podInfo plain_info plain_deps true ps ps' refState has_interfaces
    distinct Hperm (nft_quiet _)) as (nB' & HB' & Hidle); [apply legacy_nothing, (part_legacy _ _ (af_partial _ Haf))|exact HA| |].
  { rewrite Href. by apply second_present. }
  rewrite HB in HB'. injection HB' as <-. clear generated HA HB E2.
  pose proof (idle_messages _ _ _ _ Hidle) as Hmsg. rewrite Href in Hmsg.
  assert (List.filter (lateMsg true) ms = List.filter lookMsg ms) as El by done. rewrite El in Hmsg.
  assert (Forall (λ m, adds m = true) (messages (nft nB))) as Hadds2.
  { eapply dumpMsg_Forall; [|exact Hmsg|]; [intros m; by rewrite dumpMsg_adds|]. apply Forall_filter_bool, Haf. }
  assert (Forall (λ m, isRule m = true) (messages (nft nB))) as Hrules.
  { eapply dumpMsg_Forall; [|exact Hmsg|]; [intros m; by rewrite dumpMsg_isRule|].
    apply Forall_forall. intros m [_ Hm]%elem_of_filterb. by apply lookMsg_isRule. }
  assert (pending nB = foldl rk_step (shown k1) (messages (nft nB))) as Hpend.
  { unfold pending. by rewrite (rp_kern _ _ _ _ Hs). }
  destruct (rulesOnly_rest (shown k1) _ Hrules) as (_ & _ & HS). rewrite <-Hpend in HS.
  assert (rk_rules (shown (kern (nft n2))) = rk_rules v) as Hkeep.
  { eapply swept_id; [exact Hsw|]. intros x Hx. rewrite Hp. by apply Hnone. }
  split.
  - intros t z Ht.
    assert (chainRules (shown (kern (nft n2))) t z = chainRules v t z) as -> by (unfold chainRules; by rewrite Hkeep).
    rewrite (chainRules_renumbered _ _ _ t z (part_handles _ _ (rp_partial _ _ _ _ Hs)) Hrn), Hpend.
    rewrite chainRules_foldl by (done || apply (part_handles _ _ (af_partial _ Haf))).
    rewrite <-placed_dump, Hmsg, placed_dump, (af_chain _ Haf) by done. unfold placed. by rewrite foldl_app.
  - intros t z. unfold find_set. rewrite (swept_sets _ _ _ Hsw), (rn_sets _ _ _ Hrn), HS. apply (af_elems _ Haf).
Qed.

End twice.
