(* ===== verification/Enforce.v ===== *)
(** * What the kernel enforces

    From the objects a namespace holds after two syncs to the fate of a
    packet: the chains of the kernel are those the generators wrote, in their
    order, its sets have the elements they were made with, and so the entry
    chains let through what the policies admit and drop everything else. *)

From S2P Require Import Prelude GoStd Names Nft Netip Api Elements Conn RefKernel NfTables State Legacy Rules Cleanup Server VM Fresh Semantics Verdict Meaning Crd Typing Settled Lockstep Idle Repair Written Converge Twice Placement Common.

(** ** Sets *)

(** Messages about the same set agree on what it is (the set of the neighbour
    discovery types is written once for each direction). *)
Definition setOf (m : msg) : option NftSet :=
  match m with MNewSet s | MNewSetElem s _ => Some s | _ => None end.
Record setsAlike (ms : list msg) : Prop := {
  alike_interval m m' s s' : m ∈ ms → m' ∈ ms → setOf m = Some s → setOf m' = Some s' →
    Set_Table s = Set_Table s' → Set_Name s = Set_Name s' → Set_Interval s = Set_Interval s';
  alike_elems s els s' els' : MNewSetElem s els ∈ ms → MNewSetElem s' els' ∈ ms →
    Set_Table s = Set_Table s' → Set_Name s = Set_Name s' → els = els' }.

Definition setsAlikeb (ms : list msg) : bool :=
  forallb (λ m, forallb (λ m', match setOf m, setOf m' with
    | Some s, Some s' => negb (bool_decide (Set_Table s = Set_Table s' ∧ Set_Name s = Set_Name s')) ||
        bool_decide (Set_Interval s = Set_Interval s') &&
        match m, m' with MNewSetElem _ els, MNewSetElem _ els' => bool_decide (els = els') | _, _ => true end
    | _, _ => true end) ms) ms.
Lemma setsAlikeb_sound ms : setsAlikeb ms = true → setsAlike ms.
Proof.
  unfold setsAlikeb. rewrite forallb_elem. intros Hall.
  assert (∀ m m', m ∈ ms → m' ∈ ms → match setOf m, setOf m' with
    | Some s, Some s' => negb (bool_decide (Set_Table s = Set_Table s' ∧ Set_Name s = Set_Name s')) ||
        bool_decide (Set_Interval s = Set_Interval s') &&
        match m, m' with MNewSetElem _ els, MNewSetElem _ els' => bool_decide (els = els') | _, _ => true end
    | _, _ => true end = true) as Hboth.
  { intros m m' Hm Hm'. specialize (Hall m Hm). rewrite forallb_elem in Hall. by apply Hall. }
  split.
  - intros m m' s s' Hm Hm' E E' HT HN. specialize (Hboth m m' Hm Hm'). rewrite E, E', bool_decide_eq_true_2 in Hboth by done.
    by apply andb_true_iff in Hboth as [?%bool_decide_eq_true _].
  - intros s els s' els' Hm Hm' HT HN. specialize (Hboth _ _ Hm Hm'). cbn in Hboth. rewrite bool_decide_eq_true_2 in Hboth by done.
    by apply andb_true_iff in Hboth as [_ ?%bool_decide_eq_true].
Qed.

Section one_set.
Variables (t : Table) (z : gostring) (i : bool) (els : list SetElement).

(** The set has no more than these elements. *)
Definition atMost (o : option (NftSet * list SetElement)) : Prop :=
  ∀ x, o = Some x → Set_Interval x.1 = i ∧ x.2 ⊆ els.

Lemma setStep_atMost o m :
  (∀ s, setOf m = Some s → Set_Table s = t → Set_Name s = z → Set_Interval s = i) →
  (∀ s els', m = MNewSetElem s els' → Set_Table s = t → Set_Name s = z → els' = els) →
  atMost o → atMost (setStep t z o m).
Proof.
  intros Hi He Ho. destruct m as [| | | | | | | |s| |s els'|]; cbn; try done; case_bool_decide as Hs; try done; destruct Hs as [HT HN].
  - destruct o; [done|]. intros x [= <-]. split; [exact (Hi s eq_refl HT HN)|]. by intros ? ?%not_elem_of_nil.
  - rewrite (He s els' eq_refl HT HN). intros x. destruct o as [y|]; [|done]. intros [= <-]. destruct (Ho y eq_refl).
    split; [done|]. intros e [?|?]%elem_of_app; auto.
Qed.
Lemma setStep_grows o m x : o = Some x → ∃ y, setStep t z o m = Some y ∧ x.2 ⊆ y.2.
Proof.
  intros ->. destruct m as [| | | | | | | |s| |s els'|]; cbn; try (by exists x); case_bool_decide; try (by exists x).
  eexists. split; [done|]. set_solver.
Qed.
Lemma foldl_grows l o x : o = Some x → ∃ y, foldl (setStep t z) o l = Some y ∧ x.2 ⊆ y.2.
Proof.
  revert o x. induction l as [|m l IH]; intros o x Ho; cbn; [by exists x|].
  destruct (setStep_grows o m x Ho) as (y & Hy & Hxy). destruct (IH _ _ Hy) as (y' & Hy' & Hyy). exists y'. split; [done|]. by etrans.
Qed.
End one_set.

Lemma filled_set ms s els :
  fed ms → setsAlike ms → MNewSetElem s els ∈ ms →
  ∃ x, foldl (setStep (Set_Table s) (Set_Name s)) None ms = Some x ∧ Set_Interval x.1 = Set_Interval s ∧ ∀ e, e ∈ x.2 ↔ e ∈ els.
Proof.
  intros Hfed Hal Hin.
  assert (atMost (Set_Interval s) els (foldl (setStep (Set_Table s) (Set_Name s)) None ms)) as Hmost.
  { assert (∀ l o, l ⊆ ms → atMost (Set_Interval s) els o → atMost (Set_Interval s) els (foldl (setStep (Set_Table s) (Set_Name s)) o l)) as Hl;
      [|by apply Hl].
    induction l as [|m l IH]; intros o Hl Ho; cbn; [done|]. apply IH; [set_solver|]. apply setStep_atMost; [| |done].
    - intros s' Hs' HT HN. eapply (alike_interval _ Hal m); [apply Hl; by left|exact Hin|done..].
    - intros s' els' -> HT HN. eapply (alike_elems _ Hal); [apply Hl; by left|exact Hin|done..]. }
  apply list_elem_of_split in Hin as (l1 & l2 & ->). pose proof (Hfed l1 s els l2 eq_refl) as (a & b & ->)%list_elem_of_split.
  rewrite foldl_app in Hmost |- *. cbn [foldl] in *. rewrite (foldl_app _ a) in Hmost |- *. cbn [foldl] in *.
  assert (∃ y, setStep (Set_Table s) (Set_Name s) (foldl (setStep (Set_Table s) (Set_Name s)) None a) (MNewSet s) = Some y) as [y Hy].
  { cbn. rewrite bool_decide_eq_true_2 by done. case_match; eauto. }
  destruct (foldl_grows (Set_Table s) (Set_Name s) b _ _ Hy) as (y' & Hy' & _). rewrite Hy' in Hmost |- *.
  assert (setStep (Set_Table s) (Set_Name s) (Some y') (MNewSetElem s els) = Some (y'.1, y'.2 ++ els)) as Hstep
    by (cbn; by rewrite bool_decide_eq_true_2).
  rewrite Hstep in Hmost |- *. destruct (foldl_grows (Set_Table s) (Set_Name s) l2 _ (y'.1, y'.2 ++ els) eq_refl) as (x & Hx & Hsub).
  exists x. split; [exact Hx|]. destruct (Hmost x Hx) as [Hi Hm]. split; [done|]. intros e. split; [apply Hm|].
  intros He. apply Hsub. set_solver.
Qed.

Lemma memb_ext i els els' key : (∀ e, e ∈ els ↔ e ∈ els') → memb i els key = memb i els' key.
Proof.
  intros He. unfold memb. destruct i; apply bool_decide_ext.
  - unfold interval_mem. by setoid_rewrite He.
  - rewrite !list_elem_of_fmap. by setoid_rewrite He.
Qed.

(** ** The order of a chain *)

Definition unmixed (rules : list (list expr.Any)) : Prop := ∃ b, ∀ es, es ∈ rules → existsb isLookup es = b.

(** Two syncs keep the order of a chain that does not mix rules with and
    without set lookups. *)
Lemma placed_unmixed t z ms :
  unmixed (placed t z [] ms) →
  placed t z [] (List.filter steadyMsg ms ++ List.filter lookMsg ms) = placed t z [] ms.
Proof.
  intros [b Hb]. apply (placed_uniform t z ms b). intros r Hr Hp.
  rewrite <-(looksUp_dump r). apply Hb. by apply placed_complete.
Qed.

Lemma unmixed_dumped l : unmixed l → unmixed (dumped l).
Proof. intros [b Hb]. exists b. intros es (es' & -> & Hes)%list_elem_of_fmap. rewrite isLookup_dump. by apply Hb. Qed.

Lemma dumped_steady l : Forall (λ es, existsb isLookup es = false) l → dumped l = l.
Proof.
  induction 1 as [|es l Hes _ IH]; cbn; [done|]. unfold dumped in IH. rewrite IH. f_equal.
  apply dump_inv; [done|]. by rewrite dump_twice.
Qed.
Lemma dumped_twice l : dumped (dumped l) = dumped l.
Proof.
  unfold dumped. rewrite <-list_fmap_compose. apply list_fmap_ext. intros _ es _. apply dump_twice.
Qed.

Lemma Forall2_elem_r {A B} (P : A → B → Prop) l k y : Forall2 P l k → y ∈ k → ∃ x, x ∈ l ∧ P x y.
Proof. intros HF%Forall2_flip Hy. by apply (Forall2_elem_l _ _ _ _ HF). Qed.

Section kinds.
Context `{NftVM}.

Lemma entry_steady `{LabelApi} ing info l :
  Forall (λ es, existsb isLookup es = false) ((l ≫= entryRules ing info) ++ [dropRule]).
Proof.
  apply Forall_app. split; [|by repeat constructor]. apply Forall_forall. intros es (q & Hes & _)%list_elem_of_bind.
  unfold entryRules in Hes. apply elem_of_app in Hes as [(i & -> & _)%list_elem_of_fmap| ->%list_elem_of_singleton]; reflexivity.
Qed.

Lemma ports_unmixed rs s rules : ports_rules rs s rules → unmixed rules.
Proof.
  unfold ports_rules. destruct (no_ports s).
  - intros ->. exists false. by intros es ->%list_elem_of_singleton.
  - intros Hr. exists true. intros es Hes. apply (Forall2_elem_r _ _ _ _ Hr) in Hes as (x & _ & (s' & _ & _ & ->)). done.
Qed.
Lemma peers_unmixed {A} rs nm (peers : list A) acts rules : peers_rules rs nm peers acts rules → unmixed rules.
Proof.
  unfold peers_rules. destruct peers.
  - intros ->. exists false. by intros es ->%list_elem_of_singleton.
  - intros Hr. exists true. intros es Hes. apply (Forall2_elem_r _ _ _ _ Hr) in Hes as ([v6 els|v6 i els] & _ & (s' & _ & _ & ->)); done.
Qed.

Lemma sub_chains_unmixed `{LabelApi} ing rs q specs f z : sub_chains ing rs q specs f → z ∈ chainNames ing q → unmixed (f z).
Proof.
  intros [Ht Hs] [->|Hz]%elem_of_cons.
  - rewrite Ht. exists false. intros es (y & Hes & _)%list_elem_of_bind. unfold block_rules in Hes.
    rewrite !elem_of_cons, elem_of_nil in Hes. by destruct Hes as [-> |[-> |[-> |[-> |[]]]]].
  - unfold sub_names in Hz. apply list_elem_of_bind in Hz as (y & Hz & Hy).
    destruct (Forall2_elem_l _ _ _ _ Hs Hy) as (s & _ & [Hports Hpeers]).
    rewrite !elem_of_cons, elem_of_nil in Hz. destruct Hz as [-> |[-> |[]]]; [by eapply ports_unmixed|by eapply peers_unmixed].
Qed.
End kinds.

(** ** The parts of a sync *)

Lemma placed_chainOf (P : bool → Table → gostring → Prop) tf z rs l :
  (∀ b t x, P b t x → b = false ∧ t = filterTable) → Forall (okMsg P tf) l →
  placed filterTable z rs l = rs ++ dumped (chainOf l z).
Proof.
  intros HP Hl. revert rs. induction Hl as [|m l Hm _ IH]; intros rs; cbn; [by rewrite app_nil_r|]. rewrite IH. clear IH.
  destruct m; cbn; try done; cbn in Hm; apply HP in Hm as [Hb HT]; [|done].
  unfold inPlace. rewrite HT. destruct (decide (Chain_Name (Rule_Chain r) = z)) as [<-|Hz].
  - rewrite !bool_decide_eq_true_2 by done. cbn. by rewrite <-app_assoc.
  - rewrite !bool_decide_eq_false_2; [done|done|by intros []].
Qed.

Lemma untouched_ok (P : bool → Table → gostring → Prop) tf z l :
  (∀ b t, ¬ P b t z) → Forall (okMsg P tf) l → untouched z l.
Proof.
  intros HP Hl m Hm. rewrite Forall_forall in Hl. specialize (Hl m Hm).
  destruct m; cbn in *; try done; unfold inPlace; case_bool_decide as Hr; try done; destruct Hr as [_ Hr]; rewrite Hr in Hl;
    exfalso; by eapply HP.
Qed.

Lemma bind_ok {S A B} (m : ST S A) (f : A → ST S B) n b n2 :
  (m ≫= f) n = (Ok b, n2) → ∃ a n1, m n = (Ok a, n1) ∧ f a n1 = (Ok b, n2).
Proof. unfold mbind, ST_bind. destruct (m n) as [[a|e] n1]; [|done]. eauto. Qed.
Lemma wrapST_ok {S A} c (m : ST S A) n a n' : wrapST c m n = (Ok a, n') → m n = (Ok a, n').
Proof. unfold wrapST. destruct (m n) as [[a'|e] n1]; [|done]. intros [= -> ->]. done. Qed.

Lemma tables_made : (onNft CleanupLegacyTables ≫= λ _, bootstrapTables) (startState (newConn emptyRK)) = (Ok tt, tablesState).
Proof. vm_compute. reflexivity. Qed.

Lemma surjective_pairing_ok {S A} (x : result A * S) a : x.1 = Ok a → x = (Ok a, x.2).
Proof. destruct x. by intros [= ->]. Qed.

Section parts.
Context `{Gob} `{NftVM} `{LabelApi} (o : MapOrder).
Hypothesis total : gob_total.
Variables (deps : PolicyDeps) (cfg : CommonRuleConfig) (pod : Pod) (podInfo : PodInfo) (ps : list MultiNetworkPolicy).
Abbreviation info := (sortInterfaces podInfo).

(** The policies of a direction that select the pod. *)
Definition selected (ing : bool) : list internalPolicy :=
  selectedPolicies (if ing then ingressEnabled else egressEnabled) pod info ps.
Definition ownNames (ing : bool) : list gostring := selected ing ≫= chainNames ing.

Definition ofCommon (b : bool) (t : Table) (z : gostring) : Prop := t = filterTable ∧ z ∈ commonName <$> [true; false].
Definition ofDirection (ing b : bool) (t : Table) (z : gostring) : Prop :=
  b = false ∧ t = filterTable ∧ z ∈ entryName ing :: ownNames ing.

(** The messages of a direction: its entry chain and the chains of its policies. *)
Record directionPart (ing : bool) (l : list msg) : Prop := {
  dir_ok : Forall (okMsg (ofDirection ing) filterTable) l;
  dir_fed : fed l;
  dir_none : selected ing = [] → l = [];
  dir_chains specs : selected ing ≠ [] → NoDup (entryName ing :: ownNames ing) →
    Forall2 (policy_specs ing info deps) (selected ing) specs →
    chainOf l (entryName ing) = (selected ing ≫= entryRules ing info) ++ [dropRule] ∧
    created l = ownNames ing ∧ ∀ rs, holds rs l → Forall2 (λ p s, sub_chains ing rs p s (chainOf l)) (selected ing) specs }.

Lemma direction_run ing n n' :
  env filterTable baseFields n → applyDirection deps (entryField ing) info (selected ing) n = (Ok tt, n') →
  env filterTable baseFields n' ∧ ∃ l, messages (nft n') = messages (nft n) ++ l ∧ directionPart ing l.
Proof.
  intros Henv Hr.
  assert (∀ n : nftState RK, chainFields n = baseFields → entryField ing n = Some (entryChain ing)) as Hfield.
  { intros n0 Hc. apply base_fields in Hc as (_ & _ & _ & Hi & He & _). by destruct ing. }
  destruct (writes_applyDirection total (ofDirection ing) filterTable baseFields ing deps info (selected ing) (entryChain ing)
    Hfield eq_refl eq_refl) with n tt n' as (He' & (l & Hl & Hok & Hfed) & _); [| |done|done|].
  { split_and!; [done..|by left]. }
  { intros z Hz. split_and!; [done..|by right]. }
  split; [done|]. exists l. split; [done|]. split; [done|done| |].
  { intros E. rewrite E in Hr. injection Hr as <-. symmetry in Hl. by apply (f_equal length) in Hl as Hlen; rewrite length_app in Hlen; destruct l; cbn in Hlen; [|lia]. }
  intros specs Hne Hnd Hsp.
  destruct (emits_applyDirection total ing info deps (entryField ing) (entryChain ing) (selected ing) specs n
    (entryField_env ing)) as ([] & ms & n2 & Hr2 & Hms & _ & Hc & Hch & Hsub); [by apply Hfield, Henv| |done..|].
  { destruct Henv as [-> _]. apply RK_fresh. }
  assert (ms = l) as ->; [|done]. rewrite Hr in Hr2. injection Hr2 as <-. rewrite Hl in Hms. by apply app_inv_head in Hms.
Qed.

Lemma common_run n n' :
  env filterTable baseFields n → applyCommonChainRules cfg n = (Ok tt, n') →
  env filterTable baseFields n' ∧ ∃ l, messages (nft n') = messages (nft n) ++ l ∧ Forall (okMsg ofCommon filterTable) l ∧ fed l ∧
    ∀ ing, holdsCommon ing (commonOf cfg ing) l.
Proof.
  intros Henv Hr.
  destruct (writes_applyCommonChainRules total ofCommon filterTable baseFields cfg (commonChain true) (commonChain false)) with n tt n'
    as (Henv' & (l & Hl & Hok & Hfed) & _); [|intros b c Hc|done|done|].
  - intros n0 Hc. by apply base_fields in Hc as (_ & _ & _ & _ & _ & ?).
  - split; [done|]. rewrite !elem_of_cons, elem_of_nil in Hc. destruct Hc as [-> |[-> |[]]]; set_solver.
  - destruct (puts_applyCommonChainRules total cfg n tt n' Henv Hr) as (_ & l' & Hl' & Hrules).
    assert (l' = l) as -> by (rewrite Hl in Hl'; by apply app_inv_head in Hl').
    split; [done|]. by exists l.
Qed.

(** What a sync of an empty namespace writes. *)
Definition preamble : list msg := (MNewTable <$> ownTables) ++ (MNewChain <$> omap id baseFields).
Record syncParts (ms lb lc li le : list msg) : Prop := {
  parts_app : ms = preamble ++ lb ++ lc ++ li ++ le;
  parts_boot : bootRules info lb;
  parts_common : Forall (okMsg ofCommon filterTable) lc;
  parts_common_fed : fed lc;
  parts_common_rules ing : holdsCommon ing (commonOf cfg ing) lc;
  parts_ingress : directionPart true li;
  parts_egress : directionPart false le }.

Lemma generateRest_ok (n n' : nftState RK) :
  generateRest deps cfg ps pod podInfo n = (Ok tt, n') →
  ∃ n0 n1 n2 n3, bootstrapNetfilterChains n = (Ok tt, n0) ∧ bootstrapBaseRules info n0 = (Ok tt, n1) ∧
    applyCommonChainRules cfg n1 = (Ok tt, n2) ∧
    applyDirection deps (entryField true) info (selected true) n2 = (Ok tt, n3) ∧
    applyDirection deps (entryField false) info (selected false) n3 = (Ok tt, n').
Proof.
  unfold generateRest, afterTables, generateRules. intros Hg.
  apply bind_ok in Hg as ([] & n1 & Hboot%wrapST_ok & Hg). apply bind_ok in Hboot as ([] & n0 & Hchains & Hboot).
  apply bind_ok in Hg as ([] & n2 & Hcommon%wrapST_ok & Hg). apply bind_ok in Hg as ([] & n3 & Hin & Hout).
  exists n0, n1, n2, n3. split_and!; [exact Hchains|exact Hboot|exact Hcommon|exact Hin|exact Hout].
Qed.

Lemma generate_parts n :
  PI_Interfaces podInfo ≠ [] →
  generate deps cfg ps pod podInfo (startState (newConn emptyRK)) = (Ok tt, n) →
  ∃ lb lc li le, syncParts (messages (nft n)) lb lc li le.
Proof.
  intros Hne Hg.
  rewrite (generate_run _ _ _ _ _ _ tablesState Hne tables_made) in Hg.
  apply generateRest_ok in Hg as (n0 & n1 & n2 & n3 & Hchains & Hboot & Hcommon & Hin & Hout).
  destruct chains_made as (n0' & Hchains' & Henv0 & Hm0). rewrite Hchains in Hchains'. injection Hchains' as <-.
  destruct (runs_bootstrapBaseRules total info) with n0 tt n1 as (Henv1 & lb & Hm1 & Hlb); [|done|done|].
  { intros E. apply Hne, Permutation_nil. rewrite <-E. apply SortStable_perm. }
  apply common_run in Hcommon as (Henv2 & lc & Hm2 & Hok2 & Hfed2 & Hrules2); [|done].
  apply (direction_run true) in Hin as (Henv3 & li & Hm3 & Hli); [|done].
  apply (direction_run false) in Hout as (_ & le & Hm4 & Hle); [|done].
  exists lb, lc, li, le. split; [|done..]. rewrite Hm4, Hm3, Hm2, Hm1, Hm0. unfold preamble. by rewrite <-!app_assoc.
Qed.
End parts.

Arguments parts_app {_ _ _ _ _ _ _ _ _ _ _ _ _ _} _.
Arguments parts_boot {_ _ _ _ _ _ _ _ _ _ _ _ _ _} _.
Arguments parts_common {_ _ _ _ _ _ _ _ _ _ _ _ _ _} _.
Arguments parts_common_fed {_ _ _ _ _ _ _ _ _ _ _ _ _ _} _.
Arguments parts_common_rules {_ _ _ _ _ _ _ _ _ _ _ _ _ _} _.
Arguments dir_ok {_ _ _ _ _ _ _ _ _ _} _.

(** ** The kernel after two syncs *)

(** The filter table as the evaluator sees it. *)
Definition rulesetOf (k : RK) : ruleset :=
  mkRuleset (chainRules k filterTable)
    (λ z key, match find_set k filterTable z with Some s => memb (Set_Interval s.1) s.2 key | None => false end).

Section kernel.
Context `{Gob} `{NftVM} `{LabelApi} (o : MapOrder).
Variables (deps : PolicyDeps) (cfg : CommonRuleConfig) (pod : Pod) (podInfo : PodInfo) (ps : list MultiNetworkPolicy).
Abbreviation info := (sortInterfaces podInfo).
Abbreviation selected := (selected pod podInfo ps).
Abbreviation ownNames := (ownNames pod podInfo ps).
Abbreviation directionPart := (directionPart o deps pod podInfo ps).

(** No two chains of the pod have the same name. *)
Definition namesApart : Prop := NoDup (bootNames ++ ownNames true ++ ownNames false).

Lemma namesApart_own ing z :
  namesApart → z ∈ ownNames ing → (z ∉ bootNames) ∧ (z ∉ ownNames (negb ing)).
Proof.
  intros (_ & Hb & (_ & Hd & _)%NoDup_app)%NoDup_app Hz. split.
  - intros Hin. apply (Hb _ Hin). apply elem_of_app. destruct ing; auto.
  - intros Hin. destruct ing; cbn in Hin; by eapply Hd.
Qed.
Lemma boot_elem ing : entryName ing ∈ bootNames ∧ commonName ing ∈ bootNames ∧ baseName ing ∈ bootNames.
Proof. unfold bootNames. destruct ing; set_solver. Qed.
Lemma namesApart_entry ing :
  namesApart → NoDup (entryName ing :: ownNames ing) ∧
    (entryName ing ∉ entryName (negb ing) :: ownNames (negb ing)) ∧ (entryName ing ∉ commonName <$> [true; false]).
Proof.
  intros Hn. destruct (boot_elem ing) as (Hboot & _).
  assert ((entryName ing ∉ ownNames true) ∧ (entryName ing ∉ ownNames false)) as [Het Hee].
  { split; intros Hin; by destruct (namesApart_own _ _ Hn Hin). }
  apply NoDup_app in Hn as (_ & _ & (Hnt & _ & Hnf)%NoDup_app). split_and!.
  - apply NoDup_cons. by destruct ing.
  - rewrite not_elem_of_cons. by destruct ing.
  - destruct ing; apply (bool_decide_unpack _); vm_compute; exact Logic.I.
Qed.

Section parts_of.
Variables ms lb lc li le : list msg.
Hypothesis parts : syncParts o deps cfg pod podInfo ps ms lb lc li le.
Hypothesis names : namesApart.
Definition partOf (ing : bool) : list msg := if ing then li else le.

Lemma partOf_direction ing : directionPart ing (partOf ing).
Proof. destruct ing; apply parts. Qed.
Lemma partOf_elem ing m : m ∈ partOf ing → m ∈ ms.
Proof. rewrite (parts_app parts), !elem_of_app. destruct ing; tauto. Qed.

Lemma parts_fed : fed ms.
Proof.
  rewrite (parts_app parts).
  apply fed_app; [intros l1 s els l2 E; assert (MNewSetElem s els ∈ preamble) as Hin by (rewrite E; set_solver)|].
  { exfalso. revert Hin. unfold preamble. rewrite !elem_of_app, !list_elem_of_fmap. naive_solver. }
  apply fed_app; [apply (boot_fed _ _ (parts_boot parts))|].
  apply fed_app; [apply (parts_common_fed parts)|].
  apply fed_app; eapply dir_fed; apply parts.
Qed.

Lemma preamble_untouched z : untouched z preamble.
Proof. intros m. unfold preamble. rewrite elem_of_app, !list_elem_of_fmap. by intros [(? & -> & _)|(? & -> & _)]. Qed.
Lemma common_untouched z : z ∉ commonName <$> [true; false] → untouched z lc.
Proof. intros Hz. eapply untouched_ok; [|apply parts]. by intros b t [_ ?]. Qed.
Lemma direction_untouched ing z : z ∉ entryName ing :: ownNames ing → untouched z (partOf ing).
Proof. intros Hz. eapply untouched_ok; [|apply (dir_ok (partOf_direction ing))]. by intros b t (_ & _ & ?). Qed.

(** Apart from the bootstrap the rules of a chain of a direction come from it. *)
Lemma placed_parts ing z :
  z ∉ entryName (negb ing) :: ownNames (negb ing) → z ∉ commonName <$> [true; false] →
  placed filterTable z [] ms = placed filterTable z [] lb ++ dumped (chainOf (partOf ing) z).
Proof.
  intros Hd Hc. rewrite (parts_app parts), !placed_app.
  rewrite (untouched_placed z preamble) by apply preamble_untouched.
  rewrite (untouched_placed z lc) by by apply common_untouched.
  apply direction_untouched in Hd. pose proof (partOf_direction ing) as Hp. destruct ing; cbn [partOf negb] in *.
  - rewrite (untouched_placed z le) by done. eapply placed_chainOf; [|apply Hp]. by intros b t x (? & ? & _).
  - rewrite (untouched_placed z li) by done. eapply placed_chainOf; [|apply Hp]. by intros b t x (? & ? & _).
Qed.
Lemma placed_entry ing :
  placed filterTable (entryName ing) [] ms = [counter; jump (commonName ing)] :: dumped (chainOf (partOf ing) (entryName ing)).
Proof.
  destruct (namesApart_entry ing names) as (_ & Hd & Hc). rewrite (placed_parts ing) by done.
  by rewrite (boot_entry _ _ (parts_boot parts)).
Qed.
Lemma placed_entry_none ing :
  selected ing = [] → placed filterTable (entryName ing) [] ms = [[counter; jump (commonName ing)]].
Proof. intros E. by rewrite placed_entry, (dir_none _ _ _ _ _ _ _ (partOf_direction ing) E). Qed.
Lemma placed_own ing z :
  z ∈ ownNames ing → placed filterTable z [] ms = dumped (chainOf (partOf ing) z).
Proof.
  intros Hz. destruct (namesApart_own _ _ names Hz) as [Hb Hd]. rewrite (placed_parts ing).
  - by rewrite untouched_placed by by apply (boot_others _ _ (parts_boot parts)).
  - rewrite not_elem_of_cons. split; [|done]. intros ->. by destruct (boot_elem (negb ing)).
  - intros (ing' & -> & _)%list_elem_of_fmap. by destruct (boot_elem ing') as (_ & ? & _).
Qed.

(** A base chain has the one rule that leads to the entry chain. *)
Lemma placed_base :
  ∃ s, MNewSetElem s (interfaceElements (PI_Interfaces info)) ∈ ms ∧ Set_Table s = filterTable ∧ Set_Interval s = false ∧
    ∀ ing, placed filterTable (baseName ing) [] ms = [dumpExpr <$> baseRule ing s].
Proof.
  destruct (boot_base _ _ (parts_boot parts)) as (s & Hs & HT & HI & Hp). exists s. split_and!; [|done|done|].
  { rewrite (parts_app parts), !elem_of_app. tauto. }
  intros ing. destruct (boot_elem ing) as (_ & _ & Hb).
  assert (∀ ing', untouched (baseName ing) (partOf ing')) as Hd.
  { intros ing'. apply direction_untouched. rewrite not_elem_of_cons. split; [by destruct ing, ing'|].
    intros Hin. by destruct (namesApart_own _ _ names Hin). }
  rewrite (parts_app parts), !placed_app.
  rewrite (untouched_placed _ preamble) by apply preamble_untouched. rewrite Hp.
  rewrite (untouched_placed _ lc) by (apply common_untouched; destruct ing; apply (bool_decide_unpack _); vm_compute; exact Logic.I).
  rewrite (untouched_placed _ li) by apply (Hd true). by rewrite (untouched_placed _ le) by apply (Hd false).
Qed.

(** The rules of a common chain are those the configuration asks for. *)
Lemma placed_common ing r :
  ruleIn ms r → inPlace filterTable (commonName ing) r = true → ruleIn lc r.
Proof.
  intros Hr Hp. destruct (boot_elem ing) as (_ & Hb & _).
  assert (∀ l, untouched (commonName ing) l → ¬ ruleIn l r) as Hno.
  { intros l Hl [Hin|Hin]; specialize (Hl _ Hin); cbn in Hl; by rewrite Hp in Hl. }
  assert (∀ ing', untouched (commonName ing) (partOf ing')) as Hd.
  { intros ing'. apply direction_untouched. rewrite not_elem_of_cons. split; [by destruct ing, ing'|].
    intros Hin. by destruct (namesApart_own _ _ names Hin). }
  rewrite (parts_app parts), !ruleIn_app in Hr.
  destruct Hr as [Hr|[Hr|[Hr|[Hr|Hr]]]]; [|..|done| |]; exfalso; revert Hr; apply Hno.
  - apply preamble_untouched.
  - apply (boot_common _ _ (parts_boot parts)).
  - apply (Hd true).
  - apply (Hd false).
Qed.
Lemma common_part ing rs :
  holds rs lc →
  (∀ r, ruleIn ms r → inPlace filterTable (commonName ing) r = true → ∃ c, c ∈ commonOf cfg ing ∧ is_common rs ing c (Rule_Exprs r)) ∧
  (∀ c, c ∈ commonOf cfg ing → ∃ r, ruleIn ms r ∧ inPlace filterTable (commonName ing) r = true ∧ is_common rs ing c (Rule_Exprs r)).
Proof.
  intros Hh. destruct (parts_common_rules parts ing rs Hh) as [H1' H2']. split.
  - intros r Hr Hp. apply H1'; [by eapply placed_common|done].
  - intros c Hc. destruct (H2' c Hc) as (r & Hr & ? & ?). exists r. split_and!; [|done|done].
    rewrite (parts_app parts), !ruleIn_app. tauto.
Qed.
End parts_of.
End kernel.

Section enforced.
Context {K : Type} `{NfTables K} `{Gob} `{NftVM} `{LabelApi}.
Hypothesis total : gob_total.
Variables (deps : PolicyDeps) (cfg : CommonRuleConfig) (pod : Pod) (podInfo : PodInfo).
Hypothesis plain_info : plainPod podInfo.
Hypothesis plain_deps : ∀ pod pi, GetPodInfo deps pod = Ok pi → plainPod pi.
Hypothesis has_interfaces : PI_Interfaces podInfo ≠ [].
Variables (ps : list MultiNetworkPolicy) (oA : MapOrder).
Hypothesis distinct : NoDup (policyNamespacedName <$> ps).
Hypothesis generated :
  (@generate RK _ _ _ _ oA deps cfg ps pod podInfo (startState (newConn emptyRK))).1 = Ok tt.
Abbreviation ms := (wanted oA deps cfg pod podInfo ps).
Abbreviation info := (sortInterfaces podInfo).
Hypothesis Htidy : tidy ms.
Hypothesis Hsets : setsAlike ms.
Hypothesis Hnames : namesApart pod podInfo ps.

(** Policies of a direction that are well formed. *)
Record enforceable (ing : bool) : Prop := {
  enf_valid : Forall (validPolicy deps info ing) (selected pod podInfo ps ing);
  enf_plain : Forall (plainPolicy ing) (selected pod podInfo ps ing);
  enf_interfaces : NoDup ((λ i, ifname (InterfaceName i)) <$> PI_Interfaces info);
  enf_count : Forall (λ q, Forall (λ y, Z.of_nat y.1 < 2 ^ 63) (Verdict.rulesOf ing q)) (selected pod podInfo ps ing) }.

(** The ruleset has the chains and the sets of the messages. *)
Record keeps (k : RK) : Prop := {
  keeps_chain z : chainRules k filterTable z = placed filterTable z [] (List.filter steadyMsg ms ++ List.filter lookMsg ms);
  keeps_elems z : option_Forall2 sameSet (foldl (setStep filterTable z) None ms) (find_set k filterTable z) }.

Lemma keeps_unmixed k z l : keeps k → placed filterTable z [] ms = l → unmixed l → chainRules k filterTable z = l.
Proof. intros Hk <- Hu. by rewrite (keeps_chain _ Hk), placed_unmixed. Qed.

Section kept.
Variables (k : RK) (lb lc li le : list msg).
Hypothesis Hk : keeps k.
Hypothesis Hparts : syncParts oA deps cfg pod podInfo ps ms lb lc li le.

Lemma keeps_set s els :
  MNewSetElem s els ∈ ms → Set_Table s = filterTable → set_is (rulesetOf k) s els.
Proof.
  intros Hin HT key. cbn. destruct (filled_set ms s els) as (x & Hx & Hi & He); [by eapply parts_fed|done|done|].
  pose proof (keeps_elems _ Hk (Set_Name s)) as Hf. rewrite <-HT, Hx in Hf. rewrite <-HT.
  inversion Hf as [? y [Hxy Hels]|]; subst. rewrite <-Hxy, Hi. apply memb_ext. intros e. by rewrite <-He, (Hels e).
Qed.

(** The kernel has what the messages of a direction describe. *)
Lemma part_installed ing specs :
  enforceable ing → selected pod podInfo ps ing ≠ [] →
  Forall2 (policy_specs ing info deps) (selected pod podInfo ps ing) specs →
  let l := partOf li le ing in
  installed (rulesetOf k) l ∧ created l = ownNames pod podInfo ps ing ∧
  Forall2 (λ p s, sub_chains ing (rulesetOf k) p s (chainOf l)) (selected pod podInfo ps ing) specs ∧
  rs_chain (rulesetOf k) (entryName ing) =
    [counter; jump (commonName ing)] :: (selected pod podInfo ps ing ≫= entryRules ing info) ++ [dropRule].
Proof.
  intros _ Hne Hsp l. clear generated.
  assert (directionPart oA deps pod podInfo ps ing l) as Hdir by (by eapply partOf_direction).
  destruct (namesApart_entry pod podInfo ps ing Hnames) as (Hnd' & _ & _).
  destruct (dir_chains _ _ _ _ _ _ _ Hdir specs Hne Hnd' Hsp) as (HE & Hc & Hsub).
  assert (holds (rulesetOf k) l) as Hholds.
  { intros s els Hin. apply keeps_set; [by eapply partOf_elem|]. pose proof (dir_ok Hdir) as Hok. rewrite Forall_forall in Hok.
    by specialize (Hok _ Hin). }
  specialize (Hsub _ Hholds). split_and!; [split; [done|]|done|done|].
  - intros z Hz. rewrite Hc in Hz. cbn. rewrite (keeps_unmixed k z (dumped (chainOf l z))); [apply dumped_twice|done| |].
    + by eapply placed_own.
    + apply unmixed_dumped. apply list_elem_of_bind in Hz as (q & Hz & Hq).
      destruct (Forall2_elem_l _ _ _ _ Hsub Hq) as (s & _ & Hs). by eapply sub_chains_unmixed.
  - pose proof (entry_steady ing info (selected pod podInfo ps ing)) as Hsteady.
    apply keeps_unmixed; [done| |].
    + rewrite (placed_entry _ _ _ _ _ _ _ _ _ _ _ Hparts Hnames ing). fold l. by rewrite HE, (dumped_steady _ Hsteady).
    + exists false. rewrite Forall_forall in Hsteady. intros es [->|Hes]%elem_of_cons; [done|by apply Hsteady].
Qed.

(** A base chain takes the packets of the pod's interfaces to the entry chain. *)
Definition podIface (ifn : bytes) : Prop := ∃ i, i ∈ PI_Interfaces podInfo ∧ ifn = ifname (InterfaceName i).

Lemma interface_member ifn : memb false (interfaceElements (PI_Interfaces info)) ifn = true ↔ podIface ifn.
Proof.
  unfold memb, podIface. rewrite bool_decide_eq_true.
  assert (Key <$> interfaceElements (PI_Interfaces info) = (λ i, ifname (InterfaceName i)) <$> PI_Interfaces info) as ->.
  { unfold interfaceElements. rewrite <-(enumerate_snd (PI_Interfaces info)) at 2. by rewrite <-!list_fmap_compose. }
  rewrite list_elem_of_fmap. apply exist_proper. intros i.
  assert (i ∈ PI_Interfaces info ↔ i ∈ PI_Interfaces podInfo) as ->; [|naive_solver].
  apply elem_of_Permutation_proper, SortStable_perm.
Qed.

Lemma base_dispatch :
  ∃ s, set_is (rulesetOf k) s (interfaceElements (PI_Interfaces info)) ∧ Set_Interval s = false ∧
    ∀ ing, rs_chain (rulesetOf k) (baseName ing) = [dumpExpr <$> baseRule ing s].
Proof.
  destruct (placed_base _ _ _ _ _ _ _ _ _ _ _ Hparts Hnames) as (s & Hs & HT & HI & Hp). exists s.
  split_and!; [by apply keeps_set|done|]. intros ing. apply keeps_unmixed; [done|apply Hp|].
  exists true. by intros es ->%list_elem_of_singleton.
Qed.

Lemma run_base ing p v ifn m :
  arrives ing p v ifn →
  (¬ podIface ifn → vm_rules (rulesetOf k) p (rs_chain (rulesetOf k) (baseName ing)) m (Falls m)) ∧
  (podIface ifn → ∀ c, vm_rules (rulesetOf k) p (rs_chain (rulesetOf k) (entryName ing)) m c →
    vm_rules (rulesetOf k) p (rs_chain (rulesetOf k) (baseName ing)) m c).
Proof.
  intros (_ & Hifn & _). destruct base_dispatch as (s & Hs & HI & Hbase). rewrite Hbase.
  assert (vm_rule (rulesetOf k) p (dumpExpr <$> baseRule ing s) [] m =
    if memb false (interfaceElements (PI_Interfaces info)) ifn then Decided expr.VerdictJump (entryName ing) m else Next m) as Hrule.
  { unfold baseRule, metaLoad, lookup, counter, jump. cbn [fmap list_fmap dumpExpr].
    rewrite vm_meta_load, Hifn, vm_lookup by (by destruct ing). rewrite (Hs ifn), HI.
    destruct (memb _ _ _); [|done]. by rewrite vm_counter, vm_verdict. }
  rewrite <-interface_member. destruct (memb _ _ _); (split; [intros ?|intros Hb c Hc]); try done.
  - destruct c; [|by eapply vm_jump_final; [exact Hrule|exact Hc|auto]..].
    eapply vm_jump; [exact Hrule|exact Hc|apply vm_chain_end].
  - eapply vm_next; [exact Hrule|apply vm_chain_end].
Qed.

(** A common chain accepts what the configuration asks for. *)
Lemma run_common_chain ing p v ifn st m :
  arrives ing p v ifn → tracked p st →
  vm_rules (rulesetOf k) p (rs_chain (rulesetOf k) (commonName ing)) m
    (if existsb (applies p v st) (commonOf cfg ing) then Accepted else Falls m).
Proof.
  intros (Hv & _) Hst.
  assert (holds (rulesetOf k) lc) as Hh.
  { intros s els Hin. apply keeps_set; [rewrite (parts_app Hparts), !elem_of_app; tauto|].
    pose proof (parts_common Hparts) as Hok. rewrite Forall_forall in Hok. by specialize (Hok _ Hin). }
  destruct (common_part _ _ _ _ _ _ _ _ _ _ _ Hparts Hnames ing (rulesetOf k) Hh) as [Honly Hall].
  assert (∀ es, es ∈ rs_chain (rulesetOf k) (commonName ing) ↔
    ∃ r, ruleIn ms r ∧ inPlace filterTable (commonName ing) r = true ∧ es = dumpExpr <$> Rule_Exprs r) as Hes.
  { intros es. cbn. rewrite (keeps_chain _ Hk), elem_of_placed. apply exist_proper. intros r.
    assert (ruleIn (List.filter steadyMsg ms ++ List.filter lookMsg ms) r ↔ ruleIn ms r) as ->; [|done].
    unfold ruleIn. by rewrite !elem_of_both. }
  apply (run_common _ ing); [done|done|..].
  - intros es (r & Hr & Hp & ->)%Hes. destruct (Honly r Hr Hp) as (c & Hc & Hx). exists c. split; [done|]. by apply is_common_dump.
  - intros c Hc. destruct (Hall c Hc) as (r & Hr & Hp & Hx). exists (dumpExpr <$> Rule_Exprs r).
    split; [apply Hes; eauto|by apply is_common_dump].
Qed.

(** The entry chain runs the common rules and then the policies. *)
Lemma run_entry_chain ing p v ifn m m' specs :
  enforceable ing → selected pod podInfo ps ing ≠ [] →
  Forall2 (policy_specs ing info deps) (selected pod podInfo ps ing) specs →
  arrives ing p v ifn → wellSized v →
  vm_rules (rulesetOf k) p (rs_chain (rulesetOf k) (commonName ing)) m (Falls m') → unmarked m' →
  ∃ d, firstSays (policySays deps info ing v ifn) (selected pod podInfo ps ing) d ∧
    (d = Matched → ∃ m'', vm_rules (rulesetOf k) p (rs_chain (rulesetOf k) (entryName ing)) m (Falls m'')) ∧
    (d ≠ Matched → vm_rules (rulesetOf k) p (rs_chain (rulesetOf k) (entryName ing)) m Dropped).
Proof.
  intros Henf Hne Hsp Hv Hws Hcommon Hm. pose proof Henf as [Hvalid _ Hnd Hidx].
  destruct (part_installed ing specs Henf Hne Hsp) as (Hi & Hc & Hsub & ->).
  pose proof (entry_chain_run (rulesetOf k) p v ing ifn info _ specs _ m' Hv Hm Hnd Hidx Hc Hi Hsub) as Hrun.
  exists (entry_outcome v ifn (zip (covered info <$> selected pod podInfo ps ing) specs)).
  split; [by apply policies_mean|].
  assert (∀ rest c, vm_rules (rulesetOf k) p rest m' c →
    vm_rules (rulesetOf k) p ([counter; jump (commonName ing)] :: rest) m c) as Hjump
    by (intros rest c Hr; eapply vm_jump; [apply vm_jump_rule|exact Hcommon|exact Hr]).
  destruct (entry_outcome _ _ _); [|split; [done|intros _; by apply Hjump]..].
  destruct Hrun as [m'' Hrun]. split; [intros _; exists m''; by apply Hjump|done].
Qed.

(** The rule that runs the common rules comes first. *)
Lemma entry_first ing : enforceable ing →
  ∃ rest, rs_chain (rulesetOf k) (entryName ing) = [counter; jump (commonName ing)] :: rest ∧
    (selected pod podInfo ps ing = [] → rest = []).
Proof.
  intros Henf. destruct (decide (selected pod podInfo ps ing = [])) as [E|Hne].
  - exists []. split; [|done]. apply keeps_unmixed; [done|by eapply placed_entry_none|].
    exists false. by intros es ->%list_elem_of_singleton.
  - destruct (@valid_specs _ oA ing deps info _ (enf_valid _ Henf)) as [specs Hsp].
    destruct (part_installed ing specs Henf Hne Hsp) as (_ & _ & _ & ->). by eexists.
Qed.

(** Final verdicts of the common rules stand. *)
Lemma run_entry_final ing p m c :
  enforceable ing →
  vm_rules (rulesetOf k) p (rs_chain (rulesetOf k) (commonName ing)) m c → c = Accepted ∨ c = Dropped →
  vm_rules (rulesetOf k) p (rs_chain (rulesetOf k) (entryName ing)) m c.
Proof.
  intros Henf Hc Hf. destruct (entry_first ing Henf) as (rest & -> & _).
  eapply vm_jump_final; [apply vm_jump_rule|exact Hc|exact Hf].
Qed.

(** With no policies what the common rules leave falls through. *)
Lemma run_entry_none ing p m m' :
  enforceable ing → selected pod podInfo ps ing = [] →
  vm_rules (rulesetOf k) p (rs_chain (rulesetOf k) (commonName ing)) m (Falls m') →
  vm_rules (rulesetOf k) p (rs_chain (rulesetOf k) (entryName ing)) m (Falls m').
Proof.
  intros Henf E Hc. destruct (entry_first ing Henf) as (rest & -> & Hrest). rewrite (Hrest E).
  eapply vm_jump; [apply vm_jump_rule|exact Hc|apply vm_chain_end].
Qed.
End kept.

(** ** Two syncs of an empty namespace *)

Abbreviation sync o ps k :=
  (@ApplyPolicyRulesForPodAndFamily K _ _ _ _ o deps cfg ps pod podInfo (startState (newConn k))).

Variables (k0 : K) (o1 : MapOrder) (ps1 : list MultiNetworkPolicy).
Hypothesis empty : shown k0 = emptyRK.
Hypothesis same_policies : ps ≡ₚ ps1.
Hypothesis Hapart : rulesApart deps cfg pod podInfo ps oA k0 o1 ps1.

End enforced.
