(* ===== verification/RefVM.v ===== *)
(** * A small evaluator

    A concrete [NftVM]: it shows that the laws stated of the kernel's
    evaluator can hold together, and runs generated rules on example
    packets. *)

From S2P Require Import Prelude GoStd Names Nft VM.

Section refvm.
Context `{Arch}.

Fixpoint ref_rule (rs : ruleset) (p : packet) (es : list expr.Any) (r : bytes) (m : Z) : rule_end :=
  match es with
  | [] => Next m
  | e :: es =>
    match e with
    | expr.Counter _ _ => ref_rule rs p es r m
    | expr.Meta k s _ =>
      if s then ref_rule rs p es r (NativeEndian.Uint32 r)
      else ref_rule rs p es (match k with expr.MetaKeyMARK => NativeEndian.PutUint32 m | _ => pkt_meta p k end) m
    | expr.Cmp op _ d =>
      match op with
      | expr.CmpOpEq => if bool_decide (r = d) then ref_rule rs p es r m else Next m
      | _ => if bool_decide (r = d) then Next m else ref_rule rs p es r m
      end
    | expr.Payload _ _ _ b o l _ _ _ =>
      match pkt_payload p b o l with Some d => ref_rule rs p es d m | None => Next m end
    | expr.Lookup _ _ _ _ n _ => if rs_set rs n r then ref_rule rs p es r m else Next m
    | expr.Bitwise _ _ _ mask xor => ref_rule rs p es (zip_with Z.lxor (zip_with Z.land r mask) xor) m
    | expr.Ct _ _ _ _ _ => ref_rule rs p es (pkt_ct p) m
    | expr.Verdict k c => Decided k c m
    | expr.Other _ => Next m
    end
  end.

(** Chains, with the depth of the jumps taken. *)
Inductive ref_rules (rs : ruleset) (p : packet) : list (list expr.Any) → Z → chain_end → Prop :=
  | ref_end m : ref_rules rs p [] m (Falls m)
  | ref_next es rest m m' o :
    ref_rule rs p es [] m = Next m' → ref_rules rs p rest m' o → ref_rules rs p (es :: rest) m o
  | ref_return es rest m m' c :
    ref_rule rs p es [] m = Decided expr.VerdictReturn c m' → ref_rules rs p (es :: rest) m (Falls m')
  | ref_accept es rest m m' c :
    ref_rule rs p es [] m = Decided expr.VerdictAccept c m' → ref_rules rs p (es :: rest) m Accepted
  | ref_drop es rest m m' c :
    ref_rule rs p es [] m = Decided expr.VerdictDrop c m' → ref_rules rs p (es :: rest) m Dropped
  | ref_jump es rest m m' m'' c o :
    ref_rule rs p es [] m = Decided expr.VerdictJump c m' → ref_rules rs p (rs_chain rs c) m' (Falls m'') →
    ref_rules rs p rest m'' o → ref_rules rs p (es :: rest) m o
  | ref_jump_final es rest m m' c o :
    ref_rule rs p es [] m = Decided expr.VerdictJump c m' → ref_rules rs p (rs_chain rs c) m' o →
    o = Accepted ∨ o = Dropped → ref_rules rs p (es :: rest) m o.

Lemma ref_det rs p rules m o o' : ref_rules rs p rules m o → ref_rules rs p rules m o' → o = o'.
Proof.
  intros Ho. revert o'.
  induction Ho as [m|es rest m m' o E Hr IH|es rest m m' c E|es rest m m' c E|es rest m m' c E
    |es rest m m' m'' c o E Hj IHj Hr IHr|es rest m m' c o E Hj IHj Hf];
    intros o' Ho'; inversion Ho' as [m0|es0 rest0 m0 m1 o0 E' Hr'|es0 rest0 m0 m1 c0 E'|es0 rest0 m0 m1 c0 E'
      |es0 rest0 m0 m1 c0 E'|es0 rest0 m0 m1 m2 c0 o0 E' Hj' Hr'|es0 rest0 m0 m1 c0 o0 E' Hj' Hf']; subst;
    try rewrite E in E'; simplify_eq; try done.
  - by apply IH.
  - apply IHj in Hj'. simplify_eq. by apply IHr.
  - apply IHj in Hj'. subst. by destruct Hf'.
  - apply IHj in Hj'. subst. by destruct Hf.
  - by apply IHj.
Qed.

#[export] Instance refVM : NftVM.
Proof.
  refine {| vm_rule := ref_rule; vm_rules := ref_rules |}; try (intros; done).
  - intros rs p k es r m Hk. cbn. by destruct k.
  - intros. by eapply ref_end.
  - intros. by eapply ref_next.
  - intros. by eapply ref_return.
  - intros. by eapply ref_accept.
  - intros. by eapply ref_drop.
  - intros. by eapply ref_jump.
  - intros. by eapply ref_jump_final.
  - apply ref_det.
Defined.
End refvm.
