(* ===== verification/Demo.v ===== *)
(** * Concrete instances

    One implementation of each interface the model leaves open (encoding/gob,
    the machine's byte order, label selectors, map iteration order) and a
    small cluster, on which the properties are shown to apply. *)

From S2P Require Import Prelude GoStd Names Nft Netip Api Elements Conn RefKernel State Legacy Rules.

(** ** encoding/gob: some injective encoding *)

Definition enc_bytes (b : bytes) : bytes := len b :: b.
Definition enc_bool (b : bool) : Z := if b then 1 else 0.
Definition enc_key (k : expr.MetaKey) : Z :=
  match k with
  | expr.MetaKeyMARK => 1 | expr.MetaKeyIIFNAME => 2 | expr.MetaKeyOIFNAME => 3
  | expr.MetaKeyNFPROTO => 4 | expr.MetaKeyL4PROTO => 5 | expr.MetaKeyOther n => 6 + n
  end.
Definition enc_kind (k : expr.VerdictKind) : Z :=
  match k with
  | expr.VerdictReturn => 0 | expr.VerdictGoto => 1 | expr.VerdictJump => 2 | expr.VerdictBreak => 3
  | expr.VerdictContinue => 4 | expr.VerdictDrop => 5 | expr.VerdictAccept => 6 | expr.VerdictStolen => 7
  | expr.VerdictQueue => 8 | expr.VerdictRepeat => 9 | expr.VerdictStop => 10
  end.
Definition enc_expr (e : expr.Any) : bytes :=
  match e with
  | expr.Meta k s r => [1; enc_key k; enc_bool s; r]
  | expr.Lookup s d i id n v => [2; s; d; enc_bool i; id; enc_bool v] ++ enc_bytes n
  | expr.Verdict k c => [3; enc_kind k] ++ enc_bytes c
  | expr.Cmp op r d => [4; match op with expr.CmpOpEq => 0 | _ => 1 end; r] ++ enc_bytes d
  | expr.Payload o d s b off l _ _ _ =>
    [5; o; d; s; match b with expr.PayloadBaseNetworkHeader => 1 | _ => 2 end; off; l]
  | expr.Ct r _ _ _ _ => [6; r]
  | expr.Bitwise s d l m x => [7; s; d; l] ++ enc_bytes m ++ enc_bytes x
  | expr.Counter b p => [8; b; p]
  | expr.Other t => 9 :: t
  end.

#[export] Instance demo_gob : Gob := {|
  gob_expr e := Ok (enc_expr e);
  gob_ruleData d := Ok (enc_bytes (rd_Table d) ++ enc_bytes (rd_Chain d) ++ [rd_Family d]
                        ++ enc_bytes (rd_UserData d) ++ concat (enc_bytes <$> rd_Exprs d)) |}.

#[export] Instance demo_arch : Arch := true.

(** ** Label selectors: one required label, or none *)

#[export] Instance demo_labels : LabelApi := {|
  LabelSelector := option (gostring * gostring);
  Selector := option (gostring * gostring);
  ls_Size s := match s with Some _ => 1 | None => 0 end;
  ls_String s := match s with Some (k, v) => k ++ str "=" ++ v | None => [] end;
  LabelSelectorAsSelector s := Ok s;
  labels_Everything := None;
  sel_Matches s l := match s with Some (k, v) => bool_decide (l !! k = Some v) | None => true end |}.

#[export] Instance demo_order : MapOrder.
Proof. refine {| range_keys _ _ _ X := elements X |}. done. Defined.

(** ** A cluster *)

Definition demo_pod (name ns app : gostring) : Pod :=
  mkPod name ns {[ str "app" := app ]} ∅ "node1" false "Running" [].
Definition demo_iface (net name ip : gostring) : InterfaceInfo := mkIface net name "macvlan" [ip].
Definition demo_info (pod : Pod) (ip : gostring) : PodInfo :=
  mkPodInfo (Pod_Name pod) (Pod_Namespace pod) "/proc/1/ns/net" [] "node1" [demo_iface "ns1/net1" "net1" ip].

Definition web : Pod := demo_pod "web" "ns1" "web".
Definition client : Pod := demo_pod "client" "ns1" "client".

Definition demo_deps : PolicyDeps := {|
  ListPods s := Ok (List.filter (λ p, sel_Matches s (Pod_Labels p)) [web; client]);
  GetNamespaceInfo ns := Ok (mkNsInfo ns ∅);
  GetPodInfo p := Ok (demo_info p (if bool_decide (Pod_Name p = str "web") then "10.0.0.1" else "10.0.0.2")) |}.

Definition demo_policy : MultiNetworkPolicy :=
  mkPolicy "ns1" "allow-client" {[ PolicyNetworkAnnotation := str "net1" ]} 1
    (mkSpec None
       (Some [mkPolicyRule [mkPort (Some ProtocolTCP) (Some (FromInt 80)) (Some 90)]
                [mkPeer (Some (Some (str "app", str "client"))) None None;
                 mkPeer None None (Some (mkIPBlock "192.168.0.0/16" [str "192.168.1.0/24"]))]])
       None [str "Ingress"]).

Definition demo_cfg : CommonRuleConfig := mkCommonCfg false true [str "172.16.0.0/12"] [].
