(* ===== verification/DemoNode.v ===== *)
(** * A small node

    Concrete instances of everything the node's part of the model leaves to
    the cluster, the container runtime, the file system and the standard
    library, and a node with a few pods. They show that the laws of the
    interfaces can hold, and run the reconciler on examples. *)

From Stdlib Require Import Floats.SpecFloat.
From S2P Require Import Prelude GoStd Text Names Nft Netip Api Elements PodInfo Cri Conn RefKernel State Legacy Rules Cleanup Server Events Reconciler Daemon Health Options Main Demo.

(** ** The standard library *)

Definition quoted (s : string) : gostring := 34 :: str s ++ [34].

(** Two texts, and what they decode to. *)
Definition text_pid : gostring := str "{" ++ quoted "pid" ++ str ":42}".
Definition text_status : gostring := str "[{" ++ quoted "name" ++ str ":" ++ quoted "ns1/net1" ++ str "}]".
Definition float42 : spec_float := S754_finite false 5910974510923776 (-47).

#[export] Instance demo_json : Json.
Proof.
  refine {|
    json_any s := if bool_decide (s = text_pid) then Ok (JObject [(str "pid", JNumber float42)])
                  else if bool_decide (s = str "[]") then Ok (JArray [])
                  else Err (ErrOther "invalid character");
    json_selections s := if bool_decide (s = str "[null]") then Ok [None] else Err (ErrOther "invalid character");
    json_statuses s := if bool_decide (s = text_status) then ([mkNetStatus "ns1/net1" "net1" [str "10.0.0.1"]], None)
                       else ([], Some (ErrOther "unexpected end of JSON input")) |}.
  - done.
  - intros s e. by repeat case_bool_decide; intros [= <-].
  - intros s e. by case_bool_decide; intros [= <-].
Defined.

#[export] Instance demo_float : FloatConv := λ _, - 2 ^ 63.

#[export] Instance demo_sorting : Sorting.
Proof.
  refine {| SortFunc A cmp l := SortStableFunc cmp l |}.
  - intros A key l. apply SortStable_perm.
  - intros A key l. apply (SortStable_sorted key).
Defined.

#[export] Instance demo_unicode : Unicode := λ r, r.
#[export] Instance demo_hostname : Hostname := Ok (str "Node1.example.org").

(** ** The container runtime *)

#[export] Instance demo_runtime : ContainerRuntime.
Proof.
  refine {|
    CriClient := nat;
    ContainerStatus_info _ id :=
      if bool_decide (id = str "c1") then Ok {[ str "info" := text_pid ]}
      else if bool_decide (id = str "c2") then Ok {[ str "info" := str "[]" ]}
      else Err (ErrOther "container not found") |}.
  intros _ id e. by repeat case_bool_decide; intros [= <-].
Defined.

#[export] Instance demo_grpc : Grpc.
Proof.
  refine {|
    CriConn := nat;
    GetAddressAndDialer t := Ok t;
    NewClient _ n := Ok n;
    conn_states _ := [Connecting; Ready];
    conn_Close _ := None;
    NewRuntimeServiceClient c := c |}; try done.
  by intros t t' n n' c [= ->] [= ->].
Defined.

#[export] Instance demo_netns : Netns := λ path,
  if bool_decide (path = str "/host//proc/42/ns/net") then Ok (7, 5) else Err ErrNotExist.

(** ** The cluster *)

#[export] Instance demo_policy_order : PolicyOrder.
Proof. refine {| range_policies m := (map_to_list m).*2 |}. done. Defined.

Definition demo_cluster (policies : list MultiNetworkPolicy) (pods : list Pod) : Cluster.
Proof.
  refine {|
    NAD := gostring;
    ListPolicies := Ok policies;
    ListPodsWith o := match o with
                      | MatchingFields n => Ok (podsOnNode n pods)
                      | MatchingLabelsSelector s => Ok (List.filter (λ p, sel_Matches s (Pod_Labels p)) pods)
                      end;
    GetNamespace n := Ok (n, ∅);
    GetNAD n := Ok n.2;
    GetCNIConfig _ _ := Ok [];
    json_NetConfList _ := Ok [Some (str "macvlan")];
    json_NetConf _ := Err (ErrOther "no type") |}.
  intros n l [= <-]. unfold podsOnNode. induction pods as [|p pods IH]; [done|]. cbn [List.filter].
  destruct (bool_decide _) eqn:E; cbn [List.filter]; [rewrite E; by f_equal|done].
Defined.

(** A pod with a second interface, in containers of the given id. *)
Definition node_pod (name networks containerID : gostring) : Pod :=
  mkPod name "ns1" {[ str "app" := name ]}
    {[ NetworkAttachmentAnnot := networks; NetworkStatusAnnot := text_status ]}
    "node1" false "Running" [mkContainerStatus "main" containerID true].

Definition pod_web : Pod := node_pod "web" "net1" "containerd://c1".
(** A pod whose runtime information is no JSON object. *)
Definition pod_odd : Pod := node_pod "odd" "net1" "containerd://c2".
(** A pod whose container is gone. *)
Definition pod_gone : Pod := node_pod "gone" "net1" "containerd://c3".
(** A pod whose annotation has a null attachment. *)
Definition pod_null : Pod := node_pod "null" "[null]" "containerd://c1".

Definition demo_node : NodeReconciler (K:=RK) :=
  mkReconciler "node1" None "/host" [str "macvlan"] (mkCommonCfg false false [] []) "/run/cri.sock" None.

Definition demo_world : World RK := mkWorld initCri {[ 7 := emptyRK ]} [].

(** The interfaces and the namespace of the first pod. *)
Example web_info :
  (R_GetPodInfo (H9 := demo_cluster [] []) demo_node pod_web demo_world).1 =
  Ok (mkPodInfo "web" "ns1" "/proc/42/ns/net" [mkNetStatus "ns1/net1" "net1" [str "10.0.0.1"]] "node1"
        [mkIface "ns1/net1" "net1" "macvlan" [str "10.0.0.1"]]).
Proof. vm_compute. reflexivity. Qed.
