(* ===== verification/History.v ===== *)
(** * What a namespace owes to its past

    A sync compares rule by rule and appends what is missing, so the order of
    the rules in a chain follows the history of the policies. Here: an
    executable evaluator, correct for every evaluator that follows the laws
    of VM.v, and three runs of the reference kernel after which a namespace
    treats packets differently from a new one, for good. They are examples:
    each is one policy, one change of it and one packet. *)

From S2P Require Import Prelude GoStd Names Nft Netip Api Elements Conn RefKernel State Legacy Rules Cleanup Server VM Semantics RefVM Demo.

#[export] Instance chain_end_eq_dec : EqDecision chain_end.
Proof. solve_decision. Defined.

#[export] Instance RK_eq_dec : EqDecision RK.
Proof. solve_decision. Defined.

(** ** Running rules *)

Section run.
Context `{Arch}.

(** A rule, expression by expression; [None] for what the daemon never
    emits. *)
Fixpoint run_rule (rs : ruleset) (p : packet) (es : list expr.Any) (r : bytes) (m : Z) : option rule_end :=
  match es with
  | [] => Some (Next m)
  | e :: es =>
    match e with
    | expr.Counter _ _ => run_rule rs p es r m
    | expr.Meta k s _ =>
      if bool_decide (e = markStore) then run_rule rs p es r (NativeEndian.Uint32 r)
      else if bool_decide (e = metaLoad expr.MetaKeyMARK) then run_rule rs p es (NativeEndian.PutUint32 m) m
      else if bool_decide (e = metaLoad k) then run_rule rs p es (pkt_meta p k) m
      else None
    | expr.Cmp op g d =>
      if bool_decide (g = 1 ∧ length r = length d) then
        match op with
        | expr.CmpOpEq => if bool_decide (r = d) then run_rule rs p es r m else Some (Next m)
        | expr.CmpOpNeq => if bool_decide (r = d) then Some (Next m) else run_rule rs p es r m
        | _ => None
        end
      else None
    | expr.Payload _ _ _ b o l _ _ _ =>
      if bool_decide (e = payload b o l) then
        match pkt_payload p b o l with Some d => run_rule rs p es d m | None => Some (Next m) end
      else None
    | expr.Lookup _ _ _ id n _ =>
      if bool_decide (e = expr.Lookup 1 0 false id n false) then
        if rs_set rs n r then run_rule rs p es r m else Some (Next m)
      else None
    | expr.Bitwise _ _ _ mask xor =>
      if bool_decide (e = expr.Bitwise 1 1 4 mask xor ∧ length r = 4%nat ∧ length mask = 4%nat ∧ length xor = 4%nat)
      then run_rule rs p es (zip_with Z.lxor (zip_with Z.land r mask) xor) m else None
    | expr.Ct _ _ _ _ _ =>
      if bool_decide (e = expr.Ct 1 false expr.CtKeySTATE 0 false) then run_rule rs p es (pkt_ct p) m else None
    | expr.Verdict k c => Some (Decided k c m)
    | expr.Other _ => None
    end
  end.

(** A chain, with fuel for the rules and jumps. *)
Fixpoint run_rules (fuel : nat) (rs : ruleset) (p : packet) (l : list (list expr.Any)) (m : Z) : option chain_end :=
  match fuel with
  | O => None
  | S fuel =>
    match l with
    | [] => Some (Falls m)
    | es :: rest =>
      match run_rule rs p es [] m with
      | Some (Next m) => run_rules fuel rs p rest m
      | Some (Decided expr.VerdictReturn _ m) => Some (Falls m)
      | Some (Decided expr.VerdictAccept _ _) => Some Accepted
      | Some (Decided expr.VerdictDrop _ _) => Some Dropped
      | Some (Decided expr.VerdictJump c m) =>
        match run_rules fuel rs p (rs_chain rs c) m with
        | Some (Falls m) => run_rules fuel rs p rest m
        | o => o
        end
      | _ => None
      end
    end
  end.
End run.

Section run_sound.
Context `{NftVM}.

Lemma run_rule_sound rs p es r m o : run_rule rs p es r m = Some o → vm_rule rs p es r m = o.
Proof.
  revert r m. induction es as [|e es IH]; intros r m; cbn; [intros [= <-]; apply vm_nil|].
  destruct e as [k s g|? ? ? id n ?|k c|op g d|? ? ? b f l ? ? ?| |? ? ? mask xor|c b|]; try done.
  - case_bool_decide as E1; [injection E1 as -> -> ->; rewrite vm_mark_store; apply IH|].
    case_bool_decide as E2; [injection E2 as -> -> ->; rewrite vm_mark_load; apply IH|].
    case_bool_decide as E3; [|done]. injection E3 as -> ->. rewrite vm_meta_load; [apply IH|]. by intros ->.
  - case_bool_decide as E; [|done]. injection E as -> -> -> ->. rewrite vm_lookup.
    destruct (rs_set rs n r); [apply IH|by intros [= <-]].
  - intros [= <-]. apply vm_verdict.
  - case_bool_decide as E; [|done]. destruct E as [-> Hl].
    destruct op; try done; rewrite ?vm_cmp_eq, ?vm_cmp_neq by done; case_bool_decide; try apply IH; by intros [= <-].
  - case_bool_decide as E; [|done]. injection E as -> -> -> -> -> ->. rewrite vm_payload.
    destruct (pkt_payload p b f l); [apply IH|by intros [= <-]].
  - case_bool_decide as E; [|done]. injection E as -> -> -> -> ->. rewrite vm_ct. apply IH.
  - case_bool_decide as E; [|done]. destruct E as ([= -> -> ->] & ? & ? & ?). rewrite vm_bitwise by done. apply IH.
  - rewrite vm_counter. apply IH.
Qed.

Lemma run_rules_sound fuel rs p l m o : run_rules fuel rs p l m = Some o → vm_rules rs p l m o.
Proof.
  revert l m o. induction fuel as [|fuel IH]; intros l m o; cbn; [done|].
  destruct l as [|es rest]; [intros [= <-]; apply vm_chain_end|].
  destruct (run_rule rs p es [] m) as [e|] eqn:E; [|done]. apply run_rule_sound in E.
  destruct e as [m'|v c m']; [intros Hr; eapply vm_next; eauto|]. destruct v; try done.
  - intros [= <-]. by eapply vm_return.
  - destruct (run_rules fuel rs p (rs_chain rs c) m') as [o'|] eqn:Ej; [|done]. apply IH in Ej.
    destruct o' as [m''| |]; [intros Hr; eapply vm_jump; eauto|..]; intros [= <-]; eapply vm_jump_final; eauto.
  - intros [= <-]. by eapply vm_drop.
  - intros [= <-]. by eapply vm_accept.
Qed.
End run_sound.

(** ** The ruleset of a namespace *)

(** The chains and sets of a table of [k]. *)
Definition rulesetOf (k : RK) (t : Table) : ruleset :=
  mkRuleset (λ c, match rulesAt k t c with Ok rs => Rule_Exprs <$> rs | Err _ => [] end)
    (λ n key, match List.find (same_set t n) (rk_sets k) with
              | Some s => memb (Set_Interval s.1) s.2 key
              | None => false
              end).

(** What becomes of a packet that arrives at the base chain [input]. *)
Definition inputFate `{!NftVM (H:=demo_arch)} (k : RK) (p : packet) (o : chain_end) : Prop :=
  let rs := rulesetOf k (mkTable FilterTableName TableFamilyINet) in vm_rules rs p (rs_chain rs "input") 0 o.
Definition inputRun (k : RK) (p : packet) : option chain_end :=
  let rs := rulesetOf k (mkTable FilterTableName TableFamilyINet) in run_rules 1000 rs p (rs_chain rs "input") 0.

Lemma inputRun_sound `{!NftVM (H:=demo_arch)} k p o : inputRun k p = Some o → inputFate k p o.
Proof. apply run_rules_sound. Qed.

(** ** Three histories *)

(** The first segment of a TCP connection over IPv4 that arrives on an
    interface. *)
Definition synFrom (ifn : gostring) (src : bytes) (dport : Z) : packet :=
  mkPacket (λ k, match k with
                 | expr.MetaKeyNFPROTO => [NFPROTO_IPV4]
                 | expr.MetaKeyL4PROTO => [IPPROTO_TCP]
                 | _ => ifname ifn
                 end)
    (λ b off l, match b with
                | expr.PayloadBaseNetworkHeader => if (off =? 12) && (l =? 4) then Some src else None
                | _ => if (off =? 2) && (l =? 2) then Some (be_bytes 2 dport) else None
                end) [8; 0; 0; 0].

(** A policy that opens TCP ports to a block. *)
Definition blockPolicy (nets : gostring) (ports : list MultiNetworkPolicyPort) (except : list gostring)
    : MultiNetworkPolicy :=
  mkPolicy "ns1" "allow-block" {[ PolicyNetworkAnnotation := nets ]} 1
    (mkSpec None
       (Some [mkPolicyRule ports [mkPeer None None (Some (mkIPBlock "192.168.0.0/16" except))]])
       None [str "Ingress"]).
Definition tcpPort (n : Z) : MultiNetworkPolicyPort := mkPort (Some ProtocolTCP) (Some (FromInt n)) None.

(** A pod with two interfaces. *)
Definition twoNets : PodInfo :=
  mkPodInfo (Pod_Name web) (Pod_Namespace web) "/proc/1/ns/net" [] "node1"
    [demo_iface "ns1/net1" "net1" "10.0.0.1"; demo_iface "ns1/net2" "net2" "10.0.1.1"].

(** No ICMP rules and no prefixes in the common chains but the unavoidable. *)
Definition smallCfg : CommonRuleConfig := mkCommonCfg true false [] [].

Definition syncWith (policy : MultiNetworkPolicy) (k : RK) : result unit * nftState RK :=
  ApplyPolicyRulesForPodAndFamily demo_deps smallCfg [policy] web twoNets
    (newState (newConn k) (mkTable [] 0) (mkTable [] 0)).
Definition kernelWith (policy : MultiNetworkPolicy) (k : RK) : RK := kern (nft (syncWith policy k).2).
(** Two syncs: the first of a namespace loses the rules that look up a new
    set, the second installs them. *)
Definition settle (policy : MultiNetworkPolicy) (k : RK) : RK := kernelWith policy (kernelWith policy k).
(** A further sync succeeds and sends nothing. *)
Definition idle (policy : MultiNetworkPolicy) (k : RK) : bool :=
  let s := syncWith policy k in is_ok s.1 && bool_decide (sent (nft s.2) = []).

Definition open80 : MultiNetworkPolicy := blockPolicy "net1" [tcpPort 80] [].

(** The namespace once the policy [open80] is installed. *)
Definition installed80 : RK := settle open80 emptyRK.

(** Computed at once: a namespace is brought from [k] to [policy] and is then
    final, and what a packet meets there and where [policy] came first. *)
Definition runsTo (k : RK) (p : packet) (o : chain_end) : bool :=
  match inputRun k p with Some o' => bool_decide (o' = o) | None => false end.
Definition diverges (k : RK) (policy : MultiNetworkPolicy) (p : packet) (o o' : chain_end) : bool :=
  let updated := settle policy k in
  idle policy updated && runsTo updated p o && runsTo (settle policy emptyRK) p o'.

Lemma runsTo_sound `{!NftVM (H:=demo_arch)} k p o : runsTo k p o = true → inputFate k p o.
Proof.
  unfold runsTo. destruct (inputRun k p) as [o'|] eqn:E; [|discriminate]. intros <-%bool_decide_eq_true.
  exact (inputRun_sound _ _ _ E).
Qed.

Lemma diverges_sound `{!NftVM (H:=demo_arch)} k policy p o o' :
  diverges k policy p o o' = true →
  idle policy (settle policy k) = true ∧
  inputFate (settle policy k) p o ∧ inputFate (settle policy emptyRK) p o'.
Proof.
  intros Hd. apply andb_true_iff in Hd as [Hd Ho']. apply andb_true_iff in Hd as [Hi Ho].
  exact (conj Hi (conj (runsTo_sound _ _ _ Ho) (runsTo_sound _ _ _ Ho'))).
Qed.

(** An [except] block added to a policy that is already installed never
    takes effect. Its deny rule is appended behind the accept rule of the same
    block, so that a packet from the exception still returns to the base chain
    with both marks set; a namespace that starts with the new policy drops it.
    The updated namespace is final: a further sync sends nothing. *)
Example except_added_later_ignored `{!NftVM (H:=demo_arch)} :
  let policy := blockPolicy "net1" [tcpPort 80] [str "192.168.1.0/24"] in
  let p := synFrom "net1" [192; 168; 1; 7] 80 in
  idle policy (settle policy installed80) = true ∧
  inputFate (settle policy installed80) p (Falls matchRuleMark) ∧ inputFate (settle policy emptyRK) p Dropped.
Proof. cbv zeta. apply diverges_sound. vm_compute. reflexivity. Qed.

(** A network added to the [policy-for] annotation of an installed policy
    cuts the interface off. The jump of the new interface is appended behind
    the rule that lets marked packets return, so that what the policy allows
    is marked and then dropped; a namespace that starts with the new policy
    lets it through. *)
Example network_added_later_cut_off `{!NftVM (H:=demo_arch)} :
  let policy := blockPolicy "net1,net2" [tcpPort 80] [] in
  let p := synFrom "net2" [192; 168; 1; 7] 80 in
  idle policy (settle policy installed80) = true ∧
  inputFate (settle policy installed80) p Dropped ∧ inputFate (settle policy emptyRK) p (Falls matchRuleMark).
Proof. cbv zeta. apply diverges_sound. vm_compute. reflexivity. Qed.

(** Computed at once: [policy] is refused in [k]. *)
Definition refused (k : RK) (policy : MultiNetworkPolicy) : bool :=
  let s := syncWith policy k in negb (is_ok s.1) && bool_decide (kern (nft s.2) = k).

Lemma refused_sound k policy :
  refused k policy = true → is_ok (syncWith policy k).1 = false ∧ kernelWith policy k = k.
Proof.
  intros Hr. apply andb_true_iff in Hr as [He%negb_true_iff Hk%bool_decide_eq_true]. split; [exact He|].
  exact Hk.
Qed.

(** The ports of an installed policy cannot be changed. Their set is
    constant and looked up by the policy's rule, so the kernel refuses the
    batch that adds the new element: the sync fails and leaves the namespace
    as it was, and so does every later one. *)
Example ports_never_updated :
  let policy := blockPolicy "net1" [tcpPort 80; tcpPort 443] [] in
  is_ok (syncWith policy installed80).1 = false ∧
  ∀ n, Nat.iter n (kernelWith policy) installed80 = installed80.
Proof.
  intros policy. destruct (refused_sound installed80 policy) as [E1 E2]; [vm_compute; reflexivity|].
  split; [exact E1|]. induction n as [|n IH]; [reflexivity|]. rewrite Nat.iter_succ, IH. exact E2.
Qed.
