(* ===== verification/NfTest.v ===== *)
(** * The test helpers

    pkg/nftest: the recording netlink connection and the comparison of what
    it recorded with expected messages (nftest.go), and the connection to a
    kernel in a namespace of its own, with its acquisition and release of
    threads, handles and sockets (system_conn.go). *)

From S2P Require Import Prelude GoStd.

(** ** Netlink messages (mdlayher/netlink) *)

Record Header := mkHeader {
  Hdr_Length : Z;
  Hdr_Type : Z;
  Hdr_Flags : Z;
  Hdr_Sequence : Z;
  Hdr_PID : Z }.
Record Message := mkMessage { Msg_Header : Header; Msg_Data : bytes }.

(** [nlmsgAlign] *)
Definition nlmsgAlign (len : Z) : Z := Z.land (len + 4 - 1) (Z.lnot (4 - 1)).
Definition nlmsgHeaderLen : nat := 16.

Definition nativePut `{Arch} (n : nat) (v : Z) : bytes :=
  if native_little then le_bytes n v else be_bytes n v.

(** [copy] into the zeroed rest of a buffer of [n] bytes. *)
Definition copyInto (n : nat) (data : bytes) : bytes := take n (data ++ replicate n 0).

(** [Message.MarshalBinary] *)
Definition MarshalBinary `{Arch} (m : Message) : result bytes :=
  let h := Msg_Header m in
  let ml := nlmsgAlign (Hdr_Length h) in
  if (ml <? Z.of_nat nlmsgHeaderLen) || negb (ml =? Hdr_Length h) then
    Err (ErrOther "netlink message header length incorrect")
  else
    Ok (nativePut 4 (Hdr_Length h) ++ nativePut 2 (u16 (Hdr_Type h)) ++ nativePut 2 (u16 (Hdr_Flags h))
        ++ nativePut 4 (Hdr_Sequence h) ++ nativePut 4 (Hdr_PID h)
        ++ copyInto (Z.to_nat ml - nlmsgHeaderLen) (Msg_Data m)).

(** ** nftest.go *)

(** [Recorder] *)
Record Recorder := mkRecorder { rec_requests : list Message }.
Definition NewRecorder : Recorder := mkRecorder [].
Definition Requests (r : Recorder) : list Message := rec_requests r.

Definition FlagAcknowledge : Z := 4.
Definition FlagEcho : Z := 8.
Definition TypeError : Z := 2.
(** [unix.NFNL_SUBSYS_NFTABLES << 8 | unix.NFT_MSG_NEWRULE] *)
Definition TypeNewRule : Z := 0xa06.
Definition NFTA_RULE_HANDLE : Z := 3.

Definition has_flag (m : Message) (f : Z) : bool := negb (Z.land (Hdr_Flags (Msg_Header m)) f =? 0).

(** The attribute with a rule's handle: length, type, big-endian value. *)
Definition handleAttr `{Arch} (handle : Z) : bytes :=
  nativePut 2 12 ++ nativePut 2 NFTA_RULE_HANDLE ++ be_bytes 8 handle.

(** The loop that generates the echoes. *)
Fixpoint echoes `{Arch} (req : list Message) (nextHandle : Z) : list Message * Z :=
  match req with
  | [] => ([], nextHandle)
  | msg :: req =>
    if has_flag msg FlagEcho then
      let new := Hdr_Type (Msg_Header msg) =? TypeNewRule in
      let data := if new then Msg_Data msg ++ handleAttr nextHandle else Msg_Data msg in
      let '(rs, h) := echoes req (if new then nextHandle + 1 else nextHandle) in
      (mkMessage (Msg_Header msg) data :: rs, h)
    else echoes req nextHandle
  end.

Definition ackOf (msg : Message) : Message :=
  mkMessage (mkHeader 4 TypeError 0 (Hdr_Sequence (Msg_Header msg)) (Hdr_PID (Msg_Header msg))) [0; 0; 0; 0].
Definition acks (req : list Message) : list Message :=
  ackOf <$> List.filter (λ m, has_flag m FlagAcknowledge) req.

(** The function a recording connection is dialled with: the state is the
    recorder and the next handle of the connection. *)
Definition serve `{Arch} (req : list Message) (s : Recorder * Z) : list Message * (Recorder * Z) :=
  let '(replies, h) := echoes req s.2 in
  (replies ++ acks req, (mkRecorder (rec_requests s.1 ++ req), h)).

(** *** Dumps *)

Definition hex2 (b : Z) : gostring := hex_fixed 2 b.
Definition ascii_of (b : Z) : Z := if (0x20 <=? b) && (b <? 0x7f) then b else 46.

(** A full line of [nfdump]. *)
Definition dumpLine (a b c d : Z) : gostring :=
  hex2 a ++ str " " ++ hex2 b ++ str " " ++ hex2 c ++ str " " ++ hex2 d ++ str "  "
  ++ [ascii_of a; ascii_of b; ascii_of c; ascii_of d] ++ [10].

Fixpoint nfdump (l : bytes) : gostring :=
  match l with
  | a :: b :: c :: d :: rest => dumpLine a b c d ++ nfdump rest
  | l => concat ((λ x, hex2 x ++ str " ") <$> l)
  end.

Definition lineDiff1 (p : gostring * gostring) : gostring :=
  (if bool_decide (p.1 = p.2) then str "  " else str "! ") ++ p.1 ++ str " -- " ++ p.2 ++ [10].

(** [linediff]: the lines of [b] past those of [a], and those of [a] past
    those of [b], are left out. *)
Definition linediff (a b : gostring) : gostring :=
  str "got -- want" ++ [10] ++ concat (lineDiff1 <$> zip (strings.Split a 10) (strings.Split b 10)).

Definition errText (e : error) : gostring := match e with ErrOther m => m | _ => str "error" end.

(** [Diff]; [idx] is the index of the first message of [got]. *)
Fixpoint diffFrom `{Arch} (idx : nat) (got : list Message) (want : list bytes) : gostring :=
  match got with
  | [] => []
  | msg :: got =>
    match MarshalBinary msg with
    | Err e => str "msg.MarshalBinary: " ++ errText e
    | Ok b =>
      if (length b <? 16)%nat then diffFrom (S idx) got want
      else
        let b := drop 16 b in
        match want with
        | [] => str "no want entry for message " ++ itoa (Z.of_nat idx) ++ str ": " ++ concat (hex2 <$> b)
        | w :: want =>
          if negb (bool_decide (b = w)) then
            str "message " ++ itoa (Z.of_nat idx) ++ str ": " ++ linediff (nfdump b) (nfdump w)
          else diffFrom (S idx) got want
        end
    end
  end.
Definition Diff `{Arch} (got : list Message) (want : list bytes) : gostring := diffFrom 0 got want.

(** *** A test of a ruleset

    The library the test drives: a connection on a dialled function, to which
    a ruleset is added and which is flushed. The function's state goes through
    the calls that may send. *)
Class TestConn := {
  TConn : Type;
  nftables_NewTest : result TConn;
  FlushRuleset : TConn → TConn;
  TFlush : (list Message → Recorder * Z → list Message * (Recorder * Z)) → TConn → Recorder * Z →
           result unit * (Recorder * Z) }.

(** [MatchRulesetBytes]: what the test reports; nothing when it passes. *)
Definition MatchRulesetBytes `{Arch} `{TestConn} (fillRuleset : TConn → Recorder * Z → TConn * (Recorder * Z))
    (want : list bytes) : list gostring :=
  let rec := NewRecorder in
  match nftables_NewTest with
  | Err e => [errText e]
  | Ok c =>
    let '(c, s) := fillRuleset (FlushRuleset c) (rec, 1) in
    match TFlush serve c s with
    | (Err e, _) => [errText e]
    | (Ok _, s) =>
      let diff := Diff (Requests s.1) want in
      if bool_decide (diff = []) then [] else [str "unexpected netlink messages: diff: " ++ diff]
    end
  end.

(** *** What a comparison shows *)

Lemma nlmsgAlign_nonneg l : 0 ≤ l → 0 ≤ nlmsgAlign l.
Proof. intros. unfold nlmsgAlign. apply Z.land_nonneg. left. lia. Qed.

Lemma MarshalBinary_length `{Arch} m b : MarshalBinary m = Ok b → (16 ≤ length b)%nat.
Proof.
  unfold MarshalBinary. destruct (_ || _); [done|]. intros [= <-].
  rewrite !length_app. unfold nativePut, be_bytes.
  destruct native_little; rewrite ?length_reverse, !length_le_bytes; lia.
Qed.

(** The payload of a message that marshals. *)
Definition payloadOf `{Arch} (m : Message) (p : bytes) : Prop := ∃ b, MarshalBinary m = Ok b ∧ p = drop 16 b.

Lemma diffFrom_empty `{Arch} idx got want :
  diffFrom idx got want = [] ↔ ∃ ps, Forall2 payloadOf got ps ∧ ps `prefix_of` want.
Proof.
  revert idx want. induction got as [|msg got IH]; intros idx want; cbn [diffFrom].
  { split; [|done]. intros _. exists []. split; [constructor|apply prefix_nil]. }
  destruct (MarshalBinary msg) as [b|e] eqn:E.
  2:{ split; [done|]. intros (ps & HF & _). inversion HF as [|? ? ? ? (b & Hb & _)]. congruence. }
  apply MarshalBinary_length in E as Hl. assert ((length b <? 16)%nat = false) as -> by (apply Nat.ltb_ge; lia).
  assert (∀ p, payloadOf msg p ↔ p = drop 16 b) as Hp by (intros p; unfold payloadOf; rewrite E; naive_solver).
  destruct want as [|w want].
  { split; [done|]. intros (ps & HF & Hpre). apply prefix_nil_inv in Hpre as ->. inversion HF. }
  case_bool_decide as Hw; cbn [negb].
  - rewrite IH. split; intros (ps & HF & Hpre).
    + exists (drop 16 b :: ps). split; [constructor; [by apply Hp|done]|]. rewrite Hw. by apply prefix_cons.
    + inversion HF as [|? p ? ps' H1' HF']; subst. exists ps'. split; [done|].
      by apply prefix_cons_inv_2 in Hpre.
  - split; [done|]. intros (ps & HF & Hpre). inversion HF as [|? p ? ps' H1' HF']; subst.
    apply Hp in H1' as ->. by apply prefix_cons_inv_1 in Hpre.
Qed.

Lemma hexdigit_inj a b : 0 ≤ a < 16 → 0 ≤ b < 16 → hexdigit a = hexdigit b → a = b.
Proof. unfold hexdigit. intros. destruct (Z.ltb_spec a 10), (Z.ltb_spec b 10); lia. Qed.
Lemma hex2_eq b : hex2 b = [hexdigit (Z.land (Z.shiftr b 4) 15); hexdigit (Z.land b 15)].
Proof. done. Qed.
Lemma hex2_inj a b : is_byte a → is_byte b → hex2 a = hex2 b → a = b.
Proof.
  unfold is_byte. intros Ha Hb. rewrite !hex2_eq.
  change 15 with (Z.ones 4). rewrite !Z.land_ones, !Z.shiftr_div_pow2 by lia. intros [= H1' H2'].
  apply hexdigit_inj in H1'; [|apply Z.mod_pos_bound; lia..]. apply hexdigit_inj in H2'; [|apply Z.mod_pos_bound; lia..].
  change (2 ^ 4) with 16 in *. Z.div_mod_to_equations. lia.
Qed.
Lemma hexdigit_graphic d : 0 ≤ d → 48 ≤ hexdigit d.
Proof. unfold hexdigit. destruct (Z.ltb_spec d 10); lia. Qed.
Lemma hex2_graphic b : Forall (λ x, 32 ≤ x) (hex2 b).
Proof.
  rewrite hex2_eq. assert (∀ x, 0 ≤ Z.land x 15) as Hx by (intros; apply Z.land_nonneg; lia).
  repeat constructor; etrans; try apply hexdigit_graphic; done || lia.
Qed.

(** The lines of a dump; the last one, of fewer than four bytes, may be empty. *)
Fixpoint dumpLines (l : bytes) : list gostring :=
  match l with
  | a :: b :: c :: d :: rest => take 17 (dumpLine a b c d) :: dumpLines rest
  | l => [concat ((λ x, hex2 x ++ str " ") <$> l)]
  end.

Lemma Split_line l s : Forall (λ x, 32 ≤ x) l → strings.Split (l ++ 10 :: s) 10 = l :: strings.Split s 10.
Proof.
  induction 1 as [|x l Hx _ IH]; cbn; [done|]. rewrite IH.
  by destruct (Z.eqb_spec x 10); [lia|].
Qed.
Lemma Split_last l : Forall (λ x, 32 ≤ x) l → strings.Split l 10 = [l].
Proof.
  induction 1 as [|x l Hx _ IH]; cbn; [done|]. rewrite IH.
  by destruct (Z.eqb_spec x 10); [lia|].
Qed.

Lemma partial_graphic l : Forall (λ x, 32 ≤ x) (concat ((λ x, hex2 x ++ str " ") <$> l)).
Proof.
  induction l as [|x l IH]; cbn -[hex2]; [constructor|].
  rewrite !Forall_app. split_and!; [apply hex2_graphic|by repeat constructor|done].
Qed.
Lemma ascii_graphic b : 32 ≤ ascii_of b.
Proof. unfold ascii_of. destruct (Z.leb_spec 0x20 b); cbn; [|lia]. destruct (_ <? _); lia. Qed.

(** The part of a line before its newline. *)
Definition lineBody (a b c d : Z) : gostring :=
  hex2 a ++ str " " ++ hex2 b ++ str " " ++ hex2 c ++ str " " ++ hex2 d ++ str "  "
  ++ [ascii_of a; ascii_of b; ascii_of c; ascii_of d].
Lemma dumpLine_body a b c d : dumpLine a b c d = lineBody a b c d ++ [10].
Proof. unfold dumpLine, lineBody. by rewrite <-!app_assoc. Qed.
Lemma length_lineBody a b c d : length (lineBody a b c d) = 17%nat.
Proof. done. Qed.
Lemma lineBody_graphic a b c d : Forall (λ x, 32 ≤ x) (lineBody a b c d).
Proof.
  unfold lineBody. rewrite !Forall_app. split_and!; try apply hex2_graphic; repeat constructor; try done; apply ascii_graphic.
Qed.
Lemma lineBody_inj a b c d a' b' c' d' :
  Forall is_byte [a; b; c; d] → Forall is_byte [a'; b'; c'; d'] →
  lineBody a b c d = lineBody a' b' c' d' → [a; b; c; d] = [a'; b'; c'; d'].
Proof.
  rewrite !Forall_cons, !Forall_nil. intros (? & ? & ? & ? & _) (? & ? & ? & ? & _). unfold lineBody. intros E.
  apply app_inj_1 in E as [E1 E]; [|done]. apply app_inv_head in E.
  apply app_inj_1 in E as [E2 E]; [|done]. apply app_inv_head in E.
  apply app_inj_1 in E as [E3 E]; [|done]. apply app_inv_head in E.
  apply app_inj_1 in E as [E4 E]; [|done].
  by repeat f_equal; apply hex2_inj.
Qed.

(** Four bytes at a time, as [nfdump] takes them. *)
Fixpoint quad_ind (P : bytes → Prop) (Hs : ∀ l, (length l < 4)%nat → P l)
    (Hq : ∀ a b c d l, P l → P (a :: b :: c :: d :: l)) (l : bytes) : P l.
Proof.
  destruct l as [|a [|b [|c [|d l]]]]; [apply Hs; cbn; lia..|]. apply Hq, quad_ind; done.
Qed.

Definition partialLine (l : bytes) : gostring := concat ((λ x, hex2 x ++ str " ") <$> l).
Lemma nfdump_short l : (length l < 4)%nat → nfdump l = partialLine l.
Proof. by destruct l as [|a [|b [|c [|d l]]]]; cbn; try lia. Qed.
Lemma length_partialLine l : length (partialLine l) = (3 * length l)%nat.
Proof.
  induction l as [|x l IH]; [done|]. change (partialLine (x :: l)) with ((hex2 x ++ str " ") ++ partialLine l).
  rewrite length_app, IH. change (length (hex2 x ++ str " ")) with 3%nat. cbn [length]. lia.
Qed.
Lemma partialLine_inj l k : Forall is_byte l → Forall is_byte k → partialLine l = partialLine k → l = k.
Proof.
  intros Hl. revert k. induction Hl as [|x l Hx _ IH]; intros [|y k] Hk E; try done.
  apply Forall_cons in Hk as [Hy Hk]. unfold partialLine in E. cbn -[hex2] in E.
  apply app_inj_1 in E as [E E']; [|done].
  apply app_inj_1 in E as [E _]; [|done]. apply hex2_inj in E; [|done..]. subst. f_equal. by apply IH.
Qed.

Lemma Split_short l : (length l < 4)%nat → strings.Split (nfdump l) 10 = [partialLine l].
Proof. intros Hl. rewrite nfdump_short by done. apply Split_last, partial_graphic. Qed.
Lemma Split_quad a b c d l :
  strings.Split (nfdump (a :: b :: c :: d :: l)) 10 = lineBody a b c d :: strings.Split (nfdump l) 10.
Proof.
  cbn [nfdump]. rewrite dumpLine_body, <-app_assoc. apply Split_line, lineBody_graphic.
Qed.
Lemma Split_first l : ∃ x ls, strings.Split (nfdump l) 10 = x :: ls.
Proof. destruct (strings.Split _ _) eqn:E; [by apply Split_not_nil in E|eauto]. Qed.

(** Different payloads are told apart by a line both dumps have. *)
Lemma dump_difference l k :
  Forall is_byte l → Forall is_byte k → l ≠ k →
  ∃ p, p ∈ zip (strings.Split (nfdump l) 10) (strings.Split (nfdump k) 10) ∧ p.1 ≠ p.2.
Proof.
  intros Hl. revert k. induction l as [l Hs|a b c d l IH] using quad_ind; intros k Hk Hne.
  - rewrite (Split_short l) by done. destruct k as [|a' [|b' [|c' [|d' k]]]].
    1-4: rewrite Split_short by (cbn; lia); eexists; split; [by left|]; cbn [fst snd];
      intros E; apply Hne; by apply partialLine_inj.
    rewrite Split_quad. eexists. split; [by left|]. cbn [fst snd]. intros E.
    apply (f_equal length) in E. rewrite length_lineBody, length_partialLine in E. lia.
  - change (a :: b :: c :: d :: l) with ([a; b; c; d] ++ l) in Hl. apply Forall_app in Hl as [Hq Hl].
    rewrite Split_quad. destruct k as [|a' [|b' [|c' [|d' k]]]].
    1-4: match goal with |- context [zip (_ :: _) (strings.Split (nfdump ?k) 10)] =>
      rewrite (Split_short k) by (cbn; lia) end; eexists; split; [by left|]; cbn [fst snd]; intros E;
      apply (f_equal length) in E; rewrite length_lineBody, length_partialLine in E; cbn in E; lia.
    change (a' :: b' :: c' :: d' :: k) with ([a'; b'; c'; d'] ++ k) in Hk. apply Forall_app in Hk as [Hq' Hk].
    rewrite Split_quad. destruct (decide (lineBody a b c d = lineBody a' b' c' d')) as [E|E].
    + apply lineBody_inj in E; [|done..]. destruct (IH Hl k Hk) as (p & Hp & Hd).
      { intros ->. apply Hne. by simplify_eq. }
      exists p. split; [by right|done].
    + eexists. split; [by left|done].
Qed.

Lemma lineDiff1_flag p : p.1 ≠ p.2 → ∃ s, lineDiff1 p = str "! " ++ s.
Proof. intros Hne. unfold lineDiff1. rewrite bool_decide_eq_false_2 by done. eauto. Qed.

(** C36: [Diff] reports nothing exactly when every recorded message can be
    encoded and their payloads are, in order, the first of the expected ones;
    expected messages that were never sent go unreported. *)
Theorem Diff_empty_iff `{Arch} got want :
  Diff got want = [] ↔ ∃ payloads, Forall2 payloadOf got payloads ∧ payloads `prefix_of` want.
Proof. apply diffFrom_empty. Qed.

(** A test passes exactly when everything was sent without error and what was
    recorded compares equal. *)
Lemma MatchRulesetBytes_passes `{Arch} `{TestConn} fillRuleset want :
  MatchRulesetBytes fillRuleset want = [] ↔
  ∃ c c' s r h, nftables_NewTest = Ok c ∧ fillRuleset (FlushRuleset c) (NewRecorder, 1) = (c', s) ∧
    TFlush serve c' s = (Ok tt, (r, h)) ∧
    ∃ payloads, Forall2 payloadOf (Requests r) payloads ∧ payloads `prefix_of` want.
Proof.
  unfold MatchRulesetBytes. destruct nftables_NewTest as [c|e]; [|naive_solver].
  destruct (fillRuleset _ _) as [c' s] eqn:E1. destruct (TFlush serve c' s) as [[[]|e] [r h]] eqn:E2.
  2:{ split; [done|]. intros (c0 & c1 & s0 & r0 & h0 & [= <-] & E3 & E4 & _). rewrite E1 in E3. congruence. }
  cbn [fst]. split.
  - case_bool_decide as Hd; [|done]. intros _. apply diffFrom_empty in Hd. naive_solver.
  - intros (c0 & c1 & s0 & r0 & h0 & [= <-] & E4 & E3 & Hp). rewrite E1 in E4. injection E4 as <- <-.
    rewrite E2 in E3. injection E3 as <- <-.
    rewrite bool_decide_eq_true_2; [done|]. by apply diffFrom_empty.
Qed.

(** two different payloads are told apart by their side-by-side dump:
    some line of it is flagged, also when one payload continues the other and
    the surplus lines are left out. *)
Theorem linediff_flags got want :
  Forall is_byte got → Forall is_byte want → got ≠ want →
  ∃ before line after, linediff (nfdump got) (nfdump want) = before ++ str "! " ++ line ++ after.
Proof.
  intros Hg Hw Hne. destruct (dump_difference got want Hg Hw Hne) as (p & Hp & Hd).
  apply list_elem_of_split in Hp as (l1 & l2 & Hz). destruct (lineDiff1_flag p Hd) as [s Hs].
  unfold linediff. rewrite Hz, fmap_app, concat_app, fmap_cons. cbn [concat]. rewrite Hs.
  eexists (str "got -- want" ++ [10] ++ concat (lineDiff1 <$> l1)), s, _. by rewrite <-!app_assoc.
Qed.

(** ** system_conn.go *)

Definition netNsName : gostring := "testing".

(** What the system answers in one test: whether the thread can be moved into
    a new namespace; the handle that opening a namespace gives, or an error;
    whether directories, files, mounts and sockets can be made, read and
    released. *)
Record TestEnv := mkTestEnv {
  env_GetFromName : option Z;
  env_Unshare : bool;
  env_Get : option Z;
  env_MkdirAll : bool;
  env_OpenFile : bool;
  env_Mount : bool;
  env_nftables_New : bool;
  env_ListTables : bool;
  env_Close : bool;
  env_Unmount : bool;
  env_Remove : bool;
  env_CloseLasting : bool;
  env_skip : gostring }.

(** The state of the test and of its goroutine's thread; [os_named] tells
    whether a namespace is mounted under the name. [sc_conn], [sc_ns],
    [sc_cleanupOnFailure] and [sc_namedNamespace] are the variables of
    [OpenSystemConn] that its deferred function reads. *)
Record TestState := mkTestState {
  t_failed : bool;
  t_skipped : bool;
  os_locks : Z;
  os_home : bool;
  os_handles : list Z;
  os_sockets : Z;
  os_named : bool;
  sc_conn : bool;
  sc_ns : Z;
  sc_cleanupOnFailure : bool;
  sc_namedNamespace : bool }.

(** The goroutine of a test that was failed or skipped stops. *)
Definition Goexit : error := ErrPanic "runtime.Goexit".

Section system_conn.
Variable env : TestEnv.
Abbreviation T := (ST TestState).

Definition set_os (locks : Z) (home : bool) (handles : list Z) (sockets : Z) (named : bool) (s : TestState) : TestState :=
  mkTestState (t_failed s) (t_skipped s) locks home handles sockets named (sc_conn s) (sc_ns s)
    (sc_cleanupOnFailure s) (sc_namedNamespace s).
Definition set_vars (conn : bool) (ns : Z) (cleanup named : bool) (s : TestState) : TestState :=
  mkTestState (t_failed s) (t_skipped s) (os_locks s) (os_home s) (os_handles s) (os_sockets s) (os_named s)
    conn ns cleanup named.
Definition set_test (failed skipped : bool) (s : TestState) : TestState :=
  mkTestState failed skipped (os_locks s) (os_home s) (os_handles s) (os_sockets s) (os_named s)
    (sc_conn s) (sc_ns s) (sc_cleanupOnFailure s) (sc_namedNamespace s).

Definition FailNow {A} : T A := modify (λ s, set_test true (t_skipped s) s) ≫= λ _, throw Goexit.
Definition SkipNow {A} : T A := modify (λ s, set_test (t_failed s) true s) ≫= λ _, throw Goexit.

(** [strconv.ParseBool] *)
Definition ParseBool (s : gostring) : option bool :=
  if bool_decide (s ∈ [str "1"; str "t"; str "T"; str "true"; str "TRUE"; str "True"]) then Some true
  else if bool_decide (s ∈ [str "0"; str "f"; str "F"; str "false"; str "FALSE"; str "False"]) then Some false
  else None.
Definition shouldSkipUnavailable : bool := match ParseBool (env_skip env) with Some b => b | None => false end.
Definition failOrSkipUnavailable {A} : T A := if shouldSkipUnavailable then SkipNow else FailNow.

(** *** Threads, namespaces, sockets *)

Definition LockOSThread : T unit :=
  modify (λ s, set_os (os_locks s + 1) (os_home s) (os_handles s) (os_sockets s) (os_named s) s).
Definition UnlockOSThread : T unit :=
  modify (λ s, set_os (os_locks s - 1) (os_home s) (os_handles s) (os_sockets s) (os_named s) s).
(** A handle was opened, the thread perhaps moved. *)
Definition opened (fd : Z) (home named : bool) : T unit :=
  modify (λ s, set_os (os_locks s) home (fd :: os_handles s) (os_sockets s) named s).

Definition netns_GetFromName : T (option Z) :=
  match env_GetFromName env with
  | Some fd => s ← get; opened fd (os_home s) (os_named s) ≫= λ _, mret (Some fd)
  | None => mret None
  end.
(** [New] makes the new namespace the thread's own before it opens it. *)
Definition netns_New : T (option Z) :=
  if negb (env_Unshare env) then mret None
  else
    modify (λ s, set_os (os_locks s) false (os_handles s) (os_sockets s) (os_named s) s) ≫= λ _,
    match env_Get env with
    | Some fd => s ← get; opened fd (os_home s) (os_named s) ≫= λ _, mret (Some fd)
    | None => mret None
    end.

Definition ns_IsOpen (ns : Z) : bool := negb (ns =? -1).
(** The releases return whether they succeeded. *)
Definition releasing (ok : bool) (f : TestState → TestState) : T bool :=
  if ok then modify f ≫= λ _, mret true else mret false.
Definition ns_Close (ns : Z) : T bool := releasing (env_Close env) (λ s,
  set_os (os_locks s) (os_home s) (List.filter (λ h, negb (h =? ns)) (os_handles s)) (os_sockets s) (os_named s) s).
(** [NewNamed]: the directory, the namespace, the file and the mount. *)
Definition netns_NewNamed : T (option Z) :=
  if negb (env_MkdirAll env) then mret None
  else
    r ← netns_New;
    match r with
    | None => mret None
    | Some ns =>
      if negb (env_OpenFile env) then ns_Close ns ≫= λ _, mret None
      else if negb (env_Mount env) then ns_Close ns ≫= λ _, mret None
      else
        modify (λ s, set_os (os_locks s) (os_home s) (os_handles s) (os_sockets s) true s) ≫= λ _, mret (Some ns)
    end.
Definition DeleteNamed : T bool :=
  unmounted ← releasing (env_Unmount env) (λ s,
    set_os (os_locks s) (os_home s) (os_handles s) (os_sockets s) false s);
  if (unmounted : bool) then mret (env_Remove env) else mret false.
Definition CloseLasting : T bool := releasing (env_CloseLasting env) (λ s,
  set_os (os_locks s) (os_home s) (os_handles s) (os_sockets s - 1) (os_named s) s).
Definition nftables_New : T bool :=
  if env_nftables_New env then
    modify (λ s, set_os (os_locks s) (os_home s) (os_handles s) (os_sockets s + 1) (os_named s) s) ≫= λ _, mret true
  else mret false.

(** [defer d()] ahead of [m]: [d] runs however [m] ends. *)
Definition deferring {A} (d : T unit) (m : T A) : T A := λ s, let '(r, s1) := m s in (r, (d s1).2).

(** The deferred function; a release that fails is only logged. *)
Definition cleanupAfterFailure : T unit :=
  s ← get;
  if negb (sc_cleanupOnFailure s) then mret tt
  else
    (if sc_conn s then CloseLasting else mret true) ≫= λ _,
    (if ns_IsOpen (sc_ns s) then ns_Close (sc_ns s) else mret true) ≫= λ _,
    (if sc_namedNamespace s then DeleteNamed else mret true) ≫= λ _,
    UnlockOSThread.

(** [ListTablesOfFamily] *)
Definition checkNftablesLiveness : bool := env_ListTables env.

Definition assign_ns (ns : Z) : T unit :=
  modify (λ s, set_vars (sc_conn s) ns (sc_cleanupOnFailure s) (sc_namedNamespace s) s).

Definition OpenSystemConn_body (debug : bool) : T Z :=
  (if debug then
     r ← netns_GetFromName;
     match r with
     | Some ns => assign_ns ns
     | None =>
       r ← netns_NewNamed;
       match r with
       | Some ns => modify (set_vars false ns true true)
       | None => assign_ns (-1) ≫= λ _, FailNow
       end
     end
   else
     r ← netns_New;
     match r with Some ns => assign_ns ns | None => assign_ns (-1) ≫= λ _, FailNow end) ≫= λ _,
  ok ← nftables_New;
  if (ok : bool) then
    modify (λ s, set_vars true (sc_ns s) (sc_cleanupOnFailure s) (sc_namedNamespace s) s) ≫= λ _,
    (if checkNftablesLiveness then mret tt else failOrSkipUnavailable) ≫= λ _,
    modify (λ s, set_vars (sc_conn s) (sc_ns s) false (sc_namedNamespace s) s) ≫= λ _,
    s ← get; mret (sc_ns s)
  else failOrSkipUnavailable.

Definition OpenSystemConn (enableSysTests debug : bool) : T Z :=
  (if negb enableSysTests then SkipNow else mret tt) ≫= λ _,
  LockOSThread ≫= λ _,
  modify (set_vars false (-1) true false) ≫= λ _,
  deferring cleanupAfterFailure (OpenSystemConn_body debug).

Definition CleanupSystemConn (newNS : Z) : T unit :=
  deferring UnlockOSThread (ok ← ns_Close newNS; if (ok : bool) then mret tt else FailNow).

(** *** What is held when they return *)

(** Every release succeeds and the handles are those of open files. *)
Record orderly (s : TestState) : Prop := {
  ord_Close : env_Close env = true;
  ord_Unmount : env_Unmount env = true;
  ord_CloseLasting : env_CloseLasting env = true;
  ord_fresh fd : Some fd ∈ [env_GetFromName env; env_Get env] → 0 ≤ fd ∧ fd ∉ os_handles s;
  ord_named : env_GetFromName env = None → os_named s = false }.

Lemma filter_absent h l : h ∉ l → List.filter (λ x, negb (x =? h)) l = l.
Proof.
  induction l as [|x l IH]; cbn; [done|]. rewrite not_elem_of_cons. intros [Hx Hl].
  destruct (Z.eqb_spec x h); [congruence|]. cbn. by rewrite IH.
Qed.

(** The resources [s'] holds beyond those of [s]. *)
Definition holds (locks sockets : Z) (handles : list Z) (named : bool) (s s' : TestState) : Prop :=
  os_locks s' = os_locks s + locks ∧ os_sockets s' = os_sockets s + sockets ∧
  os_handles s' = handles ++ os_handles s ∧ os_named s' = named || os_named s.

Ltac open_cases :=
  destruct (env_nftables_New env); [destruct (env_ListTables env)|]; destruct shouldSkipUnavailable;
  unfold opened, assign_ns, FailNow, SkipNow, LockOSThread, UnlockOSThread, ns_IsOpen, mbind, ST_bind, mret, ST_ret,
    get, modify, throw; cbn;
  repeat match goal with Hm : (_ =? -1) = false |- _ => rewrite Hm; clear Hm end; cbn; unfold holds; cbn;
  rewrite ?Z.eqb_refl; cbn; rewrite ?filter_absent by done;
  repeat first [lia | done | by left | by right | by exists false | by exists true
               | match goal with Hn : None = None → os_named _ = false |- _ => by rewrite Hn end | apply conj].

(** C37: [OpenSystemConn] either returns a connection, with the thread locked,
    one socket and one handle open; or it stops the test, failed or skipped,
    and has released all it acquired: the lock, the socket, the handle and a
    named namespace it made. A reused named namespace is left alone. *)
Theorem OpenSystemConn_releases enable debug s :
  orderly s →
  match OpenSystemConn enable debug s with
  | (Ok ns, s') => t_failed s' = t_failed s ∧ t_skipped s' = t_skipped s ∧
                   ∃ named, holds 1 1 [ns] named s s' ∧ (named = true → debug = true)
  | (Err _, s') => (t_failed s' = true ∨ t_skipped s' = true) ∧ holds 0 0 [] false s s'
  end.
Proof.
  intros [Hc Hd Hl Hf Hn]. unfold OpenSystemConn. destruct enable; cbn [negb].
  2:{ cbn. split; [by right|]. unfold holds. cbn. by rewrite !Z.add_0_r. }
  unfold OpenSystemConn_body, deferring, cleanupAfterFailure, netns_GetFromName, netns_NewNamed, netns_New,
    nftables_New, checkNftablesLiveness, failOrSkipUnavailable, ns_Close, DeleteNamed, CloseLasting, releasing.
  rewrite Hc, Hd, Hl. destruct debug.
  - destruct (env_GetFromName env) as [fd|];
      [|destruct (env_MkdirAll env); [|by open_cases]; destruct (env_Unshare env); [|by open_cases];
        destruct (env_Get env) as [fd|]; [destruct (env_OpenFile env), (env_Mount env)|]].
    all: try (destruct (Hf fd ltac:(set_solver)) as [Hpos Hfresh]; assert ((fd =? -1) = false) as Hm by (apply Z.eqb_neq; lia)).
    all: open_cases.
  - destruct (env_Unshare env); [|by open_cases]. destruct (env_Get env) as [fd|].
    all: try (destruct (Hf fd ltac:(set_solver)) as [Hpos Hfresh]; assert ((fd =? -1) = false) as Hm by (apply Z.eqb_neq; lia)).
    all: open_cases.
Qed.

(** neither way out of a test gives the thread its namespace back: after a
    failed setup, and after the cleanup of a successful one, the thread is
    unlocked, and free for other goroutines, in the namespace of the test. *)
Theorem thread_left_in_namespace s fd :
  orderly s → env_Unshare env = true → env_Get env = Some fd → os_locks s = 0 →
  match OpenSystemConn true false s with
  | (Ok ns, s') => let s'' := (CleanupSystemConn ns s').2 in os_locks s'' = 0 ∧ os_home s'' = false
  | (Err _, s') => os_locks s' = 0 ∧ os_home s' = false
  end.
Proof.
  intros [Hc Hd Hl Hf Hn] Hun Hnew H0. destruct (Hf fd) as [Hpos _]; [rewrite Hnew; set_solver|].
  assert ((fd =? -1) = false) as Hm by (apply Z.eqb_neq; lia).
  unfold OpenSystemConn, OpenSystemConn_body, CleanupSystemConn, deferring, cleanupAfterFailure, netns_New,
    nftables_New, checkNftablesLiveness, failOrSkipUnavailable, ns_Close, DeleteNamed, CloseLasting, releasing.
  rewrite Hc, Hd, Hl, Hun, Hnew. open_cases.
Qed.
End system_conn.

(** *** Concrete runs *)

(** A byte that differs, and a payload that another one continues. *)
Lemma linediff_flags_witness :
  (∃ before line after, linediff (nfdump [1; 2; 3; 4; 5]) (nfdump [1; 2; 3; 4; 6]) = before ++ str "! " ++ line ++ after) ∧
  (∃ before line after, linediff (nfdump [1; 2; 3; 4]) (nfdump [1; 2; 3; 4; 6]) = before ++ str "! " ++ line ++ after).
Proof.
  split; apply linediff_flags; try (repeat constructor; unfold is_byte; lia); discriminate.
Defined.

(** A connection that buffers messages and sends them all at once. *)
Definition bufferedTest : TestConn := {|
  TConn := list Message;
  nftables_NewTest := Ok [];
  FlushRuleset c := c ++ [mkMessage (mkHeader 20 0xa02 5 0 0) [0; 0; 0; 0]];
  TFlush dial c s := (Ok tt, (dial c s).2) |}.

(** The test of an empty ruleset passes, also when it expects more than is
    sent; it fails when the ruleset differs. *)
Example MatchRulesetBytes_runs `{Arch} :
  @MatchRulesetBytes _ bufferedTest pair [[0; 0; 0; 0]] = [] ∧
  @MatchRulesetBytes _ bufferedTest pair [[0; 0; 0; 0]; [1; 2; 3; 4]] = [] ∧
  @MatchRulesetBytes _ bufferedTest pair [] ≠ [].
Proof. destruct H; vm_compute; split_and!; congruence. Qed.

Definition idle_test : TestState := mkTestState false false 0 true [] 0 false false (-1) false false.
Definition no_nftables : TestEnv := mkTestEnv None true (Some 7) true true true true false true true true true (str "1").

Lemma no_nftables_orderly : orderly no_nftables idle_test.
Proof.
  split; try reflexivity. intros fd. cbn. rewrite !elem_of_cons. intros [E|[E|E]]; try discriminate.
  all: try (injection E as ->; split; [lia|apply not_elem_of_nil]). by apply elem_of_nil in E.
Defined.

(** Without nf_tables the test is skipped and all is released, in a new named
    namespace too. *)
Lemma OpenSystemConn_releases_witness :
  let '(r, s) := OpenSystemConn no_nftables true true idle_test in
  r = Err Goexit ∧ t_skipped s = true ∧ os_locks s = 0 ∧ os_handles s = [] ∧ os_sockets s = 0 ∧ os_named s = false.
Proof.
  pose proof (OpenSystemConn_releases no_nftables true true idle_test no_nftables_orderly) as Hr.
  destruct (OpenSystemConn no_nftables true true idle_test) as [r s] eqn:E.
  assert (r = Err Goexit ∧ t_skipped s = true) as [-> Hs] by (vm_compute in E; injection E as <- <-; split; reflexivity).
  destruct Hr as (_ & Hl & Hk & Hh & Hn). repeat split; assumption.
Defined.

Lemma thread_left_in_namespace_witness :
  let s := (OpenSystemConn no_nftables true false idle_test).2 in os_locks s = 0 ∧ os_home s = false.
Proof.
  pose proof (thread_left_in_namespace no_nftables idle_test 7 no_nftables_orderly eq_refl eq_refl eq_refl) as Hr.
  destruct (OpenSystemConn no_nftables true false idle_test) as [r s] eqn:E.
  assert (r = Err Goexit) as -> by (vm_compute in E; injection E as <- <-; reflexivity).
  exact Hr.
Defined.
