(* ===== verification/Witnesses.v ===== *)
(** * The properties on concrete inputs

    Each property with hypotheses, applied to the instances and the cluster
    of Demo.v, and a run of the daemon on them. *)

From S2P Require Import Prelude GoStd Names Nft Netip Api Elements Conn RefKernel NfTables State Legacy Rules Cleanup Server VM Fresh Semantics Verdict Meaning Crd RefVM Demo Typing Settled Lockstep Idle Written Placement Common Repair Converge Twice Enforce.

(** ** A first and a second sync *)

Definition noTable : Table := mkTable [] 0.
Definition tf : Table := mkTable FilterTableName TableFamilyINet.
Definition tn : Table := mkTable NatTableName TableFamilyINet.

Definition demo_sync (k : RK) : result unit * nftState RK :=
  ApplyPolicyRulesForPodAndFamily demo_deps demo_cfg [demo_policy] web (demo_info web "10.0.0.1")
    (newState (newConn k) noTable noTable).
Definition kernelAfter (k : RK) : RK := kern (nft (demo_sync k).2).
Definition k1 : RK := Eval vm_compute in kernelAfter emptyRK.
Definition k2 : RK := Eval vm_compute in kernelAfter k1.

(** The base chain [input] after the first and after the second sync. *)
Example demo_first_two :
  is_ok (demo_sync emptyRK).1 = true ∧ is_ok (demo_sync k1).1 = true ∧
  rulesAt k1 tf "input" = Ok [] ∧
  length (match rulesAt k2 tf "input" with Ok l => l | _ => [] end) = 1%nat.
Proof. vm_compute. done. Qed.

(** The third sync finds everything in place and sends nothing. *)
Example third_sync_idle : (demo_sync k2).1 = Ok tt ∧ sent (nft (demo_sync k2).2) = [].
Proof. vm_compute. done. Qed.

(** ** State *)

Definition demo_state (k : RK) : nftState RK := newState (newConn k) tf tn.
Definition demo_drop : Rule :=
  newRule tf (regularChain ingressChain tf) (userDataComment "drop-remaining") [counter; verdict expr.VerdictDrop].
Definition the_key (r : Rule) : gostring := match hash_rule r with Ok k => k | Err _ => [] end.
Definition the_rules (k : RK) (t : Table) (c : gostring) : list Rule :=
  match rulesAt k t c with Ok l => l | Err _ => [] end.

Lemma updateRule_spec_witness :
  length (messages (nft (updateRule demo_drop (writeRule MNewRule) true (demo_state k2)).2)) = 2%nat.
Proof.
  rewrite (updateRule_spec demo_drop MNewRule true (demo_state k2) (the_rules k2 tf ingressChain) (the_key demo_drop)
    (RK_quiet _)); vm_compute; reflexivity.
Defined.

Lemma addChain_total_witness :
  ∃ c n', addChain (regularChain ingressChain tf) (demo_state k2) = (Ok c, n') ∧ len (Chain_Name c) ≤ 31.
Proof.
  destruct (addChain_total (regularChain ingressChain tf) (demo_state k2) (RK_quiet _))
    as (c & n' & Hr & _ & _ & _ & Hl & _). exists c, n'. split; [exact Hr|exact Hl].
Defined.

Lemma the_rules_ok (k : RK) t c : rulesAt k t c = Ok (the_rules k t c).
Proof. reflexivity. Qed.

(** The pod gets a second interface. *)
Definition demo_els : list SetElement :=
  interfaceElements [demo_iface "ns1/net1" "net1" "10.0.0.1"; demo_iface "ns1/net2" "net2" "10.0.0.3"].
Definition demo_set : NftSet := interfaceSet tf "Pod interfaces".

Lemma updateSet_existing_witness :
  length (messages (nft (updateSet demo_set demo_els (demo_state k2)).2)) = 1%nat.
Proof.
  rewrite (updateSet_existing demo_set demo_els (demo_state k2)
    (match (k_GetSetByName tf podInterfacesName k2).1 with Ok s => s | Err _ => demo_set end)
    (take 1 demo_els) (RK_quiet _)); vm_compute; reflexivity.
Defined.

(** ** Cleanup *)

Definition demo_chains : list Chain := List.filter (λ c, Table_Family (Chain_Table c) =? TableFamilyINet) (rk_chains k2).

Lemma cleanupRules_exact_witness :
  sent (nft (cleanupRules tf (demo_state k2)).2) =
  [stale_rules (demo_state k2) tf (the_rules k2 tf) demo_chains
   ++ unused_sets (demo_state k2) (in_table tf <$> List.filter (λ s, bool_decide (Set_Table s = tf)) (rk_sets k2).*1)].
Proof.
  rewrite (cleanupRules_exact (demo_state k2) tf demo_chains (the_rules k2 tf)
    (List.filter (λ s, bool_decide (Set_Table s = tf)) (rk_sets k2).*1) (RK_quiet _)).
  - vm_compute. reflexivity.
  - reflexivity.
  - reflexivity.
  - reflexivity.
  - intros c _ _. apply the_rules_ok.
  - reflexivity.
Defined.

Lemma cleanupChains_exact_witness :
  sent (nft (cleanupChains (demo_state k2)).2) = [] ∧
  List.filter (dead_chain (demo_state k2) (λ c, the_rules k2 (Chain_Table c) (Chain_Name c))) demo_chains = [].
Proof.
  rewrite (cleanupChains_exact (demo_state k2) demo_chains (λ c, the_rules k2 (Chain_Table c) (Chain_Name c)) (RK_quiet _)).
  - vm_compute. split; reflexivity.
  - reflexivity.
  - reflexivity.
  - reflexivity.
  - intros c _. apply the_rules_ok.
Defined.

Lemma remembered_rule_not_stale_witness :
  stale (set_maps {[ the_key demo_drop := demo_drop ]} ∅ ∅ (demo_state k2)) (set_Rule_ID 7 demo_drop) = false.
Proof.
  apply (remembered_rule_not_stale (set_maps {[ the_key demo_drop := demo_drop ]} ∅ ∅ (demo_state k2))
    demo_drop (set_Rule_ID 7 demo_drop) (the_key demo_drop)); try (vm_compute; reflexivity).
  exists demo_drop. vm_compute. reflexivity.
Defined.

(** ** Server *)

Lemma ApplyPolicyRules_own_tables_witness :
  let n' := (demo_sync emptyRK).2 in
  Forall sync_msg (concat (sent (nft n')) ++ messages (nft n')) ∧ length (concat (sent (nft n'))) = 63%nat.
Proof.
  split.
  - apply (ApplyPolicyRules_own_tables demo_deps demo_cfg [demo_policy] web (demo_info web "10.0.0.1")
      (newState (newConn emptyRK) noTable noTable)); reflexivity.
  - vm_compute. reflexivity.
Defined.

Lemma RK_listsNoIDs : listsNoIDs RK.
Proof. intros t name k s k'. simpl. destruct (List.find _ _); by intros [= <- <-]. Qed.

Lemma demo_plain pod ip x : plainAddr ip x → plainPod (demo_info pod ip).
Proof. intros Hp i a [->|[]%elem_of_nil]%elem_of_cons [->|[]%elem_of_nil]%elem_of_cons _. by exists x. Qed.

Lemma demo_total : gob_total.
Proof.
  intros r. unfold hash_rule, newRuleData.
  assert (∀ es, is_ok (hash_exprs es) = true) as He.
  { intros es. induction es as [|e es IH]; cbn; [done|]. destruct (hashed_expr e); [|done]. cbn.
    by destruct (hash_exprs es). }
  specialize (He (Rule_Exprs r)). by destruct (hash_exprs (Rule_Exprs r)).
Qed.

(** Go's maps iterated the other way round. *)
Definition reversed_order : MapOrder.
Proof. refine {| range_keys _ _ _ X := reverse (elements X) |}. intros. by rewrite reverse_Permutation. Defined.

Lemma demo_deps_plain p info : GetPodInfo demo_deps p = Ok info → plainPod info.
Proof.
  intros [= <-]. case_bool_decide.
  - eapply demo_plain. split; [vm_compute; reflexivity|done].
  - eapply demo_plain. split; [vm_compute; reflexivity|done].
Qed.

(** What the first two syncs left is what a sync of an empty namespace writes;
    what the first left alone is not. *)
Abbreviation demo_wanted :=
  (wanted demo_order demo_deps demo_cfg web (demo_info web "10.0.0.1") [demo_policy]).
Example settled_after_two : settledb k1 demo_wanted = false ∧ settledb k2 demo_wanted = true.
Proof. vm_compute. done. Qed.

Lemma settled_sync_idle_witness :
  ∃ n', @ApplyPolicyRulesForPodAndFamily RK _ _ _ _ reversed_order demo_deps demo_cfg [demo_policy] web
          (demo_info web "10.0.0.1") (startState (newConn k2)) = (Ok tt, n') ∧
        nft n' = newConn k2.
Proof.
  apply (settled_sync_idle k2 demo_total demo_order reversed_order demo_deps demo_cfg web
    (demo_info web "10.0.0.1")) with (ps1 := [demo_policy]).
  - eapply demo_plain. split; [vm_compute; reflexivity|done].
  - apply demo_deps_plain.
  - done.
  - apply NoDup_singleton.
  - reflexivity.
  - vm_compute. reflexivity.
  - apply settledb_sound; [apply RK_quiet|vm_compute; reflexivity|vm_compute; reflexivity].
Defined.

(** [k2] after somebody emptied every chain and made a table of his own. *)
Definition foreignTable : Table := inetTable "foreign".
Definition foreignChain : Chain := regularChain "mine" foreignTable.
Definition k2_lost : RK :=
  mkRK (foreignTable :: rk_tables k2) (foreignChain :: rk_chains k2)
    [mkRule foreignTable foreignChain 7 0 [counter] []] (rk_sets k2) (rk_next k2).

Lemma demo_tidy : tidy demo_wanted.
Proof. apply tidyb_sound. vm_compute. reflexivity. Qed.
Lemma demo_info_plain : plainPod (demo_info web "10.0.0.1").
Proof. eapply demo_plain. split; [vm_compute; reflexivity|done]. Qed.

Lemma demo_interfaces : PI_Interfaces (demo_info web "10.0.0.1") ≠ [].
Proof. done. Qed.
Lemma demo_generated :
  (@generate RK _ _ _ _ demo_order demo_deps demo_cfg [demo_policy] web (demo_info web "10.0.0.1")
    (startState (newConn emptyRK))).1 = Ok tt.
Proof. vm_compute. reflexivity. Qed.

Abbreviation demo_run o k :=
  (@ApplyPolicyRulesForPodAndFamily RK _ _ _ _ o demo_deps demo_cfg [demo_policy] web (demo_info web "10.0.0.1")
    (startState (newConn k))).
Lemma lost_rules_restored_witness :
  settledb k2_lost demo_wanted = false ∧
  settled (kern (nft (demo_run reversed_order k2_lost).2)) demo_wanted.
Proof.
  split; [vm_compute; reflexivity|].
  destruct (lost_rules_restored (K:=RK) demo_total demo_deps demo_cfg web (demo_info web "10.0.0.1") demo_info_plain
    demo_deps_plain demo_interfaces [demo_policy] demo_order (NoDup_singleton _) demo_generated demo_tidy
    reversed_order [demo_policy] k2_lost (Permutation_refl _)) as (r & n & E & Hr).
  - apply partialb_sound. vm_compute. reflexivity.
  - apply allSetsb_sound. vm_compute. reflexivity.
  - assert (is_ok (demo_run reversed_order k2_lost).1 = true) as Hok by (vm_compute; reflexivity).
    rewrite E in Hok |- *. destruct Hr as [[_ Hs]|[Hr _]]; [exact Hs|]. cbn in Hok. congruence.
Defined.

(** Syncs of [k2_lost] after its sets were lost too. *)
Definition k2_chains : RK := mkRK (rk_tables k2_lost) (rk_chains k2_lost) (rk_rules k2_lost) [] (rk_next k2).
Abbreviation k2_once := (kern (nft (demo_run reversed_order k2_chains).2)).
Abbreviation k2_twice := (kern (nft (demo_run demo_order k2_once).2)).

Lemma syncs_converge_witness :
  settled k2_twice demo_wanted ∧
  ∃ n3, demo_run reversed_order k2_twice = (Ok tt, n3) ∧ nft n3 = newConn k2_twice.
Proof.
  destruct (syncs_converge (K:=RK) demo_total demo_deps demo_cfg web (demo_info web "10.0.0.1") demo_info_plain
    demo_deps_plain demo_interfaces [demo_policy] demo_order (NoDup_singleton _) demo_generated demo_tidy
    k2_chains k2_chains) as [_ Htwo].
  - apply partialb_sound. vm_compute. reflexivity.
  - apply rtc_refl.
  - destruct (Htwo reversed_order demo_order [demo_policy] [demo_policy] (demo_run reversed_order k2_chains).2
      (demo_run demo_order k2_once).2 k2_once (Permutation_refl _) (Permutation_refl _)) as [Hs Hidle].
    + apply surjective_pairing_ok. vm_compute. reflexivity.
    + apply rtc_refl.
    + apply surjective_pairing_ok. vm_compute. reflexivity.
    + exact (conj Hs (Hidle reversed_order [demo_policy] (Permutation_refl _))).
Defined.

(** The deletions and additions of a sync from an empty namespace, typed. *)
Lemma sync_messages_typed_witness :
  let n' := (demo_sync emptyRK).2 in
  Forall typed_msg (concat (sent (nft n')) ++ messages (nft n')) ∧ length (concat (sent (nft n'))) = 63%nat.
Proof.
  split.
  - apply (sync_messages_typed RK_listsNoIDs demo_deps demo_cfg [demo_policy] web (demo_info web "10.0.0.1")
      (newState (newConn emptyRK) noTable noTable)).
    + apply (demo_plain _ _ (mkAddr false 167772161 [])). by split_and!.
    + intros pod pi [= <-]. case_bool_decide.
      * apply (demo_plain _ _ (mkAddr false 167772161 [])). by split_and!.
      * apply (demo_plain _ _ (mkAddr false 167772162 [])). by split_and!.
    + reflexivity.
    + reflexivity.
  - vm_compute. reflexivity.
Defined.

Definition other_policy : MultiNetworkPolicy :=
  mkPolicy "ns1" "zz" {[ PolicyNetworkAnnotation := str "net1, ns2/net2" ]} 1
    (mkSpec None (Some []) None []).

Lemma selectedPolicies_deterministic_witness :
  selectedPolicies ingressEnabled web (demo_info web "10.0.0.1") [other_policy; demo_policy] =
  selectedPolicies ingressEnabled web (demo_info web "10.0.0.1") [demo_policy; other_policy].
Proof.
  apply (selectedPolicies_deterministic ingressEnabled web (demo_info web "10.0.0.1")
    [other_policy; demo_policy] [demo_policy; other_policy]).
  - apply (bool_decide_unpack _). vm_compute. exact I.
  - apply perm_swap.
Defined.

(** ** Verdicts *)

Definition demo_policies : list internalPolicy :=
  selectedPolicies ingressEnabled web (demo_info web "10.0.0.1") [other_policy; demo_policy].
Definition demo_entry : nftState RK :=
  set_multiChains (Some (regularChain ingressChain tf)) None None None (demo_state emptyRK).

(** The policies are well formed. *)
Lemma singleton_disjoint (b : bool) r : disjoint_ranges (if b then [r] else []).
Proof. destruct b; intros [|i] [|j] ? ? ? ? ?; simplify_eq/=; done. Qed.

Lemma port_80_90 : validPorts [mkPort (Some ProtocolTCP) (Some (FromInt 80)) (Some 90)].
Proof.
  split; [constructor; [|constructor]; intros _; vm_compute; eauto|]. intros proto.
  pose proof (singleton_disjoint (6 =? proto) (80, 90)) as Hd. unfold rangesOf.
  cbn [omap list_omap]. change (protoNumber _) with 6. destruct (6 =? proto); exact Hd.
Qed.

Lemma demo_addr_cases peer nets a :
  peerAddr demo_deps (demo_info web "10.0.0.1") nets peer a → a = str "10.0.0.1" ∨ a = str "10.0.0.2".
Proof.
  intros (pods & pod & pinfo & i & j & _ & _ & _ & Hinfo & Hi & _ & Hj & _ & Ha).
  cbn in Hinfo. injection Hinfo as <-. apply list_elem_of_singleton in Hi as ->. apply list_elem_of_singleton in Hj as ->.
  destruct Ha as [Ha|Ha]; cbn in Ha; apply list_elem_of_singleton in Ha as ->; [by left|].
  case_bool_decide; [by left|by right].
Qed.
Lemma demo_addr peer nets a :
  peerAddr demo_deps (demo_info web "10.0.0.1") nets peer a → ∃ x, plainAddr a x.
Proof.
  intros [-> | ->]%demo_addr_cases.
  - exists (mkAddr false 0x0A000001 []). split_and!; [reflexivity|reflexivity|]. vm_compute. discriminate.
  - exists (mkAddr false 0x0A000002 []). split_and!; [reflexivity|reflexivity|]. vm_compute. discriminate.
Qed.

Lemma block_valid cidr ex p q :
  ParsePrefix cidr = Some p → ParsePrefix ex = Some q → validBlock (mkIPBlock cidr [ex]).
Proof.
  intros Hp Hq. split; [by exists p|]. exists [q]. cbn [Except mapM]. rewrite Hq. split; [done|].
  intros b. unfold family. cbn [List.filter]. pose proof (singleton_disjoint
    (Bool.eqb (Addr_is6 (Prefix_addr q)) b) (prefix_range q)) as Hd. by destruct (Bool.eqb _ b).
Qed.

Lemma demo_valid : Forall (validPolicy demo_deps (demo_info web "10.0.0.1") true) demo_policies.
Proof.
  change demo_policies with [mkInternal demo_policy [str "ns1/net1"];
    mkInternal other_policy [str "ns1/net1"; str "ns2/net2"]].
  constructor; [|constructor; [constructor|constructor]].
  constructor; [|constructor]. split; [exact port_80_90|].
  constructor; [|constructor; [|constructor]].
  - split; [left; eauto|]. split; [|split; [done|apply demo_addr]].
    eexists. split; [eexists; split; reflexivity|]. intros pod e _. unfold demo_deps; cbn. by case_match.
  - by eapply block_valid.
Qed.

(** The ruleset some messages make in an empty namespace. *)
Definition setsOf (ms : list msg) : list (NftSet * list SetElement) :=
  omap (λ m, match m with MNewSetElem s els => Some (s, els) | _ => None end) ms.
Definition rsOf (ms : list msg) : ruleset :=
  mkRuleset (chainOf ms) (λ nm k,
    match List.find (λ x, bool_decide (Set_Name x.1 = nm)) (setsOf ms) with
    | Some x => memb (Set_Interval x.1) x.2 k
    | None => false
    end).

Lemma rsOf_installed ms : NoDup ((λ x, Set_Name x.1) <$> setsOf ms) → installed (rsOf ms) ms.
Proof.
  intros Hnd. split; [|done]. intros s els Hin k.
  assert ((s, els) ∈ setsOf ms) as Hs by (apply list_elem_of_omap; by exists (MNewSetElem s els)).
  cbn. revert Hnd Hs. generalize (setsOf ms) as l. induction l as [|x l IH]; cbn; [by intros _ ?%not_elem_of_nil|].
  rewrite NoDup_cons, elem_of_cons. intros [Hx Hnd] [<-|Hin']; [by rewrite bool_decide_eq_true_2|].
  case_bool_decide as E; [|by apply IH]. destruct Hx. rewrite E. apply list_elem_of_fmap. by exists (s, els).
Qed.

(** A TCP segment over IPv4 of a new connection that arrives on an interface. *)
Definition tcpFrom (ifn : gostring) (src : bytes) (dport : Z) : packet :=
  mkPacket (λ k, match k with
                 | expr.MetaKeyNFPROTO => [NFPROTO_IPV4]
                 | expr.MetaKeyL4PROTO => [IPPROTO_TCP]
                 | _ => ifname ifn
                 end)
    (λ b off l, match b with
                | expr.PayloadBaseNetworkHeader => if (off =? 12) && (l =? 4) then Some src else None
                | _ => if (off =? 2) && (l =? 2) then Some (be_bytes 2 dport) else None
                end) [8; 0; 0; 0].
Definition tcpView (src : bytes) (dport : Z) : view := mkView false src IPPROTO_TCP (Some (be_bytes 2 dport)).

Lemma tcp_arrives ifn src dport :
  length (ifname ifn) = 16%nat → arrives true (tcpFrom ifn src dport) (tcpView src dport) (ifname ifn).
Proof. intros Hl. split; [|by split]. repeat split. Qed.

Lemma unmarked_0 : unmarked 0.
Proof. done. Qed.

Definition messagesOf (policies : list internalPolicy) : list msg :=
  messages (nft (applyDirection demo_deps (entryField true) (demo_info web "10.0.0.1") policies demo_entry).2).
Definition fate (policies : list internalPolicy) (src : bytes) (dport : Z) : chain_end → Prop :=
  let ms := messagesOf policies in
  vm_rules (rsOf ms) (tcpFrom "net1" src dport) (chainOf ms ingressChain) 0.

Lemma demo_covers : coversIface (demo_info web "10.0.0.1") (ifname "net1") (mkInternal demo_policy [str "ns1/net1"]).
Proof. eexists. split; [by left|]. split; [by left|reflexivity]. Qed.

Abbreviation demo_peer_says src dport :=
  (λ peer, says_of (peerExcludes (tcpView src dport) peer)
     (peerIncludes demo_deps (demo_info web "10.0.0.1") [str "ns1/net1"] (tcpView src dport) peer)).
Definition client_peer : MultiNetworkPolicyPeer := mkPeer (Some (Some (str "app", str "client"))) None None.
Definition block_peer : MultiNetworkPolicyPeer :=
  mkPeer None None (Some (mkIPBlock "192.168.0.0/16" [str "192.168.1.0/24"])).

Lemma client_included dport : demo_peer_says [10; 0; 0; 2] dport client_peer Matched.
Proof.
  split; [intros []|]. exists (str "10.0.0.2"), (mkAddr false 0x0A000002 []). split.
  - eexists _, client, _, (demo_iface "ns1/net1" "net1" "10.0.0.1"), (demo_iface "ns1/net1" "net1" "10.0.0.2").
    split; [eexists _; split; reflexivity|]. split; [by left|]. split; [eexists; by split|].
    split; [reflexivity|]. split; [by left|]. split; [reflexivity|]. split; [by left|]. split; [reflexivity|].
    right. by left.
  - split; [|done]. split; [reflexivity|]. split; [reflexivity|]. vm_compute. discriminate.
Qed.
Lemma block_denies dport : firstSays (demo_peer_says [192; 168; 1; 7] dport) [client_peer; block_peer] Denied.
Proof.
  apply first_next.
  - split; [by intros []|]. intros (a & x & Ha & (Hx & _) & _ & Hval).
    apply demo_addr_cases in Ha as [-> | ->]; vm_compute in Hx; injection Hx as <-; vm_compute in Hval; discriminate.
  - apply first_decides; [|done]. eexists _, (str "192.168.1.0/24"), _. split; [reflexivity|].
    split; [reflexivity|]. split; [by left|]. split; [reflexivity|]. split; reflexivity.
Qed.

Lemma tcpView_ws src dport :
  Forall is_byte src → length src = 4%nat → wellSized (tcpView src dport).
Proof.
  intros Hb Hl. split; [split; [done|]; cbn; by rewrite Hl|]. intros d [= <-].
  split; [|apply length_be_bytes]. apply Forall_reverse, le_bytes_is_byte.
Qed.

(** What the CRD says of a packet of [client] to port 85: the policy admits
    it, and no exception has its address. *)
Lemma demo_plainPolicies : Forall (plainPolicy true) demo_policies.
Proof.
  change demo_policies with [mkInternal demo_policy [str "ns1/net1"];
    mkInternal other_policy [str "ns1/net1"; str "ns2/net2"]].
  apply Forall_cons. split; [|apply Forall_singleton]; intros r Hr; cbn in Hr.
  - apply list_elem_of_singleton in Hr as ->. apply Forall_singleton. split; [left; by eexists|by eexists].
  - by apply elem_of_nil in Hr.
Qed.
Lemma client_denoted : denotes (str "10.0.0.2") (tcpView [10; 0; 0; 2] 85).
Proof.
  exists (mkAddr false 0x0A000002 []). split; [|done]. split; [reflexivity|]. split; [reflexivity|]. vm_compute. discriminate.
Qed.
Lemma client_matches : ruleMatches demo_deps (mkInternal demo_policy [str "ns1/net1"]) (tcpView [10; 0; 0; 2] 85)
  (mkPolicyRule [mkPort (Some ProtocolTCP) (Some (FromInt 80)) (Some 90)] [client_peer; block_peer]).
Proof.
  split.
  - right. eexists. split; [by left|]. exists 6, (80, 90), (be_bytes 2 85). repeat split; by vm_compute.
  - right. exists client_peer. split; [by left|]. exists client, (str "10.0.0.2"). split; [|split; [|exact client_denoted]].
    + eexists. split; [eexists; split; reflexivity|]. split; [by left|]. split; [|reflexivity]. eexists. by split.
    + eexists _, (demo_iface "ns1/net1" "net1" "10.0.0.2"). split; [reflexivity|]. split; [by left|]. split; [reflexivity|by left].
Qed.
Lemma demo_admits policies :
  mkInternal demo_policy [str "ns1/net1"] ∈ policies →
  crdAdmits demo_deps (demo_info web "10.0.0.1") true (tcpView [10; 0; 0; 2] 85) (ifname "net1") policies.
Proof. intros Hin. eexists _, _. split; [exact Hin|]. split; [exact demo_covers|]. split; [by left|exact client_matches]. Qed.
Lemma demo_not_excepted policies :
  policies ⊆ [mkInternal demo_policy [str "ns1/net1"]; mkInternal other_policy [str "ns1/net1"; str "ns2/net2"]] →
  ¬ excepted (demo_info web "10.0.0.1") true (tcpView [10; 0; 0; 2] 85) (ifname "net1") policies.
Proof.
  intros Hsub (q & r & peer & Hq & _ & Hr & Hp & Hx). apply Hsub in Hq.
  rewrite !elem_of_cons, elem_of_nil in Hq. destruct Hq as [->|[->|[]]]; cbn in Hr; [|by apply elem_of_nil in Hr].
  apply list_elem_of_singleton in Hr as ->. cbn in Hp. rewrite !elem_of_cons, elem_of_nil in Hp.
  destruct Hp as [->|[->|[]]]; [destruct Hx|]. destruct Hx as (p & c & pr & _ & _ & Hc & Hpr & _ & Hin). cbn in Hc.
  apply list_elem_of_singleton in Hc as ->. vm_compute in Hpr. injection Hpr as <-. vm_compute in Hin. discriminate.
Qed.
Lemma demo_not_matched (l : list internalPolicy) :
  ¬ firstSays (policySays demo_deps (demo_info web "10.0.0.1") true (tcpView [192; 168; 1; 7] 85) (ifname "net1"))
    (mkInternal demo_policy [str "ns1/net1"] :: l) Matched.
Proof.
  intros Hm. enough (Matched = Denied) by done. eapply verdict_det; [exact Hm|].
  apply first_decides; [|done]. left. split; [exact demo_covers|]. apply first_decides; [|done]. apply block_denies.
Qed.

(** The pod [client] may connect to port 85; an address of the [except] block
    is dropped. *)
Lemma networkpolicy_semantics_witness :
  (∃ m, fate demo_policies [10; 0; 0; 2] 85 (Falls m)) ∧ fate demo_policies [192; 168; 1; 7] 85 Dropped.
Proof.
  destruct (networkpolicy_semantics true demo_deps (demo_info web "10.0.0.1") demo_policies
    demo_entry (regularChain ingressChain tf) demo_total RK_fresh eq_refl eq_refl) as (n' & ms & Hr & Hm & Hv).
  - vm_compute. discriminate.
  - exact demo_valid.
  - exact demo_plainPolicies.
  - apply (bool_decide_unpack _). vm_compute. exact I.
  - apply (bool_decide_unpack _). vm_compute. exact I.
  - apply (bool_decide_unpack _). vm_compute. exact I.
  - assert (ms = messagesOf demo_policies) as -> by (unfold messagesOf; rewrite Hr; symmetry; exact Hm).
    assert (installed (rsOf (messagesOf demo_policies)) (messagesOf demo_policies)) as Hi
      by (apply rsOf_installed, (bool_decide_unpack _); vm_compute; exact I).
    refine (conj _ _).
    + destruct (Hv (rsOf (messagesOf demo_policies)) _ _ _ 0 Hi (tcp_arrives "net1" [10; 0; 0; 2] 85 eq_refl)
        (tcpView_ws [10; 0; 0; 2] 85 ltac:(by repeat constructor) eq_refl) unmarked_0) as (_ & Hpass & _).
      apply Hpass; [apply demo_admits; by left|by apply demo_not_excepted].
    + destruct (Hv (rsOf (messagesOf demo_policies)) _ _ _ 0 Hi (tcp_arrives "net1" [192; 168; 1; 7] 85 eq_refl)
        (tcpView_ws [192; 168; 1; 7] 85 ltac:(by repeat constructor) eq_refl) unmarked_0) as (_ & _ & _ & _ & Hdrop).
      apply Hdrop. apply demo_not_matched.
Defined.

(** ** The filter table of the pod after two syncs *)

Definition demo_web : PodInfo := demo_info web "10.0.0.1".
Lemma demo_selected : selected web demo_web [demo_policy] true = [mkInternal demo_policy [str "ns1/net1"]].
Proof. vm_compute. reflexivity. Qed.
Lemma demo_enforceable : enforceable demo_deps web demo_web [demo_policy] true.
Proof.
  split.
  - rewrite demo_selected. constructor; [|constructor]. exact (Forall_inv demo_valid).
  - rewrite demo_selected. constructor; [|constructor]. exact (Forall_inv demo_plainPolicies).
  - apply (bool_decide_unpack _). vm_compute. exact I.
  - rewrite demo_selected. apply (bool_decide_unpack _). vm_compute. exact I.
Qed.

(** What the input chain of [k2] does with a packet. *)
Definition rs2 : ruleset := rulesetOf k2.
Definition inputFate (ifn : gostring) (src : bytes) (dport : Z) : chain_end → Prop :=
  vm_rules rs2 (tcpFrom ifn src dport) (rs_chain rs2 "input") 0.

Lemma tcp_tracked ifn src dport : tracked (tcpFrom ifn src dport) 8.
Proof. split; [vm_compute; reflexivity|done]. Qed.
Lemma demo_prefixes : validPrefixes (prefixesOf demo_cfg true).
Proof. eexists. split; [vm_compute; reflexivity|]. intros b [|i] [|j] ? ? ? ? ?; destruct b; simplify_eq/=; done. Qed.
Lemma demo_not_common src dport :
  src = [10; 0; 0; 2] ∨ src = [192; 168; 1; 7] →
  ¬ commonAccepts demo_cfg true (tcpFrom "net1" src dport) (tcpView src dport) 8.
Proof.
  intros [-> | ->]; rewrite <-(common_means demo_cfg true _ _ 8 demo_prefixes) by (apply tcpView_ws; [by repeat constructor|reflexivity]);
    vm_compute; discriminate.
Qed.
Lemma demo_is_common dport :
  commonAccepts demo_cfg true (tcpFrom "net1" [172; 16; 0; 9] dport) (tcpView [172; 16; 0; 9] dport) 8.
Proof.
  apply (common_means demo_cfg true _ _ 8 demo_prefixes); [apply tcpView_ws; [by repeat constructor|reflexivity]|].
  vm_compute. reflexivity.
Qed.

(** The first and the second sync, as the state starts. *)
Definition demo_n1 : nftState RK := (demo_run demo_order emptyRK).2.
Definition demo_n2 : nftState RK := (demo_run demo_order (kern (nft demo_n1))).2.
Lemma demo_run1 : demo_run demo_order emptyRK = (Ok tt, demo_n1).
Proof. unfold demo_n1. apply surjective_pairing_ok. vm_compute. reflexivity. Qed.
Lemma demo_run2 : demo_run demo_order (kern (nft demo_n1)) = (Ok tt, demo_n2).
Proof. unfold demo_n2. apply surjective_pairing_ok. vm_compute. reflexivity. Qed.
Lemma demo_run_k2 : shown (kern (nft demo_n2)) = k2.
Proof. vm_compute. reflexivity. Qed.

Lemma demo_empty : shown emptyRK = emptyRK.
Proof. reflexivity. Qed.
Lemma demo_apart :
  rulesApart (K:=RK) demo_deps demo_cfg web demo_web [demo_policy] demo_order emptyRK demo_order [demo_policy].
Proof. apply rulesApartb_sound. vm_compute. reflexivity. Qed.


Lemma demo_setsAlike : setsAlike demo_wanted.
Proof. apply setsAlikeb_sound. vm_compute. reflexivity. Qed.
Lemma demo_namesApart : namesApart web demo_web [demo_policy].
Proof. apply (bool_decide_unpack _). vm_compute. exact I. Qed.
Lemma demo_podIface : podIface demo_web (ifname "net1").
Proof. eexists. split; [by left|reflexivity]. Qed.

