(* ===== verification/WitnessesNode.v ===== *)
(** * The node's properties at concrete inputs *)

From stdpp Require Import relations.
From S2P Require Import Prelude GoStd Text Names Nft Netip Api Elements PodInfo Cri Conn RefKernel State Legacy Rules Cleanup Server Events Reconciler Daemon Health Options Main Demo DemoNode.

(** ** Pod information *)

Lemma NewPodInfoFromPod_interfaces_witness :
  ∃ info, NewPodInfoFromPod pod_web None "node1" [str "macvlan"] (λ _, Ok (str "macvlan")) = Ok info ∧
    PI_Interfaces info ≡ₚ [mkIface "ns1/net1" "net1" "macvlan" [str "10.0.0.1"]].
Proof.
  eexists. split; [reflexivity|].
  destruct (NewPodInfoFromPod_interfaces pod_web None "node1" [str "macvlan"] (λ _, Ok (str "macvlan"))
    (mkPodInfo "web" "ns1" [] [mkNetStatus "ns1/net1" "net1" [str "10.0.0.1"]] "node1"
      [mkIface "ns1/net1" "net1" "macvlan" [str "10.0.0.1"]]) (NoDup_singleton _)) as (Hp & _); [reflexivity|].
  exact Hp.
Defined.

(** ** Events *)

(** The address of a pod of another node changes: this node hears nothing. *)
Definition remote_pod (ip : gostring) : Pod :=
  mkPod "peer" "ns1" ∅ {[ NetworkStatusAnnot := ip ]} "node2" false "Running" [].

Lemma remote_pod_events_ignored_witness :
  PodPredicate (UpdateEvent (OPod (remote_pod "10.0.0.2")) (OPod (remote_pod "10.0.0.3"))) = true ∧
  str "node1" ∉ SetupWithManager "node1" (UpdateEvent (OPod (remote_pod "10.0.0.2")) (OPod (remote_pod "10.0.0.3"))).
Proof.
  split; [reflexivity|]. apply (remote_pod_events_ignored "node1"). intros o Ho. cbn in Ho.
  apply elem_of_cons in Ho as [->|Ho]; [by eexists|]. apply elem_of_cons in Ho as [->|Ho]; [by eexists|].
  by apply elem_of_nil in Ho.
Defined.

(** ** The reconciler *)

#[local] Abbreviation C := demo_cluster.

(** One pod's container is gone: the other is synced all the same, and the
    reconcile reports it. With a null attachment in front, it is not. *)
Lemma Reconcile_syncs_every_pod_witness :
  (∃ es, (Reconcile (H9 := C [demo_policy] [pod_gone; pod_web]) demo_node "node1" demo_world).1 = Err (ErrJoin es) ∧
     length es = 1%nat) ∧
  fst <$> w_sent (Reconcile (H9 := C [demo_policy] [pod_gone; pod_web]) demo_node "node1" demo_world).2 = [7] ∧
  (∃ e w, Reconcile (H9 := C [demo_policy] [pod_null; pod_web]) demo_node "node1" demo_world = (Err e, w) ∧
     isPanic e = true ∧ w_sent w = []).
Proof.
  split_and!.
  - destruct (Reconcile_syncs_every_pod (H10 := C [demo_policy] [pod_gone; pod_web]) demo_node demo_world [demo_policy]
      [pod_gone; pod_web] eq_refl eq_refl) as (Hc & _ & _).
    change (str "node1") with (NodeName demo_node). rewrite Hc; [|vm_compute; repeat constructor].
    eexists. split; [vm_compute; reflexivity|reflexivity].
  - vm_compute. reflexivity.
  - destruct (Reconcile_syncs_every_pod (H10 := C [demo_policy] [pod_null; pod_web]) demo_node demo_world [demo_policy]
      [pod_null; pod_web] eq_refl eq_refl) as (_ & Hp & _).
    set (sync := syncPod (H10 := C [demo_policy] [pod_null; pod_web]) demo_node (buildPolicyMap [demo_policy])) in Hp.
    destruct (Hp [] pod_null [pod_web] (ErrWrap "get pod info for ns1/null" (ErrWrap "build pod info for ns1/null"
      (ErrPanic "nil pointer dereference"))) (sync pod_null demo_world).2) as (e & He & Hpan).
    + reflexivity.
    + apply Forall_nil_2.
    + assert ((sync pod_null demo_world).1 = Err (ErrWrap "get pod info for ns1/null" (ErrWrap "build pod info for ns1/null"
        (ErrPanic "nil pointer dereference")))) as <- by (vm_compute; reflexivity).
      apply surjective_pairing.
    + reflexivity.
    + exists e, (sync pod_null demo_world).2. split; [exact He|]. split; [exact Hpan|]. vm_compute. reflexivity.
Defined.

(** A reconcile, a cleanup cut off at once, another reconcile, the connection
    closed: something was written, and all of it is confined. *)
Definition demo_ops : list daemon_op :=
  [DoReconcile "node1"; DoCleanup (λ _, Some (ErrOther "context deadline exceeded")); DoReconcile "node1";
   DoCleanup (λ _, None); DoCloseCRI].

Lemma daemon_writes_confined_witness :
  length (w_sent (foldl (run_op (H10 := C [demo_policy] [pod_gone; pod_web]) demo_node) demo_world demo_ops)) = 3%nat ∧
  Forall (good_entry (H10 := C [demo_policy] [pod_gone; pod_web]) demo_node)
    (w_sent (foldl (run_op (H10 := C [demo_policy] [pod_gone; pod_web]) demo_node) demo_world demo_ops)).
Proof.
  split; [vm_compute; reflexivity|].
  apply (daemon_writes_confined (H10 := C [demo_policy] [pod_gone; pod_web]) demo_node demo_ops demo_world); [by split|reflexivity].
Defined.

(** The world after a sync of the pod. *)
Definition synced_world : World RK :=
  (Reconcile (H9 := C [demo_policy] [pod_web]) demo_node "node1" demo_world).2.

(** The cleanup after it: the pod whose container is gone is reported, the
    other loses its tables; cancelled in the second round, it stops there. *)
Lemma cleanupAllPods_every_pod_witness :
  (∃ es, (cleanupAllPods (H9 := C [] [pod_gone; pod_web]) demo_node (λ _, None) synced_world).1 = Err (ErrJoin es) ∧
     length es = 1%nat) ∧
  (match w_kernels (cleanupAllPods (H9 := C [] [pod_gone; pod_web]) demo_node (λ _, None) synced_world).2 !! 7 with
   | Some k => rk_tables k | None => [] end) = [] ∧
  (cleanupAllPods (H9 := C [] [pod_gone; pod_web]) demo_node
     (λ i, if (i =? 1)%nat then Some (ErrOther "deadline") else None) synced_world).1 =
    Err (ErrWrap "cleanup canceled" (ErrOther "deadline")).
Proof.
  assert (is_ok (R_criRuntimeClient demo_node synced_world).1 = true) as Hcri by (vm_compute; reflexivity).
  split_and!.
  - destruct (cleanupAllPods_every_pod (H10 := C [] [pod_gone; pod_web]) demo_node (λ _, None) synced_world
      [pod_gone; pod_web] eq_refl Hcri) as (Hall & _).
    rewrite Hall; [|done|vm_compute; repeat constructor].
    eexists. split; [vm_compute; reflexivity|reflexivity].
  - vm_compute. reflexivity.
  - destruct (cleanupAllPods_every_pod (H10 := C [] [pod_gone; pod_web]) demo_node
      (λ i, if (i =? 1)%nat then Some (ErrOther "deadline") else None) synced_world
      [pod_gone; pod_web] eq_refl Hcri) as (_ & Hcut).
    rewrite (Hcut 1%nat (ErrOther "deadline")); [cbn [fst]; reflexivity|cbn; lia|reflexivity| |].
    2:{ assert ((runAll (cleanPod demo_node) (take 1 [pod_gone; pod_web]) synced_world).1 =
          [ErrWrap "pod ns1/gone: resolve netns" (ErrWrap "cannot get containerStatus" (ErrOther "container not found"))]) as -> by (vm_compute; reflexivity).
        repeat constructor. }
    intros i Hi. assert (i = 0%nat) as -> by lia. reflexivity.
Defined.

(** The kernel of the pod after its sync: both tables go in one batch. *)
Definition synced_kernel : RK := default emptyRK (w_kernels synced_world !! 7).

Lemma flushBody_exact_witness :
  sent (flushBody (newConn synced_kernel)).2 =
    [[MDelTable (mkTable FilterTableName TableFamilyINet); MDelTable (mkTable NatTableName TableFamilyINet)]].
Proof.
  destruct (flushBody_exact synced_kernel) as [_ Hdel].
  - apply RK_quiet.
  - intros t e Ht. unfold managedTables in Ht.
    apply elem_of_cons in Ht as [->|Ht]; [intros He; vm_compute in He; discriminate He|].
    apply elem_of_cons in Ht as [->|Ht]; [intros He; vm_compute in He; discriminate He|]. apply elem_of_nil in Ht. destruct Ht.
  - vm_compute. reflexivity.
  - destruct Hdel as [_ ->]; [vm_compute; discriminate|]. vm_compute. reflexivity.
Defined.

(** ** Health *)

(** Everything syncs, a request is answered 200, then a signal arrives. *)
Definition ready_process : process :=
  mkProcess (mkServer true true true true) [NamespaceInformer; NetDefInformer; PolicyInformer] true false
    SyncerDone WatcherDone [(false, Answered StatusOK)].

Lemma ready_reachable : reachable ready_process.
Proof.
  unfold reachable, start_process, targets, ready_process.
  eapply rtc_l; [apply (step_informed PolicyInformer)|]. eapply rtc_l; [apply (step_informed NetDefInformer)|].
  eapply rtc_l; [apply (step_informed NamespaceInformer)|].
  do 3 (eapply rtc_l; [apply step_synced; set_solver|]; eapply rtc_l; [apply step_mark|]).
  eapply rtc_l; [apply step_sync_end|]. eapply rtc_l; [apply step_arrive|]. cbn.
  do 4 (eapply rtc_l; [by apply (step_request 0)|]; cbn).
  eapply rtc_l; [apply step_signal|]. eapply rtc_l; [by apply step_wake|]. eapply rtc_l; [apply step_watch|]. cbn.
  apply rtc_refl.
Qed.

Lemma readyz_sound_witness :
  (false, Answered StatusOK) ∈ requests ready_process ∧ AllSynced (flags ready_process) = true.
Proof.
  assert ((false, Answered StatusOK) ∈ requests ready_process) as Hin by by left.
  split; [exact Hin|]. destruct (readyz_sound ready_process false StatusOK ready_reachable Hin) as (_ & Hok & _).
  by apply Hok.
Defined.

Lemma Stop_terminates_witness :
  ∃ h0, HealthServer_Start (Ok tt) = Ok h0 ∧
    ((∃ h', life_step Program h0 h') ∨ (stop_at h0 = StopReturned ∧ serve_at h0 = ServeExited)).
Proof.
  eexists. split; [reflexivity|].
  destruct (Stop_terminates (Ok tt) _ eq_refl 0 _ (nsteps_O _ _)) as (_ & Hp & _). exact Hp.
Defined.

(** ** The process *)

Definition demo_options : Options :=
  mkOptions [] [] " Node1" "/host" Cri "/run/cri.sock" [str "macvlan"] 30 false false [] [] 8080 [] [] [].

Definition demo_env : MainEnv :=
  mkMainEnv (Ok tt) (λ _ _, Ok tt) (λ _, Ok tt) (λ _, Ok tt) (Ok tt) (Ok tt) (λ _, Ok tt) (Ok tt) (Ok tt)
    [str "node1"] (Ok tt) (Some (ErrOther "context canceled")) (λ _, None).

Definition demo_config : ReconcilerConfig :=
  mkReconcilerConfig [] [] "node1" "/host" "/run/cri.sock" [str "macvlan"] 30 (mkCommonCfg false false [] []).

Lemma process_writes_confined_witness :
  fst <$> w_sent (p_world (run (H10 := C [demo_policy] [pod_web]) demo_env demo_options (mkProc demo_world [])).2) = [7; 7] ∧
  Forall (good_entry (K:=RK) (H10 := C [demo_policy] [pod_web]) (reconcilerOf demo_config))
    (w_sent (p_world (run (H10 := C [demo_policy] [pod_web]) demo_env demo_options (mkProc demo_world [])).2)).
Proof.
  split; [vm_compute; reflexivity|].
  apply (process_writes_confined (H10 := C [demo_policy] [pod_web]) demo_env demo_options (mkProc demo_world []) demo_config);
    [|reflexivity]. vm_compute. reflexivity.
Defined.

(** The same options with a padded mask: accepted, and no sync works. *)
Definition padded_options : Options :=
  mkOptions [] [] " Node1" "/host" Cri "/run/cri.sock" [str "macvlan"] 30 false false
    "10.0.0.0/08, fe80::/10" [] 8080 [] [] [].

Lemma validated_prefixes_usable_witness :
  ∃ cfg, (BuildReconcilerConfig padded_options).1 = Ok cfg ∧
    AllowSrcPrefix (RC_CommonRuleConfig cfg) = [str "10.0.0.0/08"; str "fe80::/10"] ∧
    ∀ deps policies pod info (n : nftState RK),
      is_ok (ApplyPolicyRulesForPodAndFamily deps (RC_CommonRuleConfig cfg) policies pod info n).1 = false.
Proof.
  eexists. split; [vm_compute; reflexivity|]. split; [reflexivity|].
  apply (validated_prefixes_usable padded_options); [vm_compute; reflexivity|reflexivity..|].
  left. vm_compute. reflexivity.
Defined.

(** What that process does: health server, manager, cleanup, and everything
    released in the reverse order. *)
Example demo_process_acts :
  p_log (run (H10 := C [demo_policy] [pod_web]) demo_env demo_options (mkProc demo_world [])).2 =
    [HealthStarted ":8080"; WatcherSpawned; ManagerStarted; CleanupRun; CRIClosed; WatcherCancelled; WatcherWaited;
     HealthStopped].
Proof. vm_compute. reflexivity. Qed.
